(** * avatar-services: the job orchestration layer, embedded and verified

    The development follows the repository file by file:
    - [Hashlib]  : SHA-256 and its hexadecimal digest (Python's hashlib);
    - [PyFloat]  : Python floats by their exact rational value, with the
                   binary64 rounding and the fixed-point formatting used by
                   the code;
    - [Store]    : the Valkey/Redis commands the services issue;
    - [Valkey]   : src/api/valkey.py;
    - [Api]      : src/api/main.py and src/api/capture.py;
    - [Lipsync]  : src/worker/lipsync.py;
    - [Tts]      : src/worker/tts.py;
    - [Capture]  : src/worker/capture_processor.py;
    - [Worker]   : src/worker/worker.py;
    - [System]   : front-door requests and workers running interleaved.
    Definitions come first, the properties of the specification after.
    Further parts follow, each with its definitions and its properties:
    - [Landmarks], [Numpy] : src/worker/landmarks.py;
    - [LipsyncEyes], [Random], [Utf8] : the eye events of
                   src/worker/lipsync.py;
    - [ValkeyClient], [Main], [CaptureApi] : the rest of src/api;
    - [AnchorTimeline] : src/worker/anchor_timeline.py. *)

From Stdlib Require Import ZArith QArith Qround Qabs Qpower Ascii DecimalString
  Sorted Lia Lqa.
From stdpp Require Import gmap strings list.

Local Open Scope Z_scope.

(* ===================================================================== *)
(** * Python strings *)
(* ===================================================================== *)

(** A Python [str] is kept as the string of its UTF-8 bytes, which is what
    [str.encode()] hands to the hash function. *)

Module PyStr.

Definition bytes_of (s : string) : list Z :=
  map (fun c => Z.of_N (Ascii.N_of_ascii c)) (String.list_ascii_of_string s).

(** [s[:n]] *)
Definition take (n : nat) (s : string) : string := String.substring 0 n s.

(** [s.endswith(suffix)] *)
Definition endswith (s suffix : string) : bool :=
  let n := String.length s in
  let k := String.length suffix in
  (k <=? n)%nat && String.eqb (String.substring (n - k) k s) suffix.

(** [s.startswith(p)] *)
Definition startswith (s p : string) : bool := String.prefix p s.

(** [str(n)] for a Python int. *)
Definition of_Z (z : Z) : string :=
  match z with
  | Zneg p => "-" +:+ NilZero.string_of_uint (N.to_uint (Npos p))
  | _ => NilZero.string_of_uint (N.to_uint (Z.to_N z))
  end.

(** [c in s] for a one-character [c]. *)
Fixpoint contains (c : Ascii.ascii) (s : string) : bool :=
  match s with
  | EmptyString => false
  | String d r => Ascii.eqb c d || contains c r
  end.

(** [s[:s.rfind(c) + 1]]: everything up to and including the last [c]. *)
Fixpoint upto_last (c : Ascii.ascii) (s : string) : string :=
  match s with
  | EmptyString => EmptyString
  | String d r =>
      if Ascii.eqb c d || contains c r then String d (upto_last c r)
      else EmptyString
  end.

(** [s[s.rfind(c) + 1:]]: what follows the last [c] (all of [s] without one);
    this is [s.split(c)[-1]]. *)
Fixpoint after_last (c : Ascii.ascii) (s : string) : string :=
  match s with
  | EmptyString => EmptyString
  | String d r => if contains c r then after_last c r
                  else if Ascii.eqb c d then r else String d r
  end.

(** [s.replace(old, new)] for a non-empty [old], scanning left to right;
    [fuel] bounds the number of characters looked at. *)
Fixpoint replace_go (fuel : nat) (old new s : string) : string :=
  match fuel with
  | O => s
  | S fuel' =>
      match s with
      | EmptyString => EmptyString
      | String c r =>
          if String.prefix old s
          then new +:+ replace_go fuel' old new
                         (String.substring (String.length old)
                            (String.length s - String.length old) s)
          else String c (replace_go fuel' old new r)
      end
  end.

Definition replace (old new s : string) : string :=
  replace_go (String.length s) old new s.

(** [s.rstrip(c)] *)
Fixpoint rstrip (c : Ascii.ascii) (s : string) : string :=
  match s with
  | EmptyString => EmptyString
  | String d r =>
      match rstrip c r with
      | EmptyString => if Ascii.eqb c d then EmptyString else String d EmptyString
      | r' => String d r'
      end
  end.

End PyStr.

(** The two functions of [os.path] the services use, on POSIX paths. *)
Module OsPath.

(** [os.path.join(a, b)] *)
Definition join (a b : string) : string :=
  if PyStr.startswith b "/" then b
  else if String.eqb a EmptyString || PyStr.endswith a "/" then a +:+ b
  else a +:+ "/" +:+ b.

(** [os.path.dirname(p)] *)
Definition dirname (p : string) : string :=
  let head := PyStr.upto_last "/"%char p in
  match PyStr.rstrip "/"%char head with
  | EmptyString => head
  | stripped => stripped
  end.

End OsPath.

(* ===================================================================== *)
(** * hashlib.sha256 *)
(* ===================================================================== *)

Module Hashlib.

Definition w32 (x : Z) : Z := x mod 2 ^ 32.
Definition add32 (x y : Z) : Z := w32 (x + y).
Definition rotr (n x : Z) : Z :=
  Z.lor (Z.shiftr x n) (w32 (Z.shiftl x (32 - n))).
Definition not32 (x : Z) : Z := 2 ^ 32 - 1 - x.

Definition Ch (x y z : Z) : Z := Z.lxor (Z.land x y) (Z.land (not32 x) z).
Definition Maj (x y z : Z) : Z :=
  Z.lxor (Z.lxor (Z.land x y) (Z.land x z)) (Z.land y z).
Definition Sigma0 (x : Z) : Z := Z.lxor (Z.lxor (rotr 2 x) (rotr 13 x)) (rotr 22 x).
Definition Sigma1 (x : Z) : Z := Z.lxor (Z.lxor (rotr 6 x) (rotr 11 x)) (rotr 25 x).
Definition sigma0 (x : Z) : Z := Z.lxor (Z.lxor (rotr 7 x) (rotr 18 x)) (Z.shiftr x 3).
Definition sigma1 (x : Z) : Z := Z.lxor (Z.lxor (rotr 17 x) (rotr 19 x)) (Z.shiftr x 10).

(** The round constants and the initial state are the leading 32 bits of
    the fractional parts of the cube roots (square roots) of the first 64
    (8) primes; they are computed rather than tabulated. *)
Definition is_prime (n : nat) : bool :=
  (2 <=? n)%nat
  && forallb (fun d => negb (n mod d =? 0)%nat) (seq 2 (Nat.sqrt n - 1)).

Definition primes : list Z :=
  map Z.of_nat (List.filter is_prime (seq 2 310)).

(** Integer cube root by bisection on the bits below [2^bits]. *)
Fixpoint icbrt_go (bits : nat) (n r : Z) : Z :=
  match bits with
  | O => r
  | S b =>
      let r' := r + 2 ^ Z.of_nat b in
      icbrt_go b n (if r' * r' * r' <=? n then r' else r)
  end.

Definition icbrt (n : Z) : Z := icbrt_go 48 n 0.

Definition K : list Z := map (fun p => w32 (icbrt (p * 2 ^ 96))) primes.

Definition H0 : list Z :=
  map (fun p => w32 (Z.sqrt (p * 2 ^ 64))) (firstn 8 primes).

(** Big-endian bytes of [x], [n] of them. *)
Fixpoint be_bytes (n : nat) (x : Z) : list Z :=
  match n with
  | O => []
  | S n' => (x / 256 ^ Z.of_nat n') mod 256 :: be_bytes n' x
  end.

(** The message followed by the bit 1, zeros up to 56 modulo 64, and the
    length in bits on 8 bytes. *)
Definition pad (msg : list Z) : list Z :=
  let len := Z.of_nat (length msg) in
  let zeros := Z.to_nat ((55 - len) mod 64) in
  msg ++ 0x80 :: repeat 0 zeros ++ be_bytes 8 (8 * len).

Fixpoint words_of (n : nat) (bs : list Z) : list Z :=
  match n with
  | O => []
  | S n' =>
      match bs with
      | a :: b :: c :: d :: r =>
          (((a * 256 + b) * 256 + c) * 256 + d) :: words_of n' r
      | _ => []
      end
  end.

(** The message schedule, most recent word first: [acc] holds
    W(t-1), W(t-2), ... *)
Fixpoint schedule (n : nat) (acc : list Z) : list Z :=
  match n with
  | O => acc
  | S n' =>
      match acc with
      | w1 :: w2 :: _ :: _ :: _ :: _ :: w7 :: _ :: _ :: _ :: _ :: _ :: _ :: _ :: w15 :: w16 :: _ =>
          schedule n' (add32 (add32 (sigma1 w2) w7) (add32 (sigma0 w15) w16) :: acc)
      | _ => acc
      end
  end.

Definition round (st : list Z) (kw : Z * Z) : list Z :=
  match st with
  | [a; b; c; d; e; f; g; h] =>
      let t1 := add32 (add32 (add32 h (Sigma1 e)) (add32 (Ch e f g) (fst kw))) (snd kw) in
      let t2 := add32 (Sigma0 a) (Maj a b c) in
      [add32 t1 t2; a; b; c; add32 d t1; e; f; g]
  | _ => st
  end.

Definition compress (st block : list Z) : list Z :=
  let w := rev (schedule 48 (rev (words_of 16 block))) in
  let st' := fold_left round (combine K w) st in
  map (fun p => add32 (fst p) (snd p)) (combine st st').

Fixpoint blocks (n : nat) (st bs : list Z) : list Z :=
  match n with
  | O => st
  | S n' =>
      match bs with
      | [] => st
      | _ => blocks n' (compress st (firstn 64 bs)) (skipn 64 bs)
      end
  end.

Definition sha256 (msg : list Z) : list Z :=
  let p := pad msg in
  blocks (length p) H0 p.

Definition hex_digit (d : Z) : Ascii.ascii :=
  Ascii.ascii_of_N (Z.to_N (if d <? 10 then 48 + d else 87 + d)).

Fixpoint hex_of (n : nat) (x : Z) : string :=
  match n with
  | O => EmptyString
  | S n' => String (hex_digit ((x / 16 ^ Z.of_nat n') mod 16)) (hex_of n' x)
  end.

(** [hashlib.sha256(s.encode()).hexdigest()] *)
Definition sha256_hexdigest (s : string) : string :=
  fold_right (fun w acc => hex_of 8 w +:+ acc) EmptyString
             (sha256 (PyStr.bytes_of s)).

End Hashlib.

Example sha256_abc :
  Hashlib.sha256_hexdigest "abc"
  = "ba7816bf8f01cfea414140de5dae2223b00361a396177a9cb410ff61f20015ad".
Proof. vm_compute. reflexivity. Qed.

(* ===================================================================== *)
(** * Python floats *)
(* ===================================================================== *)

(** A finite Python float is represented by the rational number it denotes.
    The two places where the services print or round a float are below; the
    binary64 arithmetic used by the lip-sync weights comes with [Lipsync]. *)

Module PyFloat.

(** Nearest integer, ties to the even one. *)
Definition round_half_even (x : Q) : Z :=
  let q := Qfloor x in
  match (x - inject_Z q ?= 1 # 2)%Q with
  | Lt => q
  | Gt => q + 1
  | Eq => if Z.even q then q else q + 1
  end.

(** A float correctly rounded to two decimals: a sign and a number of
    hundredths.  The sign is that of the float, also when the magnitude
    rounds to zero (Python prints [-0.001] as [-0.00]). *)
Record dec2 := Dec2 { d_neg : bool; d_hundredths : Z }.

Definition round2 (x : Q) : dec2 :=
  {| d_neg := Qnum x <? 0;
     d_hundredths := round_half_even (Qabs x * 100) |}.

Definition two_digits (n : Z) : string :=
  PyStr.of_Z (n / 10) +:+ PyStr.of_Z (n mod 10).

Definition show_dec2 (d : dec2) : string :=
  (if d_neg d then "-" else EmptyString)
  +:+ PyStr.of_Z (d_hundredths d / 100) +:+ "."
  +:+ two_digits (d_hundredths d mod 100).

(** [f"{x:.2f}"] *)
Definition format_2f (x : Q) : string := show_dec2 (round2 x).

(** ** binary64 arithmetic *)

Definition pow2 (e : Z) : Q := (2 ^ e)%Q.

(** The integer [k] with [2^k <= a < 2^(k+1)], for [a > 0]. *)
Definition floor_log2 (a : Q) : Z :=
  let k := Z.log2 (Qnum a) - Z.log2 (Zpos (Qden a)) in
  if Qle_bool (pow2 k) a then k else k - 1.

(** The exponent of the unit in the last place of the binary64 numbers
    near [x]: 53 significant bits, subnormals from [2^-1074] on. *)
Definition ulp_exponent (x : Q) : Z :=
  Z.max (floor_log2 (Qabs x) - 52) (-1074).

(** Rounding to the nearest binary64 number, ties to even, with no bound
    on the exponent; a result of magnitude [2^1024] or more stands for an
    infinity. *)
Definition b64 (x : Q) : Q :=
  let e := ulp_exponent x in
  (inject_Z (round_half_even (x / pow2 e)) * pow2 e)%Q.

Definition is_inf (v : Q) : bool := Qle_bool (pow2 1024) (Qabs v).

(** [x * y], [x + y] on floats *)
Definition mul (x y : Q) : Q := b64 (x * y).
Definition add (x y : Q) : Q := b64 (x + y).

(** [min(a, b)]: the first argument unless the second is smaller. *)
Definition min (a b : Q) : Q := if Qle_bool a b then a else b.

(** [round(x, 2)]: the nearest float to [x] correctly rounded to two
    decimals. *)
Definition round_2 (x : Q) : Q :=
  b64 (inject_Z (round_half_even (x * 100)) / 100).

(** The integer part, towards zero. *)
Definition trunc (v : Q) : Z := Z.quot (Qnum v) (Zpos (Qden v)).

End PyFloat.

(* ===================================================================== *)
(** * Records exchanged through the store *)
(* ===================================================================== *)

Record MouthCue := mkMouthCue { t_ms : Z; viseme : string; weight : Q }.

Record EyeEvent := mkEyeEvent
  { e_t_ms : Z; event_type : string; e_duration_ms : Z;
    direction : option string }.

(** The values found in the JSON documents of the services. *)
Inductive jval :=
| JNull
| JBool (b : bool)
| JInt (z : Z)
| JFloat (q : Q)
| JStr (s : string)
| JStrs (l : list string)
| JCues (l : list MouthCue)
| JEyes (l : list EyeEvent).

(** A Python [dict] with string keys, as decoded from JSON. *)
Abbreviation dict := (gmap string jval).

(** Truth value of a dict: [if d:] holds for a non-empty one. *)
Definition dict_truthy (d : dict) : bool :=
  match map_to_list d with [] => false | _ => true end.

(** [if o:] for an optional dict: neither [None] nor empty. *)
Definition truthy (o : option dict) : option dict :=
  match o with
  | Some d => if dict_truthy d then Some d else None
  | None => None
  end.

(** [d.get(k)] compared with a string. *)
Definition get_is (d : dict) (k s : string) : bool :=
  match d !! k with
  | Some (JStr s') => String.eqb s' s
  | _ => false
  end.

(* ===================================================================== *)
(** * The shared store *)
(* ===================================================================== *)

(** The Valkey commands the services use.  String keys hold the JSON text
    of a dict; the model keeps the dict ([json.loads] after [json.dumps]).
    List keys hold job documents or raw tokens.  A list is written left to
    right: LPUSH adds at the head, RPUSH at the end, and BRPOP takes from
    the end.  Expiry is the passage of time, which the model leaves out: a
    key lives until it is overwritten. *)

Inductive item :=
| IJson (d : dict)
| IRaw (s : string).

Record Redis := mkRedis
  { kv : gmap string dict;
    lists : gmap string (list item) }.

Module Store.

Definition empty : Redis := {| kv := ∅; lists := ∅ |}.

Definition get (k : string) (r : Redis) : option dict := kv r !! k.

Definition setex (k : string) (v : dict) (r : Redis) : Redis :=
  {| kv := <[k := v]> (kv r); lists := lists r |}.

Definition lrange (k : string) (r : Redis) : list item :=
  default [] (lists r !! k).

Definition lpush (k : string) (x : item) (r : Redis) : Redis :=
  {| kv := kv r; lists := <[k := x :: lrange k r]> (lists r) |}.

Definition rpush (k : string) (x : item) (r : Redis) : Redis :=
  {| kv := kv r; lists := <[k := lrange k r ++ [x]]> (lists r) |}.

(** The last element of a list and what is before it. *)
Fixpoint unsnoc (l : list item) : option (list item * item) :=
  match l with
  | [] => None
  | x :: l' =>
      match unsnoc l' with
      | None => Some ([], x)
      | Some (front, y) => Some (x :: front, y)
      end
  end.

(** [BRPOP k1 k2 ... timeout]: the keys are tried in the order given; the
    first non-empty list loses its last element.  [None] is the timeout. *)
Fixpoint brpop (keys : list string) (r : Redis)
  : option (string * item) * Redis :=
  match keys with
  | [] => (None, r)
  | k :: ks =>
      match unsnoc (lrange k r) with
      | Some (front, x) =>
          (Some (k, x), {| kv := kv r; lists := <[k := front]> (lists r) |})
      | None => brpop ks r
      end
  end.

Definition llen (k : string) (r : Redis) : Z := Z.of_nat (length (lrange k r)).

End Store.

(* ===================================================================== *)
(** * Exceptions, state and effects *)
(* ===================================================================== *)

Inductive exn :=
| HTTPException (status_code : Z) (detail : string)
| KeyError (key : string)
| RuntimeError (msg : string)
| TimeoutExpired (cmd : string)
| ZeroDivisionError
| OverflowError
| FileNotFoundError (path : string)
| TypeError (msg : string)
| Exception (msg : string).

(** [str(e)] *)
Definition str_exn (e : exn) : string :=
  match e with
  | HTTPException _ d => d
  | KeyError k => "'" +:+ k +:+ "'"
  | RuntimeError m => m
  | TimeoutExpired c => "Command '" +:+ c +:+ "' timed out"
  | ZeroDivisionError => "float division by zero"
  | OverflowError => "cannot convert float infinity to integer"
  | FileNotFoundError p => "[Errno 2] No such file or directory: '" +:+ p +:+ "'"
  | TypeError m => m
  | Exception m => m
  end.

Inductive res (A : Type) :=
| Ok (a : A)
| Raise (e : exn).
Arguments Ok {A} a.
Arguments Raise {A} e.

(** What a process does to the outside, in order: the writes to the store
    and the external tools it runs. *)
Inductive event :=
| EvWrite (key : string) (v : dict)
| EvPush (key : string) (x : item)
| EvTool (name : string).

(** The state a worker acts on. *)
Record World := mkWorld { redis : Redis; trace : list event }.

(** Computations over a state [S] that return or raise. *)
Definition M (S A : Type) : Type := S -> res A * S.

Definition ret {S A} (a : A) : M S A := fun s => (Ok a, s).

Definition raise {S A} (e : exn) : M S A := fun s => (Raise e, s).

Definition bind {S A B} (c : M S A) (k : A -> M S B) : M S B :=
  fun s =>
    match c s with
    | (Ok a, s') => k a s'
    | (Raise e, s') => (Raise e, s')
    end.

Notation "x <- c ;; k" := (bind c (fun x => k))
  (at level 100, c at next level, right associativity).
Notation "c ;;; k" := (bind c (fun _ => k))
  (at level 100, right associativity).

(** [try: body  except Exception as e: handler e] *)
Definition try_except {S A} (body : M S A) (handler : exn -> M S A) : M S A :=
  fun s =>
    match body s with
    | (Ok a, s') => (Ok a, s')
    | (Raise e, s') => handler e s'
    end.

(** [try: body  finally: fin] *)
Definition try_finally {S A} (body : M S A) (fin : M S unit) : M S A :=
  fun s =>
    match body s with
    | (r, s') =>
        match fin s' with
        | (Ok _, s'') => (r, s'')
        | (Raise e, s'') => (Raise e, s'')
        end
    end.

(** [d[k]] *)
Definition getitem {S} (d : dict) (k : string) : M S jval :=
  match d !! k with
  | Some v => ret v
  | None => raise (KeyError k)
  end.

(** [d[k]] where the code goes on with a string.  The documents of the
    services hold strings there; another value is refused here, which is
    where the typed model parts from the untyped code. *)
Definition getstr {S} (d : dict) (k : string) : M S string :=
  v <- getitem d k ;;
  match v with
  | JStr s => ret s
  | _ => raise (TypeError ("expected str at " +:+ k))
  end.

(** [d.get(k, default)] where the code goes on with a string. *)
Definition getstr_default {S} (d : dict) (k default : string) : M S string :=
  match d !! k with
  | None => ret default
  | Some (JStr s) => ret s
  | Some _ => raise (TypeError ("expected str at " +:+ k))
  end.

(** [d.get(k, default)] where the code goes on with a number. *)
Definition getfloat_default {S} (d : dict) (k : string) (default : Q)
  : M S Q :=
  match d !! k with
  | None => ret default
  | Some (JFloat q) => ret q
  | Some (JInt z) => ret (inject_Z z)
  | Some _ => raise (TypeError ("expected float at " +:+ k))
  end.

(** The commands of the store as effects on the world; every write is
    recorded in the trace. *)
Module Cmd.

Definition get (k : string) : M World (option dict) :=
  fun w => (Ok (Store.get k (redis w)), w).

Definition setex (k : string) (v : dict) : M World unit :=
  fun w => (Ok tt, {| redis := Store.setex k v (redis w);
                      trace := trace w ++ [EvWrite k v] |}).

Definition lpush (k : string) (x : item) : M World unit :=
  fun w => (Ok tt, {| redis := Store.lpush k x (redis w);
                      trace := trace w ++ [EvPush k x] |}).

Definition rpush (k : string) (x : item) : M World unit :=
  fun w => (Ok tt, {| redis := Store.rpush k x (redis w);
                      trace := trace w ++ [EvPush k x] |}).

Definition brpop (keys : list string) : M World (option (string * item)) :=
  fun w => let (r, rd) := Store.brpop keys (redis w) in
           (Ok r, {| redis := rd; trace := trace w |}).

(** EXPIRE only arms a timer. *)
Definition expire (k : string) : M World unit := ret tt.

Definition llen (k : string) : M World Z :=
  fun w => (Ok (Store.llen k (redis w)), w).

(** Running an external tool leaves a mark in the trace. *)
Definition tool (name : string) : M World unit :=
  fun w => (Ok tt, {| redis := redis w; trace := trace w ++ [EvTool name] |}).

End Cmd.

(* ===================================================================== *)
(** * src/api/valkey.py *)
(* ===================================================================== *)

Module Valkey.

Definition JOB_QUEUE_KEY : string := "avatar:jobs".
Definition RESULT_KEY_PREFIX : string := "avatar:result:".
Definition CACHE_KEY_PREFIX : string := "avatar:cache:".

Definition generate_cache_key (voice_id : string) (speed : Q) (text : string)
  : string :=
  let content := voice_id +:+ ":" +:+ PyFloat.format_2f speed +:+ ":" +:+ text in
  let hash_digest := PyStr.take 16 (Hashlib.sha256_hexdigest content) in
  CACHE_KEY_PREFIX +:+ hash_digest.

(** [now_ns] is the reading of [time.time_ns()]. *)
Definition generate_render_id (voice_id : string) (speed : Q) (text : string)
  (now_ns : Z) : string :=
  let content := voice_id +:+ ":" +:+ PyFloat.format_2f speed +:+ ":" +:+ text
                 +:+ ":" +:+ PyStr.of_Z now_ns in
  PyStr.take 24 (Hashlib.sha256_hexdigest content).

Definition get_cached_result (cache_key : string) : M World (option dict) :=
  Cmd.get cache_key.

Definition set_cached_result (cache_key : string) (result : dict)
  : M World unit :=
  Cmd.setex cache_key result.

Definition enqueue_job (job_data : dict) : M World unit :=
  Cmd.lpush JOB_QUEUE_KEY (IJson job_data).

Definition result_key (render_id : string) : string :=
  RESULT_KEY_PREFIX +:+ render_id.

Definition notify_key (render_id : string) : string :=
  "avatar:notify:" +:+ render_id.

Definition set_result (render_id : string) (result : dict) : M World unit :=
  Cmd.setex (result_key render_id) result.

Definition get_result (render_id : string) : M World (option dict) :=
  Cmd.get (result_key render_id).

(** [wait_for_result] up to the blocking pop: the result when it is already
    there (and is a non-empty dict). *)
Definition wait_for_result_check (render_id : string)
  : M World (option dict) :=
  result <- get_result render_id ;;
  ret (truthy result).

(** [wait_for_result] from the blocking pop on: the pop returns an element
    or times out. *)
Definition wait_for_result_resume (render_id : string)
  : M World (option dict) :=
  notification <- Cmd.brpop [notify_key render_id] ;;
  match notification with
  | Some _ => get_result render_id
  | None => ret None
  end.

Definition notify_result_ready (render_id : string) : M World unit :=
  Cmd.lpush (notify_key render_id) (IRaw "ready") ;;;
  Cmd.expire (notify_key render_id).


Definition set_json (key : string) (data : dict) : M World unit :=
  Cmd.setex key data.

Definition get_json (key : string) : M World (option dict) :=
  data <- Cmd.get key ;; ret data.

Definition push_job (queue_key : string) (job_data : dict) : M World unit :=
  Cmd.rpush queue_key (IJson job_data).

End Valkey.

(* ===================================================================== *)
(** * src/api/main.py and src/api/capture.py *)
(* ===================================================================== *)

Record RenderRequest := mkRenderRequest
  { text : string; voice_id : string; speed : Q }.

Record AsyncRenderResponse := mkAsyncRenderResponse
  { a_render_id : string; a_status : string; poll_url : string }.

Record ApiConfig := mkApiConfig
  { AUDIO_BASE_URL : string;
    SYNC_TIMEOUT_SECONDS : Z;
    MAX_CONCURRENT_REQUESTS : Z }.

(** The front-door process: its admission counter and the world it shares
    with the workers. *)
Record ApiState := mkApiState { active_requests : Z; world : World }.

(** Where a synchronous request stands.  The request gives the processor
    away where the code awaits; the points that matter are the entry, the
    blocking pop, and the [finally] clause. *)
Inductive sync_pc :=
| SNew (request : RenderRequest)
| SAdmitted (request : RenderRequest)
| SWaiting (request : RenderRequest) (render_id : string)
| SFinally (out : res dict)
| SDone (out : res dict).

Module Api.

Definition default_config : ApiConfig :=
  {| AUDIO_BASE_URL := "http://localhost:8080/audio";
     SYNC_TIMEOUT_SECONDS := 60;
     MAX_CONCURRENT_REQUESTS := 10 |}.

(** A store call made by the front door. *)
Definition lift {A} (c : M World A) : M ApiState A :=
  fun s => let (r, w) := c (world s) in
           (r, {| active_requests := active_requests s; world := w |}).

Definition check_concurrency_limit (cfg : ApiConfig) : M ApiState bool :=
  fun s =>
    if MAX_CONCURRENT_REQUESTS cfg <=? active_requests s then (Ok false, s)
    else (Ok true, {| active_requests := active_requests s + 1;
                      world := world s |}).

Definition release_concurrency_slot : M ApiState unit :=
  fun s => (Ok tt, {| active_requests := Z.max 0 (active_requests s - 1);
                      world := world s |}).

Definition job_data_of (cfg : ApiConfig) (request : RenderRequest)
  (render_id cache_key : string) : dict :=
  <["render_id" := JStr render_id]>
  (<["cache_key" := JStr cache_key]>
  (<["text" := JStr (text request)]>
  (<["voice_id" := JStr (voice_id request)]>
  (<["speed" := JFloat (speed request)]>
  (<["audio_base_url" := JStr (AUDIO_BASE_URL cfg)]> ∅))))).

Definition cache_key_of (request : RenderRequest) : string :=
  Valkey.generate_cache_key (voice_id request) (speed request) (text request).

(** ** render_sync *)

(** Entry: the slot is taken or the request is refused, before the [try]. *)
Definition render_sync_enter (cfg : ApiConfig) (request : RenderRequest)
  : M ApiState sync_pc :=
  admitted <- check_concurrency_limit cfg ;;
  if admitted then ret (SAdmitted request)
  else ret (SDone (Raise (HTTPException 429
         "Too many concurrent requests. Please try again later."))).

(** The end of the [try] body, once [wait_for_result] has returned. *)
Definition render_sync_finish (cfg : ApiConfig) (result : option dict)
  (elapsed_ms : Z) : M ApiState dict :=
  match result with
  | None =>
      raise (HTTPException 504
        ("Render timed out after " +:+ PyStr.of_Z (SYNC_TIMEOUT_SECONDS cfg)
         +:+ " seconds"))
  | Some result =>
      ret (<["cached" := JBool false]>
           (<["processing_time_ms" := JInt elapsed_ms]> result))
  end.

(** The [try] body up to the blocking pop: [inl] is a response returned,
    [inr] the render id the request now waits for. *)
Definition render_sync_try (cfg : ApiConfig) (request : RenderRequest)
  (now_ns elapsed_ms : Z) : M ApiState (dict + string) :=
  let cache_key := cache_key_of request in
  cached_result <- lift (Valkey.get_cached_result cache_key) ;;
  match truthy cached_result with
  | Some cached_result =>
      ret (inl (<["cached" := JBool true]> cached_result))
  | None =>
      let render_id :=
        Valkey.generate_render_id (voice_id request) (speed request)
                                  (text request) now_ns in
      let job_data := job_data_of cfg request render_id cache_key in
      lift (Valkey.enqueue_job job_data) ;;;
      result <- lift (Valkey.wait_for_result_check render_id) ;;
      match result with
      | Some _ =>
          response <- render_sync_finish cfg result elapsed_ms ;;
          ret (inl response)
      | None => ret (inr render_id)
      end
  end.

Definition render_sync_submit (cfg : ApiConfig) (request : RenderRequest)
  (now_ns elapsed_ms : Z) : M ApiState sync_pc :=
  fun s =>
    match render_sync_try cfg request now_ns elapsed_ms s with
    | (Ok (inl response), s') => (Ok (SFinally (Ok response)), s')
    | (Ok (inr render_id), s') => (Ok (SWaiting request render_id), s')
    | (Raise e, s') => (Ok (SFinally (Raise e)), s')
    end.

(** The blocking pop returns (an element or the timeout) and the [try] body
    runs to its end. *)
Definition render_sync_resume (cfg : ApiConfig) (render_id : string)
  (elapsed_ms : Z) : M ApiState sync_pc :=
  fun s =>
    let body :=
      result <- try_except (lift (Valkey.wait_for_result_resume render_id))
                           (fun _ => ret None) ;;
      render_sync_finish cfg result elapsed_ms in
    match body s with
    | (r, s') => (Ok (SFinally r), s')
    end.

(** [finally: await release_concurrency_slot()] *)
Definition render_sync_finally (out : res dict) : M ApiState sync_pc :=
  release_concurrency_slot ;;; ret (SDone out).

(** One step of a synchronous request; [now_ns] and [elapsed_ms] are the
    clock readings of the step. *)
Definition render_sync_step (cfg : ApiConfig) (pc : sync_pc)
  (now_ns elapsed_ms : Z) : M ApiState sync_pc :=
  match pc with
  | SNew request => render_sync_enter cfg request
  | SAdmitted request => render_sync_submit cfg request now_ns elapsed_ms
  | SWaiting _ render_id => render_sync_resume cfg render_id elapsed_ms
  | SFinally out => render_sync_finally out
  | SDone out => ret (SDone out)
  end.

(** ** render_async *)

Definition poll_url_of (base_url render_id : string) : string :=
  PyStr.rstrip "/"%char base_url +:+ "/v1/avatar/render/" +:+ render_id.

(** [cached_result.get("render_id", cache_key.split(":")[-1])] *)
Definition cached_render_id (cached_result : dict) (cache_key : string)
  : jval :=
  default (JStr (PyStr.after_last ":"%char cache_key))
          (cached_result !! "render_id").

Definition render_async (cfg : ApiConfig) (request : RenderRequest)
  (base_url : string) (now_ns : Z) : M World AsyncRenderResponse :=
  let cache_key := cache_key_of request in
  cached_result <- Valkey.get_cached_result cache_key ;;
  match truthy cached_result with
  | Some cached_result =>
      match cached_render_id cached_result cache_key with
      | JStr render_id =>
          Valkey.set_result render_id cached_result ;;;
          ret {| a_render_id := render_id;
                 a_status := "completed";
                 poll_url := poll_url_of base_url render_id |}
      | _ =>
          (* the response model takes a string only; the cache is filled
             by the worker alone, with the string id of the job *)
          raise (Exception "render_id: Input should be a valid string")
      end
  | None =>
      let render_id :=
        Valkey.generate_render_id (voice_id request) (speed request)
                                  (text request) now_ns in
      let job_data := job_data_of cfg request render_id cache_key in
      Valkey.set_result render_id
        (<["render_id" := JStr render_id]> (<["status" := JStr "pending"]> ∅)) ;;;
      Valkey.enqueue_job job_data ;;;
      ret {| a_render_id := render_id;
             a_status := "pending";
             poll_url := poll_url_of base_url render_id |}
  end.

(** ** get_render_status *)

Definition get_render_status (render_id : string) : M World dict :=
  result <- Valkey.get_result render_id ;;
  match result with
  | None => raise (HTTPException 404 ("Render " +:+ render_id +:+ " not found"))
  | Some result => ret result
  end.

(** ** capture.py: process_capture *)

Definition CAPTURE_JOB_QUEUE_KEY : string := "avatar:capture:jobs".
Definition CAPTURE_JOB_STATUS_PREFIX : string := "avatar:capture:status:".

Definition capture_job_data (captures_dir avatars_dir : string)
  (capture_id avatar_id job_id : string) : dict :=
  <["job_id" := JStr job_id]>
  (<["capture_id" := JStr capture_id]>
  (<["avatar_id" := JStr avatar_id]>
  (<["capture_path" :=
       JStr (OsPath.join captures_dir (capture_id +:+ ".webm"))]>
  (<["avatars_dir" := JStr avatars_dir]>
  (<["type" := JStr "capture_processing"]> ∅))))).

Definition initial_status (avatar_id job_id : string) : dict :=
  <["job_id" := JStr job_id]>
  (<["status" := JStr "queued"]>
  (<["progress" := JInt 0]>
  (<["avatar_id" := JStr avatar_id]>
  (<["logs" := JStrs ["Job queued"]]> ∅)))).

(** [capture_on_disk] is [os.path.exists(capture_path)], [job_id] the
    [uuid4] drawn for the job. *)
Definition process_capture (captures_dir avatars_dir : string)
  (capture_id avatar_id : string) (capture_on_disk : bool) (job_id : string)
  : M World (string * string) :=
  if negb capture_on_disk then raise (HTTPException 404 "Capture not found")
  else
    let job_data :=
      capture_job_data captures_dir avatars_dir capture_id avatar_id job_id in
    let status_key := CAPTURE_JOB_STATUS_PREFIX +:+ job_id in
    Valkey.set_json status_key (initial_status avatar_id job_id) ;;;
    Valkey.push_job CAPTURE_JOB_QUEUE_KEY job_data ;;;
    ret (job_id, "queued").

End Api.

(* ===================================================================== *)
(** * src/worker/lipsync.py *)
(* ===================================================================== *)

(** A mouth cue as Rhubarb prints it. *)
Record RawCue := mkRawCue { start : Q; end_ : Q; value : string }.

(** How a child process ends: the timeout of [subprocess.run] expires, or
    the process exits. *)
Inductive proc :=
| ProcTimeout
| ProcExit (returncode : Z) (stderr : string).

(** What Rhubarb wrote on its standard output, through [json.loads]: a
    decoding error with its message, or the list under [mouthCues] (if
    any). *)
Inductive rhubarb_stdout :=
| NotJson (msg : string)
| Json (mouthCues : option (list RawCue)).

(** The collaborators of the render pipeline, as the worker sees them: the
    file system, the external tools, the random generator and the clock. *)
Record Tools := mkTools
  { path_exists : string -> bool;
      (* os.path.exists on a voice model *)
    piper : string -> string -> Q -> proc;
      (* Piper run with a model on a text at a speed *)
    wav_created : string -> bool;
      (* os.path.exists(wav_path) after the run *)
    audio_duration_ms : string -> Z;
      (* get_audio_duration_ms *)
    ogg_converted : string -> bool;
      (* convert_to_ogg(...) and os.path.exists(ogg_path) *)
    file_size : string -> Z;
      (* os.path.getsize *)
    ffmpeg_wav : string -> string -> option bool;
      (* ffmpeg from the ogg file to a temporary wav: None when the
         timeout expires, else whether the temporary file exists *)
    rhubarb : string -> string -> proc * rhubarb_stdout;
      (* Rhubarb run on an audio file with a transcript *)
    eye_events : Z -> string -> list EyeEvent;
      (* generate_eye_events, which draws random numbers *)
    elapsed_ms : Z
      (* int((time.time() - start_time) * 1000) *) }.

Module Lipsync.

Definition VISEME_MAP : gmap string string :=
  list_to_map
    [ ("A", "AA"); ("B", "EE"); ("C", "EE"); ("D", "AA"); ("E", "OH");
      ("F", "OO"); ("G", "FF"); ("H", "TH"); ("X", "REST") ].

Definition VISEME_SET : list string :=
  ["REST"; "AA"; "EE"; "OH"; "OO"; "FF"; "TH"].

(** [int(x)] for a float: an infinity has no integer part. *)
Definition int_of_float {S} (v : Q) : M S Z :=
  if PyFloat.is_inf v then raise OverflowError else ret (PyFloat.trunc v).

(** [n / d] for two ints, [d] not zero: the nearest float to the quotient,
    which must be finite. *)
Definition int_truediv {S} (n d : Z) : M S Q :=
  let q := PyFloat.b64 (inject_Z n / inject_Z d) in
  if PyFloat.is_inf q then raise OverflowError else ret q.

(** The weight of a cue that lasts [duration_ms]. *)
Definition cue_weight {S} (duration_ms : Z) : M S Q :=
  scaled <- int_truediv duration_ms 500 ;;
  ret (PyFloat.min 1 (PyFloat.add (1 # 2) scaled)).

(** The body of the loop of [parse_rhubarb_output]. *)
Definition parse_cue {S} (cue : RawCue) : M S MouthCue :=
  start_ms <- int_of_float (PyFloat.mul (start cue) 1000) ;;
  end_ms <- int_of_float (PyFloat.mul (end_ cue) 1000) ;;
  let rhubarb_viseme := value cue in
  let viseme := default "REST" (VISEME_MAP !! rhubarb_viseme) in
  let duration_ms := end_ms - start_ms in
  weight <- cue_weight duration_ms ;;
  ret {| t_ms := start_ms; viseme := viseme;
         weight := PyFloat.round_2 weight |}.

Fixpoint parse_cues {S} (raw_cues : list RawCue) : M S (list MouthCue) :=
  match raw_cues with
  | [] => ret []
  | cue :: rest =>
      c <- parse_cue cue ;;
      cs <- parse_cues rest ;;
      ret (c :: cs)
  end.

(** [mouthCues] is [rhubarb_data.get("mouthCues", [])]. *)
Definition parse_rhubarb_output {S} (mouthCues : option (list RawCue))
  : M S (list MouthCue) :=
  parse_cues (default [] mouthCues).

(** [extract_mouth_cues(audio_path, text=text)] *)
Definition extract_mouth_cues (tools : Tools) (audio_path text : string)
  : M World (list MouthCue) :=
  Cmd.tool "rhubarb" ;;;
  match rhubarb tools audio_path text with
  | (ProcTimeout, _) => raise (RuntimeError "Rhubarb lip sync timed out")
  | (ProcExit returncode stderr, stdout) =>
      if negb (returncode =? 0)
      then raise (RuntimeError ("Rhubarb failed: " +:+ stderr))
      else
        match stdout with
        | NotJson msg =>
            raise (RuntimeError ("Failed to parse Rhubarb output: " +:+ msg))
        | Json mouthCues => parse_rhubarb_output mouthCues
        end
  end.

Definition generate_eye_events (tools : Tools) (duration_ms : Z)
  (text : string) : M World (list EyeEvent) :=
  ret (eye_events tools duration_ms text).

End Lipsync.

(* ===================================================================== *)
(** * src/worker/tts.py *)
(* ===================================================================== *)

Record TtsResult := mkTtsResult
  { output_path : string;
    output_filename : string;
    duration_ms : Z;
    format : string;
    file_size_bytes : Z }.

Record WorkerConfig := mkWorkerConfig
  { PIPER_MODEL : string;
    DATA_DIR : string }.

Module Tts.

Definition AUDIO_DIR (cfg : WorkerConfig) : string :=
  OsPath.join (DATA_DIR cfg) "audio".

(** [voice_model or PIPER_MODEL] *)
Definition model_or_default (cfg : WorkerConfig) (voice_model : option string)
  : string :=
  match voice_model with
  | Some m => if String.eqb m EmptyString then PIPER_MODEL cfg else m
  | None => PIPER_MODEL cfg
  end.

Definition synthesize_speech (tools : Tools) (cfg : WorkerConfig)
  (text output_filename : string) (voice_model : option string) (speed : Q)
  : M World TtsResult :=
  let model_path := model_or_default cfg voice_model in
  let wav_path := OsPath.join (AUDIO_DIR cfg) (output_filename +:+ ".wav") in
  let ogg_path := OsPath.join (AUDIO_DIR cfg) (output_filename +:+ ".ogg") in
  try_except
    ((if Qeq_bool speed 0 then raise ZeroDivisionError else ret tt) ;;;
     Cmd.tool "piper" ;;;
     match piper tools model_path text speed with
     | ProcTimeout => raise (TimeoutExpired "piper")
     | ProcExit returncode stderr =>
         if negb (returncode =? 0)
         then raise (RuntimeError ("Piper TTS failed: " +:+ stderr))
         else if negb (wav_created tools wav_path)
         then raise (RuntimeError "Piper did not create output file")
         else
           Cmd.tool "ffprobe" ;;;
           let duration_ms := audio_duration_ms tools wav_path in
           Cmd.tool "ffmpeg" ;;;
           let (final_path, ext) :=
             if ogg_converted tools ogg_path then (ogg_path, "ogg")
             else (wav_path, "wav") in
           ret {| output_path := final_path;
                  output_filename := output_filename +:+ "." +:+ ext;
                  duration_ms := duration_ms;
                  format := ext;
                  file_size_bytes := file_size tools final_path |}
     end)
    (fun e =>
       match e with
       | TimeoutExpired _ => raise (RuntimeError "Piper TTS timed out")
       | _ => raise e   (* partial files removed, then re-raised *)
       end).

End Tts.

(* ===================================================================== *)
(** * src/worker/capture_processor.py *)
(* ===================================================================== *)

(** What the stages of the capture pipeline do for one job: the three
    ffmpeg commands report success or failure, the later stages end or
    raise. *)
Record CaptureTools := mkCaptureTools
  { makedirs : option exn;
    normalize_video : bool;
    extract_base_face : bool;
    extract_idle_video : bool;
    generate_anchor_timeline : option exn;
    extract_viseme_frames : option exn;
    extract_eye_frames : option exn;
    create_masks : option exn;
    create_mouth_spritesheet : option exn;
    create_manifest : option exn;
    create_zip : option exn;
    remove_normalized : option exn }.

Module Capture.

Definition status_key_of (job_id : string) : string :=
  "avatar:capture:status:" +:+ job_id.

(** [status_data['logs'].append(log_message)], after the list is created
    when missing. *)
Definition append_log {S} (status_data : dict) (log_message : string)
  : M S dict :=
  match status_data !! "logs" with
  | None => ret (<["logs" := JStrs [log_message]]> status_data)
  | Some (JStrs logs) =>
      ret (<["logs" := JStrs (logs ++ [log_message])]> status_data)
  | Some _ => raise (TypeError "logs is not a list")
  end.

Definition update_job_status (job_id status : string) (progress : Z)
  (log_message : string) : M World unit :=
  let status_key := status_key_of job_id in
  status_json <- Cmd.get status_key ;;
  let status_data : dict :=
    match status_json with
    | Some d => d
    | None => <["logs" := JStrs []]> ∅
    end in
  let status_data :=
    <["progress" := JInt progress]> (<["status" := JStr status]> status_data) in
  status_data <-
    (if String.eqb log_message EmptyString then ret status_data
     else append_log status_data log_message) ;;
  Cmd.setex status_key status_data.

(** A stage that reports failure by its result:
    [if not stage(...): raise Exception(msg)]. *)
Definition check (name : string) (ok : bool) (msg : string) : M World unit :=
  Cmd.tool name ;;;
  if ok then ret tt else raise (Exception msg).

(** A stage that raises by itself. *)
Definition run (name : string) (outcome : option exn) : M World unit :=
  Cmd.tool name ;;;
  match outcome with
  | None => ret tt
  | Some e => raise e
  end.

Definition completed_result (avatar_id : string) : dict :=
  <["status" := JStr "completed"]>
  (<["avatar_id" := JStr avatar_id]>
  (<["manifest_url" := JStr ("/avatars/" +:+ avatar_id +:+ "/manifest.json")]>
  (<["zip_url" := JStr ("/avatars/" +:+ avatar_id +:+ ".zip")]> ∅))).

Definition failed_result (error_msg : string) : dict :=
  <["status" := JStr "failed"]> (<["error" := JStr error_msg]> ∅).

(** The [try] body of [process_capture_job]. *)
Definition capture_stages (ct : CaptureTools) (job_id avatar_id : string)
  : M World dict :=
  update_job_status job_id "processing" 10 "→ Normalizing video..." ;;;
  check "normalize_video" (normalize_video ct) "Video normalization failed" ;;;
  update_job_status job_id "processing" 20 "→ Extracting base face..." ;;;
  check "extract_base_face" (extract_base_face ct) "Base face extraction failed" ;;;
  update_job_status job_id "processing" 30 "→ Extracting idle loop..." ;;;
  check "extract_idle_video" (extract_idle_video ct) "Idle video extraction failed" ;;;
  update_job_status job_id "processing" 40 "→ Detecting face landmarks..." ;;;
  run "generate_anchor_timeline" (generate_anchor_timeline ct) ;;;
  update_job_status job_id "processing" 50 "→ Extracting mouth visemes..." ;;;
  run "extract_viseme_frames" (extract_viseme_frames ct) ;;;
  update_job_status job_id "processing" 65 "→ Extracting eye states..." ;;;
  run "extract_eye_frames" (extract_eye_frames ct) ;;;
  update_job_status job_id "processing" 75 "→ Generating masks..." ;;;
  run "create_masks" (create_masks ct) ;;;
  update_job_status job_id "processing" 85 "→ Building mouth spritesheet..." ;;;
  run "create_mouth_spritesheet" (create_mouth_spritesheet ct) ;;;
  update_job_status job_id "processing" 90 "→ Writing manifest..." ;;;
  run "create_manifest" (create_manifest ct) ;;;
  update_job_status job_id "processing" 95 "→ Creating ZIP archive..." ;;;
  run "create_zip" (create_zip ct) ;;;
  update_job_status job_id "completed" 100
    "✓ Avatar pack generated successfully!" ;;;
  run "os.remove" (remove_normalized ct) ;;;
  ret (completed_result avatar_id).

(** The [except Exception as e] clause of [process_capture_job]. *)
Definition capture_failed (job_id : string) (e : exn) : M World dict :=
  let error_msg := str_exn e in
  update_job_status job_id "failed" 0 ("✗ Error: " +:+ error_msg) ;;;
  ret (failed_result error_msg).

Definition process_capture_job (ct : CaptureTools) (job_data : dict)
  : M World dict :=
  job_id <- getstr job_data "job_id" ;;
  capture_id <- getstr job_data "capture_id" ;;
  avatar_id <- getstr job_data "avatar_id" ;;
  capture_path <- getstr job_data "capture_path" ;;
  avatars_dir <- getstr job_data "avatars_dir" ;;
  run "os.makedirs" (makedirs ct) ;;;
  try_except (capture_stages ct job_id avatar_id) (capture_failed job_id).

End Capture.

(* ===================================================================== *)
(** * src/worker/worker.py *)
(* ===================================================================== *)

Module Worker.

Definition JOB_QUEUE_KEY : string := "avatar:jobs".
Definition CAPTURE_JOB_QUEUE_KEY : string := "avatar:capture:jobs".
Definition RESULT_KEY_PREFIX : string := "avatar:result:".
Definition CACHE_KEY_PREFIX : string := "avatar:cache:".

Definition default_config : WorkerConfig :=
  {| PIPER_MODEL := "/opt/piper/voices/en_US-lessac-medium.onnx";
     DATA_DIR := "/data" |}.

Definition get_voice_model_path (tools : Tools) (cfg : WorkerConfig)
  (voice_id : string) : string :=
  let voices_dir := OsPath.dirname (PIPER_MODEL cfg) in
  let model_path := OsPath.join voices_dir (voice_id +:+ ".onnx") in
  if path_exists tools model_path then model_path
  else (* Fall back to default model *) PIPER_MODEL cfg.

Definition update_result_status (render_id status : string) : M World unit :=
  let key := RESULT_KEY_PREFIX +:+ render_id in
  current <- Cmd.get key ;;
  match current with
  | Some data => Cmd.setex key (<["status" := JStr status]> data)
  | None => ret tt
  end.

(** Step 2 of the pipeline: Rhubarb reads WAV only, so an OGG file is
    converted back first. *)
Definition mouth_cues_of (tools : Tools) (audio_path text : string)
  : M World (list MouthCue) :=
  if PyStr.endswith audio_path ".ogg" then
    let wav_temp := PyStr.replace ".ogg" "_temp.wav" audio_path in
    Cmd.tool "ffmpeg" ;;;
    match ffmpeg_wav tools audio_path wav_temp with
    | None => raise (TimeoutExpired "ffmpeg")
    | Some on_disk =>
        mouth_cues <- Lipsync.extract_mouth_cues tools wav_temp text ;;
        (* os.remove(wav_temp) *)
        if on_disk then ret mouth_cues else raise (FileNotFoundError wav_temp)
    end
  else Lipsync.extract_mouth_cues tools audio_path text.

(** The [try] body of [process_job]. *)
Definition pipeline (tools : Tools) (cfg : WorkerConfig)
  (render_id text voice_id : string) (speed : Q) (audio_base_url : string)
  : M World dict :=
  let voice_model := get_voice_model_path tools cfg voice_id in
  tts_result <-
    Tts.synthesize_speech tools cfg text render_id (Some voice_model) speed ;;
  let audio_filename := output_filename tts_result in
  let audio_path := output_path tts_result in
  let duration_ms := duration_ms tts_result in
  mouth_cues <- mouth_cues_of tools audio_path text ;;
  eye_events <- Lipsync.generate_eye_events tools duration_ms text ;;
  let audio_url := audio_base_url +:+ "/" +:+ audio_filename in
  ret (<["render_id" := JStr render_id]>
       (<["status" := JStr "completed"]>
       (<["audio_url" := JStr audio_url]>
       (<["duration_ms" := JInt duration_ms]>
       (<["mouth_cues" := JCues mouth_cues]>
       (<["eye_events" := JEyes eye_events]>
       (<["cached" := JBool false]>
       (<["error" := JNull]>
       (<["processing_time_ms" := JInt (elapsed_ms tools)]> ∅))))))))).

Definition failed_result (tools : Tools) (render_id : string) (e : exn)
  : dict :=
  <["render_id" := JStr render_id]>
  (<["status" := JStr "failed"]>
  (<["audio_url" := JNull]>
  (<["duration_ms" := JNull]>
  (<["mouth_cues" := JNull]>
  (<["eye_events" := JNull]>
  (<["cached" := JBool false]>
  (<["error" := JStr (str_exn e)]>
  (<["processing_time_ms" := JInt (elapsed_ms tools)]> ∅)))))))).

Definition process_job (tools : Tools) (cfg : WorkerConfig) (job_data : dict)
  : M World dict :=
  render_id <- getstr job_data "render_id" ;;
  cache_key <- getstr job_data "cache_key" ;;
  text <- getstr job_data "text" ;;
  voice_id <- getstr job_data "voice_id" ;;
  speed <- getfloat_default job_data "speed" 1 ;;
  audio_base_url <-
    getstr_default job_data "audio_base_url" "http://localhost:8080/audio" ;;
  update_result_status render_id "processing" ;;;
  try_except
    (pipeline tools cfg render_id text voice_id speed audio_base_url)
    (fun e => ret (failed_result tools render_id e)).

Definition store_result (result : dict) (cache_key : string) : M World unit :=
  render_id <- getstr result "render_id" ;;
  let result_key := RESULT_KEY_PREFIX +:+ render_id in
  Cmd.setex result_key result ;;;
  status <- getitem result "status" ;;
  (match status with
   | JStr "completed" => Cmd.setex cache_key result
   | _ => ret tt
   end) ;;;
  let notify_key := "avatar:notify:" +:+ render_id in
  Cmd.lpush notify_key (IRaw "ready") ;;;
  Cmd.expire notify_key.

(** [existing_data.get("status") in ["completed", "failed"]] *)
Definition is_terminal (existing_data : dict) : bool :=
  get_is existing_data "status" "completed"
  || get_is existing_data "status" "failed".

(** The render branch of the loop; [continue] leaves it early. *)
Definition handle_render (tools : Tools) (cfg : WorkerConfig) (job_data : dict)
  : M World unit :=
  render_id <- getstr job_data "render_id" ;;
  existing <- Cmd.get (RESULT_KEY_PREFIX +:+ render_id) ;;
  if match existing with
     | Some existing_data => is_terminal existing_data
     | None => false
     end
  then ret tt   (* skipping_already_processed: continue *)
  else
    result <- process_job tools cfg job_data ;;
    cache_key <- getstr job_data "cache_key" ;;
    store_result result cache_key.

(** The capture branch of the loop. *)
Definition handle_capture (ct : CaptureTools) (job_data : dict)
  : M World unit :=
  capture_result <- Capture.process_capture_job ct job_data ;;
  job_id <- getstr job_data "job_id" ;;
  let status_key := "avatar:capture:status:" +:+ job_id in
  stored <- Cmd.get status_key ;;
  let status_data : dict := default ∅ stored in
  (* status_data.update(capture_result) *)
  Cmd.setex status_key (capture_result ∪ status_data).

(** The body of the [try] in the loop of [run_worker]. *)
Definition loop_body (tools : Tools) (ct : CaptureTools) (cfg : WorkerConfig)
  : M World unit :=
  result <- Cmd.brpop [JOB_QUEUE_KEY; CAPTURE_JOB_QUEUE_KEY] ;;
  match result with
  | None => ret tt   (* Timeout, no jobs available *)
  | Some (queue_key, IRaw _) => raise (TypeError "job is not a JSON object")
  | Some (queue_key, IJson job_data) =>
      if get_is job_data "type" "capture_processing"
      then handle_capture ct job_data
      else handle_render tools cfg job_data
  end.

(** One turn of [while running:]: both [except] clauses log, sleep and let
    the loop go on. *)
Definition iteration (tools : Tools) (ct : CaptureTools) (cfg : WorkerConfig)
  : M World unit :=
  try_except (loop_body tools ct cfg) (fun _ => ret tt).

(** The loop, for as many turns as there are entries in [env]: what the
    tools do at each turn. *)
Fixpoint run_worker (cfg : WorkerConfig) (env : list (Tools * CaptureTools))
  : M World unit :=
  match env with
  | [] => ret tt
  | (tools, ct) :: env' => iteration tools ct cfg ;;; run_worker cfg env'
  end.

End Worker.

(* ===================================================================== *)
(** * The services running together *)
(* ===================================================================== *)

(** One front-door process serves its synchronous requests interleaved
    (each request advances from one suspension point to the next), takes
    asynchronous submissions and capture jobs, while workers take their
    turns on the same store. *)

Record Sys := mkSys { api : ApiState; syncs : list sync_pc }.

Module System.

Definition with_world (s : Sys) (w : World) : Sys :=
  {| api := {| active_requests := active_requests (api s); world := w |};
     syncs := syncs s |}.

Inductive step (acfg : ApiConfig) (wcfg : WorkerConfig) : Sys -> Sys -> Prop :=
| step_arrive s request :
    step acfg wcfg s {| api := api s; syncs := syncs s ++ [SNew request] |}
| step_sync s i pc now_ns elapsed_ms pc' api' :
    syncs s !! i = Some pc ->
    Api.render_sync_step acfg pc now_ns elapsed_ms (api s) = (Ok pc', api') ->
    step acfg wcfg s {| api := api'; syncs := <[i := pc']> (syncs s) |}
| step_async s request base_url now_ns r w' :
    Api.render_async acfg request base_url now_ns (world (api s)) = (r, w') ->
    step acfg wcfg s (with_world s w')
| step_capture s captures_dir avatars_dir capture_id avatar_id on_disk job_id r w' :
    Api.process_capture captures_dir avatars_dir capture_id avatar_id
                        on_disk job_id (world (api s)) = (r, w') ->
    step acfg wcfg s (with_world s w')
| step_worker s tools ct r w' :
    Worker.iteration tools ct wcfg (world (api s)) = (r, w') ->
    step acfg wcfg s (with_world s w').

(** The front door starts with no request in flight, on any store. *)
Definition initial (s : Sys) : Prop :=
  active_requests (api s) = 0 /\ syncs s = [].

Definition reachable (acfg : ApiConfig) (wcfg : WorkerConfig) (s : Sys) : Prop :=
  exists s0, initial s0 /\ rtc (step acfg wcfg) s0 s.

(** A request holds a slot from its admission to its [finally] clause. *)
Definition holds_slot (pc : sync_pc) : bool :=
  match pc with
  | SAdmitted _ | SWaiting _ _ | SFinally _ => true
  | SNew _ | SDone _ => false
  end.

Definition holders (l : list sync_pc) : Z :=
  Z.of_nat (length (filter (fun pc => holds_slot pc = true) l)).

End System.

(* ===================================================================== *)
(** * Reading a trace *)
(* ===================================================================== *)

(** The documents written under [key], in order. *)
Fixpoint writes_to (key : string) (t : list event) : list dict :=
  match t with
  | [] => []
  | EvWrite k v :: t' =>
      if String.eqb k key then v :: writes_to key t' else writes_to key t'
  | _ :: t' => writes_to key t'
  end.

(** The tools run, in order. *)
Fixpoint tools_run (t : list event) : list string :=
  match t with
  | [] => []
  | EvTool n :: t' => n :: tools_run t'
  | _ :: t' => tools_run t'
  end.

Definition status_of (d : dict) : option string :=
  match d !! "status" with
  | Some (JStr s) => Some s
  | _ => None
  end.

Definition progress_of (d : dict) : option Z :=
  match d !! "progress" with
  | Some (JInt z) => Some z
  | _ => None
  end.

Definition logs_of (d : dict) : list string :=
  match d !! "logs" with
  | Some (JStrs l) => l
  | _ => []
  end.


Definition terminal (s : option string) : Prop :=
  s = Some "completed" \/ s = Some "failed".

(* ===================================================================== *)
(** * Deciding equality of states *)
(* ===================================================================== *)

(** Concrete runs are compared by computation. *)

#[global] Instance Q_eq_dec : EqDecision Q.
Proof. solve_decision. Defined.
#[global] Instance MouthCue_eq_dec : EqDecision MouthCue.
Proof. solve_decision. Defined.
#[global] Instance EyeEvent_eq_dec : EqDecision EyeEvent.
Proof. solve_decision. Defined.
#[global] Instance jval_eq_dec : EqDecision jval.
Proof. solve_decision. Defined.
#[global] Instance item_eq_dec : EqDecision item.
Proof. solve_decision. Defined.
#[global] Instance Redis_eq_dec : EqDecision Redis.
Proof. solve_decision. Defined.
#[global] Instance exn_eq_dec : EqDecision exn.
Proof. solve_decision. Defined.
#[global] Instance res_eq_dec {A} `{EqDecision A} : EqDecision (res A).
Proof. solve_decision. Defined.
#[global] Instance event_eq_dec : EqDecision event.
Proof. solve_decision. Defined.
#[global] Instance World_eq_dec : EqDecision World.
Proof. solve_decision. Defined.
#[global] Instance RenderRequest_eq_dec : EqDecision RenderRequest.
Proof. solve_decision. Defined.
#[global] Instance AsyncRenderResponse_eq_dec : EqDecision AsyncRenderResponse.
Proof. solve_decision. Defined.
#[global] Instance ApiState_eq_dec : EqDecision ApiState.
Proof. solve_decision. Defined.
#[global] Instance sync_pc_eq_dec : EqDecision sync_pc.
Proof. solve_decision. Defined.
#[global] Instance proc_eq_dec : EqDecision proc.
Proof. solve_decision. Defined.

(** An equation, or an inequation, between closed terms, settled by
    evaluating the decision procedure. *)
Ltac by_compute :=
  lazymatch goal with
  | |- ?a = ?b =>
      apply (bool_decide_eq_true_1 (a = b)); vm_compute; reflexivity
  | |- ?a <> ?b =>
      apply (bool_decide_eq_false_1 (a = b)); vm_compute; reflexivity
  end.

(* ===================================================================== *)
(** * Properties *)
(* ===================================================================== *)

(** ** The fingerprint *)

Section Fingerprint.

Local Open Scope Q_scope.

(** Rounding looks at the value of a float only: two fractions of the
    same value round alike. *)
Lemma round_half_even_value (x y : Q) :
  x == y -> PyFloat.round_half_even x = PyFloat.round_half_even y.
Proof.
  intros Hxy. unfold PyFloat.round_half_even.
  assert (Hf : Qfloor x = Qfloor y) by (apply Qfloor_comp; exact Hxy).
  rewrite Hf.
  assert (Hc : (x - inject_Z (Qfloor y) ?= 1 # 2)
               = (y - inject_Z (Qfloor y) ?= 1 # 2)).
  { apply Qcompare_comp; [ rewrite Hxy; reflexivity | reflexivity ]. }
  rewrite Hc. reflexivity.
Qed.

Lemma round2_value (x y : Q) : x == y -> PyFloat.round2 x = PyFloat.round2 y.
Proof.
  intros Hxy. unfold PyFloat.round2. f_equal.
  - destruct (Z.ltb_spec (Qnum x) 0) as [Hx | Hx];
      destruct (Z.ltb_spec (Qnum y) 0) as [Hy | Hy]; try reflexivity;
      exfalso; unfold Qeq in Hxy; nia.
  - apply round_half_even_value. rewrite Hxy. reflexivity.
Qed.

(** The key is the prefix followed by 16 hexadecimal digits of the hash of
    the voice, the rounded speed and the text. *)
Lemma generate_cache_key_unfold (v t : string) (s : Q) :
  Valkey.generate_cache_key v s t
  = Valkey.CACHE_KEY_PREFIX
    +:+ PyStr.take 16
          (Hashlib.sha256_hexdigest
             (v +:+ ":" +:+ PyFloat.show_dec2 (PyFloat.round2 s) +:+ ":" +:+ t)).
Proof. reflexivity. Qed.

(** C1.  The cache key is a function of the voice, the speed rounded to two
    decimals and the text: equal voices and texts with speeds that round to
    the same two-decimal number give the same key; in particular the same
    inputs always give the same key. *)
Theorem generate_cache_key_deterministic
  (v1 v2 t1 t2 : string) (s1 s2 : Q) :
  v1 = v2 -> t1 = t2 -> PyFloat.round2 s1 = PyFloat.round2 s2 ->
  Valkey.generate_cache_key v1 s1 t1 = Valkey.generate_cache_key v2 s2 t2.
Proof.
  intros -> -> Hs. rewrite !generate_cache_key_unfold. rewrite Hs. reflexivity.
Qed.

Lemma generate_cache_key_deterministic_witness :
  Valkey.generate_cache_key "V1" 1 "Hello world"
  = Valkey.generate_cache_key "V1" (1004 # 1000) "Hello world".
Proof.
  apply generate_cache_key_deterministic;
    [ reflexivity | reflexivity | vm_compute; reflexivity ].
Defined.

End Fingerprint.

(** ** The admission counter *)

Section Admission.

Variable acfg : ApiConfig.
Variable wcfg : WorkerConfig.

Local Abbreviation MAX := (MAX_CONCURRENT_REQUESTS acfg).

Definition b2z (b : bool) : Z := if b then 1 else 0.

Lemma holders_nonneg (l : list sync_pc) : 0 <= System.holders l.
Proof. unfold System.holders. lia. Qed.

Lemma holders_cons (pc : sync_pc) (l : list sync_pc) :
  System.holders (pc :: l) = b2z (System.holds_slot pc) + System.holders l.
Proof.
  unfold System.holders. rewrite filter_cons.
  destruct (System.holds_slot pc); case_decide; simpl; try congruence; lia.
Qed.

Lemma holders_app (l1 l2 : list sync_pc) :
  System.holders (l1 ++ l2) = System.holders l1 + System.holders l2.
Proof.
  induction l1 as [| pc l1 IH]; simpl.
  - unfold System.holders at 2. simpl. lia.
  - rewrite !holders_cons, IH. lia.
Qed.

Lemma holders_insert (l : list sync_pc) (i : nat) (pc pc' : sync_pc) :
  l !! i = Some pc ->
  System.holders (<[i := pc']> l)
  = System.holders l - b2z (System.holds_slot pc) + b2z (System.holds_slot pc').
Proof.
  revert i. induction l as [| x l IH]; intros [| i] Hi; simpl in *;
    try discriminate.
  - injection Hi as ->. rewrite !holders_cons. lia.
  - rewrite !holders_cons, (IH i Hi). lia.
Qed.

(** Computations of the front door that leave the counter alone: all of
    them but the acquisition and the release. *)
Definition keeps_counter {A} (c : M ApiState A) : Prop :=
  forall s, active_requests (snd (c s)) = active_requests s.

Lemma keeps_ret {A} (a : A) : keeps_counter (ret a).
Proof. intros s. reflexivity. Qed.

Lemma keeps_raise {A} (e : exn) : keeps_counter (@raise ApiState A e).
Proof. intros s. reflexivity. Qed.

Lemma keeps_lift {A} (c : M World A) : keeps_counter (Api.lift c).
Proof. intros s. unfold Api.lift. destruct (c (world s)). reflexivity. Qed.

Lemma keeps_bind {A B} (c : M ApiState A) (k : A -> M ApiState B) :
  keeps_counter c -> (forall a, keeps_counter (k a)) -> keeps_counter (bind c k).
Proof.
  intros Hc Hk s. unfold bind. specialize (Hc s).
  destruct (c s) as [[a | e] s1]; simpl in *.
  - rewrite Hk. exact Hc.
  - exact Hc.
Qed.

Lemma keeps_try_except {A} (c : M ApiState A) (h : exn -> M ApiState A) :
  keeps_counter c -> (forall e, keeps_counter (h e)) ->
  keeps_counter (try_except c h).
Proof.
  intros Hc Hh s. unfold try_except. specialize (Hc s).
  destruct (c s) as [[a | e] s1]; simpl in *.
  - exact Hc.
  - rewrite Hh. exact Hc.
Qed.

Ltac keeps_counter_tac :=
  repeat first
    [ apply keeps_ret | apply keeps_raise | apply keeps_lift
    | apply keeps_bind; [| intros ?]
    | apply keeps_try_except; [| intros ?]
    | match goal with
      | |- keeps_counter (match ?x with _ => _ end) => destruct x
      end ].

Lemma render_sync_finish_keeps (result : option dict) (el : Z) :
  keeps_counter (Api.render_sync_finish acfg result el).
Proof. unfold Api.render_sync_finish. keeps_counter_tac. Qed.

Lemma render_sync_try_active (request : RenderRequest) (now el : Z) :
  keeps_counter (Api.render_sync_try acfg request now el).
Proof.
  unfold Api.render_sync_try. keeps_counter_tac.
  all: apply render_sync_finish_keeps.
Qed.

Lemma render_sync_resume_active (rid : string) (el : Z) (s : ApiState) :
  active_requests (snd (Api.render_sync_resume acfg rid el s))
  = active_requests s.
Proof.
  unfold Api.render_sync_resume.
  assert (Hk : keeps_counter
    (result <- try_except (Api.lift (Valkey.wait_for_result_resume rid))
                          (fun _ => ret None) ;;
     Api.render_sync_finish acfg result el)).
  { keeps_counter_tac. apply render_sync_finish_keeps. }
  specialize (Hk s). destruct (bind _ _ s) as [r s']. exact Hk.
Qed.

(** What a step of a synchronous request does to its place and to the
    counter. *)
Lemma render_sync_step_cases (pc : sync_pc) (now el : Z) (s : ApiState) :
  exists pc' s',
    Api.render_sync_step acfg pc now el s = (Ok pc', s')
    /\ match pc with
       | SNew request =>
           if MAX <=? active_requests s
           then s' = s /\ exists detail, pc' = SDone (Raise (HTTPException 429 detail))
           else pc' = SAdmitted request
                /\ active_requests s' = active_requests s + 1
       | SAdmitted _ | SWaiting _ _ =>
           System.holds_slot pc' = true
           /\ active_requests s' = active_requests s
       | SFinally out =>
           pc' = SDone out
           /\ active_requests s' = Z.max 0 (active_requests s - 1)
       | SDone out => pc' = SDone out /\ s' = s
       end.
Proof.
  destruct pc as [request | request | request rid | out | out]; simpl.
  - unfold Api.render_sync_enter, bind, Api.check_concurrency_limit, ret.
    destruct (MAX <=? active_requests s); eauto 10.
  - unfold Api.render_sync_submit.
    pose proof (render_sync_try_active request now el s) as Ha.
    unfold keeps_counter in Ha.
    destruct (Api.render_sync_try acfg request now el s) as [[[resp | rid] | e] s'];
      simpl in Ha; eauto 10.
  - unfold Api.render_sync_resume.
    pose proof (render_sync_resume_active rid el s) as Ha.
    unfold Api.render_sync_resume in Ha.
    match goal with
    | |- context [ let (r, s') := ?b in _ ] => destruct b as [r s']
    | |- context [ match ?b with (r, s') => _ end ] => destruct b as [r s']
    end.
    simpl in Ha. eauto 10.
  - unfold Api.render_sync_finally, bind, Api.release_concurrency_slot, ret.
    eauto 10.
  - unfold ret. eauto.
Qed.

(** The invariant: the counter is the number of requests between their
    admission and their release, and stays within the ceiling. *)
Definition admission_inv (s : Sys) : Prop :=
  active_requests (api s) = System.holders (syncs s)
  /\ 0 <= active_requests (api s) <= MAX.

Lemma step_admission_inv (s s' : Sys) :
  0 <= MAX -> System.step acfg wcfg s s' -> admission_inv s -> admission_inv s'.
Proof.
  intros Hmax Hstep [Hcount Hbound]. unfold admission_inv.
  destruct Hstep as [s request | s i pc now el pc' api' Hi Hrun
                    | s request base now r w' Hrun
                    | s cd ad cid aid od jid r w' Hrun
                    | s tools ct r w' Hrun]; simpl; try (split; assumption).
  - rewrite holders_app. unfold System.holders at 2. simpl. split; lia.
  - rewrite (holders_insert _ _ _ pc' Hi).
    pose proof (holders_nonneg (<[i := pc']> (syncs s))) as Hnn.
    rewrite (holders_insert _ _ _ pc' Hi) in Hnn.
    destruct (render_sync_step_cases pc now el (api s)) as (pc1 & s1 & Heq & Hcase).
    rewrite Hrun in Heq. injection Heq as <- <-.
    destruct pc as [request | request | request rid | out | out]; simpl in *.
    + destruct (Z.leb_spec MAX (active_requests (api s))) as [Hfull | Hfree].
      * destruct Hcase as [-> [detail ->]]. simpl. split; lia.
      * destruct Hcase as [-> ->]. simpl. split; lia.
    + destruct Hcase as [-> ->]. simpl. split; lia.
    + destruct Hcase as [-> ->]. simpl. split; lia.
    + destruct Hcase as [-> ->]. simpl in *. split; lia.
    + destruct Hcase as [-> ->]. simpl. split; lia.
Qed.

Lemma reachable_admission_inv (s : Sys) :
  0 <= MAX -> System.reachable acfg wcfg s -> admission_inv s.
Proof.
  intros Hmax (s0 & [Hzero Hnone] & Hrun).
  assert (H0 : admission_inv s0).
  { unfold admission_inv. rewrite Hzero, Hnone. unfold System.holders. simpl.
    split; lia. }
  clear Hzero Hnone.
  induction Hrun as [s | s1 s2 s3 Hstep _ IH]; [ exact H0 |].
  apply IH. exact (step_admission_inv _ _ Hmax Hstep H0).
Qed.

(** C2.  With a ceiling N >= 0, in every state the front door can reach,
    whatever the interleaving of its requests, of the asynchronous
    submissions and of the workers: the counter is between 0 and N and
    counts the requests that hold a slot; a request entering when the
    counter is at N is refused at once with status 429 and changes nothing,
    below N it is admitted and the counter grows by one; a request that
    holds a slot keeps it until its [finally] clause, which every exit of
    the [try] body (response, timeout, error) leads to and which gives the
    slot back; and a step of a request never fails to run. *)
Theorem admission_counter_invariant (s : Sys) :
  0 <= MAX ->
  System.reachable acfg wcfg s ->
  0 <= active_requests (api s) <= MAX
  /\ active_requests (api s) = System.holders (syncs s)
  /\ (forall request,
        Api.render_sync_enter acfg request (api s)
        = if MAX <=? System.holders (syncs s)
          then (Ok (SDone (Raise (HTTPException 429
                  "Too many concurrent requests. Please try again later."))),
                api s)
          else (Ok (SAdmitted request),
                {| active_requests := active_requests (api s) + 1;
                   world := world (api s) |}))
  /\ (forall i pc now_ns elapsed_ms,
        syncs s !! i = Some pc -> System.holds_slot pc = true ->
        exists pc' api',
          Api.render_sync_step acfg pc now_ns elapsed_ms (api s) = (Ok pc', api')
          /\ match pc with
             | SFinally out =>
                 pc' = SDone out
                 /\ active_requests api' = active_requests (api s) - 1
             | _ =>
                 System.holds_slot pc' = true
                 /\ active_requests api' = active_requests (api s)
             end).
Proof.
  intros Hmax Hreach.
  destruct (reachable_admission_inv s Hmax Hreach) as [Hcount Hbound].
  split; [ exact Hbound |]. split; [ exact Hcount |]. split.
  - intros request.
    unfold Api.render_sync_enter, bind, Api.check_concurrency_limit, ret.
    rewrite <- Hcount.
    destruct (MAX <=? active_requests (api s)); reflexivity.
  - intros i pc now el Hi Hholds.
    destruct (render_sync_step_cases pc now el (api s)) as (pc1 & s1 & Heq & Hcase).
    exists pc1, s1. split; [ exact Heq |].
    destruct pc as [request | request | request rid | out | out];
      simpl in Hholds; try discriminate; try exact Hcase.
    destruct Hcase as [-> ->]. split; [ reflexivity |].
    pose proof (holders_insert _ _ _ (SDone out) Hi) as Hins.
    pose proof (holders_nonneg (<[i := SDone out]> (syncs s))) as Hnn.
    rewrite Hins in Hnn. simpl in Hnn. lia.
Qed.

End Admission.

(** A run of the default front door: two requests arrive on an empty store
    and the first one enters. *)
Definition sys0 : Sys :=
  {| api := {| active_requests := 0;
               world := {| redis := Store.empty; trace := [] |} |};
     syncs := [] |}.

Definition hello : RenderRequest :=
  {| text := "Hello world"; voice_id := "V1"; speed := 1 |}.

Definition sys1 : Sys :=
  {| api := {| active_requests := 1;
               world := {| redis := Store.empty; trace := [] |} |};
     syncs := [SAdmitted hello; SNew hello] |}.

Lemma sys1_reachable :
  System.reachable Api.default_config Worker.default_config sys1.
Proof.
  exists sys0. split; [ split; reflexivity |].
  pose (sa := {| api := api sys0; syncs := [SNew hello] |}).
  pose (sb := {| api := api sys0; syncs := [SNew hello; SNew hello] |}).
  apply (rtc_l _ _ sa); [ exact (System.step_arrive _ _ sys0 hello) |].
  apply (rtc_l _ _ sb); [ exact (System.step_arrive _ _ sa hello) |].
  apply (rtc_l _ _ sys1); [| apply rtc_refl ].
  exact (System.step_sync Api.default_config Worker.default_config sb 0%nat
           (SNew hello) 0 0 (SAdmitted hello)
           {| active_requests := 1;
              world := {| redis := Store.empty; trace := [] |} |}
           eq_refl eq_refl).
Qed.

Lemma admission_counter_invariant_witness :
  0 <= active_requests (api sys1) <= 10
  /\ active_requests (api sys1) = System.holders (syncs sys1).
Proof.
  destruct (admission_counter_invariant Api.default_config
              Worker.default_config sys1) as (Hb & Hc & _).
  - simpl. lia.
  - exact sys1_reachable.
  - split; [ exact Hb | exact Hc ].
Defined.

(** ** Running a computation *)

Lemma run_bind {S A B} (c : M S A) (k : A -> M S B) (s : S) :
  bind c k s
  = match c s with
    | (Ok a, s') => k a s'
    | (Raise e, s') => (Raise e, s')
    end.
Proof. reflexivity. Qed.

Lemma getstr_ok {S} (d : dict) (k v : string) (s : S) :
  d !! k = Some (JStr v) -> getstr d k s = (Ok v, s).
Proof.
  intros H. unfold getstr, getitem. rewrite run_bind, H. reflexivity.
Qed.

Lemma getitem_ok {S} (d : dict) (k : string) (v : jval) (s : S) :
  d !! k = Some v -> getitem d k s = (Ok v, s).
Proof. intros H. unfold getitem. rewrite H. reflexivity. Qed.

(** ** Reading documents and traces *)

Lemma get_is_true (d : dict) (k s : string) :
  get_is d k s = true <-> d !! k = Some (JStr s).
Proof.
  unfold get_is. destruct (d !! k) as [v |]; [ destruct v |];
    try (split; intros H; discriminate H).
  rewrite String.eqb_eq. split; [ intros -> | intros [= ->] ]; reflexivity.
Qed.

Lemma get_is_false (d : dict) (k s : string) :
  get_is d k s = false <-> d !! k <> Some (JStr s).
Proof.
  rewrite <- get_is_true. destruct (get_is d k s); split; congruence.
Qed.

Lemma is_terminal_true (d : dict) :
  Worker.is_terminal d = true <-> terminal (status_of d).
Proof.
  unfold Worker.is_terminal, terminal, status_of.
  rewrite orb_true_iff, !get_is_true.
  destruct (d !! "status") as [[| | | | s | | |] |];
    split; intros [H | H]; try discriminate; try (injection H as ->); auto.
Qed.

Lemma writes_to_app (key : string) (t1 t2 : list event) :
  writes_to key (t1 ++ t2) = writes_to key t1 ++ writes_to key t2.
Proof.
  induction t1 as [| [k v | k x | n] t1 IH]; simpl; try exact IH.
  - reflexivity.
  - destruct (String.eqb k key); simpl; rewrite IH; reflexivity.
Qed.

Lemma writes_to_write (key k : string) (v : dict) (t : list event) :
  writes_to key (EvWrite k v :: t)
  = if String.eqb k key then v :: writes_to key t else writes_to key t.
Proof. reflexivity. Qed.

Lemma writes_to_write_ne (key k : string) (v : dict) (t : list event) :
  k <> key -> writes_to key (EvWrite k v :: t) = writes_to key t.
Proof.
  intros Hne. rewrite writes_to_write.
  destruct (String.eqb_spec k key); [ contradiction | reflexivity ].
Qed.

Lemma writes_to_write_eq (key : string) (v : dict) (t : list event) :
  writes_to key (EvWrite key v :: t) = v :: writes_to key t.
Proof. rewrite writes_to_write, String.eqb_refl. reflexivity. Qed.

Lemma writes_to_push (key k : string) (x : item) (t : list event) :
  writes_to key (EvPush k x :: t) = writes_to key t.
Proof. reflexivity. Qed.

Lemma writes_to_tool (key n : string) (t : list event) :
  writes_to key (EvTool n :: t) = writes_to key t.
Proof. reflexivity. Qed.

Lemma writes_to_nil (key : string) : writes_to key [] = [].
Proof. reflexivity. Qed.


(** ** The store *)

Lemma brpop_kv (keys : list string) (r : Redis) :
  kv (snd (Store.brpop keys r)) = kv r.
Proof.
  induction keys as [| k ks IH]; simpl; [ reflexivity |].
  destruct (Store.unsnoc (Store.lrange k r)) as [[front x] |]; [ reflexivity |].
  exact IH.
Qed.

Lemma unsnoc_spec (l : list item) :
  match Store.unsnoc l with
  | Some (front, x) => l = front ++ [x]
  | None => l = []
  end.
Proof.
  induction l as [| a l IH]; simpl; [ reflexivity |].
  destruct (Store.unsnoc l) as [[front x] |].
  - rewrite IH. reflexivity.
  - rewrite IH. reflexivity.
Qed.

Lemma unsnoc_snoc (l : list item) (x : item) :
  Store.unsnoc (l ++ [x]) = Some (l, x).
Proof.
  pose proof (unsnoc_spec (l ++ [x])) as H.
  destruct (Store.unsnoc (l ++ [x])) as [[front y] |].
  - apply app_inj_tail in H as [-> ->]. reflexivity.
  - destruct l; discriminate.
Qed.

(** A pop touches the list it takes from and nothing else. *)
Lemma brpop_spec (keys : list string) (r : Redis) :
  match Store.brpop keys r with
  | (Some (k, x), r') =>
      k ∈ keys
      /\ kv r' = kv r
      /\ (exists front, Store.lrange k r = front ++ [x]
                        /\ Store.lrange k r' = front)
      /\ (forall k', k' <> k -> Store.lrange k' r' = Store.lrange k' r)
  | (None, r') =>
      r' = r /\ forall k, k ∈ keys -> Store.lrange k r = []
  end.
Proof.
  induction keys as [| k ks IH]; simpl.
  - split; [ reflexivity |]. intros k Hk. inversion Hk.
  - pose proof (unsnoc_spec (Store.lrange k r)) as Hu.
    destruct (Store.unsnoc (Store.lrange k r)) as [[front x] |].
    + split; [ left |]. split; [ reflexivity |]. split.
      * exists front. split; [ exact Hu |].
        unfold Store.lrange. simpl. rewrite lookup_insert_eq. reflexivity.
      * intros k' Hne. unfold Store.lrange. simpl.
        rewrite lookup_insert_ne by congruence. reflexivity.
    + destruct (Store.brpop ks r) as [[[k' x] |] r'].
      * destruct IH as (Hin & Hkv & Hl & Ho). split; [ right; exact Hin |].
        auto.
      * destruct IH as [-> Hall]. split; [ reflexivity |].
        intros k0 Hk0. inversion Hk0; subst; auto.
Qed.

Lemma get_setex_eq (k : string) (v : dict) (r : Redis) :
  Store.get k (Store.setex k v r) = Some v.
Proof. unfold Store.get, Store.setex. simpl. apply lookup_insert_eq. Qed.

Lemma get_setex_ne (k k' : string) (v : dict) (r : Redis) :
  k' <> k -> Store.get k (Store.setex k' v r) = Store.get k r.
Proof.
  intros Hne. unfold Store.get, Store.setex. simpl.
  apply lookup_insert_ne. exact Hne.
Qed.

Lemma get_lpush (k k' : string) (x : item) (r : Redis) :
  Store.get k (Store.lpush k' x r) = Store.get k r.
Proof. reflexivity. Qed.

Lemma get_rpush (k k' : string) (x : item) (r : Redis) :
  Store.get k (Store.rpush k' x r) = Store.get k r.
Proof. reflexivity. Qed.

Lemma lrange_setex (k k' : string) (v : dict) (r : Redis) :
  Store.lrange k (Store.setex k' v r) = Store.lrange k r.
Proof. reflexivity. Qed.

Lemma lrange_lpush_eq (k : string) (x : item) (r : Redis) :
  Store.lrange k (Store.lpush k x r) = x :: Store.lrange k r.
Proof.
  unfold Store.lrange at 1, Store.lpush. simpl. rewrite lookup_insert_eq.
  reflexivity.
Qed.

Lemma lrange_lpush_ne (k k' : string) (x : item) (r : Redis) :
  k' <> k -> Store.lrange k (Store.lpush k' x r) = Store.lrange k r.
Proof.
  intros Hne. unfold Store.lrange at 1, Store.lpush. simpl.
  rewrite lookup_insert_ne by exact Hne. reflexivity.
Qed.

Lemma lrange_rpush_eq (k : string) (x : item) (r : Redis) :
  Store.lrange k (Store.rpush k x r) = Store.lrange k r ++ [x].
Proof.
  unfold Store.lrange at 1, Store.rpush. simpl. rewrite lookup_insert_eq.
  reflexivity.
Qed.

Lemma lrange_rpush_ne (k k' : string) (x : item) (r : Redis) :
  k' <> k -> Store.lrange k (Store.rpush k' x r) = Store.lrange k r.
Proof.
  intros Hne. unfold Store.lrange at 1, Store.rpush. simpl.
  rewrite lookup_insert_ne by exact Hne. reflexivity.
Qed.

(** ** No duplicate processing *)

Section WorkerLoop.

Variable tools : Tools.
Variable ct : CaptureTools.
Variable cfg : WorkerConfig.

(** *** Computations that run tools only *)

(** The render pipeline talks to its collaborators and never to the
    store. *)
Definition quiet {A} (c : M World A) : Prop :=
  forall w,
    redis (snd (c w)) = redis w
    /\ forall key, writes_to key (trace (snd (c w))) = writes_to key (trace w).

Lemma quiet_ret {A} (a : A) : quiet (ret a).
Proof. intros w. split; reflexivity. Qed.

Lemma quiet_raise {A} (e : exn) : quiet (@raise World A e).
Proof. intros w. split; reflexivity. Qed.

Lemma quiet_tool (name : string) : quiet (Cmd.tool name).
Proof.
  intros w. split; [ reflexivity |]. intros key. cbn [Cmd.tool snd trace].
  rewrite writes_to_app, writes_to_tool. apply app_nil_r.
Qed.

Lemma quiet_bind {A B} (c : M World A) (k : A -> M World B) :
  quiet c -> (forall a, quiet (k a)) -> quiet (bind c k).
Proof.
  intros Hc Hk w. rewrite run_bind. specialize (Hc w).
  destruct (c w) as [[a | e] w1]; simpl in Hc.
  - destruct (Hk a w1) as [Hr Ht]. destruct Hc as [Hr1 Ht1]. split.
    + rewrite Hr. exact Hr1.
    + intros key. rewrite Ht. apply Ht1.
  - exact Hc.
Qed.

Lemma quiet_try_except {A} (c : M World A) (h : exn -> M World A) :
  quiet c -> (forall e, quiet (h e)) -> quiet (try_except c h).
Proof.
  intros Hc Hh w. unfold try_except. specialize (Hc w).
  destruct (c w) as [[a | e] w1]; simpl in Hc.
  - exact Hc.
  - destruct (Hh e w1) as [Hr Ht]. destruct Hc as [Hr1 Ht1]. split.
    + rewrite Hr. exact Hr1.
    + intros key. rewrite Ht. apply Ht1.
Qed.

Ltac quiet_tac :=
  repeat first
    [ apply quiet_ret | apply quiet_raise | apply quiet_tool
    | apply quiet_bind; [| intros ?]
    | apply quiet_try_except; [| intros ?]
    | match goal with
      | |- quiet (match ?x with _ => _ end) => destruct x
      end ].

Lemma parse_cues_quiet (raw_cues : list RawCue) :
  quiet (Lipsync.parse_cues raw_cues).
Proof.
  induction raw_cues as [| cue rest IH]; simpl.
  - apply quiet_ret.
  - unfold Lipsync.parse_cue, Lipsync.cue_weight, Lipsync.int_truediv,
      Lipsync.int_of_float.
    quiet_tac. exact IH.
Qed.

Lemma pipeline_quiet (rid txt vid : string) (spd : Q) (url : string) :
  quiet (Worker.pipeline tools cfg rid txt vid spd url).
Proof.
  unfold Worker.pipeline, Tts.synthesize_speech, Worker.mouth_cues_of,
    Lipsync.extract_mouth_cues, Lipsync.generate_eye_events,
    Lipsync.parse_rhubarb_output.
  quiet_tac; apply parse_cues_quiet.
Qed.

(** A pipeline that ends hands back a completed document with its
    payload. *)
Lemma pipeline_ok_shape (rid txt vid : string) (spd : Q) (url : string)
  (w w2 : World) (payload : dict) :
  Worker.pipeline tools cfg rid txt vid spd url w = (Ok payload, w2) ->
  payload !! "render_id" = Some (JStr rid)
  /\ payload !! "status" = Some (JStr "completed")
  /\ payload !! "error" = Some JNull
  /\ (exists audio_url, payload !! "audio_url" = Some (JStr audio_url))
  /\ (exists d, payload !! "duration_ms" = Some (JInt d))
  /\ (exists cues, payload !! "mouth_cues" = Some (JCues cues))
  /\ (exists eyes, payload !! "eye_events" = Some (JEyes eyes)).
Proof.
  unfold Worker.pipeline. rewrite run_bind.
  destruct (Tts.synthesize_speech _ _ _ _ _ _ w) as [[tts | e] w1];
    [| discriminate ].
  rewrite run_bind.
  destruct (Worker.mouth_cues_of _ _ _ w1) as [[cues | e] w1'];
    [| discriminate ].
  rewrite run_bind.
  destruct (Lipsync.generate_eye_events _ _ _ w1') as [[eyes | e] w1''];
    [| discriminate ].
  unfold ret. intros [= <- <-].
  repeat split; eauto; simplify_map_eq; eauto.
Qed.

(** *** The steps of a turn on a render job *)

Lemma job_data_fields (acfg : ApiConfig) (request : RenderRequest)
  (rid ck : string) :
  let job := Api.job_data_of acfg request rid ck in
  job !! "render_id" = Some (JStr rid)
  /\ job !! "cache_key" = Some (JStr ck)
  /\ job !! "text" = Some (JStr (text request))
  /\ job !! "voice_id" = Some (JStr (voice_id request))
  /\ job !! "speed" = Some (JFloat (speed request))
  /\ job !! "audio_base_url" = Some (JStr (AUDIO_BASE_URL acfg))
  /\ job !! "type" = None.
Proof. unfold Api.job_data_of. repeat split; simplify_map_eq; reflexivity. Qed.

(** The world when the pipeline starts: the status is set to processing if
    there is a record. *)
Definition at_pipeline_start (rid : string) (w0 : World) : World :=
  snd (Worker.update_result_status rid "processing" w0).

Lemma update_result_status_run (rid st : string) (w0 : World) :
  Worker.update_result_status rid st w0
  = (Ok tt,
     match Store.get (Worker.RESULT_KEY_PREFIX +:+ rid) (redis w0) with
     | Some data =>
         {| redis := Store.setex (Worker.RESULT_KEY_PREFIX +:+ rid)
                       (<["status" := JStr st]> data) (redis w0);
            trace := trace w0
                     ++ [EvWrite (Worker.RESULT_KEY_PREFIX +:+ rid)
                           (<["status" := JStr st]> data)] |}
     | None => w0
     end).
Proof.
  unfold Worker.update_result_status. rewrite run_bind. unfold Cmd.get at 1.
  destruct (Store.get _ (redis w0)); reflexivity.
Qed.

Lemma process_job_run (acfg : ApiConfig) (request : RenderRequest)
  (rid ck : string) (w0 : World) :
  Worker.process_job tools cfg (Api.job_data_of acfg request rid ck) w0
  = match Worker.pipeline tools cfg rid (text request) (voice_id request)
            (speed request) (AUDIO_BASE_URL acfg) (at_pipeline_start rid w0)
    with
    | (Ok payload, w2) => (Ok payload, w2)
    | (Raise e, w2) => (Ok (Worker.failed_result tools rid e), w2)
    end.
Proof.
  destruct (job_data_fields acfg request rid ck)
    as (Hrid & Hck & Htxt & Hvid & Hspd & Hurl & _).
  unfold Worker.process_job.
  rewrite run_bind, (getstr_ok _ _ _ _ Hrid).
  rewrite run_bind, (getstr_ok _ _ _ _ Hck).
  rewrite run_bind, (getstr_ok _ _ _ _ Htxt).
  rewrite run_bind, (getstr_ok _ _ _ _ Hvid).
  rewrite run_bind. unfold getfloat_default at 1. rewrite Hspd. unfold ret at 1.
  rewrite run_bind. unfold getstr_default at 1. rewrite Hurl. unfold ret at 1.
  rewrite run_bind. unfold at_pipeline_start.
  rewrite update_result_status_run. cbn [snd].
  unfold try_except.
  destruct (Worker.pipeline _ _ _ _ _ _ _ _) as [[payload | e] w2]; reflexivity.
Qed.

Definition notify_key_of (rid : string) : string := "avatar:notify:" +:+ rid.

Lemma store_result_completed (result : dict) (ck rid : string) (w2 : World) :
  result !! "render_id" = Some (JStr rid) ->
  result !! "status" = Some (JStr "completed") ->
  Worker.store_result result ck w2
  = (Ok tt,
     {| redis :=
          Store.lpush (notify_key_of rid) (IRaw "ready")
            (Store.setex ck result
               (Store.setex (Worker.RESULT_KEY_PREFIX +:+ rid) result (redis w2)));
        trace := ((trace w2
                   ++ [EvWrite (Worker.RESULT_KEY_PREFIX +:+ rid) result])
                  ++ [EvWrite ck result])
                 ++ [EvPush (notify_key_of rid) (IRaw "ready")] |}).
Proof.
  intros Hrid Hst. unfold Worker.store_result.
  rewrite run_bind, (getstr_ok _ _ _ _ Hrid).
  rewrite run_bind. unfold Cmd.setex at 1.
  rewrite run_bind, (getitem_ok _ _ _ _ Hst).
  reflexivity.
Qed.

Lemma store_result_failed (result : dict) (ck rid : string) (w2 : World) :
  result !! "render_id" = Some (JStr rid) ->
  result !! "status" = Some (JStr "failed") ->
  Worker.store_result result ck w2
  = (Ok tt,
     {| redis :=
          Store.lpush (notify_key_of rid) (IRaw "ready")
            (Store.setex (Worker.RESULT_KEY_PREFIX +:+ rid) result (redis w2));
        trace := (trace w2
                  ++ [EvWrite (Worker.RESULT_KEY_PREFIX +:+ rid) result])
                 ++ [EvPush (notify_key_of rid) (IRaw "ready")] |}).
Proof.
  intros Hrid Hst. unfold Worker.store_result.
  rewrite run_bind, (getstr_ok _ _ _ _ Hrid).
  rewrite run_bind. unfold Cmd.setex at 1.
  rewrite run_bind, (getitem_ok _ _ _ _ Hst).
  reflexivity.
Qed.

Lemma failed_result_fields (rid : string) (e : exn) :
  let result := Worker.failed_result tools rid e in
  result !! "render_id" = Some (JStr rid)
  /\ result !! "status" = Some (JStr "failed")
  /\ result !! "error" = Some (JStr (str_exn e)).
Proof. unfold Worker.failed_result. repeat split; simplify_map_eq; reflexivity. Qed.

(** The loop on a render job it has popped. *)
Lemma loop_body_render (w : World) (q : string) (job : dict) (rd : Redis) :
  Store.brpop [Worker.JOB_QUEUE_KEY; Worker.CAPTURE_JOB_QUEUE_KEY] (redis w)
  = (Some (q, IJson job), rd) ->
  job !! "type" <> Some (JStr "capture_processing") ->
  Worker.loop_body tools ct cfg w
  = Worker.handle_render tools cfg job {| redis := rd; trace := trace w |}.
Proof.
  intros Hpop Htype. unfold Worker.loop_body, bind, Cmd.brpop.
  rewrite Hpop. apply get_is_false in Htype. rewrite Htype. reflexivity.
Qed.

(** A turn on a render job whose record is terminal: the pop and nothing
    else. *)
Lemma turn_skipped
  (w : World) (q : string) (job : dict) (rd : Redis) (rid : string)
  (existing : dict) :
  Store.brpop [Worker.JOB_QUEUE_KEY; Worker.CAPTURE_JOB_QUEUE_KEY] (redis w)
  = (Some (q, IJson job), rd) ->
  job !! "type" <> Some (JStr "capture_processing") ->
  job !! "render_id" = Some (JStr rid) ->
  Store.get (Worker.RESULT_KEY_PREFIX +:+ rid) (redis w) = Some existing ->
  terminal (status_of existing) ->
  Worker.iteration tools ct cfg w = (Ok tt, {| redis := rd; trace := trace w |}).
Proof.
  intros Hpop Htype Hrid Hex Hterm.
  pose proof (brpop_spec [Worker.JOB_QUEUE_KEY; Worker.CAPTURE_JOB_QUEUE_KEY]
                (redis w)) as Hspec.
  rewrite Hpop in Hspec. destruct Hspec as (_ & Hkv & _ & _).
  unfold Worker.iteration, try_except.
  rewrite (loop_body_render w q job rd Hpop Htype).
  unfold Worker.handle_render.
  rewrite run_bind, (getstr_ok _ _ _ _ Hrid).
  rewrite run_bind. unfold Cmd.get at 1, Store.get. cbn [redis].
  unfold Store.get in Hex. rewrite Hkv, Hex.
  apply is_terminal_true in Hterm. rewrite Hterm. reflexivity.
Qed.

(** C3.  When the worker pops a render job whose ResultRecord already has
    the status completed or failed, the turn of the loop ends there: no
    tool is run and nothing is written (no result, no cache entry, no
    notification); the store differs only by the popped job. *)
Theorem no_duplicate_processing
  (w : World) (q : string) (job : dict) (rd : Redis) (rid : string)
  (existing : dict) :
  Store.brpop [Worker.JOB_QUEUE_KEY; Worker.CAPTURE_JOB_QUEUE_KEY] (redis w)
  = (Some (q, IJson job), rd) ->
  job !! "type" <> Some (JStr "capture_processing") ->
  job !! "render_id" = Some (JStr rid) ->
  Store.get (Worker.RESULT_KEY_PREFIX +:+ rid) (redis w) = Some existing ->
  terminal (status_of existing) ->
  exists w',
    Worker.iteration tools ct cfg w = (Ok tt, w')
    /\ trace w' = trace w
    /\ tools_run (trace w') = tools_run (trace w)
    /\ kv (redis w') = kv (redis w)
    /\ (forall k, k <> q ->
          Store.lrange k (redis w') = Store.lrange k (redis w))
    /\ redis w' = rd.
Proof.
  intros Hpop Htype Hrid Hex Hterm.
  exists {| redis := rd; trace := trace w |}.
  pose proof (brpop_spec [Worker.JOB_QUEUE_KEY; Worker.CAPTURE_JOB_QUEUE_KEY]
                (redis w)) as Hspec.
  rewrite Hpop in Hspec. destruct Hspec as (_ & Hkv & _ & Hothers).
  split; [| simpl; auto ].
  exact (turn_skipped w q job rd rid existing Hpop Htype Hrid Hex Hterm).
Qed.

(** The notification list of a render is none of the two job queues. *)
Lemma notify_key_not_queue (rid q : string) :
  q ∈ [Worker.JOB_QUEUE_KEY; Worker.CAPTURE_JOB_QUEUE_KEY] ->
  notify_key_of rid <> q.
Proof.
  intros Hq Heq. subst q.
  apply elem_of_cons in Hq as [Hq | Hq];
    [| apply elem_of_cons in Hq as [Hq | Hq]; [| inversion Hq ] ];
    unfold notify_key_of in Hq; simpl in Hq; discriminate Hq.
Qed.

(** What a turn of the loop does with a render job of the front door that
    the guard lets through. *)
Lemma handle_render_run (acfg : ApiConfig) (request : RenderRequest)
  (rid ck : string) (w0 : World) :
  (forall existing,
      Store.get (Worker.RESULT_KEY_PREFIX +:+ rid) (redis w0) = Some existing ->
      ~ terminal (status_of existing)) ->
  Worker.handle_render tools cfg (Api.job_data_of acfg request rid ck) w0
  = match Worker.pipeline tools cfg rid (text request) (voice_id request)
            (speed request) (AUDIO_BASE_URL acfg) (at_pipeline_start rid w0)
    with
    | (Ok payload, w2) => Worker.store_result payload ck w2
    | (Raise e, w2) =>
        Worker.store_result (Worker.failed_result tools rid e) ck w2
    end.
Proof.
  intros Hguard.
  destruct (job_data_fields acfg request rid ck)
    as (Hrid & Hck & _).
  unfold Worker.handle_render.
  rewrite run_bind, (getstr_ok _ _ _ _ Hrid).
  rewrite run_bind. unfold Cmd.get at 1.
  assert (Hskip : match Store.get (Worker.RESULT_KEY_PREFIX +:+ rid) (redis w0)
                  with
                  | Some existing_data => Worker.is_terminal existing_data
                  | None => false
                  end = false).
  { destruct (Store.get _ (redis w0)) as [existing |] eqn:Hex; [| reflexivity ].
    specialize (Hguard existing eq_refl).
    destruct (Worker.is_terminal existing) eqn:Ht; [| reflexivity ].
    apply is_terminal_true in Ht. contradiction. }
  rewrite Hskip. rewrite run_bind, process_job_run.
  destruct (Worker.pipeline _ _ _ _ _ _ _ _) as [[payload | e] w2];
    rewrite run_bind, (getstr_ok _ _ _ _ Hck); reflexivity.
Qed.

(** C4.  A turn of the loop on a render job made by the front door, when
    the guard lets it through, ends normally (nothing is raised, neither
    out of the loop nor to its handlers) and leaves a terminal record
    under the job's render id:
    - if the pipeline ends, the record is its completed document, payload
      included, the same document is written under the job's cache key,
      and the last three events of the turn are the write of the record,
      the write of the cache entry and the push of the notification;
    - if the pipeline raises at any stage, the record has the status
      failed and carries the message of the error, the last two events are
      the write of the record and the push of the notification, and the
      cache key is neither written nor changed.
    In both cases the notification list of the render gets one more
    token. *)
Theorem render_job_outcome (acfg : ApiConfig) (request : RenderRequest)
  (rid ck : string) (w : World) (q : string) (rd : Redis) :
  Store.brpop [Worker.JOB_QUEUE_KEY; Worker.CAPTURE_JOB_QUEUE_KEY] (redis w)
  = (Some (q, IJson (Api.job_data_of acfg request rid ck)), rd) ->
  (forall existing,
      Store.get (Worker.RESULT_KEY_PREFIX +:+ rid) (redis w) = Some existing ->
      ~ terminal (status_of existing)) ->
  exists result w',
    Worker.loop_body tools ct cfg w = (Ok tt, w')
    /\ Worker.iteration tools ct cfg w = (Ok tt, w')
    /\ Store.get (Worker.RESULT_KEY_PREFIX +:+ rid) (redis w') = Some result
    /\ terminal (status_of result)
    /\ Store.lrange (notify_key_of rid) (redis w')
       = IRaw "ready" :: Store.lrange (notify_key_of rid) (redis w)
    /\ match Worker.pipeline tools cfg rid (text request) (voice_id request)
               (speed request) (AUDIO_BASE_URL acfg)
               (at_pipeline_start rid {| redis := rd; trace := trace w |})
       with
       | (Ok payload, w2) =>
           result = payload
           /\ status_of result = Some "completed"
           /\ (exists audio_url d cues eyes,
                 result !! "audio_url" = Some (JStr audio_url)
                 /\ result !! "duration_ms" = Some (JInt d)
                 /\ result !! "mouth_cues" = Some (JCues cues)
                 /\ result !! "eye_events" = Some (JEyes eyes))
           /\ Store.get ck (redis w') = Some result
           /\ trace w'
              = trace w2
                ++ [EvWrite (Worker.RESULT_KEY_PREFIX +:+ rid) result;
                    EvWrite ck result;
                    EvPush (notify_key_of rid) (IRaw "ready")]
       | (Raise e, w2) =>
           status_of result = Some "failed"
           /\ result !! "error" = Some (JStr (str_exn e))
           /\ trace w'
              = trace w2
                ++ [EvWrite (Worker.RESULT_KEY_PREFIX +:+ rid) result;
                    EvPush (notify_key_of rid) (IRaw "ready")]
           /\ (ck <> Worker.RESULT_KEY_PREFIX +:+ rid ->
               Store.get ck (redis w') = Store.get ck (redis w)
               /\ writes_to ck (trace w') = writes_to ck (trace w))
       end.
Proof.
  intros Hpop Hguard.
  set (rkey := Worker.RESULT_KEY_PREFIX +:+ rid) in *.
  set (w0 := {| redis := rd; trace := trace w |}).
  pose proof (brpop_spec [Worker.JOB_QUEUE_KEY; Worker.CAPTURE_JOB_QUEUE_KEY]
                (redis w)) as Hspec.
  rewrite Hpop in Hspec. destruct Hspec as (Hq & Hkv & _ & Hothers).
  assert (Hget0 : forall k, Store.get k (redis w0) = Store.get k (redis w)).
  { intros k. unfold Store.get. simpl. rewrite Hkv. reflexivity. }
  assert (Hguard0 : forall existing,
             Store.get rkey (redis w0) = Some existing ->
             ~ terminal (status_of existing)).
  { intros existing. rewrite Hget0. apply Hguard. }
  assert (Hbody : Worker.loop_body tools ct cfg w
                  = Worker.handle_render tools cfg
                      (Api.job_data_of acfg request rid ck) w0).
  { apply (loop_body_render w q _ rd Hpop).
    destruct (job_data_fields acfg request rid ck) as (_ & _ & _ & _ & _ & _ & Ht).
    rewrite Ht. discriminate. }
  unfold Worker.iteration, try_except. rewrite Hbody.
  rewrite (handle_render_run acfg request rid ck w0 Hguard0).
  (* the world when the pipeline starts *)
  assert (Hstart : (forall k, k <> rkey ->
                       Store.get k (redis (at_pipeline_start rid w0))
                       = Store.get k (redis w))
                   /\ (forall k, Store.lrange k (redis (at_pipeline_start rid w0))
                                 = Store.lrange k rd)
                   /\ (forall k, k <> rkey ->
                         writes_to k (trace (at_pipeline_start rid w0))
                         = writes_to k (trace w))).
  { unfold at_pipeline_start. rewrite update_result_status_run. cbn [snd].
    fold rkey. destruct (Store.get rkey (redis w0)) as [data |].
    - cbn [redis trace]. split; [| split ].
      + intros k Hk. rewrite get_setex_ne by congruence. apply Hget0.
      + intros k. apply lrange_setex.
      + intros k Hk. rewrite writes_to_app.
        rewrite writes_to_write_ne by congruence. apply app_nil_r.
    - split; [| split ]; intros; auto. }
  destruct Hstart as (Hget1 & Hl1 & Hw1).
  pose proof (pipeline_quiet rid (text request) (voice_id request)
                (speed request) (AUDIO_BASE_URL acfg)
                (at_pipeline_start rid w0)) as [Hredis2 Hw2].
  pose proof (notify_key_not_queue rid q Hq) as Hnq.
  destruct (Worker.pipeline _ _ _ _ _ _ _ _) as [[payload | e] w2] eqn:Hp;
    cbn [snd] in Hredis2, Hw2.
  - destruct (pipeline_ok_shape _ _ _ _ _ _ _ _ Hp)
      as (Hrid & Hst & _ & Hurl & Hdur & Hcues & Heyes).
    rewrite (store_result_completed payload ck rid w2 Hrid Hst).
    eexists payload, _. split; [ reflexivity |]. split; [ reflexivity |].
    cbn [redis trace]. fold rkey.
    split.
    { rewrite get_lpush.
      destruct (String.eqb_spec ck rkey) as [-> | Hne].
      - apply get_setex_eq.
      - rewrite get_setex_ne by exact Hne. apply get_setex_eq. }
    split; [ left; unfold status_of; rewrite Hst; reflexivity |].
    split.
    { rewrite lrange_lpush_eq, !lrange_setex, Hredis2, Hl1.
      rewrite (Hothers _ Hnq). reflexivity. }
    split; [ reflexivity |].
    split; [ unfold status_of; rewrite Hst; reflexivity |].
    split.
    { destruct Hurl as [u Hu], Hdur as [d Hd], Hcues as [c Hc], Heyes as [y Hy].
      exists u, d, c, y. auto. }
    split; [ rewrite get_lpush; apply get_setex_eq |].
    rewrite <- !app_assoc. reflexivity.
  - destruct (failed_result_fields rid e) as (Hrid & Hst & Herr).
    rewrite (store_result_failed _ ck rid w2 Hrid Hst).
    eexists (Worker.failed_result tools rid e), _.
    split; [ reflexivity |]. split; [ reflexivity |].
    cbn [redis trace]. fold rkey.
    split; [ rewrite get_lpush; apply get_setex_eq |].
    split; [ right; unfold status_of; rewrite Hst; reflexivity |].
    split.
    { rewrite lrange_lpush_eq, !lrange_setex, Hredis2, Hl1.
      rewrite (Hothers _ Hnq). reflexivity. }
    split; [ unfold status_of; rewrite Hst; reflexivity |].
    split; [ exact Herr |].
    split; [ rewrite <- !app_assoc; reflexivity |].
    intros Hck. split.
    + rewrite get_lpush, get_setex_ne by congruence.
      rewrite Hredis2. apply Hget1. exact Hck.
    + rewrite !writes_to_app, writes_to_push.
      rewrite writes_to_write_ne by congruence.
      rewrite !writes_to_nil, !app_nil_r, Hw2. apply Hw1. exact Hck.
Qed.


End WorkerLoop.

(** ** The order of service of the two queues *)

Section Queues.

Local Abbreviation QUEUES :=
  [Worker.JOB_QUEUE_KEY; Worker.CAPTURE_JOB_QUEUE_KEY].

(** What [n] successive blocking pops of a worker yield. *)
Fixpoint pops (n : nat) (r : Redis) : list (string * item) :=
  match n with
  | O => []
  | S n' =>
      match Store.brpop QUEUES r with
      | (Some x, r') => x :: pops n' r'
      | (None, _) => []
      end
  end.

Lemma queue_keys_differ : Worker.JOB_QUEUE_KEY <> Worker.CAPTURE_JOB_QUEUE_KEY.
Proof. discriminate. Qed.

Lemma brpop_render (r : Redis) (front : list item) (x : item) :
  Store.lrange Worker.JOB_QUEUE_KEY r = front ++ [x] ->
  exists r',
    Store.brpop QUEUES r = (Some (Worker.JOB_QUEUE_KEY, x), r')
    /\ Store.lrange Worker.JOB_QUEUE_KEY r' = front
    /\ Store.lrange Worker.CAPTURE_JOB_QUEUE_KEY r'
       = Store.lrange Worker.CAPTURE_JOB_QUEUE_KEY r.
Proof.
  intros Hl. cbn [Store.brpop]. rewrite Hl, unsnoc_snoc.
  eexists. split; [ reflexivity |]. split.
  - unfold Store.lrange. cbn [lists]. rewrite lookup_insert_eq. reflexivity.
  - unfold Store.lrange. cbn [lists].
    rewrite lookup_insert_ne by exact queue_keys_differ. reflexivity.
Qed.

Lemma brpop_capture (r : Redis) (front : list item) (x : item) :
  Store.lrange Worker.JOB_QUEUE_KEY r = [] ->
  Store.lrange Worker.CAPTURE_JOB_QUEUE_KEY r = front ++ [x] ->
  exists r',
    Store.brpop QUEUES r = (Some (Worker.CAPTURE_JOB_QUEUE_KEY, x), r')
    /\ Store.lrange Worker.JOB_QUEUE_KEY r' = []
    /\ Store.lrange Worker.CAPTURE_JOB_QUEUE_KEY r' = front.
Proof.
  intros Hj Hl. cbn [Store.brpop]. rewrite Hj. cbn [Store.unsnoc].
  rewrite Hl, unsnoc_snoc.
  eexists. split; [ reflexivity |]. split.
  - unfold Store.lrange. cbn [lists].
    rewrite lookup_insert_ne by (intros H; symmetry in H; exact (queue_keys_differ H)).
    exact Hj.
  - unfold Store.lrange. cbn [lists]. rewrite lookup_insert_eq. reflexivity.
Qed.

(** The render queue, filled by [enqueue_job] at the head and emptied from
    the end, serves first in, first out. *)
Lemma render_pops_fifo (jobs : list item) (r : Redis) :
  Store.lrange Worker.JOB_QUEUE_KEY r = rev jobs ->
  pops (length jobs) r = map (fun j => (Worker.JOB_QUEUE_KEY, j)) jobs.
Proof.
  revert r. induction jobs as [| j jobs IH]; intros r Hl; [ reflexivity |].
  simpl in Hl. destruct (brpop_render r (rev jobs) j Hl) as (r' & Hpop & Hl' & _).
  cbn [length pops]. rewrite Hpop. cbn [map]. f_equal. apply IH. exact Hl'.
Qed.

Fixpoint enqueue_all (jobs : list dict) : M World unit :=
  match jobs with
  | [] => ret tt
  | j :: js => Valkey.enqueue_job j ;;; enqueue_all js
  end.

Lemma enqueue_all_lrange (jobs : list dict) (w : World) :
  Store.lrange Worker.JOB_QUEUE_KEY (redis (snd (enqueue_all jobs w)))
  = rev (map IJson jobs) ++ Store.lrange Worker.JOB_QUEUE_KEY (redis w).
Proof.
  revert w. induction jobs as [| j js IH]; intros w; [ reflexivity |].
  cbn [enqueue_all]. rewrite run_bind.
  unfold Valkey.enqueue_job, Cmd.lpush at 1. rewrite IH. cbn [redis].
  change Valkey.JOB_QUEUE_KEY with Worker.JOB_QUEUE_KEY.
  rewrite lrange_lpush_eq. cbn [map rev]. rewrite <- app_assoc. reflexivity.
Qed.

Lemma render_queue_fifo (jobs : list dict) (w : World) :
  Store.lrange Worker.JOB_QUEUE_KEY (redis w) = [] ->
  pops (length jobs) (redis (snd (enqueue_all jobs w)))
  = map (fun j => (Worker.JOB_QUEUE_KEY, IJson j)) jobs.
Proof.
  intros Hempty.
  pose proof (render_pops_fifo (map IJson jobs) (redis (snd (enqueue_all jobs w)))) as H.
  rewrite length_map, map_map in H. apply H.
  rewrite enqueue_all_lrange, Hempty. apply app_nil_r.
Qed.

(** The capture queue is filled by [push_job] at the end, where the pop
    takes from: it serves last in, first out. *)
Lemma capture_pops_lifo (jobs : list item) (r : Redis) :
  Store.lrange Worker.JOB_QUEUE_KEY r = [] ->
  Store.lrange Worker.CAPTURE_JOB_QUEUE_KEY r = jobs ->
  pops (length jobs) r
  = map (fun j => (Worker.CAPTURE_JOB_QUEUE_KEY, j)) (rev jobs).
Proof.
  revert r. induction jobs as [| j jobs IH] using rev_ind; intros r Hj Hl;
    [ reflexivity |].
  destruct (brpop_capture r jobs j Hj Hl) as (r' & Hpop & Hj' & Hl').
  rewrite length_app, Nat.add_comm. cbn [length Nat.add pops].
  rewrite Hpop, rev_app_distr. cbn [rev app map]. f_equal.
  apply IH; assumption.
Qed.

(** What a submission of a capture job leaves in the store. *)
Lemma process_capture_run (cd ad cid aid jid : string) (w : World) :
  let job := Api.capture_job_data cd ad cid aid jid in
  let status := Api.initial_status aid jid in
  Api.process_capture cd ad cid aid true jid w
  = (Ok (jid, "queued"),
     {| redis := Store.rpush Api.CAPTURE_JOB_QUEUE_KEY (IJson job)
                   (Store.setex (Api.CAPTURE_JOB_STATUS_PREFIX +:+ jid)
                      status (redis w));
        trace := (trace w
                  ++ [EvWrite (Api.CAPTURE_JOB_STATUS_PREFIX +:+ jid) status])
                 ++ [EvPush Api.CAPTURE_JOB_QUEUE_KEY (IJson job)] |}).
Proof. reflexivity. Qed.

Lemma capture_job_data_fields (cd ad cid aid jid : string) :
  let job := Api.capture_job_data cd ad cid aid jid in
  job !! "job_id" = Some (JStr jid)
  /\ job !! "capture_id" = Some (JStr cid)
  /\ job !! "avatar_id" = Some (JStr aid)
  /\ job !! "capture_path" = Some (JStr (OsPath.join cd (cid +:+ ".webm")))
  /\ job !! "avatars_dir" = Some (JStr ad)
  /\ job !! "type" = Some (JStr "capture_processing").
Proof.
  unfold Api.capture_job_data. repeat split; simplify_map_eq; reflexivity.
Qed.

(** C5, on the capture queue.  Two capture jobs A and B are submitted in
    this order while both queues are empty: the first blocking pop of a
    worker yields B, and A comes second.  (On the render queue the order is
    first in, first out: [render_queue_fifo].) *)
Theorem capture_queue_serves_last_first
  (cd ad cidA aidA jidA cidB aidB jidB : string) (w : World) :
  Store.lrange Worker.JOB_QUEUE_KEY (redis w) = [] ->
  Store.lrange Worker.CAPTURE_JOB_QUEUE_KEY (redis w) = [] ->
  let wA := snd (Api.process_capture cd ad cidA aidA true jidA w) in
  let wB := snd (Api.process_capture cd ad cidB aidB true jidB wA) in
  exists jobA jobB,
    pops 2 (redis wB)
    = [ (Worker.CAPTURE_JOB_QUEUE_KEY, IJson jobB);
        (Worker.CAPTURE_JOB_QUEUE_KEY, IJson jobA) ]
    /\ jobA !! "job_id" = Some (JStr jidA)
    /\ jobB !! "job_id" = Some (JStr jidB).
Proof.
  intros Hj Hc wA wB.
  exists (Api.capture_job_data cd ad cidA aidA jidA),
         (Api.capture_job_data cd ad cidB aidB jidB).
  split; [| split; apply capture_job_data_fields ].
  subst wB. rewrite process_capture_run. cbn [snd redis].
  subst wA. rewrite process_capture_run. cbn [snd redis].
  change Api.CAPTURE_JOB_QUEUE_KEY with Worker.CAPTURE_JOB_QUEUE_KEY.
  apply (capture_pops_lifo
           [IJson (Api.capture_job_data cd ad cidA aidA jidA);
            IJson (Api.capture_job_data cd ad cidB aidB jidB)]).
  - rewrite lrange_rpush_ne by (intros H; symmetry in H; exact (queue_keys_differ H)).
    rewrite lrange_setex.
    rewrite lrange_rpush_ne by (intros H; symmetry in H; exact (queue_keys_differ H)).
    rewrite lrange_setex. exact Hj.
  - rewrite lrange_rpush_eq, lrange_setex, lrange_rpush_eq, lrange_setex, Hc.
    reflexivity.
Qed.

End Queues.

(** ** A run of the services *)

(** Tools that work: no voice model but the default one is installed,
    Piper speaks with the default model only, every conversion succeeds and
    Rhubarb hears three cues. *)
Definition tools_ok : Tools :=
  {| path_exists := fun _ => false;
     piper := fun model _ _ =>
       if String.eqb model (PIPER_MODEL Worker.default_config)
       then ProcExit 0 EmptyString
       else ProcExit 1 "unable to load model";
     wav_created := fun _ => true;
     audio_duration_ms := fun _ => 920;
     ogg_converted := fun _ => true;
     file_size := fun _ => 4096;
     ffmpeg_wav := fun _ _ => Some true;
     rhubarb := fun _ _ =>
       (ProcExit 0 EmptyString,
        Json (Some [ {| start := 0; end_ := 1 # 2; value := "X" |};
                     {| start := 1 # 2; end_ := 57 # 100; value := "A" |};
                     {| start := 57 # 100; end_ := 92 # 100; value := "E" |} ]));
     eye_events := fun _ _ =>
       [ {| e_t_ms := 600; event_type := "blink"; e_duration_ms := 150;
            direction := None |} ];
     elapsed_ms := 350 |}.


Definition ct_ok : CaptureTools :=
  {| makedirs := None;
     normalize_video := true;
     extract_base_face := true;
     extract_idle_video := true;
     generate_anchor_timeline := None;
     extract_viseme_frames := None;
     extract_eye_frames := None;
     create_masks := None;
     create_mouth_spritesheet := None;
     create_manifest := None;
     create_zip := None;
     remove_normalized := None |}.

(** A capture whose video cannot be normalized. *)
Definition ct_bad_video : CaptureTools :=
  {| makedirs := None;
     normalize_video := false;
     extract_base_face := true;
     extract_idle_video := true;
     generate_anchor_timeline := None;
     extract_viseme_frames := None;
     extract_eye_frames := None;
     create_masks := None;
     create_mouth_spritesheet := None;
     create_manifest := None;
     create_zip := None;
     remove_normalized := None |}.

Definition w_empty : World := {| redis := Store.empty; trace := [] |}.

Definition t1 : Z := 1700000000000000000.
Definition t2 : Z := 1700000060000000000.

(** "Hello world" is submitted asynchronously on an empty store ... *)
Definition w_submitted : World :=
  snd (Api.render_async Api.default_config hello "http://localhost:8000/" t1
         w_empty).

(** ... a worker takes the job and completes it ... *)
Definition w_completed : World :=
  snd (Worker.iteration tools_ok ct_ok Worker.default_config w_submitted).

(** ... and the same request is submitted again a minute later. *)
Definition second_submission : res AsyncRenderResponse * World :=
  Api.render_async Api.default_config hello "http://localhost:8000/" t2
    w_completed.

Definition rid1 : string := Valkey.generate_render_id "V1" 1 "Hello world" t1.
Definition rid2 : string := Valkey.generate_render_id "V1" 1 "Hello world" t2.

(** ** The life of a ResultRecord *)







Lemma truthy_some (o : option dict) (d : dict) :
  o = Some d -> d <> ∅ -> truthy o = Some d.
Proof.
  intros -> Hne. unfold truthy, dict_truthy.
  destruct (map_to_list d) eqn:Hl; [| reflexivity ].
  apply map_to_list_empty_iff in Hl. contradiction.
Qed.






(** ** The asynchronous submission that hits the cache *)

(** C9, as the code has it.  When the fingerprint of an asynchronous
    submission hits the cache, the front door writes the cached document as
    the ResultRecord of the render id found in that document (the id of the
    job that produced it; the tail of the cache key if the document has
    none), draws no fresh id and enqueues nothing, and returns that id with
    status completed; polling the returned id yields the cached
    document. *)
Theorem async_cache_hit (acfg : ApiConfig) (request : RenderRequest)
  (base : string) (now : Z) (w : World) (cached : dict) (rid0 : string) :
  Store.get (Api.cache_key_of request) (redis w) = Some cached ->
  cached <> ∅ ->
  Api.cached_render_id cached (Api.cache_key_of request) = JStr rid0 ->
  exists w',
    Api.render_async acfg request base now w
    = (Ok {| a_render_id := rid0; a_status := "completed";
             poll_url := Api.poll_url_of base rid0 |}, w')
    /\ (cached !! "render_id" = Some (JStr rid0)
        \/ (cached !! "render_id" = None
            /\ rid0 = PyStr.after_last ":"%char (Api.cache_key_of request)))
    /\ Store.get (Valkey.result_key rid0) (redis w') = Some cached
    /\ trace w' = trace w ++ [EvWrite (Valkey.result_key rid0) cached]
    /\ lists (redis w') = lists (redis w)
    /\ Api.get_render_status rid0 w' = (Ok cached, w').
Proof.
  intros Hget Hne Hrid.
  exists {| redis := Store.setex (Valkey.result_key rid0) cached (redis w);
            trace := trace w ++ [EvWrite (Valkey.result_key rid0) cached] |}.
  split.
  { unfold Api.render_async. rewrite run_bind.
    unfold Valkey.get_cached_result, Cmd.get at 1.
    rewrite (truthy_some _ _ Hget Hne), Hrid. reflexivity. }
  split.
  { unfold Api.cached_render_id in Hrid.
    destruct (cached !! "render_id") as [v |]; simpl in Hrid.
    - left. rewrite Hrid. reflexivity.
    - right. injection Hrid as <-. split; reflexivity. }
  cbn [redis trace]. split; [ apply get_setex_eq |].
  split; [ reflexivity |]. split; [ reflexivity |].
  unfold Api.get_render_status. rewrite run_bind.
  unfold Valkey.get_result, Cmd.get at 1. cbn [redis].
  rewrite get_setex_eq. reflexivity.
Qed.

(** The document the worker has cached for "Hello world". *)
Definition cached_hello : dict :=
  default ∅ (Store.get (Api.cache_key_of hello) (redis w_completed)).

Lemma async_cache_hit_witness :
  exists w',
    second_submission
    = (Ok {| a_render_id := rid1; a_status := "completed";
             poll_url := Api.poll_url_of "http://localhost:8000/" rid1 |}, w')
    /\ Api.get_render_status rid1 w' = (Ok cached_hello, w').
Proof.
  destruct (async_cache_hit Api.default_config hello "http://localhost:8000/"
              t2 w_completed cached_hello rid1) as (w' & Hrun & _ & _ & _ & _ & Hpoll).
  - by_compute.
  - by_compute.
  - by_compute.
  - exists w'. split; [ exact Hrun | exact Hpoll ].
Defined.

(** C9 as stated fails: the second submission of "Hello world", a minute
    after the first, hits the cache and is answered with the render id of
    the first submission; that id is not the one this submission would
    draw, under which no record is written. *)
Lemma async_hit_reuses_render_id :
  fst second_submission
  = Ok {| a_render_id := rid1; a_status := "completed";
          poll_url := "http://localhost:8000/v1/avatar/render/" +:+ rid1 |}
  /\ rid1
     <> Valkey.generate_render_id (voice_id hello) (speed hello) (text hello) t2
  /\ Store.get (Valkey.result_key
                  (Valkey.generate_render_id (voice_id hello) (speed hello)
                     (text hello) t2))
       (redis (snd second_submission)) = None
  /\ Store.get (Valkey.result_key rid1) (redis (snd second_submission))
     = Some cached_hello.
Proof.
  split; [ by_compute |]. split; [ by_compute |].
  split; by_compute.
Qed.

(** ** Witnesses for the worker loop *)

(** A stale copy of the job of "Hello world" arrives after its record is
    completed. *)
Definition job_hello : dict :=
  Api.job_data_of Api.default_config hello rid1 (Api.cache_key_of hello).

Definition w_stale : World :=
  {| redis := Store.lpush Worker.JOB_QUEUE_KEY (IJson job_hello)
                (redis w_completed);
     trace := trace w_completed |}.

Definition QUEUE_KEYS : list string :=
  [Worker.JOB_QUEUE_KEY; Worker.CAPTURE_JOB_QUEUE_KEY].

Lemma no_duplicate_processing_witness :
  exists w',
    Worker.iteration tools_ok ct_ok Worker.default_config w_stale = (Ok tt, w')
    /\ trace w' = trace w_stale.
Proof.
  destruct (no_duplicate_processing tools_ok ct_ok Worker.default_config
              w_stale Worker.JOB_QUEUE_KEY job_hello
              (snd (Store.brpop QUEUE_KEYS (redis w_stale))) rid1 cached_hello)
    as (w' & Hrun & Htrace & _).
  - by_compute.
  - by_compute.
  - by_compute.
  - by_compute.
  - left. by_compute.
  - exists w'. split; [ exact Hrun | exact Htrace ].
Defined.

Lemma render_job_outcome_witness :
  exists result w',
    Worker.iteration tools_ok ct_ok Worker.default_config w_submitted
    = (Ok tt, w')
    /\ Store.get (Worker.RESULT_KEY_PREFIX +:+ rid1) (redis w') = Some result
    /\ terminal (status_of result).
Proof.
  destruct (render_job_outcome tools_ok ct_ok Worker.default_config
              Api.default_config hello rid1 (Api.cache_key_of hello)
              w_submitted Worker.JOB_QUEUE_KEY
              (snd (Store.brpop QUEUE_KEYS (redis w_submitted))))
    as (result & w' & _ & Hrun & Hget & Hterm & _).
  - by_compute.
  - intros existing Hex.
    assert (Hpending : Store.get (Worker.RESULT_KEY_PREFIX +:+ rid1)
                         (redis w_submitted)
                       = Some (<["render_id" := JStr rid1]>
                                 (<["status" := JStr "pending"]> ∅)))
      by by_compute.
    rewrite Hpending in Hex. injection Hex as <-.
    unfold status_of. rewrite lookup_insert_ne by discriminate.
    rewrite lookup_insert_eq. intros [H | H]; discriminate H.
  - exists result, w'. split; [ exact Hrun |]. split; [ exact Hget | exact Hterm ].
Defined.

Lemma capture_queue_serves_last_first_witness :
  exists jobA jobB,
    pops 2 (redis (snd (Api.process_capture "/data/captures" "/data/avatars"
                          "capture-b" "bob" true "job-b"
                          (snd (Api.process_capture "/data/captures"
                                  "/data/avatars" "capture-a" "alice" true
                                  "job-a" w_empty)))))
    = [ (Worker.CAPTURE_JOB_QUEUE_KEY, IJson jobB);
        (Worker.CAPTURE_JOB_QUEUE_KEY, IJson jobA) ]
    /\ jobA !! "job_id" = Some (JStr "job-a")
    /\ jobB !! "job_id" = Some (JStr "job-b").
Proof.
  apply (capture_queue_serves_last_first "/data/captures" "/data/avatars"
           "capture-a" "alice" "job-a" "capture-b" "bob" "job-b" w_empty);
    reflexivity.
Defined.

(** ** Unsupported voices *)






(** ** Triples for computations on the world *)

(** From a world in [P], the computation ends in [Q] or raises in [E]. *)
Definition hoare {A} (P : World -> Prop) (c : M World A)
  (Q : A -> World -> Prop) (E : exn -> World -> Prop) : Prop :=
  forall w, P w ->
    match c w with
    | (Ok a, w') => Q a w'
    | (Raise e, w') => E e w'
    end.

Lemma hoare_ret {A} (P : World -> Prop) (a : A) (Q : A -> World -> Prop)
  (E : exn -> World -> Prop) :
  (forall w, P w -> Q a w) -> hoare P (ret a) Q E.
Proof. intros H w Hw. apply H. exact Hw. Qed.

Lemma hoare_bind {A B} (P : World -> Prop) (c : M World A)
  (Q : A -> World -> Prop) (k : A -> M World B) (R : B -> World -> Prop)
  (E : exn -> World -> Prop) :
  hoare P c Q E -> (forall a, hoare (Q a) (k a) R E) -> hoare P (bind c k) R E.
Proof.
  intros Hc Hk w Hw. rewrite run_bind. specialize (Hc w Hw).
  destruct (c w) as [[a | e] w1]; [ exact (Hk a w1 Hc) | exact Hc ].
Qed.

Lemma hoare_try_except {A} (P : World -> Prop) (c : M World A)
  (Q : A -> World -> Prop) (E : exn -> World -> Prop)
  (h : exn -> M World A) (E' : exn -> World -> Prop) :
  hoare P c Q E -> (forall e, hoare (E e) (h e) Q E') ->
  hoare P (try_except c h) Q E'.
Proof.
  intros Hc Hh w Hw. unfold try_except. specialize (Hc w Hw).
  destruct (c w) as [[a | e] w1]; [ exact Hc | exact (Hh e w1 Hc) ].
Qed.

Lemma hoare_weaken {A} (P : World -> Prop) (c : M World A)
  (Q Q' : A -> World -> Prop) (E E' : exn -> World -> Prop) :
  hoare P c Q E ->
  (forall a w, Q a w -> Q' a w) -> (forall e w, E e w -> E' e w) ->
  hoare P c Q' E'.
Proof.
  intros Hc HQ HE w Hw. specialize (Hc w Hw).
  destruct (c w) as [[a | e] w1]; [ exact (HQ _ _ Hc) | exact (HE _ _ Hc) ].
Qed.

(** ** The status documents of a capture job *)

(** A status update: the status, the progress and the log line. *)
Definition update : Type := string * Z * string.

(** The document [update_job_status] stores over [stored]. *)
Definition new_status (u : update) (stored : option dict) : dict :=
  let '(st, p, msg) := u in
  let status_data : dict :=
    match stored with
    | Some d => d
    | None => <["logs" := JStrs []]> ∅
    end in
  <["logs" := JStrs (logs_of status_data ++ [msg])]>
    (<["progress" := JInt p]> (<["status" := JStr st]> status_data)).

(** The documents a sequence of updates stores, and the last of them. *)
Fixpoint docs_from (stored : option dict) (us : list update) : list dict :=
  match us with
  | [] => []
  | u :: us' =>
      new_status u stored :: docs_from (Some (new_status u stored)) us'
  end.

Fixpoint stored_after (stored : option dict) (us : list update) : option dict :=
  match us with
  | [] => stored
  | u :: us' => stored_after (Some (new_status u stored)) us'
  end.

(** The [logs] field is a list of strings, when there is one. *)
Definition logs_typed (stored : option dict) : Prop :=
  match stored with
  | Some d =>
      match d !! "logs" with
      | Some (JStrs _) | None => True
      | Some _ => False
      end
  | None => True
  end.

Definition stored_logs (stored : option dict) : list string :=
  match stored with
  | Some d => logs_of d
  | None => []
  end.

(** The progress values written with the status processing. *)
Definition processing_progress (ws : list dict) : list Z :=
  omap (fun d => if bool_decide (status_of d = Some "processing")
                 then progress_of d else None) ws.

(** Each document keeps the log lines of the one before it, in place. *)
Fixpoint logs_grow (prev : list string) (ws : list dict) : Prop :=
  match ws with
  | [] => True
  | d :: ws' => prev `prefix_of` logs_of d /\ logs_grow (logs_of d) ws'
  end.

Lemma new_status_fields (st : string) (p : Z) (msg : string)
  (stored : option dict) :
  let d := new_status (st, p, msg) stored in
  status_of d = Some st
  /\ progress_of d = Some p
  /\ logs_of d = stored_logs stored ++ [msg].
Proof.
  cbv zeta. split; [| split ].
  - unfold new_status, status_of. simplify_map_eq. reflexivity.
  - unfold new_status, progress_of. simplify_map_eq. reflexivity.
  - assert (Hl : forall (l : list string) (m : dict),
               logs_of (<["logs" := JStrs l]> m) = l).
    { intros l m. unfold logs_of. rewrite lookup_insert_eq. reflexivity. }
    unfold new_status. rewrite Hl. destruct stored as [d |]; [ reflexivity |].
    rewrite Hl. reflexivity.
Qed.

Lemma docs_from_app (stored : option dict) (us1 us2 : list update) :
  docs_from stored (us1 ++ us2)
  = docs_from stored us1 ++ docs_from (stored_after stored us1) us2.
Proof.
  revert stored. induction us1 as [| u us1 IH]; intros stored; simpl;
    [ reflexivity |]. rewrite IH. reflexivity.
Qed.

Lemma stored_after_app (stored : option dict) (us1 us2 : list update) :
  stored_after stored (us1 ++ us2) = stored_after (stored_after stored us1) us2.
Proof.
  revert stored. induction us1 as [| u us1 IH]; intros stored; simpl;
    [ reflexivity |]. apply IH.
Qed.

Lemma logs_typed_new_status (u : update) (stored : option dict) :
  logs_typed (Some (new_status u stored)).
Proof.
  destruct u as [[st p] msg]. unfold logs_typed, new_status.
  rewrite lookup_insert_eq. exact I.
Qed.

Lemma logs_typed_stored_after (stored : option dict) (us : list update) :
  logs_typed stored -> logs_typed (stored_after stored us).
Proof.
  revert stored. induction us as [| u us IH]; intros stored H; simpl;
    [ exact H |]. apply IH, logs_typed_new_status.
Qed.

Lemma logs_grow_docs (stored : option dict) (us : list update) :
  logs_grow (stored_logs stored) (docs_from stored us).
Proof.
  revert stored. induction us as [| [[st p] msg] us IH]; intros stored;
    cbn [docs_from logs_grow]; [ exact I |].
  destruct (new_status_fields st p msg stored) as (_ & _ & Hl).
  split.
  - rewrite Hl. apply prefix_app_r. reflexivity.
  - apply (IH (Some (new_status (st, p, msg) stored))).
Qed.

Lemma logs_grow_app (prev : list string) (ws1 ws2 : list dict) :
  logs_grow prev ws1 ->
  logs_grow (default prev (logs_of <$> last ws1)) ws2 ->
  logs_grow prev (ws1 ++ ws2).
Proof.
  revert prev. induction ws1 as [| d ws1 IH]; intros prev H1 H2; simpl in *;
    [ exact H2 |].
  destruct H1 as [Hp H1]. split; [ exact Hp |]. apply IH; [ exact H1 |].
  destruct ws1 as [| d' ws1']; [ exact H2 |].
  rewrite last_cons_cons in H2.
  destruct (last (d' :: ws1')) eqn:Hl; [ exact H2 |].
  apply last_None in Hl. discriminate Hl.
Qed.

Lemma processing_progress_app (ws1 ws2 : list dict) :
  processing_progress (ws1 ++ ws2)
  = processing_progress ws1 ++ processing_progress ws2.
Proof. unfold processing_progress. apply omap_app. Qed.

(** The progress values a sequence of updates writes with the status
    processing. *)
Definition processing_of (us : list update) : list Z :=
  omap (fun u : update =>
          if bool_decide (u.1.1 = "processing") then Some u.1.2 else None) us.

Lemma processing_progress_docs (stored : option dict) (us : list update) :
  processing_progress (docs_from stored us) = processing_of us.
Proof.
  revert stored. induction us as [| [[st p] msg] us IH]; intros stored;
    [ reflexivity |].
  cbn [docs_from]. unfold processing_progress, processing_of in *.
  cbn [omap list_omap]. 
  destruct (new_status_fields st p msg stored) as (Hs & Hp & _).
  rewrite Hs, Hp. cbn [fst snd].
  rewrite (IH (Some (new_status (st, p, msg) stored))).
  destruct (decide (st = "processing")) as [-> | Hne].
  - rewrite !bool_decide_eq_true_2 by reflexivity. reflexivity.
  - rewrite !bool_decide_eq_false_2 by congruence. reflexivity.
Qed.

Lemma last_docs_from (stored : option dict) (us : list update) :
  us <> [] -> last (docs_from stored us) = stored_after stored us.
Proof.
  revert stored. induction us as [| u us IH]; intros stored Hne;
    [ contradiction |].
  destruct us as [| u' us']; [ reflexivity |].
  cbn [docs_from stored_after] in *. rewrite last_cons_cons.
  apply (IH (Some (new_status u stored))). discriminate.
Qed.

(** ** The run of a capture job *)

Definition stages : list (Z * string) :=
  [ (10, "→ Normalizing video...");
    (20, "→ Extracting base face...");
    (30, "→ Extracting idle loop...");
    (40, "→ Detecting face landmarks...");
    (50, "→ Extracting mouth visemes...");
    (65, "→ Extracting eye states...");
    (75, "→ Generating masks...");
    (85, "→ Building mouth spritesheet...");
    (90, "→ Writing manifest...");
    (95, "→ Creating ZIP archive...") ].

Definition processing (x : Z * string) : update := ("processing", x.1, x.2).

Definition completed_update : update :=
  ("completed", 100, "✓ Avatar pack generated successfully!").

Definition failed_update (e : exn) : update :=
  ("failed", 0, "✗ Error: " +:+ str_exn e).

(** The updates made when an exception reaches the handler: some of the
    stages, or all of them and the completion. *)
Definition mid_shape (us : list update) : Prop :=
  (exists k, us = map processing (firstn k stages))
  \/ us = map processing stages ++ [completed_update].

(** The updates of a whole run. *)
Definition final_shape (us : list update) : Prop :=
  us = map processing stages ++ [completed_update]
  \/ exists pre e, mid_shape pre /\ us = pre ++ [failed_update e].

Lemma update_job_status_run (jid st : string) (p : Z) (msg : string)
  (w : World) :
  logs_typed (Store.get (Capture.status_key_of jid) (redis w)) ->
  String.eqb msg EmptyString = false ->
  Capture.update_job_status jid st p msg w
  = (Ok tt,
     let d := new_status (st, p, msg)
                (Store.get (Capture.status_key_of jid) (redis w)) in
     {| redis := Store.setex (Capture.status_key_of jid) d (redis w);
        trace := trace w ++ [EvWrite (Capture.status_key_of jid) d] |}).
Proof.
  intros Htyped Hmsg. unfold Capture.update_job_status.
  rewrite run_bind. unfold Cmd.get at 1. rewrite run_bind, Hmsg.
  unfold Capture.append_log, new_status, logs_of.
  rewrite !lookup_insert_ne by discriminate.
  destruct (Store.get (Capture.status_key_of jid) (redis w)) as [d |];
    cbn [logs_typed] in Htyped.
  - destruct (d !! "logs") as [[] |]; try contradiction; reflexivity.
  - rewrite lookup_insert_eq. reflexivity.
Qed.

Section CaptureRun.

Variable ct : CaptureTools.
Variable jid : string.
Variable w0 : World.

Local Abbreviation skey := (Capture.status_key_of jid).
Local Abbreviation stored0 := (Store.get (Capture.status_key_of jid) (redis w0)).

Hypothesis logs_typed0 : logs_typed stored0.

(** The world after the updates [us] of the job. *)
Definition after_updates (us : list update) (w : World) : Prop :=
  writes_to skey (trace w) = writes_to skey (trace w0) ++ docs_from stored0 us
  /\ Store.get skey (redis w) = stored_after stored0 us.

Lemma update_triple (us : list update) (st : string) (p : Z) (msg : string)
  (E : exn -> World -> Prop) :
  String.eqb msg EmptyString = false ->
  hoare (after_updates us) (Capture.update_job_status jid st p msg)
        (fun _ => after_updates (us ++ [(st, p, msg)])) E.
Proof.
  intros Hmsg w [Hw Hs].
  rewrite update_job_status_run;
    [| rewrite Hs; apply logs_typed_stored_after; exact logs_typed0
     | exact Hmsg ].
  cbv zeta. split; cbn [redis trace].
  - rewrite writes_to_app, writes_to_write_eq, writes_to_nil, Hw, Hs.
    rewrite docs_from_app, <- app_assoc. reflexivity.
  - rewrite get_setex_eq, stored_after_app, Hs. reflexivity.
Qed.

Lemma tool_keeps (us : list update) (name : string) (w : World) :
  after_updates us w ->
  after_updates us {| redis := redis w; trace := trace w ++ [EvTool name] |}.
Proof.
  intros [Hw Hs]. split; cbn [redis trace]; [| exact Hs ].
  rewrite writes_to_app, writes_to_tool, writes_to_nil, app_nil_r. exact Hw.
Qed.

Lemma check_triple (us : list update) (name : string) (ok : bool)
  (msg : string) :
  hoare (after_updates us) (Capture.check name ok msg)
        (fun _ => after_updates us) (fun _ => after_updates us).
Proof.
  intros w Hw. unfold Capture.check. rewrite run_bind. unfold Cmd.tool at 1.
  destruct ok; apply tool_keeps; exact Hw.
Qed.

Lemma run_triple (us : list update) (name : string) (outcome : option exn) :
  hoare (after_updates us) (Capture.run name outcome)
        (fun _ => after_updates us) (fun _ => after_updates us).
Proof.
  intros w Hw. unfold Capture.run. rewrite run_bind. unfold Cmd.tool at 1.
  destruct outcome; apply tool_keeps; exact Hw.
Qed.

(** The world when an exception reaches the handler. *)
Definition mid (w : World) : Prop :=
  exists us, mid_shape us /\ after_updates us w.

Lemma mid_stage (k : nat) (w : World) :
  after_updates (map processing (firstn k stages)) w -> mid w.
Proof. intros H. eexists. split; [ left; exists k; reflexivity | exact H ]. Qed.

(** One stage: the update, then the work. *)
Lemma stage_triple {A} (k : nat) (p : Z) (msg : string)
  (work : M World unit) (rest : M World A) (Q : A -> World -> Prop) :
  String.eqb msg EmptyString = false ->
  map processing (firstn k stages) ++ [("processing", p, msg)]
  = map processing (firstn (S k) stages) ->
  hoare (after_updates (map processing (firstn (S k) stages))) work
        (fun _ => after_updates (map processing (firstn (S k) stages)))
        (fun _ => after_updates (map processing (firstn (S k) stages))) ->
  hoare (after_updates (map processing (firstn (S k) stages))) rest Q
        (fun _ => mid) ->
  hoare (after_updates (map processing (firstn k stages)))
        (Capture.update_job_status jid "processing" p msg ;;; work ;;; rest)
        Q (fun _ => mid).
Proof.
  intros Hmsg Hnext Hwork Hrest.
  eapply hoare_bind.
  { pose proof (update_triple (map processing (firstn k stages)) "processing"
                  p msg (fun _ => mid) Hmsg) as H.
    rewrite Hnext in H. exact H. }
  intros ?. cbv beta. eapply hoare_bind.
  { eapply hoare_weaken; [ exact Hwork | intros ? w H; exact H |].
    intros e w H. exact (mid_stage (S k) w H). }
  intros ?. exact Hrest.
Qed.

Lemma capture_stages_triple (avatar_id : string) :
  hoare (after_updates [])
        (Capture.capture_stages ct jid avatar_id)
        (fun r w =>
           after_updates (map processing stages ++ [completed_update]) w
           /\ r = Capture.completed_result avatar_id)
        (fun _ => mid).
Proof.
  unfold Capture.capture_stages.
  change (@nil update) with (map processing (firstn 0 stages)).
  do 3 (apply stage_triple;
        [ reflexivity | reflexivity | apply check_triple |]).
  do 7 (apply stage_triple;
        [ reflexivity | reflexivity | apply run_triple |]).
  eapply hoare_bind.
  { apply (update_triple (map processing (firstn 10 stages)) "completed" 100
             "✓ Avatar pack generated successfully!" (fun _ => mid)).
    reflexivity. }
  intros ?. cbv beta.
  change (map processing (firstn 10 stages)
          ++ [("completed", 100, "✓ Avatar pack generated successfully!")])
    with (map processing stages ++ [completed_update]).
  eapply hoare_bind.
  { eapply hoare_weaken; [ apply run_triple | intros ? w H; exact H |].
    intros e w H. eexists. split; [ right; reflexivity | exact H ]. }
  intros ?. apply hoare_ret. intros w H. split; [ exact H | reflexivity ].
Qed.

Lemma capture_failed_triple (e : exn) :
  hoare mid (Capture.capture_failed jid e)
        (fun r w =>
           exists pre, mid_shape pre
                       /\ after_updates (pre ++ [failed_update e]) w
                       /\ r = Capture.failed_result (str_exn e))
        (fun _ _ => False).
Proof.
  intros w (us & Hshape & Hw). unfold Capture.capture_failed. cbv zeta.
  rewrite run_bind.
  pose proof (update_triple us "failed" 0 ("✗ Error: " +:+ str_exn e)
                (fun _ _ => False) eq_refl w Hw) as Hrun.
  destruct (Capture.update_job_status _ _ _ _ w) as [[[] | e'] w1];
    [| contradiction ].
  exists us. split; [ exact Hshape |]. split; [ exact Hrun | reflexivity ].
Qed.

(** How a run ends: the updates made and the result handed to the loop. *)
Definition outcome (avatar_id : string) (us : list update) (r : dict) : Prop :=
  (us = map processing stages ++ [completed_update]
   /\ r = Capture.completed_result avatar_id)
  \/ (exists pre e, mid_shape pre /\ us = pre ++ [failed_update e]
                    /\ r = Capture.failed_result (str_exn e)).

Lemma try_capture_triple (avatar_id : string) :
  hoare (after_updates [])
        (try_except (Capture.capture_stages ct jid avatar_id)
                    (Capture.capture_failed jid))
        (fun r w => exists us, outcome avatar_id us r /\ after_updates us w)
        (fun _ _ => False).
Proof.
  eapply hoare_try_except.
  - eapply hoare_weaken; [ apply capture_stages_triple | | intros e w H; exact H ].
    intros r w [Hw ->]. eexists. split; [ left; split; reflexivity | exact Hw ].
  - intros e. eapply hoare_weaken; [ apply capture_failed_triple | | auto ].
    intros r w (pre & Hshape & Hw & ->). eexists. split; [| exact Hw ].
    right. exists pre, e. auto.
Qed.

End CaptureRun.

Lemma Sorted_firstn (l : list Z) (k : nat) :
  Sorted Z.lt l -> Sorted Z.lt (firstn k l).
Proof.
  intros Hs. revert k. induction Hs as [| x l Hs IH Hhd]; intros [| k];
    cbn [firstn]; try constructor.
  - apply IH.
  - destruct Hhd as [| y l' Hxy]; destruct k; cbn [firstn]; constructor.
    exact Hxy.
Qed.

Lemma processing_of_stages (l : list (Z * string)) :
  processing_of (map processing l) = map fst l.
Proof.
  induction l as [| [p msg] l IH]; [ reflexivity |].
  cbn [map]. unfold processing_of in *. cbn [omap list_omap].
  rewrite IH. reflexivity.
Qed.

Lemma processing_of_app (us1 us2 : list update) :
  processing_of (us1 ++ us2) = processing_of us1 ++ processing_of us2.
Proof. unfold processing_of. apply omap_app. Qed.

Lemma mid_shape_sorted (us : list update) :
  mid_shape us -> Sorted Z.lt (processing_of us).
Proof.
  intros [[k ->] | ->].
  - rewrite processing_of_stages, <- firstn_map. apply Sorted_firstn.
    cbn. repeat constructor.
  - rewrite processing_of_app, processing_of_stages. cbn.
    repeat constructor.
Qed.

(** The updates of a run: sorted progress while processing, and a last
    update that is terminal. *)
Lemma outcome_facts (avatar_id : string) (us : list update) (r : dict) :
  outcome avatar_id us r ->
  Sorted Z.lt (processing_of us)
  /\ r !! "progress" = None
  /\ r !! "logs" = None
  /\ exists pre st p msg,
       us = pre ++ [(st, p, msg)]
       /\ status_of r = Some st
       /\ ((st = "completed" /\ p = 100) \/ (st = "failed" /\ p = 0)).
Proof.
  intros [[-> ->] | (pre & e & Hshape & -> & ->)].
  - split; [ apply mid_shape_sorted; right; reflexivity |].
    split; [ reflexivity |]. split; [ reflexivity |].
    eexists _, _, _, _. split; [ reflexivity |].
    split; [ reflexivity | left; split; reflexivity ].
  - split.
    { rewrite processing_of_app. cbn. rewrite app_nil_r.
      apply mid_shape_sorted. exact Hshape. }
    split; [ reflexivity |]. split; [ reflexivity |].
    eexists _, _, _, _. split; [ reflexivity |].
    split; [ reflexivity | right; split; reflexivity ].
Qed.

(** A turn of the loop on a capture job of the front door. *)
Lemma handle_capture_run (ct : CaptureTools) (cd ad cid aid jid : string)
  (w0 : World) :
  logs_typed (Store.get (Capture.status_key_of jid) (redis w0)) ->
  makedirs ct = None ->
  exists us r w1,
    outcome aid us r
    /\ Worker.handle_capture ct (Api.capture_job_data cd ad cid aid jid) w0
       = (Ok tt, w1)
    /\ writes_to (Capture.status_key_of jid) (trace w1)
       = writes_to (Capture.status_key_of jid) (trace w0)
         ++ docs_from (Store.get (Capture.status_key_of jid) (redis w0)) us
         ++ [r ∪ default ∅
                   (stored_after
                      (Store.get (Capture.status_key_of jid) (redis w0)) us)].
Proof.
  intros Htyped Hmk.
  destruct (capture_job_data_fields cd ad cid aid jid)
    as (Hjid & Hcid & Haid & Hpath & Hdir & _).
  set (w0' := {| redis := redis w0;
                 trace := trace w0 ++ [EvTool "os.makedirs"] |}).
  assert (Hstart : after_updates jid w0 [] w0').
  { apply tool_keeps. split; [ rewrite app_nil_r |]; reflexivity. }
  pose proof (try_capture_triple ct jid w0 Htyped aid w0' Hstart) as Htry.
  unfold Worker.handle_capture. rewrite run_bind.
  unfold Capture.process_capture_job.
  rewrite run_bind, (getstr_ok _ _ _ _ Hjid).
  rewrite run_bind, (getstr_ok _ _ _ _ Hcid).
  rewrite run_bind, (getstr_ok _ _ _ _ Haid).
  rewrite run_bind, (getstr_ok _ _ _ _ Hpath).
  rewrite run_bind, (getstr_ok _ _ _ _ Hdir).
  rewrite run_bind. unfold Capture.run at 1. rewrite Hmk.
  rewrite run_bind. unfold Cmd.tool at 1. unfold ret at 1. fold w0'.
  destruct (try_except _ _ w0') as [[r | e] w1]; [| contradiction ].
  destruct Htry as (us & Hout & Hw & Hs).
  exists us, r. eexists. split; [ exact Hout |].
  rewrite run_bind, (getstr_ok _ _ _ _ Hjid).
  rewrite run_bind. unfold Cmd.get at 1.
  change ("avatar:capture:status:" +:+ jid) with (Capture.status_key_of jid).
  rewrite Hs. split; [ reflexivity |]. cbn [trace].
  rewrite writes_to_app, writes_to_write_eq, writes_to_nil, Hw.
  rewrite <- app_assoc. reflexivity.
Qed.

(** Each document has the log lines of the one before it and at most one
    more, at the end. *)
Fixpoint logs_append (prev : list string) (ws : list dict) : Prop :=
  match ws with
  | [] => True
  | d :: ws' =>
      (logs_of d = prev \/ exists line, logs_of d = prev ++ [line])
      /\ logs_append (logs_of d) ws'
  end.

Lemma logs_append_docs (stored : option dict) (us : list update) :
  logs_append (stored_logs stored) (docs_from stored us).
Proof.
  revert stored. induction us as [| [[st p] msg] us IH]; intros stored;
    cbn [docs_from logs_append]; [ exact I |].
  destruct (new_status_fields st p msg stored) as (_ & _ & Hl).
  split.
  - right. exists msg. exact Hl.
  - apply (IH (Some (new_status (st, p, msg) stored))).
Qed.

Lemma logs_append_app (prev : list string) (ws1 ws2 : list dict) :
  logs_append prev ws1 ->
  logs_append (default prev (logs_of <$> last ws1)) ws2 ->
  logs_append prev (ws1 ++ ws2).
Proof.
  revert prev. induction ws1 as [| d ws1 IH]; intros prev H1 H2; simpl in *;
    [ exact H2 |].
  destruct H1 as [Hp H1]. split; [ exact Hp |]. apply IH; [ exact H1 |].
  destruct ws1 as [| d' ws1']; [ exact H2 |].
  rewrite last_cons_cons in H2.
  destruct (last (d' :: ws1')) eqn:Hl; [ exact H2 |].
  apply last_None in Hl. discriminate Hl.
Qed.

(** A terminal status comes with its progress: 100 when completed, 0 when
    failed. *)
Definition terminal_update (u : update) : Prop :=
  (u.1.1 = "completed" -> u.1.2 = 100) /\ (u.1.1 = "failed" -> u.1.2 = 0).

Definition terminal_progress (d : dict) : Prop :=
  (status_of d = Some "completed" -> progress_of d = Some 100)
  /\ (status_of d = Some "failed" -> progress_of d = Some 0).

Lemma docs_from_terminal (stored : option dict) (us : list update) :
  Forall terminal_update us -> Forall terminal_progress (docs_from stored us).
Proof.
  intros Hall. revert stored.
  induction Hall as [| [[st p] msg] us [Hc Hf] _ IH]; intros stored;
    cbn [docs_from]; constructor; [| apply IH ].
  destruct (new_status_fields st p msg stored) as (Hs & Hp & _).
  cbn [fst snd] in Hc, Hf. unfold terminal_progress. rewrite Hs, Hp.
  split; intros [= ->]; f_equal; auto.
Qed.

Lemma processing_updates_terminal (l : list (Z * string)) :
  Forall terminal_update (map processing l).
Proof.
  apply Forall_map. apply Forall_forall. intros x _.
  split; cbn; discriminate.
Qed.

Lemma stages_range : Forall (fun p => 10 <= p <= 95) (map fst stages).
Proof. cbn. repeat (constructor; [ lia |]). constructor. Qed.

Lemma mid_shape_range (us : list update) :
  mid_shape us ->
  Forall (fun p => 10 <= p <= 95) (processing_of us)
  /\ Forall terminal_update us.
Proof.
  intros [[k ->] | ->].
  - split; [| apply processing_updates_terminal ].
    rewrite processing_of_stages, <- firstn_map.
    apply Forall_take, stages_range.
  - split.
    + rewrite processing_of_app, processing_of_stages. cbn [processing_of omap].
      cbn. repeat (constructor; [ lia |]). constructor.
    + apply Forall_app. split; [ apply processing_updates_terminal |].
      constructor; [| constructor ]. split; cbn; [ reflexivity | discriminate ].
Qed.

(** The updates of a run: the progress written while processing stays
    between 10 and 95, and a terminal update carries 100 or 0. *)
Lemma outcome_range (avatar_id : string) (us : list update) (r : dict) :
  outcome avatar_id us r ->
  Forall (fun p => 10 <= p <= 95) (processing_of us)
  /\ Forall terminal_update us.
Proof.
  intros [[-> ->] | (pre & e & Hshape & -> & ->)].
  - apply mid_shape_range. right. reflexivity.
  - destruct (mid_shape_range pre Hshape) as [Hr Ht]. split.
    + rewrite processing_of_app. cbn. rewrite app_nil_r. exact Hr.
    + apply Forall_app. split; [ exact Ht |].
      constructor; [| constructor ]. split; cbn; [ discriminate | reflexivity ].
Qed.

Lemma mid_shape_prefix (us : list update) :
  mid_shape us -> processing_of us `prefix_of` map fst stages.
Proof.
  intros [[k ->] | ->].
  - rewrite processing_of_stages, <- firstn_map.
    exists (drop k (map fst stages)). symmetry. apply take_drop.
  - rewrite processing_of_app, processing_of_stages. cbn [processing_of omap].
    exists []. reflexivity.
Qed.

(** The progress written while processing is an initial part of the ten
    values of the stages. *)
Lemma outcome_prefix (avatar_id : string) (us : list update) (r : dict) :
  outcome avatar_id us r -> processing_of us `prefix_of` map fst stages.
Proof.
  intros [[-> ->] | (pre & e & Hshape & -> & ->)].
  - apply mid_shape_prefix. right. reflexivity.
  - rewrite processing_of_app. cbn. rewrite app_nil_r.
    apply mid_shape_prefix. exact Hshape.
Qed.

(** C7, as the code has it.  During the turn of the loop on a capture job
    of the front door, the progress values written with the status
    processing are an initial part of 10, 20, 30, 40, 50, 65, 75, 85, 90,
    95: they increase strictly and lie between 10 and 95; every document
    written keeps the log lines of the one before and adds at most one at
    the end; every document written with the status completed carries the
    progress 100 and every one written with the status failed the progress
    0; and the last document is completed with progress 100, or failed with
    progress 0: a failure resets the progress. *)
Theorem capture_progress_and_logs (tools : Tools) (ct : CaptureTools)
  (cfg : WorkerConfig) (cd ad cid aid jid : string) (w : World) (q : string)
  (rd : Redis) :
  Store.brpop [Worker.JOB_QUEUE_KEY; Worker.CAPTURE_JOB_QUEUE_KEY] (redis w)
  = (Some (q, IJson (Api.capture_job_data cd ad cid aid jid)), rd) ->
  logs_typed (Store.get (Capture.status_key_of jid) (redis w)) ->
  exists w' ws,
    Worker.iteration tools ct cfg w = (Ok tt, w')
    /\ writes_to (Capture.status_key_of jid) (trace w')
       = writes_to (Capture.status_key_of jid) (trace w) ++ ws
    /\ Sorted Z.lt (processing_progress ws)
    /\ Forall (fun p => 10 <= p <= 95) (processing_progress ws)
    /\ processing_progress ws
       `prefix_of` [10; 20; 30; 40; 50; 65; 75; 85; 90; 95]
    /\ logs_grow (stored_logs (Store.get (Capture.status_key_of jid) (redis w)))
                 ws
    /\ logs_append
         (stored_logs (Store.get (Capture.status_key_of jid) (redis w))) ws
    /\ Forall terminal_progress ws
    /\ (makedirs ct = None ->
        exists final,
          last ws = Some final
          /\ ((status_of final = Some "completed"
               /\ progress_of final = Some 100)
              \/ (status_of final = Some "failed"
                  /\ progress_of final = Some 0))).
Proof.
  intros Hpop Htyped.
  set (skey := Capture.status_key_of jid) in *.
  set (w0 := {| redis := rd; trace := trace w |}).
  pose proof (brpop_spec [Worker.JOB_QUEUE_KEY; Worker.CAPTURE_JOB_QUEUE_KEY]
                (redis w)) as Hspec.
  rewrite Hpop in Hspec. destruct Hspec as (_ & Hkv & _ & _).
  assert (Hget0 : Store.get skey (redis w0) = Store.get skey (redis w)).
  { unfold Store.get. simpl. rewrite Hkv. reflexivity. }
  destruct (capture_job_data_fields cd ad cid aid jid)
    as (Hjid & Hcid & Haid & Hpath & Hdir & Htype).
  assert (Hbody : Worker.loop_body tools ct cfg w
                  = Worker.handle_capture ct
                      (Api.capture_job_data cd ad cid aid jid) w0).
  { unfold Worker.loop_body. rewrite run_bind. unfold Cmd.brpop at 1.
    rewrite Hpop. apply get_is_true in Htype. rewrite Htype. reflexivity. }
  unfold Worker.iteration, try_except. rewrite Hbody.
  destruct (makedirs ct) as [e |] eqn:Hmk.
  - (* the directory cannot be made: nothing is written *)
    exists {| redis := rd; trace := trace w ++ [EvTool "os.makedirs"] |}, [].
    split.
    { unfold Worker.handle_capture. rewrite run_bind.
      unfold Capture.process_capture_job.
      rewrite run_bind, (getstr_ok _ _ _ _ Hjid).
      rewrite run_bind, (getstr_ok _ _ _ _ Hcid).
      rewrite run_bind, (getstr_ok _ _ _ _ Haid).
      rewrite run_bind, (getstr_ok _ _ _ _ Hpath).
      rewrite run_bind, (getstr_ok _ _ _ _ Hdir).
      rewrite run_bind. unfold Capture.run at 1. rewrite Hmk. reflexivity. }
    cbn [trace]. rewrite writes_to_app, writes_to_tool, writes_to_nil.
    split; [ reflexivity |]. split; [ constructor |].
    split; [ constructor |]. split; [ apply prefix_nil |].
    split; [ exact I |]. split; [ exact I |].
    split; [ constructor | discriminate ].
  - rewrite <- Hget0 in Htyped.
    destruct (handle_capture_run ct cd ad cid aid jid w0 Htyped Hmk)
      as (us & r & w1 & Hout & Hrun & Hws).
    fold skey in Hws. rewrite Hget0 in Hws.
    destruct (outcome_range aid us r Hout) as (Hrange & Hterm).
    pose proof (outcome_prefix aid us r Hout) as Hprefix.
    destruct (outcome_facts aid us r Hout)
      as (Hsorted & Hnoprog & Hnologs & pre & st & p & msg & -> & Hst & Hfinal).
    set (stored := Store.get skey (redis w)) in *.
    set (lastdoc := new_status (st, p, msg) (stored_after stored pre)).
    assert (Hafter : stored_after stored (pre ++ [(st, p, msg)]) = Some lastdoc).
    { rewrite stored_after_app. reflexivity. }
    rewrite Hafter in Hws. cbn [default from_option id] in Hws.
    destruct (new_status_fields st p msg (stored_after stored pre))
      as (Hlst & Hlp & Hll).
    fold lastdoc in Hlst, Hlp, Hll.
    assert (Hfin_status : status_of (r ∪ lastdoc) = Some st).
    { unfold status_of in *.
      destruct (r !! "status") as [v |] eqn:Hr; [| discriminate Hst ].
      rewrite (lookup_union_Some_l _ _ _ _ Hr). exact Hst. }
    assert (Hfin_progress : progress_of (r ∪ lastdoc) = Some p).
    { unfold progress_of in *. rewrite (lookup_union_r _ _ _ Hnoprog).
      exact Hlp. }
    assert (Hfin_logs : logs_of (r ∪ lastdoc) = logs_of lastdoc).
    { unfold logs_of. rewrite (lookup_union_r _ _ _ Hnologs). reflexivity. }
    assert (Hpp : processing_progress
                    (docs_from stored (pre ++ [(st, p, msg)]) ++ [r ∪ lastdoc])
                  = processing_of (pre ++ [(st, p, msg)])).
    { rewrite processing_progress_app, processing_progress_docs.
      unfold processing_progress at 1. cbn [omap list_omap].
      rewrite Hfin_status.
      assert (Hnp : bool_decide (Some st = Some "processing") = false).
      { apply bool_decide_eq_false_2.
        destruct Hfinal as [[-> _] | [-> _]]; discriminate. }
      rewrite Hnp. apply app_nil_r. }
    exists w1, (docs_from stored (pre ++ [(st, p, msg)]) ++ [r ∪ lastdoc]).
    rewrite Hrun. split; [ reflexivity |]. split; [ exact Hws |].
    rewrite Hpp. split; [ exact Hsorted |]. split; [ exact Hrange |].
    split; [ exact Hprefix |].
    split.
    { apply logs_grow_app; [ apply logs_grow_docs |].
      rewrite last_docs_from, Hafter by (destruct pre; discriminate).
      cbn [fmap option_fmap option_map default from_option id logs_grow].
      rewrite Hfin_logs. split; [ reflexivity | exact I ]. }
    split.
    { apply logs_append_app; [ apply logs_append_docs |].
      rewrite last_docs_from, Hafter by (destruct pre; discriminate).
      cbn [fmap option_fmap option_map default from_option id logs_append].
      rewrite Hfin_logs. split; [ left; reflexivity | exact I ]. }
    split.
    { apply Forall_app. split; [ apply docs_from_terminal; exact Hterm |].
      constructor; [| constructor ]. unfold terminal_progress.
      rewrite Hfin_status, Hfin_progress.
      destruct Hfinal as [[-> ->] | [-> ->]]; split; intros [=]; reflexivity. }
    intros _. exists (r ∪ lastdoc). split; [ apply last_snoc |].
    rewrite Hfin_status, Hfin_progress.
    destruct Hfinal as [[-> ->] | [-> ->]]; [ left | right ];
      split; reflexivity.
Qed.

(** A capture job is submitted on an empty store. *)
Definition w_capture : World :=
  snd (Api.process_capture "/data/captures" "/data/avatars" "capture-a"
         "alice" true "job-a" w_empty).


Lemma capture_progress_and_logs_witness :
  exists w' ws,
    Worker.iteration tools_ok ct_ok Worker.default_config w_capture
    = (Ok tt, w')
    /\ writes_to (Capture.status_key_of "job-a") (trace w')
       = writes_to (Capture.status_key_of "job-a") (trace w_capture) ++ ws
    /\ Sorted Z.lt (processing_progress ws)
    /\ Forall (fun p => 10 <= p <= 95) (processing_progress ws)
    /\ logs_append
         (stored_logs (Store.get (Capture.status_key_of "job-a")
                         (redis w_capture))) ws
    /\ Forall terminal_progress ws.
Proof.
  destruct (capture_progress_and_logs tools_ok ct_ok Worker.default_config
              "/data/captures" "/data/avatars" "capture-a" "alice" "job-a"
              w_capture Worker.CAPTURE_JOB_QUEUE_KEY
              (snd (Store.brpop QUEUE_KEYS (redis w_capture))))
    as (w' & ws & Hrun & Hws & Hsorted & Hrange & _ & _ & Happ & Hterm & _).
  - by_compute.
  - vm_compute. exact I.
  - exists w', ws. repeat split; assumption.
Defined.

(** C7 as stated fails for a failed job: when the video of the capture
    cannot be normalized, the documents written for the job carry the
    progress 0 (queued), 10 (processing), then 0 again (failed): the
    recorded progress goes down. *)
Lemma failed_capture_resets_progress :
  let w' := snd (Worker.iteration tools_ok ct_bad_video Worker.default_config
                   w_capture) in
  let ws := writes_to (Capture.status_key_of "job-a") (trace w') in
  map status_of ws
  = [Some "queued"; Some "processing"; Some "failed"; Some "failed"]
  /\ map progress_of ws = [Some 0; Some 10; Some 0; Some 0]
  /\ ~ Sorted Z.le [0; 10; 0; 0].
Proof.
  cbv zeta. split; [ by_compute |]. split; [ by_compute |].
  intros Hs. apply Sorted_inv in Hs as [Hs _].
  apply Sorted_inv in Hs as [_ Hhd]. apply HdRel_inv in Hhd. lia.
Qed.

(** ** The weights of the mouth cues *)

(** Floats are rounded to binary64 after every operation; what the weights
    need of the rounding is that it is monotone and keeps 0, 1/2 and 1. *)

Section Binary64.
Local Open Scope Q_scope.

Lemma pow2_pos (e : Z) : 0 < PyFloat.pow2 e.
Proof. apply Qpower_0_lt. reflexivity. Qed.

Lemma pow2_add (a b : Z) : PyFloat.pow2 (a + b) == PyFloat.pow2 a * PyFloat.pow2 b.
Proof. apply Qpower_plus. discriminate. Qed.

Lemma pow2_le (a b : Z) : (a <= b)%Z -> PyFloat.pow2 a <= PyFloat.pow2 b.
Proof. intros H. apply Qpower_le_compat_l; [ exact H | discriminate ]. Qed.

Lemma pow2_inject (z : Z) : (0 <= z)%Z -> inject_Z (2 ^ z) == PyFloat.pow2 z.
Proof. intros H. apply (Zpower_Qpower 2 z H). Qed.

Lemma Q_as_div (a : Q) : a == inject_Z (Qnum a) / inject_Z (Zpos (Qden a)).
Proof.
  destruct a as [n d]. unfold Qdiv, Qmult, Qinv, Qeq, inject_Z. simpl. lia.
Qed.

Lemma log2_bounds (n : Z) :
  (0 < n)%Z ->
  PyFloat.pow2 (Z.log2 n) <= inject_Z n
  /\ inject_Z n < PyFloat.pow2 (Z.log2 n + 1).
Proof.
  intros Hn. destruct (Z.log2_spec n Hn) as [Hlo Hhi].
  pose proof (Z.log2_nonneg n) as Hnn.
  rewrite <- !pow2_inject by lia. rewrite <- Zle_Qle, <- Zlt_Qlt.
  replace (Z.succ (Z.log2 n)) with (Z.log2 n + 1)%Z in Hhi by lia.
  split; assumption.
Qed.

Lemma pow2_succ (e : Z) : PyFloat.pow2 (e + 1) == 2 * PyFloat.pow2 e.
Proof. rewrite pow2_add. change (PyFloat.pow2 1) with 2. ring. Qed.

Lemma Qmult_lt_reg_r (x y z : Q) : 0 < z -> x * z < y * z -> x < y.
Proof. intros Hz H. apply (Qmult_lt_r x y z Hz). exact H. Qed.

Lemma floor_log2_spec (a : Q) :
  0 < a ->
  PyFloat.pow2 (PyFloat.floor_log2 a) <= a
  /\ a < PyFloat.pow2 (PyFloat.floor_log2 a + 1).
Proof.
  intros Ha.
  assert (Hn : (0 < Qnum a)%Z).
  { unfold Qlt in Ha. simpl in Ha. lia. }
  destruct (log2_bounds (Qnum a) Hn) as [Hnlo Hnhi].
  destruct (log2_bounds (Zpos (Qden a)) eq_refl) as [Hdlo Hdhi].
  unfold PyFloat.floor_log2.
  set (ln := Z.log2 (Qnum a)) in *. set (ld := Z.log2 (Zpos (Qden a))) in *.
  set (k := (ln - ld)%Z).
  assert (Hd : 0 < inject_Z (Zpos (Qden a))) by reflexivity.
  assert (HaD : a * inject_Z (Zpos (Qden a)) == inject_Z (Qnum a)).
  { rewrite (Q_as_div a) at 1. field. intros H. rewrite H in Hd. discriminate. }
  assert (Hk : PyFloat.pow2 k * PyFloat.pow2 ld == PyFloat.pow2 ln).
  { rewrite <- pow2_add. replace (k + ld)%Z with ln by (unfold k; lia).
    reflexivity. }
  rewrite pow2_succ in Hnhi, Hdhi.
  pose proof (pow2_pos k) as Pk. pose proof (pow2_pos ld) as Pld.
  pose proof (pow2_pos ln) as Pln.
  assert (Hup : a < 2 * PyFloat.pow2 k).
  { apply (Qmult_lt_reg_r _ _ (inject_Z (Zpos (Qden a))) Hd).
    rewrite HaD. apply Qlt_le_trans with (2 * PyFloat.pow2 ln); [ exact Hnhi |].
    rewrite <- Hk. rewrite <- !Qmult_assoc.
    apply Qmult_le_l; [ reflexivity |]. apply Qmult_le_l; assumption. }
  assert (Hlow : PyFloat.pow2 k < 2 * a).
  { apply (Qmult_lt_reg_r _ _ (inject_Z (Zpos (Qden a))) Hd).
    rewrite <- Qmult_assoc, HaD.
    apply Qlt_le_trans with (2 * PyFloat.pow2 ln);
      [| apply Qmult_le_l; [ reflexivity | exact Hnlo ] ].
    rewrite <- Hk. rewrite (Qmult_comm 2), <- Qmult_assoc.
    apply Qmult_lt_l; [ exact Pk |]. rewrite Qmult_comm. exact Hdhi. }
  destruct (Qle_bool (PyFloat.pow2 k) a) eqn:Hle.
  - apply Qle_bool_iff in Hle. split; [ exact Hle |].
    rewrite pow2_succ. exact Hup.
  - assert (Hlt : a < PyFloat.pow2 k).
    { apply Qnot_le_lt. intros H. apply Qle_bool_iff in H. congruence. }
    replace (k - 1 + 1)%Z with k by lia. split; [| exact Hlt ].
    assert (H2 : 2 * PyFloat.pow2 (k - 1) == PyFloat.pow2 k).
    { rewrite <- pow2_succ. replace (k - 1 + 1)%Z with k by lia. reflexivity. }
    lra.
Qed.

Lemma floor_log2_mono (a b : Q) :
  0 < a -> a <= b -> (PyFloat.floor_log2 a <= PyFloat.floor_log2 b)%Z.
Proof.
  intros Ha Hab.
  assert (Hb : 0 < b) by lra.
  destruct (floor_log2_spec a Ha) as [Hlo _].
  destruct (floor_log2_spec b Hb) as [_ Hhi].
  destruct (Z_le_gt_dec (PyFloat.floor_log2 a) (PyFloat.floor_log2 b)) as [H | H];
    [ exact H | exfalso ].
  assert (Hp : PyFloat.pow2 (PyFloat.floor_log2 b + 1)
               <= PyFloat.pow2 (PyFloat.floor_log2 a)) by (apply pow2_le; lia).
  lra.
Qed.

Lemma rne_floor_bounds (x : Q) :
  (Qfloor x <= PyFloat.round_half_even x <= Qfloor x + 1)%Z.
Proof.
  unfold PyFloat.round_half_even.
  destruct (x - inject_Z (Qfloor x) ?= 1 # 2); [| lia | lia ].
  destruct (Z.even (Qfloor x)); lia.
Qed.

Lemma rne_mono (x y : Q) :
  x <= y -> (PyFloat.round_half_even x <= PyFloat.round_half_even y)%Z.
Proof.
  intros Hxy. pose proof (Qfloor_resp_le x y Hxy) as Hf.
  pose proof (rne_floor_bounds x) as Hx. pose proof (rne_floor_bounds y) as Hy.
  destruct (Z.eq_dec (Qfloor x) (Qfloor y)) as [Heq | Hne]; [| lia ].
  clear Hx Hy. unfold PyFloat.round_half_even. rewrite <- Heq.
  destruct (Qcompare_spec (x - inject_Z (Qfloor x)) (1 # 2)) as [Hx | Hx | Hx];
    destruct (Qcompare_spec (y - inject_Z (Qfloor x)) (1 # 2)) as [Hy | Hy | Hy];
    try destruct (Z.even (Qfloor x)); try lia; exfalso; lra.
Qed.

Lemma rne_Z (n : Z) : PyFloat.round_half_even (inject_Z n) = n.
Proof.
  unfold PyFloat.round_half_even. rewrite Qfloor_Z.
  destruct (Qcompare_spec (inject_Z n - inject_Z n) (1 # 2)) as [H | H | H];
    [ exfalso; lra | reflexivity | exfalso; lra ].
Qed.

Lemma rne_le_Z (x : Q) (n : Z) :
  x <= inject_Z n -> (PyFloat.round_half_even x <= n)%Z.
Proof. intros H. rewrite <- (rne_Z n). apply rne_mono. exact H. Qed.

Lemma rne_ge_Z (x : Q) (n : Z) :
  inject_Z n <= x -> (n <= PyFloat.round_half_even x)%Z.
Proof. intros H. rewrite <- (rne_Z n). apply rne_mono. exact H. Qed.

(** The scaled magnitude of a number is below 2^53, and at least 2^52
    unless the number is subnormal. *)
Lemma scaled_bounds (x : Q) :
  ~ x == 0 ->
  let e := PyFloat.ulp_exponent x in
  Qabs x < PyFloat.pow2 53 * PyFloat.pow2 e
  /\ ((-1074 < e)%Z -> PyFloat.pow2 52 * PyFloat.pow2 e <= Qabs x).
Proof.
  intros Hx e.
  assert (Ha : 0 < Qabs x).
  { pose proof (Qabs_nonneg x) as H0.
    destruct (Qeq_dec (Qabs x) 0) as [Hz | Hz]; [| lra ].
    exfalso. apply Hx. revert Hz. apply Qabs_case; intros; lra. }
  destruct (floor_log2_spec (Qabs x) Ha) as [Hlo Hhi].
  unfold e, PyFloat.ulp_exponent.
  set (fl := PyFloat.floor_log2 (Qabs x)) in *.
  split.
  - rewrite <- pow2_add.
    apply Qlt_le_trans with (PyFloat.pow2 (fl + 1)); [ exact Hhi |].
    apply pow2_le. lia.
  - intros He. rewrite <- pow2_add.
    replace (Z.max (fl - 52) (-1074)) with (fl - 52)%Z in * by lia.
    replace (52 + (fl - 52))%Z with fl by lia. exact Hlo.
Qed.

Lemma ulp_exponent_mono (x y : Q) :
  0 < Qabs x -> Qabs x <= Qabs y ->
  (PyFloat.ulp_exponent x <= PyFloat.ulp_exponent y)%Z.
Proof.
  intros Hx Hxy. unfold PyFloat.ulp_exponent.
  pose proof (floor_log2_mono _ _ Hx Hxy). lia.
Qed.

Lemma b64_scaled_ge (x : Q) (n : Z) :
  inject_Z n * PyFloat.pow2 (PyFloat.ulp_exponent x) <= x ->
  inject_Z n * PyFloat.pow2 (PyFloat.ulp_exponent x) <= PyFloat.b64 x.
Proof.
  intros H. unfold PyFloat.b64.
  pose proof (pow2_pos (PyFloat.ulp_exponent x)) as Hp.
  apply Qmult_le_compat_r; [| lra ].
  rewrite <- Zle_Qle. apply rne_ge_Z. apply Qle_shift_div_l; assumption.
Qed.

Lemma b64_scaled_le (x : Q) (n : Z) :
  x <= inject_Z n * PyFloat.pow2 (PyFloat.ulp_exponent x) ->
  PyFloat.b64 x <= inject_Z n * PyFloat.pow2 (PyFloat.ulp_exponent x).
Proof.
  intros H. unfold PyFloat.b64.
  pose proof (pow2_pos (PyFloat.ulp_exponent x)) as Hp.
  apply Qmult_le_compat_r; [| lra ].
  rewrite <- Zle_Qle. apply rne_le_Z. apply Qle_shift_div_r; assumption.
Qed.

Lemma b64_nonneg (x : Q) : 0 <= x -> 0 <= PyFloat.b64 x.
Proof.
  intros H. pose proof (b64_scaled_ge x 0) as H0.
  rewrite Qmult_0_l in H0. exact (H0 H).
Qed.

Lemma b64_nonpos (x : Q) : x <= 0 -> PyFloat.b64 x <= 0.
Proof.
  intros H. pose proof (b64_scaled_le x 0) as H0.
  rewrite Qmult_0_l in H0. exact (H0 H).
Qed.

Lemma b64_same_exponent (x y : Q) :
  PyFloat.ulp_exponent x = PyFloat.ulp_exponent y ->
  x <= y -> PyFloat.b64 x <= PyFloat.b64 y.
Proof.
  intros He Hxy. unfold PyFloat.b64. rewrite He.
  pose proof (pow2_pos (PyFloat.ulp_exponent y)) as Hp.
  apply Qmult_le_compat_r; [| lra ].
  rewrite <- Zle_Qle. apply rne_mono.
  unfold Qdiv. apply Qmult_le_compat_r; [ exact Hxy |].
  apply Qinv_le_0_compat. lra.
Qed.

Lemma pow2_52 : PyFloat.pow2 52 == inject_Z (2 ^ 52).
Proof. symmetry. apply pow2_inject. lia. Qed.

Lemma pow2_53 : PyFloat.pow2 53 == inject_Z (2 ^ 53).
Proof. symmetry. apply pow2_inject. lia. Qed.

Lemma pow2_step (e1 e2 : Z) :
  (e1 < e2)%Z ->
  inject_Z (2 ^ 53) * PyFloat.pow2 e1 <= inject_Z (2 ^ 52) * PyFloat.pow2 e2.
Proof.
  intros H.
  assert (Hle : PyFloat.pow2 (e1 + 1) <= PyFloat.pow2 e2) by (apply pow2_le; lia).
  rewrite pow2_succ in Hle.
  change (inject_Z (2 ^ 53)) with (2 * inject_Z (2 ^ 52)).
  assert (H52 : 0 < inject_Z (2 ^ 52)) by reflexivity.
  rewrite <- Qmult_assoc, (Qmult_comm 2), <- Qmult_assoc.
  apply Qmult_le_l; [ exact H52 |]. rewrite Qmult_comm. exact Hle.
Qed.

(** Rounding to binary64 is monotone. *)
Lemma b64_mono (x y : Q) : x <= y -> PyFloat.b64 x <= PyFloat.b64 y.
Proof.
  intros Hxy.
  destruct (Qlt_le_dec 0 x) as [Hx | Hx].
  - (* 0 < x <= y *)
    assert (Hy : 0 < y) by lra.
    assert (Hax : Qabs x == x) by (apply Qabs_pos; lra).
    assert (Hay : Qabs y == y) by (apply Qabs_pos; lra).
    assert (He : (PyFloat.ulp_exponent x <= PyFloat.ulp_exponent y)%Z).
    { apply ulp_exponent_mono; lra. }
    destruct (Z.eq_dec (PyFloat.ulp_exponent x) (PyFloat.ulp_exponent y))
      as [Heq | Hne]; [ apply b64_same_exponent; assumption |].
    assert (Hxn : ~ x == 0) by lra. assert (Hyn : ~ y == 0) by lra.
    destruct (scaled_bounds x Hxn) as [Hxhi _].
    destruct (scaled_bounds y Hyn) as [_ Hylo].
    assert (Hmin : (-1074 <= PyFloat.ulp_exponent x)%Z)
      by (unfold PyFloat.ulp_exponent; lia).
    specialize (Hylo ltac:(lia)).
    rewrite pow2_53, Hax in Hxhi. rewrite pow2_52, Hay in Hylo.
    apply Qle_trans with (inject_Z (2 ^ 53) * PyFloat.pow2 (PyFloat.ulp_exponent x)).
    { apply b64_scaled_le. lra. }
    apply Qle_trans with (inject_Z (2 ^ 52) * PyFloat.pow2 (PyFloat.ulp_exponent y)).
    { apply pow2_step. lia. }
    apply b64_scaled_ge. exact Hylo.
  - destruct (Qlt_le_dec y 0) as [Hy | Hy].
    + (* x <= y < 0 *)
      assert (Hax : Qabs x == - x) by (apply Qabs_neg; lra).
      assert (Hay : Qabs y == - y) by (apply Qabs_neg; lra).
      assert (He : (PyFloat.ulp_exponent y <= PyFloat.ulp_exponent x)%Z).
      { apply ulp_exponent_mono; lra. }
      destruct (Z.eq_dec (PyFloat.ulp_exponent x) (PyFloat.ulp_exponent y))
        as [Heq | Hne]; [ apply b64_same_exponent; assumption |].
      assert (Hxn : ~ x == 0) by lra. assert (Hyn : ~ y == 0) by lra.
      destruct (scaled_bounds x Hxn) as [_ Hxlo].
      destruct (scaled_bounds y Hyn) as [Hyhi _].
      assert (Hmin : (-1074 <= PyFloat.ulp_exponent y)%Z)
        by (unfold PyFloat.ulp_exponent; lia).
      specialize (Hxlo ltac:(lia)).
      rewrite pow2_53, Hay in Hyhi. rewrite pow2_52, Hax in Hxlo.
      pose proof (pow2_step (PyFloat.ulp_exponent y) (PyFloat.ulp_exponent x)
                    ltac:(lia)) as Hstep.
      apply Qle_trans
        with (inject_Z (- 2 ^ 52) * PyFloat.pow2 (PyFloat.ulp_exponent x)).
      { apply b64_scaled_le. rewrite inject_Z_opp. lra. }
      apply Qle_trans
        with (inject_Z (- 2 ^ 53) * PyFloat.pow2 (PyFloat.ulp_exponent y)).
      { rewrite !inject_Z_opp. lra. }
      apply b64_scaled_ge. rewrite inject_Z_opp. lra.
    + (* x <= 0 <= y *)
      apply Qle_trans with 0; [ apply b64_nonpos | apply b64_nonneg ];
        assumption.
Qed.

Lemma b64_zero : PyFloat.b64 0 == 0.
Proof. vm_compute. reflexivity. Qed.

Lemma b64_half : PyFloat.b64 (1 # 2) == 1 # 2.
Proof. vm_compute. reflexivity. Qed.

Lemma b64_one : PyFloat.b64 1 == 1.
Proof. vm_compute. reflexivity. Qed.

Lemma trunc_spec (v : Q) :
  PyFloat.trunc v = if Qle_bool 0 v then Qfloor v else Qceiling v.
Proof.
  destruct v as [n d]. unfold PyFloat.trunc, Qceiling, Qfloor, Qle_bool, Qopp.
  cbn [Qnum Qden]. rewrite Z.mul_1_r, Z.mul_0_l.
  destruct (Z.leb_spec 0 n) as [Hn | Hn].
  - apply Z.quot_div_nonneg; lia.
  - replace n with (- - n)%Z at 1 by lia.
    rewrite Z.quot_opp_l by lia. f_equal. apply Z.quot_div_nonneg; lia.
Qed.

Lemma trunc_mono (x y : Q) : x <= y -> (PyFloat.trunc x <= PyFloat.trunc y)%Z.
Proof.
  intros Hxy. rewrite !trunc_spec.
  destruct (Qle_bool 0 x) eqn:Hx; destruct (Qle_bool 0 y) eqn:Hy.
  - apply Qfloor_resp_le. exact Hxy.
  - apply Qle_bool_iff in Hx.
    assert (~ 0 <= y) by (intros H; apply Qle_bool_iff in H; congruence). lra.
  - apply Qle_bool_iff in Hy.
    assert (Hx0 : x <= 0).
    { apply Qlt_le_weak, Qnot_le_lt. intros H. apply Qle_bool_iff in H. congruence. }
    apply Qceiling_resp_le in Hx0. apply Qfloor_resp_le in Hy.
    change 0 with (inject_Z 0) in Hx0, Hy.
    rewrite Qceiling_Z in Hx0. rewrite Qfloor_Z in Hy. lia.
  - apply Qceiling_resp_le. exact Hxy.
Qed.

(** The weight of a cue that does not end before it starts. *)
Lemma cue_weight_bounds {S} (d : Z) (s s' : S) (w : Q) :
  (0 <= d)%Z ->
  Lipsync.cue_weight d s = (Ok w, s') ->
  1 # 2 <= w <= 1.
Proof.
  intros Hd. unfold Lipsync.cue_weight, Lipsync.int_truediv.
  rewrite run_bind.
  destruct (PyFloat.is_inf _); [ discriminate |].
  unfold ret. intros [= <- _].
  set (q := PyFloat.b64 (inject_Z d / inject_Z 500)).
  assert (Hq : 0 <= q).
  { apply b64_nonneg. apply Qle_shift_div_l; [ reflexivity |].
    rewrite Qmult_0_l. change 0 with (inject_Z 0). rewrite <- Zle_Qle. exact Hd. }
  assert (Hsum : 1 # 2 <= PyFloat.add (1 # 2) q).
  { unfold PyFloat.add. apply Qle_trans with (PyFloat.b64 (1 # 2));
      [ rewrite b64_half; apply Qle_refl |]. apply b64_mono. lra. }
  unfold PyFloat.min.
  destruct (Qle_bool 1 (PyFloat.add (1 # 2) q)) eqn:Hle.
  - split; [ discriminate | apply Qle_refl ].
  - split; [ exact Hsum |].
    apply Qlt_le_weak, Qnot_le_lt. intros H. apply Qle_bool_iff in H. congruence.
Qed.

Lemma round_2_bounds (w : Q) :
  1 # 2 <= w <= 1 -> 1 # 2 <= PyFloat.round_2 w <= 1.
Proof.
  intros [Hlo Hhi]. unfold PyFloat.round_2.
  assert (H50 : (50 <= PyFloat.round_half_even (w * 100))%Z).
  { apply rne_ge_Z. change (inject_Z 50) with 50. lra. }
  assert (H100 : (PyFloat.round_half_even (w * 100) <= 100)%Z).
  { apply rne_le_Z. change (inject_Z 100) with 100. lra. }
  rewrite Zle_Qle in H50, H100.
  change (inject_Z 50) with 50 in H50. change (inject_Z 100) with 100 in H100.
  set (n := inject_Z (PyFloat.round_half_even (w * 100))) in *.
  split.
  - apply Qle_trans with (PyFloat.b64 (1 # 2));
      [ rewrite b64_half; apply Qle_refl |].
    apply b64_mono. apply Qle_shift_div_l; [ reflexivity | lra ].
  - apply Qle_trans with (PyFloat.b64 1);
      [| rewrite b64_one; apply Qle_refl ].
    apply b64_mono. apply Qle_shift_div_r; [ reflexivity | lra ].
Qed.

Lemma parse_cue_bounds {S} (cue : RawCue) (s s' : S) (c : MouthCue) :
  start cue <= end_ cue ->
  Lipsync.parse_cue cue s = (Ok c, s') ->
  1 # 2 <= weight c <= 1.
Proof.
  intros Hse. unfold Lipsync.parse_cue, Lipsync.int_of_float.
  rewrite run_bind.
  destruct (PyFloat.is_inf (PyFloat.mul (start cue) 1000)); [ discriminate |].
  unfold ret at 1. rewrite run_bind.
  destruct (PyFloat.is_inf (PyFloat.mul (end_ cue) 1000)); [ discriminate |].
  unfold ret at 1. rewrite run_bind.
  destruct (Lipsync.cue_weight _ s) as [[w | e] s2] eqn:Hw; [| discriminate ].
  unfold ret. intros [= <- _]. cbn [weight].
  apply round_2_bounds. refine (cue_weight_bounds _ _ _ _ _ Hw).
  assert (Hm : PyFloat.mul (start cue) 1000 <= PyFloat.mul (end_ cue) 1000).
  { apply b64_mono. apply Qmult_le_compat_r; [ exact Hse | discriminate ]. }
  apply trunc_mono in Hm. lia.
Qed.

Lemma parse_cues_bounds {S} (raw : list RawCue) (s s' : S)
  (cues : list MouthCue) :
  Forall (fun cue => start cue <= end_ cue) raw ->
  Lipsync.parse_cues raw s = (Ok cues, s') ->
  Forall (fun c => 1 # 2 <= weight c <= 1) cues
  /\ length cues = length raw.
Proof.
  intros Hraw. revert s s' cues.
  induction Hraw as [| cue raw Hcue _ IH]; intros s s' cues; cbn [Lipsync.parse_cues].
  - unfold ret. intros [= <- _]. split; [ constructor | reflexivity ].
  - rewrite run_bind.
    destruct (Lipsync.parse_cue cue s) as [[c | e] s1] eqn:Hc; [| discriminate ].
    rewrite run_bind.
    destruct (Lipsync.parse_cues raw s1) as [[cs | e] s2] eqn:Hcs;
      [| discriminate ].
    unfold ret. intros [= <- _].
    destruct (IH _ _ _ Hcs) as [Hb Hl]. split.
    + constructor; [ exact (parse_cue_bounds _ _ _ _ Hcue Hc) | exact Hb ].
    + cbn [length]. rewrite Hl. reflexivity.
Qed.

(** *** The parse returns unless a time overflows *)

Definition finite (v : Q) : Prop := PyFloat.is_inf v = false.

Lemma finite_bound (v : Q) :
  finite v <-> Qabs v < PyFloat.pow2 1024.
Proof.
  unfold finite, PyFloat.is_inf. split.
  - intros H. apply Qnot_le_lt. intros Hle. apply Qle_bool_iff in Hle. congruence.
  - intros H. destruct (Qle_bool _ _) eqn:Hle; [| reflexivity ].
    apply Qle_bool_iff in Hle. lra.
Qed.

Lemma trunc_abs (v : Q) : Qabs (inject_Z (PyFloat.trunc v)) <= Qabs v.
Proof.
  rewrite trunc_spec. destruct (Qle_bool 0 v) eqn:Hv.
  - apply Qle_bool_iff in Hv. pose proof (Qfloor_le v) as Hf.
    assert (H0 : (0 <= Qfloor v)%Z).
    { apply Qfloor_resp_le in Hv. change 0 with (inject_Z 0) in Hv.
      rewrite Qfloor_Z in Hv. exact Hv. }
    rewrite Zle_Qle in H0. change (inject_Z 0) with 0 in H0.
    rewrite !Qabs_pos by assumption. exact Hf.
  - assert (Hv0 : v <= 0).
    { apply Qlt_le_weak, Qnot_le_lt. intros H. apply Qle_bool_iff in H. congruence. }
    pose proof (Qle_ceiling v) as Hc.
    assert (H0 : (Qceiling v <= 0)%Z).
    { apply Qceiling_resp_le in Hv0. change 0 with (inject_Z 0) in Hv0.
      rewrite Qceiling_Z in Hv0. exact Hv0. }
    rewrite Zle_Qle in H0. change (inject_Z 0) with 0 in H0.
    rewrite !Qabs_neg by assumption. lra.
Qed.

Lemma b64_pow2_1017 :
  PyFloat.b64 (PyFloat.pow2 1017) == PyFloat.pow2 1017
  /\ PyFloat.b64 (- PyFloat.pow2 1017) == - PyFloat.pow2 1017
  /\ PyFloat.pow2 1024 == 128 * PyFloat.pow2 1017.
Proof. split; [| split ]; vm_compute; reflexivity. Qed.

Lemma cue_weight_returns {S} (a b : Q) (s : S) :
  finite a -> finite b ->
  exists w, Lipsync.cue_weight (PyFloat.trunc b - PyFloat.trunc a) s = (Ok w, s).
Proof.
  intros Ha Hb. apply finite_bound in Ha, Hb.
  pose proof (trunc_abs a) as Hta. pose proof (trunc_abs b) as Htb.
  destruct b64_pow2_1017 as (Hpos & Hneg & H1024).
  set (T := PyFloat.pow2 1017) in *.
  assert (HT : 0 < T) by apply pow2_pos.
  set (d := (PyFloat.trunc b - PyFloat.trunc a)%Z).
  assert (Hd : - (256 * T) < inject_Z d /\ inject_Z d < 256 * T).
  { unfold d. unfold Z.sub. rewrite inject_Z_plus, inject_Z_opp.
    revert Hta Htb Ha Hb. rewrite H1024.
    generalize (inject_Z (PyFloat.trunc a)), (inject_Z (PyFloat.trunc b)).
    intros ta tb.
    apply (Qabs_case ta); apply (Qabs_case tb);
      apply (Qabs_case a); apply (Qabs_case b); intros; split; lra. }
  set (x := inject_Z d / inject_Z 500).
  assert (Hx : - T <= x /\ x <= T).
  { unfold x. split.
    - apply Qle_shift_div_l; [ reflexivity |]. change (inject_Z 500) with 500. lra.
    - apply Qle_shift_div_r; [ reflexivity |]. change (inject_Z 500) with 500. lra. }
  assert (Hq : - T <= PyFloat.b64 x /\ PyFloat.b64 x <= T).
  { split.
    - rewrite <- Hneg. apply b64_mono. apply Hx.
    - rewrite <- Hpos. apply b64_mono. apply Hx. }
  unfold Lipsync.cue_weight, Lipsync.int_truediv. rewrite run_bind.
  fold d. fold x.
  assert (Hfin : PyFloat.is_inf (PyFloat.b64 x) = false).
  { apply finite_bound. rewrite H1024.
    apply (Qabs_case (PyFloat.b64 x)); intros; lra. }
  rewrite Hfin. eexists. reflexivity.
Qed.

Definition cue_finite (cue : RawCue) : Prop :=
  finite (PyFloat.mul (start cue) 1000) /\ finite (PyFloat.mul (end_ cue) 1000).

Lemma parse_cue_returns {S} (cue : RawCue) (s : S) :
  cue_finite cue -> exists c, Lipsync.parse_cue cue s = (Ok c, s).
Proof.
  intros [Ha Hb]. unfold Lipsync.parse_cue, Lipsync.int_of_float.
  rewrite run_bind, Ha. unfold ret at 1. rewrite run_bind, Hb. unfold ret at 1.
  rewrite run_bind.
  destruct (cue_weight_returns _ _ s Ha Hb) as [w Hw]. rewrite Hw.
  eexists. reflexivity.
Qed.

Lemma parse_cues_returns {S} (raw : list RawCue) (s : S) :
  Forall cue_finite raw -> exists cues, Lipsync.parse_cues raw s = (Ok cues, s).
Proof.
  intros Hraw. induction Hraw as [| cue raw Hcue _ IH]; cbn [Lipsync.parse_cues].
  - eexists. reflexivity.
  - rewrite run_bind. destruct (parse_cue_returns cue s Hcue) as [c Hc].
    rewrite Hc, run_bind. destruct IH as [cs Hcs]. rewrite Hcs.
    eexists. reflexivity.
Qed.

(** C10.  For the cues of a Rhubarb output that do not end before they
    start, every cue that [parse_rhubarb_output] produces has a weight
    between 0.5 and 1.0, hence within the bound 0.0 to 1.0 of the MouthCue
    schema, and there is one cue per input cue; the parse returns whenever
    no time in milliseconds overflows the floats. *)
Theorem mouth_cue_weight_bounds {S} (mouthCues : option (list RawCue)) (s : S) :
  Forall (fun cue => start cue <= end_ cue) (default [] mouthCues) ->
  (forall cues s',
      Lipsync.parse_rhubarb_output mouthCues s = (Ok cues, s') ->
      Forall (fun c => (1 # 2 <= weight c <= 1) /\ (0 <= weight c <= 1)) cues
      /\ length cues = length (default [] mouthCues))
  /\ (Forall cue_finite (default [] mouthCues) ->
      exists cues, Lipsync.parse_rhubarb_output mouthCues s = (Ok cues, s)).
Proof.
  intros Hraw. unfold Lipsync.parse_rhubarb_output. split.
  - intros cues s' Hrun.
    destruct (parse_cues_bounds _ _ _ _ Hraw Hrun) as [Hb Hl].
    split; [| exact Hl ].
    eapply Forall_impl; [ exact Hb |].
    intros c [Hlo Hhi]. split; [ split; assumption |]. split; [ lra | exact Hhi ].
  - apply parse_cues_returns.
Qed.

End Binary64.

Lemma mouth_cue_weight_bounds_witness :
  exists cues,
    Lipsync.parse_rhubarb_output
      (Some [ {| start := 0; end_ := 1 # 2; value := "X" |};
              {| start := 1 # 2; end_ := 57 # 100; value := "A" |} ]) tt
    = (Ok cues, tt)
    /\ Forall (fun c => ((1 # 2 <= weight c <= 1) /\ (0 <= weight c <= 1))%Q)
              cues.
Proof.
  destruct (mouth_cue_weight_bounds
              (Some [ {| start := 0; end_ := 1 # 2; value := "X" |};
                      {| start := 1 # 2; end_ := 57 # 100; value := "A" |} ])
              tt) as [Hbounds Hreturns].
  - repeat constructor; cbn [start end_]; unfold Qle; simpl; lia.
  - destruct Hreturns as [cues Hrun].
    + repeat constructor; vm_compute; reflexivity.
    + exists cues. split; [ exact Hrun |].
      exact (proj1 (Hbounds cues tt Hrun)).
Defined.

(* ===================================================================== *)
(** * More float arithmetic *)
(* ===================================================================== *)

(** [float(n)] for an int, also where an int meets a float in [x * n]: an
    int too large for a float is refused. *)
Definition float_of_int {S} (n : Z) : M S Q :=
  let v := PyFloat.b64 (inject_Z n) in
  if PyFloat.is_inf v then raise OverflowError else ret v.

Section Exact.
Local Open Scope Q_scope.

Lemma b64_value (x y : Q) : x == y -> PyFloat.b64 x == PyFloat.b64 y.
Proof.
  intros H. apply Qle_antisym; apply b64_mono; rewrite H; apply Qle_refl.
Qed.

Lemma trunc_value (x y : Q) : x == y -> PyFloat.trunc x = PyFloat.trunc y.
Proof.
  intros H. apply Z.le_antisymm; apply trunc_mono; rewrite H; apply Qle_refl.
Qed.

Lemma trunc_int (n : Z) : PyFloat.trunc (inject_Z n) = n.
Proof. unfold PyFloat.trunc. cbn. apply Z.quot_1_r. Qed.

Lemma pow2_lt_inv (a b : Z) : PyFloat.pow2 a < PyFloat.pow2 b -> (a < b)%Z.
Proof.
  intros H. destruct (Z_lt_le_dec a b) as [Hlt | Hge]; [ exact Hlt |].
  pose proof (pow2_le b a Hge). lra.
Qed.

Lemma Qabs_inject_Z (m : Z) : Qabs (inject_Z m) == inject_Z (Z.abs m).
Proof. unfold Qabs, inject_Z. cbn. reflexivity. Qed.

(** A number with at most 53 significant bits, of an exponent within the
    range of the format, is a float: rounding keeps it. *)
Lemma b64_exact (m e : Z) :
  (Z.abs m < 2 ^ 53)%Z -> (-1074 <= e)%Z ->
  PyFloat.b64 (inject_Z m * PyFloat.pow2 e) == inject_Z m * PyFloat.pow2 e.
Proof.
  intros Hm He.
  set (x := inject_Z m * PyFloat.pow2 e).
  pose proof (pow2_pos e) as Hpe.
  destruct (Z.eq_dec m 0%Z) as [-> | Hm0].
  { assert (Hx : x == 0) by (unfold x; ring).
    rewrite (b64_value _ _ Hx), Hx. apply b64_zero. }
  assert (Hx0 : ~ x == 0).
  { unfold x. intros H. apply Qmult_integral in H as [H | H]; [| lra ].
    apply Hm0. unfold Qeq in H. cbn in H. lia. }
  set (u := PyFloat.ulp_exponent x).
  assert (Hu : (u <= e)%Z).
  { destruct (scaled_bounds x Hx0) as [_ Hlow]. fold u in Hlow.
    destruct (Z_lt_le_dec (-1074) u) as [Hgt | Hle].
    - specialize (Hlow Hgt).
      assert (Habs : Qabs x < PyFloat.pow2 53 * PyFloat.pow2 e).
      { unfold x. rewrite Qabs_Qmult, Qabs_inject_Z.
        rewrite (Qabs_pos (PyFloat.pow2 e)) by lra.
        apply Qmult_lt_compat_r; [ exact Hpe |].
        rewrite pow2_53, <- Zlt_Qlt. exact Hm. }
      assert (Hlt : PyFloat.pow2 (52 + u) < PyFloat.pow2 (53 + e)).
      { rewrite !pow2_add. lra. }
      apply pow2_lt_inv in Hlt. lia.
    - unfold u, PyFloat.ulp_exponent in *. lia. }
  assert (Hscaled : inject_Z (m * 2 ^ (e - u)) * PyFloat.pow2 u == x).
  { unfold x. rewrite inject_Z_mult, pow2_inject by lia.
    rewrite <- Qmult_assoc, <- pow2_add.
    replace (e - u + u)%Z with e by lia. reflexivity. }
  apply Qle_antisym.
  - rewrite <- Hscaled at 2. apply b64_scaled_le. fold u. rewrite Hscaled.
    apply Qle_refl.
  - rewrite <- Hscaled at 1. apply b64_scaled_ge. fold u. rewrite Hscaled.
    apply Qle_refl.
Qed.

Lemma b64_int (n : Z) :
  (Z.abs n < 2 ^ 53)%Z -> PyFloat.b64 (inject_Z n) == inject_Z n.
Proof.
  intros Hn. pose proof (b64_exact n 0 Hn ltac:(lia)) as H.
  assert (Hx : inject_Z n * PyFloat.pow2 0 == inject_Z n)
    by (unfold PyFloat.pow2; cbn; ring).
  rewrite (b64_value _ _ Hx), Hx in H. exact H.
Qed.

Lemma b64_half_int (n : Z) :
  (Z.abs n < 2 ^ 53)%Z ->
  PyFloat.b64 (inject_Z n / 2) == inject_Z n / 2.
Proof.
  intros Hn. pose proof (b64_exact n (-1) Hn ltac:(lia)) as H.
  assert (Hx : inject_Z n * PyFloat.pow2 (-1) == inject_Z n / 2)
    by (unfold PyFloat.pow2; cbn; field).
  rewrite (b64_value _ _ Hx), Hx in H. exact H.
Qed.

(** The integer part of a half of an integer. *)
Lemma trunc_half (n : Z) : PyFloat.trunc (inject_Z n / 2) = Z.quot n 2.
Proof.
  unfold PyFloat.trunc. cbn. rewrite Z.mul_1_r. reflexivity.
Qed.

Lemma finite_int (n : Z) :
  (Z.abs n < 2 ^ 53)%Z -> PyFloat.is_inf (PyFloat.b64 (inject_Z n)) = false.
Proof.
  intros Hn. apply finite_bound. rewrite (b64_int n Hn), Qabs_inject_Z.
  apply Qlt_le_trans with (PyFloat.pow2 53).
  - rewrite pow2_53, <- Zlt_Qlt. exact Hn.
  - apply pow2_le. lia.
Qed.

End Exact.

(* ===================================================================== *)
(** * src/worker/landmarks.py: anchor boxes *)
(* ===================================================================== *)

(** An anchor box is a dict of Python ints under the keys x, y, w, h, cx
    and cy. *)
Abbreviation anchor := (gmap string Z).

(** [d[k]] on an anchor. *)
Definition getint {S} (d : anchor) (k : string) : M S Z :=
  match d !! k with
  | Some v => ret v
  | None => raise (KeyError k)
  end.

Definition mk_anchor (x y w h cx cy : Z) : anchor :=
  <["x" := x]> (<["y" := y]> (<["w" := w]> (<["h" := h]>
  (<["cx" := cx]> (<["cy" := cy]> ∅))))).

(** A landmark of MediaPipe's face mesh: two normalized coordinates. *)
Record Landmark := mkLandmark { lm_x : Q; lm_y : Q }.

(** The 64-bit integers of a numpy array: sums and differences wrap. *)
Module Numpy.

Definition int64 (z : Z) : Z := (z + 2 ^ 63) mod 2 ^ 64 - 2 ^ 63.

(** [a.min()], [a.max()] of a column that starts with [first]. *)
Definition min (first : Z) (others : list Z) : Z := foldr Z.min first others.
Definition max (first : Z) (others : list Z) : Z := foldr Z.max first others.

End Numpy.

Module Landmarks.

Definition LIPS_LANDMARKS : list nat :=
  [61; 146; 91; 181; 84; 17; 314; 405; 321; 375; 291; 308; 324; 318; 402;
   317; 14; 87; 178; 88; 95; 185; 40; 39; 37; 0; 267; 269; 270; 409; 415;
   310; 311; 312; 13; 82; 81; 80; 191; 78]%nat.
Definition EYE_LEFT_LANDMARKS : list nat :=
  [33; 246; 161; 160; 159; 158; 157; 173; 133; 155; 154; 153; 145; 144; 163;
   7]%nat.
Definition EYE_RIGHT_LANDMARKS : list nat :=
  [362; 398; 384; 385; 386; 387; 388; 466; 263; 249; 390; 373; 374; 380;
   381; 382]%nat.

(** [int(v * n)] for a float [v] and an int [n]. *)
Definition scaled {S} (v : Q) (n : Z) : M S Z :=
  f <- float_of_int n ;;
  Lipsync.int_of_float (PyFloat.mul v f).

(** The pixel coordinates of the landmarks listed in [indices], as the
    rows of an array of 64-bit integers. *)
Fixpoint get_landmark_coords {S} (landmarks : list Landmark)
  (indices : list nat) (width height : Z) : M S (list (Z * Z)) :=
  match indices with
  | [] => ret []
  | idx :: indices' =>
      lm <- match landmarks !! idx with
            | Some lm => ret lm
            | None => raise (Exception "list index out of range")
            end ;;
      x <- scaled (lm_x lm) width ;;
      y <- scaled (lm_y lm) height ;;
      coords <- get_landmark_coords landmarks indices' width height ;;
      ret ((x, y) :: coords)
  end.

Definition compute_bbox_from_landmarks {S} (coords : list (Z * Z))
  (padding : Q) : M S (option anchor) :=
  match coords with
  | [] => ret None
  | first :: others =>
      let x_min := Numpy.min (fst first) (map fst others) in
      let y_min := Numpy.min (snd first) (map snd others) in
      let x_max := Numpy.max (fst first) (map fst others) in
      let y_max := Numpy.max (snd first) (map snd others) in
      (* Original bbox *)
      let orig_w := Numpy.int64 (x_max - x_min) in
      let orig_h := Numpy.int64 (y_max - y_min) in
      let orig_cx :=
        PyFloat.b64 (PyFloat.b64 (inject_Z (Numpy.int64 (x_min + x_max))) / 2) in
      let orig_cy :=
        PyFloat.b64 (PyFloat.b64 (inject_Z (Numpy.int64 (y_min + y_max))) / 2) in
      (* Expand by padding factor *)
      new_w <- Lipsync.int_of_float
                 (PyFloat.mul (PyFloat.b64 (inject_Z orig_w)) padding) ;;
      new_h <- Lipsync.int_of_float
                 (PyFloat.mul (PyFloat.b64 (inject_Z orig_h)) padding) ;;
      (* Compute new top-left corner (centered expansion) *)
      half_w <- Lipsync.int_truediv new_w 2 ;;
      new_x <- Lipsync.int_of_float (PyFloat.b64 (orig_cx - half_w)) ;;
      half_h <- Lipsync.int_truediv new_h 2 ;;
      new_y <- Lipsync.int_of_float (PyFloat.b64 (orig_cy - half_h)) ;;
      cx <- Lipsync.int_of_float orig_cx ;;
      cy <- Lipsync.int_of_float orig_cy ;;
      ret (Some (mk_anchor new_x new_y new_w new_h cx cy))
  end.

Definition extract_mouth_anchor {S} (landmarks : list Landmark)
  (width height : Z) (padding : Q) : M S (option anchor) :=
  try_except
    (coords <- get_landmark_coords landmarks LIPS_LANDMARKS width height ;;
     compute_bbox_from_landmarks coords padding)
    (fun _ => ret None).

Definition extract_eyes_anchor {S} (landmarks : list Landmark)
  (width height : Z) (padding : Q) : M S (option anchor) :=
  try_except
    (left_coords <-
       get_landmark_coords landmarks EYE_LEFT_LANDMARKS width height ;;
     right_coords <-
       get_landmark_coords landmarks EYE_RIGHT_LANDMARKS width height ;;
     let all_coords := left_coords ++ right_coords in
     compute_bbox_from_landmarks all_coords padding)
    (fun _ => ret None).

Definition clamp_bbox {S} (bbox : anchor) (max_width max_height : Z)
  : M S anchor :=
  bx <- getint bbox "x" ;;
  let x := Z.max 0 bx in
  by_ <- getint bbox "y" ;;
  let y := Z.max 0 by_ in
  bw <- getint bbox "w" ;;
  let w := Z.min bw (max_width - x) in
  bh <- getint bbox "h" ;;
  let h := Z.min bh (max_height - y) in
  cx <- getint bbox "cx" ;;
  cy <- getint bbox "cy" ;;
  ret (mk_anchor x y w h cx cy).

End Landmarks.

Lemma getint_ok {S} (d : anchor) (k : string) (v : Z) (s : S) :
  d !! k = Some v -> getint d k s = (Ok v, s).
Proof. intros H. unfold getint. rewrite H. reflexivity. Qed.

Lemma getint_inv {S} (d : anchor) (k : string) (v : Z) (s s' : S) :
  getint d k s = (Ok v, s') -> d !! k = Some v /\ s' = s.
Proof.
  unfold getint. destruct (d !! k); [| discriminate ].
  intros [= -> ->]. split; reflexivity.
Qed.

Lemma mk_anchor_fields (x y w h cx cy : Z) :
  let a := mk_anchor x y w h cx cy in
  a !! "x" = Some x /\ a !! "y" = Some y /\ a !! "w" = Some w
  /\ a !! "h" = Some h /\ a !! "cx" = Some cx /\ a !! "cy" = Some cy.
Proof. unfold mk_anchor. repeat split; simplify_map_eq; reflexivity. Qed.

(** What [clamp_bbox] answers on a box that has its six keys. *)
Lemma clamp_bbox_run {S} (bbox : anchor) (W H x y w h cx cy : Z) (s : S) :
  bbox !! "x" = Some x -> bbox !! "y" = Some y -> bbox !! "w" = Some w ->
  bbox !! "h" = Some h -> bbox !! "cx" = Some cx -> bbox !! "cy" = Some cy ->
  Landmarks.clamp_bbox bbox W H s
  = (Ok (mk_anchor (Z.max 0 x) (Z.max 0 y) (Z.min w (W - Z.max 0 x))
           (Z.min h (H - Z.max 0 y)) cx cy), s).
Proof.
  intros Hx Hy Hw Hh Hcx Hcy. unfold Landmarks.clamp_bbox.
  rewrite run_bind, (getint_ok _ _ _ _ Hx).
  rewrite run_bind, (getint_ok _ _ _ _ Hy).
  rewrite run_bind, (getint_ok _ _ _ _ Hw).
  rewrite run_bind, (getint_ok _ _ _ _ Hh).
  rewrite run_bind, (getint_ok _ _ _ _ Hcx).
  rewrite run_bind, (getint_ok _ _ _ _ Hcy).
  reflexivity.
Qed.

Lemma clamp_bbox_inv {S} (bbox out : anchor) (W H : Z) (s s' : S) :
  Landmarks.clamp_bbox bbox W H s = (Ok out, s') ->
  exists x y w h cx cy,
    bbox !! "x" = Some x /\ bbox !! "y" = Some y /\ bbox !! "w" = Some w
    /\ bbox !! "h" = Some h /\ bbox !! "cx" = Some cx /\ bbox !! "cy" = Some cy.
Proof.
  unfold Landmarks.clamp_bbox, getint, bind, ret, raise.
  destruct (bbox !! "x") as [x |]; [| discriminate ].
  destruct (bbox !! "y") as [y |]; [| discriminate ].
  destruct (bbox !! "w") as [w |]; [| discriminate ].
  destruct (bbox !! "h") as [h |]; [| discriminate ].
  destruct (bbox !! "cx") as [cx |]; [| discriminate ].
  destruct (bbox !! "cy") as [cy |]; [| discriminate ].
  intros _. exists x, y, w, h, cx, cy. repeat split; reflexivity.
Qed.

(** X1.  The box [clamp_bbox] returns starts inside the frame and does not
    reach past its right and bottom edges; it is never larger than the box
    given, and the centre is kept.  Its width is negative exactly when the
    given width is, or when the clamped box starts right of the frame: the
    clamp does not bring such a box back. *)
Theorem clamp_bbox_inside_frame {S} (bbox out : anchor) (W H : Z) (s s' : S) :
  Landmarks.clamp_bbox bbox W H s = (Ok out, s') ->
  exists x y w h x' y' w' h',
    bbox !! "x" = Some x /\ bbox !! "y" = Some y
    /\ bbox !! "w" = Some w /\ bbox !! "h" = Some h
    /\ out !! "x" = Some x' /\ out !! "y" = Some y'
    /\ out !! "w" = Some w' /\ out !! "h" = Some h'
    /\ out !! "cx" = bbox !! "cx" /\ out !! "cy" = bbox !! "cy"
    /\ 0 <= x' /\ 0 <= y' /\ x <= x' /\ y <= y'
    /\ x' + w' <= W /\ y' + h' <= H
    /\ w' <= w /\ h' <= h
    /\ (w' < 0 <-> w < 0 \/ W < x')
    /\ (h' < 0 <-> h < 0 \/ H < y')
    /\ s' = s.
Proof.
  intros Hrun.
  destruct (clamp_bbox_inv _ _ _ _ _ _ Hrun)
    as (x & y & w & h & cx & cy & Hx & Hy & Hw & Hh & Hcx & Hcy).
  rewrite (clamp_bbox_run bbox W H x y w h cx cy s Hx Hy Hw Hh Hcx Hcy) in Hrun.
  injection Hrun as <- <-.
  destruct (mk_anchor_fields (Z.max 0 x) (Z.max 0 y) (Z.min w (W - Z.max 0 x))
              (Z.min h (H - Z.max 0 y)) cx cy)
    as (Ox & Oy & Ow & Oh & Ocx & Ocy).
  exists x, y, w, h, (Z.max 0 x), (Z.max 0 y), (Z.min w (W - Z.max 0 x)),
    (Z.min h (H - Z.max 0 y)).
  rewrite Hcx, Hcy.
  repeat (split; [ first [ assumption | reflexivity | lia ] |]).
  reflexivity.
Qed.

Lemma clamp_bbox_inside_frame_witness :
  exists out,
    Landmarks.clamp_bbox (mk_anchor (-20) 600 300 100 130 650) 512 640 tt
    = (Ok out, tt)
    /\ out !! "x" = Some 0 /\ out !! "w" = Some 300
    /\ out !! "y" = Some 600 /\ out !! "h" = Some 40.
Proof.
  destruct (clamp_bbox_inside_frame (mk_anchor (-20) 600 300 100 130 650)
              (mk_anchor 0 600 300 40 130 650) 512 640 tt tt eq_refl)
    as (x & y & w & h & x' & y' & w' & h' & _).
  exists (mk_anchor 0 600 300 40 130 650).
  split; [ reflexivity |]. repeat split; reflexivity.
Defined.

(** X2.  Clamping is idempotent, and a box that lies inside the frame is
    handed back with its six fields unchanged. *)
Theorem clamp_bbox_idempotent {S} (bbox out : anchor) (W H : Z) (s s' : S) :
  Landmarks.clamp_bbox bbox W H s = (Ok out, s') ->
  Landmarks.clamp_bbox out W H s = (Ok out, s)
  /\ (forall x y w h cx cy,
        bbox !! "x" = Some x -> bbox !! "y" = Some y ->
        bbox !! "w" = Some w -> bbox !! "h" = Some h ->
        bbox !! "cx" = Some cx -> bbox !! "cy" = Some cy ->
        0 <= x -> 0 <= y -> x + w <= W -> y + h <= H ->
        out = mk_anchor x y w h cx cy).
Proof.
  intros Hrun.
  destruct (clamp_bbox_inv _ _ _ _ _ _ Hrun)
    as (x & y & w & h & cx & cy & Hx & Hy & Hw & Hh & Hcx & Hcy).
  rewrite (clamp_bbox_run bbox W H x y w h cx cy s Hx Hy Hw Hh Hcx Hcy) in Hrun.
  injection Hrun as <- <-. split.
  - destruct (mk_anchor_fields (Z.max 0 x) (Z.max 0 y)
                (Z.min w (W - Z.max 0 x)) (Z.min h (H - Z.max 0 y)) cx cy)
      as (Ox & Oy & Ow & Oh & Ocx & Ocy).
    rewrite (clamp_bbox_run _ W H _ _ _ _ _ _ s Ox Oy Ow Oh Ocx Ocy).
    do 2 f_equal. f_equal; lia.
  - intros x0 y0 w0 h0 cx0 cy0 Hx0 Hy0 Hw0 Hh0 Hcx0 Hcy0 Hx1 Hy1 Hw1 Hh1.
    rewrite Hx in Hx0. rewrite Hy in Hy0. rewrite Hw in Hw0.
    rewrite Hh in Hh0. rewrite Hcx in Hcx0. rewrite Hcy in Hcy0.
    injection Hx0 as <-. injection Hy0 as <-. injection Hw0 as <-.
    injection Hh0 as <-. injection Hcx0 as <-. injection Hcy0 as <-.
    f_equal; lia.
Qed.

Lemma clamp_bbox_idempotent_witness :
  Landmarks.clamp_bbox (mk_anchor 0 600 300 40 130 650) 512 640 tt
  = (Ok (mk_anchor 0 600 300 40 130 650), tt).
Proof.
  exact (proj1 (clamp_bbox_idempotent (mk_anchor (-20) 600 300 100 130 650)
                  (mk_anchor 0 600 300 40 130 650) 512 640 tt tt eq_refl)).
Defined.

(* ===================================================================== *)
(** * More on the mouth cues *)
(* ===================================================================== *)

Section MouthCues.
Local Open Scope Q_scope.

(** The duration in milliseconds that [parse_rhubarb_output] computes for
    a cue. *)
Definition cue_duration_ms (cue : RawCue) : Z :=
  (PyFloat.trunc (PyFloat.mul (end_ cue) 1000)
   - PyFloat.trunc (PyFloat.mul (start cue) 1000))%Z.

(** The weight of a cue that lasts [d] milliseconds, rounded as stored. *)
Definition weight_of_duration (d : Z) : Q :=
  PyFloat.round_2
    (PyFloat.min 1 (PyFloat.add (1 # 2)
                      (PyFloat.b64 (inject_Z d / inject_Z 500)))).

Lemma parse_cue_inv {S} (cue : RawCue) (s s' : S) (c : MouthCue) :
  Lipsync.parse_cue cue s = (Ok c, s') ->
  s' = s
  /\ t_ms c = PyFloat.trunc (PyFloat.mul (start cue) 1000)
  /\ viseme c = default "REST" (Lipsync.VISEME_MAP !! value cue)
  /\ weight c = weight_of_duration (cue_duration_ms cue).
Proof.
  unfold Lipsync.parse_cue, Lipsync.cue_weight, Lipsync.int_truediv,
    Lipsync.int_of_float, bind, ret, raise, weight_of_duration, cue_duration_ms.
  destruct (PyFloat.is_inf (PyFloat.mul (start cue) 1000)); [ discriminate |].
  destruct (PyFloat.is_inf (PyFloat.mul (end_ cue) 1000)); [ discriminate |].
  destruct (PyFloat.is_inf _); [ discriminate |].
  intros [= <- <-]. repeat split; reflexivity.
Qed.

Lemma parse_cues_inv {S} (raw : list RawCue) (s s' : S) (cues : list MouthCue) :
  Lipsync.parse_cues raw s = (Ok cues, s') ->
  s' = s
  /\ Forall2 (fun cue c =>
                t_ms c = PyFloat.trunc (PyFloat.mul (start cue) 1000)
                /\ viseme c = default "REST" (Lipsync.VISEME_MAP !! value cue)
                /\ weight c = weight_of_duration (cue_duration_ms cue))
             raw cues.
Proof.
  revert s' cues.
  induction raw as [| cue raw IH]; intros s' cues; cbn [Lipsync.parse_cues].
  - intros [= <- <-]. split; [ reflexivity | constructor ].
  - rewrite run_bind.
    destruct (Lipsync.parse_cue cue s) as [[c | e] s1] eqn:Hc; [| discriminate ].
    destruct (parse_cue_inv _ _ _ _ Hc) as (-> & Hfields).
    rewrite run_bind.
    destruct (Lipsync.parse_cues raw s) as [[cs | e] s2] eqn:Hcs; [| discriminate ].
    destruct (IH s2 cs eq_refl) as (-> & Hrest).
    intros [= <- <-]. split; [ reflexivity |]. constructor; assumption.
Qed.

Lemma viseme_in_set (v : string) :
  default "REST" (Lipsync.VISEME_MAP !! v) ∈ Lipsync.VISEME_SET.
Proof.
  destruct (Lipsync.VISEME_MAP !! v) as [x |] eqn:Hv; cbn [default].
  - unfold Lipsync.VISEME_MAP in Hv. apply elem_of_list_to_map_2 in Hv.
    unfold Lipsync.VISEME_SET.
    repeat (apply elem_of_cons in Hv as [Hv | Hv];
            [ injection Hv as _ ->; set_solver |]).
    inversion Hv.
  - unfold Lipsync.VISEME_SET. set_solver.
Qed.

(** X3.  Whatever mouth shapes Rhubarb names, every cue that
    [parse_rhubarb_output] returns carries a viseme of [VISEME_SET]; a
    shape that is not one of Rhubarb's nine letters becomes REST. *)
Theorem mouth_cue_visemes_known {S} (mouthCues : option (list RawCue))
  (s s' : S) (cues : list MouthCue) :
  Lipsync.parse_rhubarb_output mouthCues s = (Ok cues, s') ->
  Forall (fun c => viseme c ∈ Lipsync.VISEME_SET) cues
  /\ Forall2 (fun cue c =>
                value cue ∉ ["A"; "B"; "C"; "D"; "E"; "F"; "G"; "H"; "X"] ->
                viseme c = "REST")
             (default [] mouthCues) cues.
Proof.
  unfold Lipsync.parse_rhubarb_output. intros Hrun.
  destruct (parse_cues_inv _ _ _ _ Hrun) as (_ & Hall). clear Hrun.
  induction Hall as [| cue c raw cs (_ & Hv & _) _ [IH1 IH2]].
  - split; constructor.
  - split; constructor; try assumption.
    + rewrite Hv. apply viseme_in_set.
    + intros Hnot. rewrite Hv.
      destruct (Lipsync.VISEME_MAP !! value cue) as [x |] eqn:Hx;
        [| reflexivity ].
      exfalso. apply Hnot. unfold Lipsync.VISEME_MAP in Hx.
      apply elem_of_list_to_map_2 in Hx.
      repeat (apply elem_of_cons in Hx as [Hx | Hx];
              [ injection Hx as -> _; set_solver |]).
      inversion Hx.
Qed.

Lemma mouth_cue_visemes_known_witness :
  exists cues,
    Lipsync.parse_rhubarb_output
      (Some [ {| start := 0; end_ := 1 # 2; value := "X" |};
              {| start := 1 # 2; end_ := 57 # 100; value := "Q" |} ]) tt
    = (Ok cues, tt)
    /\ Forall (fun c => viseme c ∈ Lipsync.VISEME_SET) cues.
Proof.
  eexists. split; [ vm_compute; reflexivity |].
  eapply (proj1 (mouth_cue_visemes_known
                   (Some [ {| start := 0; end_ := 1 # 2; value := "X" |};
                           {| start := 1 # 2; end_ := 57 # 100; value := "Q" |} ])
                   tt tt _ _)).
  Unshelve. vm_compute. reflexivity.
Defined.

(** X4.  The timestamps keep the order of Rhubarb's cues: when the start
    times do not decrease along the list, neither do the [t_ms] values, and
    a cue that starts at a time of zero or more gets a [t_ms] of zero or
    more. *)
Theorem mouth_cue_times_ordered {S} (mouthCues : option (list RawCue))
  (s s' : S) (cues : list MouthCue) :
  Lipsync.parse_rhubarb_output mouthCues s = (Ok cues, s') ->
  (StronglySorted Qle (map start (default [] mouthCues)) ->
   StronglySorted Z.le (map t_ms cues))
  /\ (Forall (fun cue => 0 <= start cue) (default [] mouthCues) ->
      Forall (fun c => (0 <= t_ms c)%Z) cues).
Proof.
  unfold Lipsync.parse_rhubarb_output. intros Hrun.
  destruct (parse_cues_inv _ _ _ _ Hrun) as (_ & Hall). clear Hrun.
  assert (Hmono : forall a b, a <= b ->
            (PyFloat.trunc (PyFloat.mul a 1000)
             <= PyFloat.trunc (PyFloat.mul b 1000))%Z).
  { intros a b Hab. apply trunc_mono. unfold PyFloat.mul. apply b64_mono. nra. }
  split.
  - intros Hs. induction Hall as [| cue c raw cs (Ht & _) Hrest IH];
      cbn [map] in *; [ constructor |].
    apply StronglySorted_inv in Hs as [Hs Hhd].
    constructor; [ exact (IH Hs) |].
    clear IH Hs. induction Hrest as [| cue' c' raw cs (Ht' & _) _ IH'];
      cbn [map] in *; [ constructor |].
    apply Forall_cons in Hhd as [Hle Hhd].
    constructor; [| exact (IH' Hhd) ].
    rewrite Ht, Ht'. apply Hmono. exact Hle.
  - intros Hpos. induction Hall as [| cue c raw cs (Ht & _) _ IH];
      [ constructor |].
    apply Forall_cons in Hpos as [Hp Hpos].
    constructor; [| exact (IH Hpos) ].
    rewrite Ht. change 0%Z with (PyFloat.trunc 0).
    apply trunc_mono. unfold PyFloat.mul. apply b64_nonneg. nra.
Qed.

Lemma mouth_cue_times_ordered_witness :
  exists cues,
    Lipsync.parse_rhubarb_output
      (Some [ {| start := 0; end_ := 1 # 2; value := "X" |};
              {| start := 1 # 2; end_ := 57 # 100; value := "A" |} ]) tt
    = (Ok cues, tt)
    /\ StronglySorted Z.le (map t_ms cues).
Proof.
  eexists. split; [ vm_compute; reflexivity |].
  eapply (proj1 (mouth_cue_times_ordered
                   (Some [ {| start := 0; end_ := 1 # 2; value := "X" |};
                           {| start := 1 # 2; end_ := 57 # 100; value := "A" |} ])
                   tt tt _ _)).
  cbn [default map start].
  repeat (constructor; try (vm_compute; discriminate)).
  Unshelve. vm_compute. reflexivity.
Defined.

(** *** The weight as a function of the duration *)

Lemma min_1_mono (x y : Q) : x <= y -> PyFloat.min 1 x <= PyFloat.min 1 y.
Proof.
  intros Hxy. unfold PyFloat.min.
  destruct (Qle_bool 1 x) eqn:Hx; destruct (Qle_bool 1 y) eqn:Hy.
  - lra.
  - apply Qle_bool_iff in Hx.
    assert (Hn : ~ 1 <= y) by (rewrite <- Qle_bool_iff, Hy; discriminate).
    lra.
  - assert (Hn : ~ 1 <= x) by (rewrite <- Qle_bool_iff, Hx; discriminate).
    lra.
  - exact Hxy.
Qed.

Lemma round_2_mono (x y : Q) : x <= y -> PyFloat.round_2 x <= PyFloat.round_2 y.
Proof.
  intros Hxy. unfold PyFloat.round_2. apply b64_mono.
  assert (H : (PyFloat.round_half_even (x * 100)
               <= PyFloat.round_half_even (y * 100))%Z)
    by (apply rne_mono; lra).
  apply Qmult_le_compat_r; [| discriminate ].
  rewrite <- Zle_Qle. exact H.
Qed.

Lemma weight_of_duration_mono (d1 d2 : Z) :
  (d1 <= d2)%Z -> weight_of_duration d1 <= weight_of_duration d2.
Proof.
  intros Hd. unfold weight_of_duration, PyFloat.add.
  apply round_2_mono, min_1_mono, b64_mono.
  apply Qplus_le_r. apply b64_mono.
  apply Qmult_le_compat_r; [| discriminate ].
  rewrite <- Zle_Qle. exact Hd.
Qed.

Lemma weight_of_duration_values :
  weight_of_duration 248 == 1 /\ weight_of_duration 247 < 1
  /\ weight_of_duration (-253) < 0 /\ 0 <= weight_of_duration (-252)
  /\ weight_of_duration 0 == 1 # 2.
Proof. repeat split; vm_compute; congruence. Qed.

Lemma weight_of_duration_le_1 (d : Z) : weight_of_duration d <= 1.
Proof.
  unfold weight_of_duration.
  apply Qle_trans with (PyFloat.round_2 1); [| vm_compute; discriminate ].
  apply round_2_mono. unfold PyFloat.min.
  destruct (Qle_bool 1 _) eqn:Hb; [ lra |].
  assert (Hn : ~ 1 <= PyFloat.add (1 # 2)
                         (PyFloat.b64 (inject_Z d / inject_Z 500)))
    by (rewrite <- Qle_bool_iff, Hb; discriminate).
  lra.
Qed.

(** X5.  The weight stored with a cue is a non-decreasing function of the
    cue's duration in milliseconds; it is 1.0 exactly for the cues of 248 ms
    and more (0.996 rounds up to 1.0), 0.5 for a cue of no duration, and
    negative exactly for the cues that end 253 ms or more before they
    start. *)
Theorem mouth_cue_weight_by_duration {S} (mouthCues : option (list RawCue))
  (s s' : S) (cues : list MouthCue) :
  Lipsync.parse_rhubarb_output mouthCues s = (Ok cues, s') ->
  Forall2 (fun cue c =>
             (weight c == 1 <-> (248 <= cue_duration_ms cue)%Z)
             /\ (weight c < 0 <-> (cue_duration_ms cue <= -253)%Z)
             /\ (cue_duration_ms cue = 0%Z -> weight c == 1 # 2)
             /\ forall cue' c' (t t' : S),
                  Lipsync.parse_cue cue' t = (Ok c', t') ->
                  (cue_duration_ms cue <= cue_duration_ms cue')%Z ->
                  weight c <= weight c')
          (default [] mouthCues) cues.
Proof.
  unfold Lipsync.parse_rhubarb_output. intros Hrun.
  destruct (parse_cues_inv _ _ _ _ Hrun) as (_ & Hall). clear Hrun.
  destruct weight_of_duration_values as (H248 & H247 & Hm253 & Hm252 & H0).
  eapply Forall2_impl; [ exact Hall |].
  intros cue c (_ & _ & ->). cbv beta. split; [| split; [| split ] ].
  - split.
    + intros H1. destruct (Z_lt_le_dec (cue_duration_ms cue) 248) as [Hlt |];
        [| assumption ].
      pose proof (weight_of_duration_mono (cue_duration_ms cue) 247) as Hm.
      specialize (Hm ltac:(lia)). lra.
    + intros Hd. apply Qle_antisym; [ apply weight_of_duration_le_1 |].
      rewrite <- H248. apply weight_of_duration_mono. exact Hd.
  - split.
    + intros Hneg. destruct (Z_lt_le_dec (-253) (cue_duration_ms cue)) as [Hlt |];
        [| assumption ].
      pose proof (weight_of_duration_mono (-252) (cue_duration_ms cue)) as Hm.
      specialize (Hm ltac:(lia)). lra.
    + intros Hd.
      pose proof (weight_of_duration_mono (cue_duration_ms cue) (-253) Hd).
      lra.
  - intros ->. exact H0.
  - intros cue' c' t t' Hc' Hle.
    destruct (parse_cue_inv _ _ _ _ Hc') as (_ & _ & _ & ->).
    apply weight_of_duration_mono. exact Hle.
Qed.

End MouthCues.

Lemma mouth_cue_weight_by_duration_witness :
  exists cues,
    Lipsync.parse_rhubarb_output
      (Some [ {| start := 0; end_ := 1 # 2; value := "X" |};
              {| start := 1 # 2; end_ := 57 # 100; value := "A" |} ]) tt
    = (Ok cues, tt)
    /\ Forall2 (fun cue c =>
                  (weight c == 1)%Q <-> 248 <= cue_duration_ms cue)
         [ {| start := 0; end_ := 1 # 2; value := "X" |};
           {| start := 1 # 2; end_ := 57 # 100; value := "A" |} ] cues.
Proof.
  destruct (Lipsync.parse_rhubarb_output
              (Some [ {| start := 0; end_ := 1 # 2; value := "X" |};
                      {| start := 1 # 2; end_ := 57 # 100; value := "A" |} ]) tt)
    as [[cues | e] []] eqn:Hrun;
    [| exfalso; vm_compute in Hrun; discriminate Hrun ].
  exists cues. split; [ reflexivity |].
  eapply Forall2_impl;
    [ exact (mouth_cue_weight_by_duration _ tt tt cues Hrun) |].
  intros cue c H. exact (proj1 H).
Defined.

(* ===================================================================== *)
(** * src/worker/lipsync.py: generate_eye_events *)
(* ===================================================================== *)

(** The state of Python's random generator, as the endless sequence of the
    draws to come. *)
Definition Rng : Type := nat -> Z.

Module Random.

(** [random.randint(a, b)] for [a <= b]: some integer from [a] to [b],
    ends included; the draw is consumed. *)
Definition randint (a b : Z) : M Rng Z :=
  fun g => (Ok (a + g O mod (b - a + 1)), fun n => g (S n)).

(** [random.choice(seq)] *)
Definition choice (seq : list string) : M Rng string :=
  fun g =>
    match seq !! Z.to_nat (g O mod Z.of_nat (length seq)) with
    | Some x => (Ok x, fun n => g (S n))
    | None => (Raise (Exception "Cannot choose from an empty sequence"), g)
    end.

End Random.

(** Python strings are sequences of characters, kept here as their UTF-8
    bytes: a character starts at every byte that is not a continuation
    byte. *)
Module Utf8.

Definition is_continuation (c : Ascii.ascii) : bool :=
  let n := Z.of_N (Ascii.N_of_ascii c) in (128 <=? n) && (n <? 192).

(** [len(s)] *)
Fixpoint len (s : string) : Z :=
  match s with
  | EmptyString => 0
  | String c r => (if is_continuation c then 0 else 1) + len r
  end.

End Utf8.

Module LipsyncEyes.

(** A character of the class [[.!?,;:]]. *)
Definition is_punctuation (c : Ascii.ascii) : bool :=
  existsb (Ascii.eqb c) (String.list_ascii_of_string ".!?,;:").

(** [[m.start() for m in re.finditer(r'[.!?,;:]', text)]]: the positions,
    counted in characters from [pos] on, of the punctuation marks. *)
Fixpoint finditer (pos : Z) (text : string) : list Z :=
  match text with
  | EmptyString => []
  | String c r =>
      if is_punctuation c then pos :: finditer (pos + 1) r
      else if Utf8.is_continuation c then finditer pos r
      else finditer (pos + 1) r
  end.

(** [int((char_pos / text_len) * duration_ms)] *)
Definition approx_time_ms {S} (char_pos text_len duration_ms : Z) : M S Z :=
  ratio <- (if text_len =? 0 then raise ZeroDivisionError
            else Lipsync.int_truediv char_pos text_len) ;;
  d <- float_of_int duration_ms ;;
  Lipsync.int_of_float (PyFloat.mul ratio d).

Definition blink (t_ms duration_ms : Z) : EyeEvent :=
  {| e_t_ms := t_ms; event_type := "blink"; e_duration_ms := duration_ms;
     direction := None |}.

Definition saccade (t_ms duration_ms : Z) (dir : string) : EyeEvent :=
  {| e_t_ms := t_ms; event_type := "saccade"; e_duration_ms := duration_ms;
     direction := Some dir |}.

Definition is_blink (e : EyeEvent) : bool := String.eqb (event_type e) "blink".

(** The first loop: natural blinks every 3 to 6 seconds.  [fuel] bounds
    the number of turns. *)
Fixpoint natural_blinks (fuel : nat) (current_time duration_ms : Z)
  (events : list EyeEvent) : M Rng (list EyeEvent) :=
  match fuel with
  | O => ret events
  | S fuel' =>
      if current_time <? duration_ms - 200 then
        d <- Random.randint 100 200 ;;
        let events := events ++ [blink current_time d] in
        step <- Random.randint 3000 6000 ;;
        natural_blinks fuel' (current_time + step) duration_ms events
      else ret events
  end.

(** [any(abs(e["t_ms"] - blink_time) < 500
         for e in events if e["event_type"] == "blink")] *)
Definition is_duplicate (events : list EyeEvent) (blink_time : Z) : bool :=
  existsb (fun e => Z.abs (e_t_ms e - blink_time) <? 500)
          (filter (fun e => is_blink e = true) events).

(** The loop over the punctuation marks. *)
Fixpoint punctuation_blinks (matches : list Z) (text_len duration_ms : Z)
  (events : list EyeEvent) : M Rng (list EyeEvent) :=
  match matches with
  | [] => ret events
  | char_pos :: rest =>
      approx_time_ms <- approx_time_ms char_pos text_len duration_ms ;;
      delay <- Random.randint 100 300 ;;
      let blink_time := approx_time_ms + delay in
      events <-
        (if blink_time <? duration_ms - 200 then
           if negb (is_duplicate events blink_time) then
             d <- Random.randint 120 180 ;;
             ret (events ++ [blink blink_time d])
           else ret events
         else ret events) ;;
      punctuation_blinks rest text_len duration_ms events
  end.

Definition saccade_directions : list string :=
  ["left"; "right"; "up"; "down"; "center"].

(** The last loop: a saccade every 1 to 3 seconds. *)
Fixpoint saccades (fuel : nat) (saccade_time duration_ms : Z)
  (events : list EyeEvent) : M Rng (list EyeEvent) :=
  match fuel with
  | O => ret events
  | S fuel' =>
      if saccade_time <? duration_ms - 300 then
        d <- Random.randint 200 400 ;;
        dir <- Random.choice saccade_directions ;;
        let events := events ++ [saccade saccade_time d dir] in
        step <- Random.randint 1000 3000 ;;
        saccades fuel' (saccade_time + step) duration_ms events
      else ret events
  end.

(** [events.sort(key=lambda e: e["t_ms"])]: the sort is stable. *)
Fixpoint insert_by_time (e : EyeEvent) (l : list EyeEvent) : list EyeEvent :=
  match l with
  | [] => [e]
  | x :: l' =>
      if e_t_ms e <=? e_t_ms x then e :: l else x :: insert_by_time e l'
  end.

Definition sort_by_time (l : list EyeEvent) : list EyeEvent :=
  foldr insert_by_time [] l.

(** [generate_eye_events] with loops of at most [fuel] turns. *)
Definition generate_eye_events_within (fuel : nat) (duration_ms : Z)
  (text : string) : M Rng (list EyeEvent) :=
  let events := [] in
  current_time <- Random.randint 500 1500 ;;
  events <- natural_blinks fuel current_time duration_ms events ;;
  let matches := finditer 0 text in
  events <-
    (if negb (bool_decide (matches = [])) && (0 <? duration_ms) then
       let text_len := Utf8.len text in
       punctuation_blinks matches text_len duration_ms events
     else ret events) ;;
  saccade_time <- Random.randint 1000 2000 ;;
  events <- saccades fuel saccade_time duration_ms events ;;
  ret (sort_by_time events).

(** A turn of either loop moves the time on by a second at least, so the
    loops end before [duration_ms] turns. *)
Definition generate_eye_events (duration_ms : Z) (text : string)
  : M Rng (list EyeEvent) :=
  generate_eye_events_within (Z.to_nat duration_ms) duration_ms text.

End LipsyncEyes.

(** ** Eye events: where they fall *)

Section EyeEvents.

Import LipsyncEyes.

(** A blink as the two blink loops make them, for an audio of [d] ms. *)
Definition blink_ok (d : Z) (e : EyeEvent) : Prop :=
  event_type e = "blink" /\ direction e = None
  /\ 100 <= e_t_ms e < d - 200
  /\ 100 <= e_duration_ms e <= 200.

(** A saccade as the last loop makes them. *)
Definition saccade_ok (d : Z) (e : EyeEvent) : Prop :=
  event_type e = "saccade"
  /\ (exists dir, direction e = Some dir /\ dir ∈ saccade_directions)
  /\ 1000 <= e_t_ms e < d - 300
  /\ 200 <= e_duration_ms e <= 400.

Definition event_ok (d : Z) (e : EyeEvent) : Prop :=
  blink_ok d e \/ saccade_ok d e.

(** Two events half a second apart or more. *)
Definition far (a b : EyeEvent) : Prop := 500 <= Z.abs (e_t_ms a - e_t_ms b).

Fixpoint apart (l : list EyeEvent) : Prop :=
  match l with
  | [] => True
  | x :: r => Forall (far x) r /\ apart r
  end.

Definition blinks (l : list EyeEvent) : list EyeEvent :=
  filter (fun e => is_blink e = true) l.

Lemma far_sym (a b : EyeEvent) : far a b -> far b a.
Proof. unfold far. lia. Qed.

Lemma apart_snoc (l : list EyeEvent) (e : EyeEvent) :
  apart l -> Forall (fun x => far x e) l -> apart (l ++ [e]).
Proof.
  induction l as [| x l IH]; cbn [apart app].
  - intros _ _. split; [ constructor | exact I ].
  - intros [Hx Hl] Hall. apply Forall_cons in Hall as [Hxe Hall]. split.
    + apply Forall_app. split; [ exact Hx |]. constructor; [ exact Hxe | constructor ].
    + apply IH; assumption.
Qed.

Lemma apart_perm (l l' : list EyeEvent) : l ≡ₚ l' -> apart l -> apart l'.
Proof.
  induction 1 as [| x l l' Hp IH | x y l | l l' l'' _ IH1 _ IH2]; cbn [apart].
  - auto.
  - intros [Hx Hl]. split; [ rewrite <- Hp; exact Hx | exact (IH Hl) ].
  - intros [Hy [Hx Hl]]. apply Forall_cons in Hy as [Hyx Hy].
    split; [| split; assumption ].
    constructor; [ apply far_sym; exact Hyx | exact Hx ].
  - auto.
Qed.

Lemma insert_by_time_perm (e : EyeEvent) (l : list EyeEvent) :
  insert_by_time e l ≡ₚ e :: l.
Proof.
  induction l as [| x l IH]; cbn [insert_by_time]; [ reflexivity |].
  destruct (e_t_ms e <=? e_t_ms x); [ reflexivity |].
  rewrite IH. apply perm_swap.
Qed.

Lemma sort_by_time_perm (l : list EyeEvent) : sort_by_time l ≡ₚ l.
Proof.
  induction l as [| e l IH]; [ reflexivity |].
  cbn [sort_by_time foldr]. fold (sort_by_time l).
  rewrite insert_by_time_perm, IH. reflexivity.
Qed.

Definition by_time (a b : EyeEvent) : Prop := e_t_ms a <= e_t_ms b.

Lemma insert_by_time_sorted (e : EyeEvent) (l : list EyeEvent) :
  StronglySorted by_time l -> StronglySorted by_time (insert_by_time e l).
Proof.
  induction l as [| x l IH]; cbn [insert_by_time]; intros Hs.
  - repeat constructor.
  - destruct (Z.leb_spec (e_t_ms e) (e_t_ms x)) as [Hle | Hgt].
    + constructor; [ exact Hs |].
      apply StronglySorted_inv in Hs as [_ Hx].
      constructor; [ exact Hle |].
      eapply Forall_impl; [ exact Hx |]. unfold by_time. intros y Hy. lia.
    + apply StronglySorted_inv in Hs as [Hl Hx].
      constructor; [ exact (IH Hl) |].
      rewrite insert_by_time_perm. constructor; [| exact Hx ].
      unfold by_time. lia.
Qed.

Lemma sort_by_time_sorted (l : list EyeEvent) :
  StronglySorted by_time (sort_by_time l).
Proof.
  induction l as [| e l IH]; [ constructor |].
  cbn [sort_by_time foldr]. apply insert_by_time_sorted. exact IH.
Qed.

(** *** The draws *)

Definition rest (g : Rng) : Rng := fun n => g (S n).

Lemma randint_run (a b : Z) (g : Rng) :
  a <= b ->
  exists v, Random.randint a b g = (Ok v, rest g) /\ a <= v <= b.
Proof.
  intros Hab. eexists. split; [ reflexivity |].
  pose proof (Z.mod_pos_bound (g O) (b - a + 1) ltac:(lia)). lia.
Qed.

Lemma choice_run (g : Rng) :
  exists dir,
    Random.choice saccade_directions g = (Ok dir, rest g)
    /\ dir ∈ saccade_directions.
Proof.
  unfold Random.choice.
  pose proof (Z.mod_pos_bound (g O) (Z.of_nat (length saccade_directions))
                ltac:(cbn; lia)) as Hb.
  destruct (saccade_directions !! Z.to_nat _) as [dir |] eqn:Hl.
  - exists dir. split; [ reflexivity |]. eapply list_elem_of_lookup_2. exact Hl.
  - apply lookup_ge_None in Hl. lia.
Qed.

(** *** The natural blinks *)

Lemma blinks_all (d : Z) (l : list EyeEvent) :
  Forall (blink_ok d) l -> blinks l = l.
Proof.
  induction 1 as [| e l (Hty & _) _ IH]; [ reflexivity |].
  unfold blinks. rewrite filter_cons_True.
  - f_equal. exact IH.
  - unfold is_blink. rewrite Hty. reflexivity.
Qed.

Lemma natural_blinks_spec (fuel : nat) (d : Z) :
  forall (ct : Z) (events : list EyeEvent) (g : Rng),
    100 <= ct ->
    d - 200 - ct < Z.of_nat fuel ->
    Forall (blink_ok d) events ->
    apart events ->
    Forall (fun e => e_t_ms e + 3000 <= ct) events ->
    exists events' g',
      natural_blinks fuel ct d events g = (Ok events', g')
      /\ Forall (blink_ok d) events'
      /\ apart events'
      /\ (d <= 700 -> 500 <= ct -> events' = events)
      /\ forall fuel', d - 200 - ct < Z.of_nat fuel' ->
                       natural_blinks fuel' ct d events g = (Ok events', g').
Proof.
  induction fuel as [| fuel IH]; intros ct events g Hct Hfuel Hok Hap Hold.
  - exists events, g. split; [ reflexivity |]. split; [ exact Hok |].
    split; [ exact Hap |]. split; [ reflexivity |].
    intros [| fuel'] _; [ reflexivity |]. cbn [natural_blinks].
    destruct (Z.ltb_spec ct (d - 200)); [ lia | reflexivity ].
  - cbn [natural_blinks].
    destruct (Z.ltb_spec ct (d - 200)) as [Hlt | Hge].
    + destruct (randint_run 100 200 g ltac:(lia)) as (dur & Hdur & Hdr).
      destruct (randint_run 3000 6000 (rest g) ltac:(lia)) as (step & Hstep & Hsr).
      destruct (IH (ct + step) (events ++ [blink ct dur]) (rest (rest g)))
        as (events' & g' & Hrun & Hok' & Hap' & _ & Hfuel').
      * lia.
      * lia.
      * apply Forall_app. split; [ exact Hok |].
        constructor; [| constructor ].
        unfold blink_ok, blink. cbn. repeat split; lia.
      * apply apart_snoc; [ exact Hap |].
        eapply Forall_impl; [ exact Hold |].
        intros e He. unfold far, blink. cbn [e_t_ms]. cbn beta in He. lia.
      * apply Forall_app. split.
        -- eapply Forall_impl; [ exact Hold |]. intros e He. cbn beta in *. lia.
        -- constructor; [| constructor ]. unfold blink. cbn. lia.
      * exists events', g'. rewrite run_bind, Hdur, run_bind, Hstep.
        split; [ exact Hrun |]. split; [ exact Hok' |]. split; [ exact Hap' |].
        split; [ intros; lia |].
        intros [| fuel'] Hf'; [ lia |]. cbn [natural_blinks].
        destruct (Z.ltb_spec ct (d - 200)); [| lia ].
        rewrite run_bind, Hdur, run_bind, Hstep. apply Hfuel'. lia.
    + exists events, g. split; [ reflexivity |]. split; [ exact Hok |].
      split; [ exact Hap |]. split; [ reflexivity |].
      intros [| fuel'] _; [ reflexivity |]. cbn [natural_blinks].
      destruct (Z.ltb_spec ct (d - 200)); [ lia | reflexivity ].
Qed.

(** *** The blinks at the punctuation marks *)

Local Open Scope Q_scope.

Lemma approx_time_ms_nonneg {S} (char_pos text_len d v : Z) (s s' : S) :
  (0 <= char_pos)%Z -> (0 <= text_len)%Z -> (0 < d)%Z ->
  approx_time_ms char_pos text_len d s = (Ok v, s') ->
  (0 <= v)%Z /\ s' = s.
Proof.
  intros Hp Hl Hd. unfold approx_time_ms, float_of_int, Lipsync.int_truediv,
    Lipsync.int_of_float, bind, ret, raise.
  destruct (Z.eqb_spec text_len 0) as [| Hne]; [ discriminate |].
  destruct (PyFloat.is_inf (PyFloat.b64 (inject_Z char_pos / inject_Z text_len)));
    [ discriminate |].
  destruct (PyFloat.is_inf (PyFloat.b64 (inject_Z d))); [ discriminate |].
  destruct (PyFloat.is_inf _); [ discriminate |].
  intros [= <- <-]. split; [| reflexivity ].
  change 0%Z with (PyFloat.trunc 0). apply trunc_mono.
  unfold PyFloat.mul. apply b64_nonneg. apply Qmult_le_0_compat.
  - apply b64_nonneg. apply Qle_shift_div_l.
    + rewrite <- (Zlt_Qlt 0). lia.
    + rewrite Qmult_0_l. rewrite <- (Zle_Qle 0). exact Hp.
  - apply b64_nonneg. rewrite <- (Zle_Qle 0). lia.
Qed.

Lemma b64_le_pow2_1017 (x : Q) :
  0 <= x -> x <= PyFloat.pow2 1017 -> finite (PyFloat.b64 x).
Proof.
  intros H0 H1. apply finite_bound.
  destruct b64_pow2_1017 as (Hb & _ & H1024).
  pose proof (b64_nonneg x H0) as Hn. pose proof (b64_mono _ _ H1) as Hm.
  rewrite Qabs_pos by exact Hn.
  pose proof (pow2_pos 1017). lra.
Qed.

Lemma approx_time_ms_returns {S} (char_pos text_len d : Z) (s : S) :
  (0 <= char_pos < text_len)%Z -> (0 < d <= 2 ^ 1017)%Z ->
  exists v, approx_time_ms char_pos text_len d s = (Ok v, s).
Proof.
  intros Hp Hd. unfold approx_time_ms, float_of_int, Lipsync.int_truediv,
    Lipsync.int_of_float, bind, ret, raise.
  destruct (Z.eqb_spec text_len 0) as [| Hne]; [ lia |].
  assert (Hlen : 0 < inject_Z text_len) by (rewrite <- (Zlt_Qlt 0); lia).
  assert (Hq0 : 0 <= inject_Z char_pos / inject_Z text_len).
  { apply Qle_shift_div_l; [ exact Hlen |].
    rewrite Qmult_0_l, <- (Zle_Qle 0). lia. }
  assert (Hq1 : inject_Z char_pos / inject_Z text_len <= 1).
  { apply Qle_shift_div_r; [ exact Hlen |].
    rewrite Qmult_1_l, <- Zle_Qle. lia. }
  assert (Hd0 : 0 <= inject_Z d) by (rewrite <- (Zle_Qle 0); lia).
  assert (Hd1 : inject_Z d <= PyFloat.pow2 1017).
  { rewrite <- pow2_inject by lia. rewrite <- Zle_Qle. lia. }
  destruct b64_pow2_1017 as (Hb & _ & _).
  pose proof (pow2_pos 1017) as Hpos.
  set (q := PyFloat.b64 (inject_Z char_pos / inject_Z text_len)).
  assert (Hqb : 0 <= q <= 1).
  { split; [ apply b64_nonneg; exact Hq0 |].
    rewrite <- b64_one. apply b64_mono. exact Hq1. }
  assert (Hfq : finite q).
  { apply b64_le_pow2_1017; [ exact Hq0 |].
    apply Qle_trans with 1; [ exact Hq1 |].
    apply Qle_trans with (PyFloat.pow2 0); [ vm_compute; discriminate |].
    apply pow2_le. lia. }
  unfold finite in Hfq. fold q. rewrite Hfq.
  set (dd := PyFloat.b64 (inject_Z d)).
  assert (Hdb : 0 <= dd <= PyFloat.pow2 1017).
  { split; [ apply b64_nonneg; exact Hd0 |].
    rewrite <- Hb. apply b64_mono. exact Hd1. }
  assert (Hfd : finite dd) by (apply b64_le_pow2_1017; assumption).
  unfold finite in Hfd. fold dd. rewrite Hfd.
  assert (Hfm : finite (PyFloat.mul q dd)).
  { unfold PyFloat.mul. apply b64_le_pow2_1017; nra. }
  unfold finite in Hfm. rewrite Hfm. eexists. reflexivity.
Qed.

Local Close Scope Q_scope.

Lemma not_duplicate_far (l : list EyeEvent) (bt : Z) :
  existsb (fun e => Z.abs (e_t_ms e - bt) <? 500) l = false ->
  Forall (fun e => 500 <= Z.abs (e_t_ms e - bt)) l.
Proof.
  induction l as [| e l IH]; cbn [existsb]; [ constructor |].
  intros H. apply orb_false_iff in H as [He Hl].
  constructor; [| exact (IH Hl) ].
  apply Z.ltb_ge in He. exact He.
Qed.

Lemma punctuation_blinks_spec (text_len d : Z) (matches : list Z) :
  forall (events events' : list EyeEvent) (g g' : Rng),
    Forall (fun p => 0 <= p) matches -> 0 <= text_len -> 0 < d ->
    Forall (blink_ok d) events ->
    apart events ->
    punctuation_blinks matches text_len d events g = (Ok events', g') ->
    Forall (blink_ok d) events' /\ apart events'
    /\ (d <= 300 -> events' = events).
Proof.
  induction matches as [| p matches IH];
    intros events events' g g' Hm Hl Hd Hok Hap; cbn [punctuation_blinks].
  - intros [= <- <-]. auto.
  - apply Forall_cons in Hm as [Hp Hm]. rewrite run_bind.
    destruct (approx_time_ms p text_len d g) as [[approx | e] g1] eqn:Ha;
      [| discriminate ].
    destruct (approx_time_ms_nonneg _ _ _ _ _ _ Hp Hl Hd Ha) as [Happrox ->].
    destruct (randint_run 100 300 g ltac:(lia)) as (delay & Hdelay & Hdr).
    rewrite run_bind, Hdelay, run_bind.
    destruct (Z.ltb_spec (approx + delay) (d - 200)) as [Hlt | Hge].
    + destruct (is_duplicate events (approx + delay)) eqn:Hdup; cbn [negb].
      * unfold ret at 1. intros Hrest.
        exact (IH _ _ _ _ Hm Hl Hd Hok Hap Hrest).
      * destruct (randint_run 120 180 (rest g) ltac:(lia)) as (dur & Hdur & Hdd).
        rewrite run_bind, Hdur. unfold ret at 1. intros Hrest.
        assert (Hok1 : Forall (blink_ok d)
                         (events ++ [blink (approx + delay) dur])).
        { apply Forall_app. split; [ exact Hok |].
          constructor; [| constructor ].
          unfold blink_ok, blink. cbn. repeat split; lia. }
        assert (Hap1 : apart (events ++ [blink (approx + delay) dur])).
        { apply apart_snoc; [ exact Hap |].
          unfold is_duplicate in Hdup. fold (blinks events) in Hdup.
          rewrite (blinks_all d events Hok) in Hdup.
          apply not_duplicate_far in Hdup. exact Hdup. }
        destruct (IH _ _ _ _ Hm Hl Hd Hok1 Hap1 Hrest) as (Hok' & Hap' & _).
        split; [ exact Hok' |]. split; [ exact Hap' |]. intros; lia.
    + unfold ret at 1. intros Hrest.
      exact (IH _ _ _ _ Hm Hl Hd Hok Hap Hrest).
Qed.

(** *** The saccades *)

Lemma blinks_snoc_saccade (l : list EyeEvent) (t dur : Z) (dir : string) :
  blinks (l ++ [saccade t dur dir]) = blinks l.
Proof.
  unfold blinks. rewrite filter_app, filter_cons_False, filter_nil, app_nil_r;
    [ reflexivity |].
  unfold is_blink, saccade. cbn. discriminate.
Qed.

Lemma saccades_spec (fuel : nat) (d : Z) :
  forall (st : Z) (events : list EyeEvent) (g : Rng),
    1000 <= st ->
    d - 300 - st < Z.of_nat fuel ->
    Forall (event_ok d) events ->
    exists events' g',
      saccades fuel st d events g = (Ok events', g')
      /\ Forall (event_ok d) events'
      /\ blinks events' = blinks events
      /\ (d <= 1300 -> events' = events)
      /\ forall fuel', d - 300 - st < Z.of_nat fuel' ->
                       saccades fuel' st d events g = (Ok events', g').
Proof.
  induction fuel as [| fuel IH]; intros st events g Hst Hfuel Hok.
  - exists events, g. split; [ reflexivity |]. split; [ exact Hok |].
    split; [ reflexivity |]. split; [ reflexivity |].
    intros [| fuel'] _; [ reflexivity |]. cbn [saccades].
    destruct (Z.ltb_spec st (d - 300)); [ lia | reflexivity ].
  - cbn [saccades].
    destruct (Z.ltb_spec st (d - 300)) as [Hlt | Hge].
    + destruct (randint_run 200 400 g ltac:(lia)) as (dur & Hdur & Hdr).
      destruct (choice_run (rest g)) as (dir & Hdir & Hin).
      destruct (randint_run 1000 3000 (rest (rest g)) ltac:(lia))
        as (step & Hstep & Hsr).
      destruct (IH (st + step) (events ++ [saccade st dur dir])
                  (rest (rest (rest g))))
        as (events' & g' & Hrun & Hok' & Hbl & _ & Hfuel').
      * lia.
      * lia.
      * apply Forall_app. split; [ exact Hok |].
        constructor; [| constructor ]. right.
        unfold saccade_ok, saccade. cbn.
        split; [ reflexivity |]. split; [ eauto |]. lia.
      * exists events', g'.
        rewrite run_bind, Hdur, run_bind, Hdir, run_bind, Hstep.
        split; [ exact Hrun |]. split; [ exact Hok' |].
        split; [ rewrite Hbl; apply blinks_snoc_saccade |].
        split; [ intros; lia |].
        intros [| fuel'] Hf'; [ lia |]. cbn [saccades].
        destruct (Z.ltb_spec st (d - 300)); [| lia ].
        rewrite run_bind, Hdur, run_bind, Hdir, run_bind, Hstep.
        apply Hfuel'. lia.
    + exists events, g. split; [ reflexivity |]. split; [ exact Hok |].
      split; [ reflexivity |]. split; [ reflexivity |].
      intros [| fuel'] _; [ reflexivity |]. cbn [saccades].
      destruct (Z.ltb_spec st (d - 300)); [ lia | reflexivity ].
Qed.

(** *** The punctuation marks of a text *)

Lemma len_nonneg (text : string) : 0 <= Utf8.len text.
Proof.
  induction text as [| c r IH]; cbn [Utf8.len]; [ lia |].
  destruct (Utf8.is_continuation c); lia.
Qed.

Lemma punctuation_starts_a_character (c : Ascii.ascii) :
  is_punctuation c = true -> Utf8.is_continuation c = false.
Proof.
  unfold is_punctuation. cbn [String.list_ascii_of_string existsb].
  rewrite !orb_true_iff.
  intros [H | [H | [H | [H | [H | [H | H]]]]]]; try discriminate H;
    apply Ascii.eqb_eq in H; subst c; reflexivity.
Qed.

Lemma finditer_bounds (text : string) :
  forall pos, Forall (fun p => pos <= p < pos + Utf8.len text) (finditer pos text).
Proof.
  induction text as [| c r IH]; intros pos; cbn [finditer Utf8.len];
    [ constructor |].
  pose proof (len_nonneg r) as Hr.
  destruct (is_punctuation c) eqn:Hp.
  - rewrite (punctuation_starts_a_character c Hp).
    constructor; [ lia |].
    eapply Forall_impl; [ apply (IH (pos + 1)) |]. intros p Hb. cbn beta in Hb. lia.
  - destruct (Utf8.is_continuation c).
    + eapply Forall_impl; [ apply (IH pos) |]. intros p Hb. cbn beta in Hb. lia.
    + eapply Forall_impl; [ apply (IH (pos + 1)) |]. intros p Hb. cbn beta in Hb. lia.
Qed.

Lemma punctuation_blinks_returns (text_len d : Z) (matches : list Z) :
  Forall (fun p => 0 <= p < text_len) matches -> 0 < d <= 2 ^ 1017 ->
  forall (events : list EyeEvent) (g : Rng),
    exists events' g',
      punctuation_blinks matches text_len d events g = (Ok events', g').
Proof.
  intros Hm Hd. induction Hm as [| p matches Hp _ IH]; intros events g;
    cbn [punctuation_blinks].
  - eexists _, _. reflexivity.
  - destruct (approx_time_ms_returns p text_len d g Hp Hd) as (approx & Ha).
    rewrite run_bind, Ha.
    destruct (randint_run 100 300 g ltac:(lia)) as (delay & Hdelay & _).
    rewrite run_bind, Hdelay, run_bind.
    destruct (approx + delay <? d - 200).
    + destruct (is_duplicate events (approx + delay)); cbn [negb].
      * unfold ret at 1. apply IH.
      * destruct (randint_run 120 180 (rest g) ltac:(lia)) as (dur & Hdur & _).
        rewrite run_bind, Hdur. unfold ret at 1. apply IH.
    + unfold ret at 1. apply IH.
Qed.

(** *** The whole function *)

(** The second step of [generate_eye_events]. *)
Definition punctuation_step (d : Z) (text : string) (events : list EyeEvent)
  : M Rng (list EyeEvent) :=
  if negb (bool_decide (finditer 0 text = [])) && (0 <? d) then
    punctuation_blinks (finditer 0 text) (Utf8.len text) d events
  else ret events.

Lemma punctuation_step_spec (d : Z) (text : string)
  (events events' : list EyeEvent) (g g' : Rng) :
  Forall (blink_ok d) events -> apart events ->
  punctuation_step d text events g = (Ok events', g') ->
  Forall (blink_ok d) events' /\ apart events'
  /\ (d <= 300 -> events' = events)
  /\ (finditer 0 text = [] -> events' = events).
Proof.
  intros Hok Hap. unfold punctuation_step.
  destruct (bool_decide_reflect (finditer 0 text = [])) as [Hnil | Hsome];
    cbn [negb andb].
  - intros [= <- <-]. auto.
  - destruct (Z.ltb_spec 0 d) as [Hd | Hd].
    + intros Hrun.
      destruct (punctuation_blinks_spec (Utf8.len text) d (finditer 0 text)
                  events events' g g') as (H1 & H2 & H3); auto.
      * eapply Forall_impl; [ apply finditer_bounds |].
        intros p Hp. cbn beta in Hp. lia.
      * apply len_nonneg.
      * split; [ exact H1 |]. split; [ exact H2 |]. split; [ exact H3 |].
        intros Hnil. contradiction.
    + intros [= <- <-]. auto.
Qed.

Lemma punctuation_step_returns (d : Z) (text : string)
  (events : list EyeEvent) (g : Rng) :
  d <= 2 ^ 1017 ->
  exists events' g', punctuation_step d text events g = (Ok events', g').
Proof.
  intros Hd. unfold punctuation_step.
  destruct (negb _ && (0 <? d)) eqn:Hc; [| eexists _, _; reflexivity ].
  apply andb_true_iff in Hc as [_ Hpos]. apply Z.ltb_lt in Hpos.
  apply punctuation_blinks_returns; [| lia ].
  eapply Forall_impl; [ apply finditer_bounds |].
  intros p Hp. cbn beta in Hp. lia.
Qed.

Lemma generate_eye_events_within_spec (fuel : nat) (d : Z) (text : string)
  (g : Rng) :
  d <= Z.of_nat fuel ->
  (forall events g',
      generate_eye_events_within fuel d text g = (Ok events, g') ->
      Forall (event_ok d) events
      /\ apart (blinks events)
      /\ StronglySorted by_time events
      /\ (d <= 300 -> events = [])
      /\ (d <= 700 -> finditer 0 text = [] -> events = []))
  /\ (forall fuel', d <= Z.of_nat fuel' ->
        generate_eye_events_within fuel' d text g
        = generate_eye_events_within fuel d text g)
  /\ (d <= 2 ^ 1017 ->
      exists events g',
        generate_eye_events_within fuel d text g = (Ok events, g')).
Proof.
  intros Hfuel.
  destruct (randint_run 500 1500 g ltac:(lia)) as (ct & Hct & Hcr).
  destruct (natural_blinks_spec fuel d ct [] (rest g))
    as (ev1 & g1 & Hrun1 & Hok1 & Hap1 & Hshort1 & Hfuel1);
    [ lia | lia | constructor | exact I | constructor |].
  assert (Hother : forall fuel', d <= Z.of_nat fuel' ->
            generate_eye_events_within fuel' d text g
            = match punctuation_step d text ev1 g1 with
              | (Ok ev2, g2) =>
                  bind (Random.randint 1000 2000)
                    (fun saccade_time =>
                       bind (saccades fuel' saccade_time d ev2)
                         (fun events => ret (sort_by_time events))) g2
              | (Raise e, g2) => (Raise e, g2)
              end).
  { intros fuel' Hf'. unfold generate_eye_events_within.
    rewrite run_bind, Hct, run_bind.
    rewrite (Hfuel1 fuel') by lia. rewrite run_bind. reflexivity. }
  rewrite (Hother fuel Hfuel).
  destruct (punctuation_step d text ev1 g1) as [[ev2 | e] g2] eqn:Hp.
  - destruct (punctuation_step_spec d text ev1 ev2 g1 g2 Hok1 Hap1 Hp)
      as (Hok2 & Hap2 & Hshort2 & Hnone2).
    destruct (randint_run 1000 2000 g2 ltac:(lia)) as (st & Hst & Hsr).
    destruct (saccades_spec fuel d st ev2 (rest g2))
      as (ev3 & g3 & Hrun3 & Hok3 & Hbl3 & Hshort3 & Hfuel3);
      [ lia | lia | eapply Forall_impl; [ exact Hok2 |]; intros e He; left; exact He |].
    rewrite run_bind, Hst, run_bind, Hrun3. unfold ret at 1.
    split; [| split ].
    + intros events g' [= <- <-].
      split; [ rewrite sort_by_time_perm; exact Hok3 |].
      split.
      { apply (apart_perm (blinks ev3)).
        - unfold blinks. rewrite sort_by_time_perm. reflexivity.
        - rewrite Hbl3, (blinks_all d ev2 Hok2). exact Hap2. }
      split; [ apply sort_by_time_sorted |].
      split.
      * intros Hd. rewrite Hshort3 by lia. rewrite Hshort2 by lia.
        rewrite Hshort1 by lia. reflexivity.
      * intros Hd Hnil. rewrite Hshort3 by lia. rewrite Hnone2 by exact Hnil.
        rewrite Hshort1 by lia. reflexivity.
    + intros fuel' Hf'. rewrite (Hother fuel' Hf').
      rewrite run_bind, Hst, run_bind. rewrite (Hfuel3 fuel') by lia.
      reflexivity.
    + intros _. eexists _, _. reflexivity.
  - split; [| split ].
    + intros events g' H. discriminate H.
    + intros fuel' Hf'. rewrite (Hother fuel' Hf'). reflexivity.
    + intros Hd.
      destruct (punctuation_step_returns d text ev1 g1 Hd) as (ev2 & g2' & Hp').
      rewrite Hp in Hp'. discriminate Hp'.
Qed.

Lemma fuel_of_duration (d : Z) : d <= Z.of_nat (Z.to_nat d).
Proof. lia. Qed.

Lemma apart_lookup (l : list EyeEvent) :
  apart l ->
  forall i j a b, (i < j)%nat -> l !! i = Some a -> l !! j = Some b -> far a b.
Proof.
  induction l as [| x l IH]; intros Hap i j a b Hij Hi Hj.
  - discriminate Hi.
  - destruct Hap as [Hx Hl]. destruct j as [| j]; [ lia |].
    cbn in Hj. destruct i as [| i].
    + injection Hi as <-. rewrite Forall_forall in Hx. apply Hx.
      eapply list_elem_of_lookup_2. exact Hj.
    + cbn in Hi. apply (IH Hl i j); [ lia | exact Hi | exact Hj ].
Qed.


(** X7.  No two blinks of the result are less than half a second apart:
    the natural blinks are three seconds apart or more, and a blink at a
    punctuation mark is dropped when it comes within 500 ms of a blink
    already made. *)
Theorem eye_blinks_half_a_second_apart (d : Z) (text : string) (g g' : Rng)
  (events : list EyeEvent) :
  generate_eye_events d text g = (Ok events, g') ->
  forall i j a b,
    (i < j)%nat ->
    filter (fun e => is_blink e = true) events !! i = Some a ->
    filter (fun e => is_blink e = true) events !! j = Some b ->
    500 <= Z.abs (e_t_ms a - e_t_ms b).
Proof.
  intros Hrun.
  destruct (generate_eye_events_within_spec (Z.to_nat d) d text g
              (fuel_of_duration d)) as (Hspec & _ & _).
  destruct (Hspec events g' Hrun) as (_ & Hap & _).
  exact (apart_lookup _ Hap).
Qed.

(** X8.  For every duration up to 2^1017 ms, every text and every sequence
    of draws, [generate_eye_events] returns a list of events: no time
    computed from a punctuation mark overflows, and both loops end by their
    own conditions (more turns allowed change nothing). *)
Theorem eye_events_returns (d : Z) (text : string) (g : Rng) :
  d <= 2 ^ 1017 ->
  exists events g',
    generate_eye_events d text g = (Ok events, g')
    /\ forall fuel, d <= Z.of_nat fuel ->
         generate_eye_events_within fuel d text g = (Ok events, g').
Proof.
  intros Hd.
  destruct (generate_eye_events_within_spec (Z.to_nat d) d text g
              (fuel_of_duration d)) as (_ & Hfuel & Hret).
  destruct (Hret Hd) as (events & g' & Hrun).
  exists events, g'. split; [ exact Hrun |].
  intros fuel Hf. rewrite (Hfuel fuel Hf). exact Hrun.
Qed.

End EyeEvents.

(** Draws for the examples. *)
Definition draws : Rng := fun n => Z.of_nat n * 7919 + 13.

Definition said : string := "Hi, there. Bye!".


Lemma eye_blinks_half_a_second_apart_witness :
  exists events g' a b,
    LipsyncEyes.generate_eye_events 9000 said draws = (Ok events, g')
    /\ filter (fun e => LipsyncEyes.is_blink e = true) events !! 0%nat = Some a
    /\ filter (fun e => LipsyncEyes.is_blink e = true) events !! 1%nat = Some b
    /\ 500 <= Z.abs (e_t_ms a - e_t_ms b).
Proof.
  destruct (LipsyncEyes.generate_eye_events 9000 said draws)
    as [[events | e] g'] eqn:Hrun;
    [| exfalso; vm_compute in Hrun; discriminate Hrun ].
  destruct (filter (fun e => LipsyncEyes.is_blink e = true) events !! 0%nat)
    as [a |] eqn:Ha;
    [| exfalso; vm_compute in Hrun; injection Hrun as <- _;
       vm_compute in Ha; discriminate Ha ].
  destruct (filter (fun e => LipsyncEyes.is_blink e = true) events !! 1%nat)
    as [b |] eqn:Hb;
    [| exfalso; vm_compute in Hrun; injection Hrun as <- _;
       vm_compute in Hb; discriminate Hb ].
  exists events, g', a, b.
  split; [ reflexivity |]. split; [ exact Ha |]. split; [ exact Hb |].
  exact (eye_blinks_half_a_second_apart 9000 said draws g' events Hrun
           0%nat 1%nat a b ltac:(lia) Ha Hb).
Defined.

Lemma eye_events_returns_witness :
  exists events g',
    LipsyncEyes.generate_eye_events 9000 said draws = (Ok events, g').
Proof.
  destruct (eye_events_returns 9000 said draws) as (events & g' & Hrun & _).
  - vm_compute. discriminate.
  - exists events, g'. exact Hrun.
Defined.

(* ===================================================================== *)
(** * src/api/valkey.py: the rest of the client *)
(* ===================================================================== *)

Module ValkeyClient.

Definition PROCESSING_KEY_PREFIX : string := "avatar:processing:".

(** The string keys set by [set_processing]: SET with NX writes only when
    the key is absent; expiry is left out, as for the other keys. *)
Abbreviation Flags := (gmap string string).

Definition set_processing (render_id : string) : M Flags bool :=
  fun flags =>
    let key := PROCESSING_KEY_PREFIX +:+ render_id in
    match flags !! key with
    | Some _ => (Ok false, flags)               (* result is None *)
    | None => (Ok true, <[key := "1"]> flags)
    end.

Definition clear_processing (render_id : string) : M Flags unit :=
  fun flags => (Ok tt, delete (PROCESSING_KEY_PREFIX +:+ render_id) flags).

End ValkeyClient.

(* ===================================================================== *)
(** * A synchronous render, end to end *)
(* ===================================================================== *)

Section RoundTrip.

Variable tools : Tools.
Variable ct : CaptureTools.
Variable wcfg : WorkerConfig.
Variable acfg : ApiConfig.

(** The result a worker computes for a job of the front door, from the
    world in which its pipeline starts. *)
Definition result_of (request : RenderRequest) (rid : string) (w : World)
  : dict :=
  match Worker.pipeline tools wcfg rid (text request) (voice_id request)
          (speed request) (AUDIO_BASE_URL acfg) w with
  | (Ok payload, _) => payload
  | (Raise e, _) => Worker.failed_result tools rid e
  end.

Lemma result_of_terminal (request : RenderRequest) (rid : string) (w : World) :
  let result := result_of request rid w in
  result !! "render_id" = Some (JStr rid)
  /\ (result !! "status" = Some (JStr "completed")
      \/ result !! "status" = Some (JStr "failed"))
  /\ terminal (status_of result).
Proof.
  unfold result_of.
  destruct (Worker.pipeline _ _ _ _ _ _ _ w) as [[payload | e] w2] eqn:Hp.
  - destruct (pipeline_ok_shape _ _ _ _ _ _ _ _ _ _ Hp) as (Hrid & Hst & _).
    split; [ exact Hrid |]. split; [ left; exact Hst |].
    left. unfold status_of. rewrite Hst. reflexivity.
  - destruct (failed_result_fields tools rid e) as (Hrid & Hst & _).
    split; [ exact Hrid |]. split; [ right; exact Hst |].
    right. unfold status_of. rewrite Hst. reflexivity.
Qed.

(** A turn of the loop on a job of the front door that has no record
    yet. *)
Lemma render_turn_fresh (request : RenderRequest) (rid ck : string)
  (w : World) (q : string) (rd : Redis) :
  Store.brpop [Worker.JOB_QUEUE_KEY; Worker.CAPTURE_JOB_QUEUE_KEY] (redis w)
  = (Some (q, IJson (Api.job_data_of acfg request rid ck)), rd) ->
  Store.get (Worker.RESULT_KEY_PREFIX +:+ rid) (redis w) = None ->
  let result := result_of request rid {| redis := rd; trace := trace w |} in
  exists w',
    Worker.iteration tools ct wcfg w = (Ok tt, w')
    /\ Store.get (Worker.RESULT_KEY_PREFIX +:+ rid) (redis w') = Some result
    /\ (result !! "status" = Some (JStr "completed") ->
        Store.get ck (redis w') = Some result)
    /\ (forall k, k <> Worker.RESULT_KEY_PREFIX +:+ rid -> k <> ck ->
          Store.get k (redis w') = Store.get k (redis w))
    /\ Store.lrange (notify_key_of rid) (redis w')
       = IRaw "ready" :: Store.lrange (notify_key_of rid) (redis w)
    /\ (forall k, k <> notify_key_of rid ->
          Store.lrange k (redis w') = Store.lrange k rd).
Proof.
  intros Hpop Hnone result.
  set (rkey := Worker.RESULT_KEY_PREFIX +:+ rid) in *.
  set (w0 := {| redis := rd; trace := trace w |}) in *.
  destruct (job_data_fields acfg request rid ck)
    as (_ & _ & _ & _ & _ & _ & Hjtype).
  pose proof (brpop_spec [Worker.JOB_QUEUE_KEY; Worker.CAPTURE_JOB_QUEUE_KEY]
                (redis w)) as Hspec.
  rewrite Hpop in Hspec. destruct Hspec as (Hq & Hkv & _ & Hothers).
  assert (Hget0 : forall k, Store.get k (redis w0) = Store.get k (redis w)).
  { intros k. unfold Store.get. cbn [w0 redis]. rewrite Hkv. reflexivity. }
  assert (Hbody : Worker.loop_body tools ct wcfg w
                  = Worker.handle_render tools wcfg
                      (Api.job_data_of acfg request rid ck) w0).
  { apply (loop_body_render tools ct wcfg w q _ rd Hpop).
    rewrite Hjtype. discriminate. }
  unfold Worker.iteration, try_except. rewrite Hbody.
  rewrite (handle_render_run tools wcfg acfg request rid ck w0)
    by (intros existing He; fold rkey in He; rewrite Hget0, Hnone in He;
        discriminate He).
  assert (Hstart : at_pipeline_start rid w0 = w0).
  { unfold at_pipeline_start. rewrite update_result_status_run. cbn [snd].
    fold rkey. rewrite Hget0, Hnone. reflexivity. }
  rewrite Hstart.
  pose proof (pipeline_quiet tools wcfg rid (text request) (voice_id request)
                (speed request) (AUDIO_BASE_URL acfg) w0) as [Hredis2 _].
  pose proof (notify_key_not_queue rid q Hq) as Hnq.
  pose proof (result_of_terminal request rid w0) as (Hrid & Hst & _).
  fold result in Hrid, Hst. unfold result_of in result.
  destruct (Worker.pipeline _ _ _ _ _ _ _ w0) as [[payload | e] w2] eqn:Hp;
    cbn [snd] in Hredis2; subst result.
  - destruct (pipeline_ok_shape _ _ _ _ _ _ _ _ _ _ Hp) as (_ & Hst' & _).
    rewrite (store_result_completed payload ck rid w2 Hrid Hst'). fold rkey.
    eexists. split; [ reflexivity |]. cbn [redis].
    split.
    { rewrite get_lpush. destruct (String.eqb_spec ck rkey) as [-> | Hne].
      - apply get_setex_eq.
      - rewrite get_setex_ne by exact Hne. apply get_setex_eq. }
    split; [ intros _; rewrite get_lpush; apply get_setex_eq |].
    split.
    { intros k Hk1 Hk2. rewrite get_lpush, !get_setex_ne by congruence.
      rewrite Hredis2. apply Hget0. }
    split.
    { rewrite lrange_lpush_eq, !lrange_setex, Hredis2. cbn [w0 redis].
      rewrite (Hothers _ Hnq). reflexivity. }
    intros k Hk. rewrite lrange_lpush_ne by congruence.
    rewrite !lrange_setex, Hredis2. reflexivity.
  - destruct (failed_result_fields tools rid e) as (_ & Hst' & _).
    rewrite (store_result_failed _ ck rid w2 Hrid Hst'). fold rkey.
    eexists. split; [ reflexivity |]. cbn [redis].
    split; [ rewrite get_lpush; apply get_setex_eq |].
    split; [ intros Hc; rewrite Hst' in Hc; discriminate Hc |].
    split.
    { intros k Hk1 Hk2. rewrite get_lpush, !get_setex_ne by congruence.
      rewrite Hredis2. apply Hget0. }
    split.
    { rewrite lrange_lpush_eq, !lrange_setex, Hredis2. cbn [w0 redis].
      rewrite (Hothers _ Hnq). reflexivity. }
    intros k Hk. rewrite lrange_lpush_ne by congruence.
    rewrite !lrange_setex, Hredis2. reflexivity.
Qed.

(** A synchronous submission that misses the cache and finds no record
    under its fresh id goes to wait for the worker. *)
Lemma render_sync_submit_waits (request : RenderRequest) (now el : Z)
  (s0 : ApiState) :
  let rid := Valkey.generate_render_id (voice_id request) (speed request)
               (text request) now in
  let job := Api.job_data_of acfg request rid (Api.cache_key_of request) in
  truthy (Store.get (Api.cache_key_of request) (redis (world s0))) = None ->
  Store.get (Valkey.result_key rid) (redis (world s0)) = None ->
  Api.render_sync_submit acfg request now el s0
  = (Ok (SWaiting request rid),
     {| active_requests := active_requests s0;
        world :=
          {| redis := Store.lpush Valkey.JOB_QUEUE_KEY (IJson job)
                        (redis (world s0));
             trace := trace (world s0)
                      ++ [EvPush Valkey.JOB_QUEUE_KEY (IJson job)] |} |}).
Proof.
  intros rid job Hmiss Hfresh.
  unfold Api.render_sync_submit, Api.render_sync_try.
  rewrite run_bind. unfold Api.lift at 1.
  unfold Valkey.get_cached_result, Cmd.get at 1. rewrite Hmiss.
  rewrite run_bind. unfold Api.lift at 1, Valkey.enqueue_job, Cmd.lpush at 1.
  rewrite run_bind. unfold Api.lift at 1, Valkey.wait_for_result_check.
  rewrite run_bind. unfold Valkey.get_result, Cmd.get at 1. unfold ret at 1.
  cbn [world redis trace active_requests].
  rewrite get_lpush. fold rid. rewrite Hfresh. reflexivity.
Qed.

(** The blocking pop of a waiting request that finds a token. *)
Lemma wait_for_result_resume_run (rid : string) (w : World)
  (front : list item) (x : item) :
  Store.lrange (Valkey.notify_key rid) (redis w) = front ++ [x] ->
  exists rd,
    Valkey.wait_for_result_resume rid w
    = (Ok (Store.get (Valkey.result_key rid) (redis w)),
       {| redis := rd; trace := trace w |})
    /\ kv rd = kv (redis w)
    /\ Store.lrange (Valkey.notify_key rid) rd = front
    /\ forall k, k <> Valkey.notify_key rid ->
                 Store.lrange k rd = Store.lrange k (redis w).
Proof.
  intros Hl. unfold Valkey.wait_for_result_resume.
  rewrite run_bind. unfold Cmd.brpop at 1. cbn [Store.brpop].
  rewrite Hl, unsnoc_snoc.
  eexists. split; [ reflexivity |]. split; [ reflexivity |]. split.
  - unfold Store.lrange. cbn [lists]. rewrite lookup_insert_eq. reflexivity.
  - intros k Hk. unfold Store.lrange. cbn [lists].
    rewrite lookup_insert_ne by congruence. reflexivity.
Qed.

(** X9.  A synchronous render, end to end.  The request misses the cache,
    no job is waiting, and its fresh render id has neither a record nor
    a token: the front door pushes the job and waits; the worker's next turn
    takes that job and stores a terminal record; the blocking pop of the
    request then returns, and the response is the worker's record with
    [cached] false and the processing time of the front door, a failed
    render included (no error status is raised for it).  The token is
    consumed and the queue is empty again. *)
Theorem sync_render_round_trip (request : RenderRequest) (now el el' : Z)
  (s0 : ApiState) :
  let rid := Valkey.generate_render_id (voice_id request) (speed request)
               (text request) now in
  truthy (Store.get (Api.cache_key_of request) (redis (world s0))) = None ->
  Store.get (Valkey.result_key rid) (redis (world s0)) = None ->
  Store.lrange Valkey.JOB_QUEUE_KEY (redis (world s0)) = [] ->
  Store.lrange (Valkey.notify_key rid) (redis (world s0)) = [] ->
  exists s1 w2 s3 result,
    Api.render_sync_submit acfg request now el s0
    = (Ok (SWaiting request rid), s1)
    /\ Worker.iteration tools ct wcfg (world s1) = (Ok tt, w2)
    /\ Api.render_sync_resume acfg rid el'
         {| active_requests := active_requests s1; world := w2 |}
       = (Ok (SFinally
                (Ok (<["cached" := JBool false]>
                     (<["processing_time_ms" := JInt el']> result)))), s3)
    /\ Store.get (Valkey.result_key rid) (redis (world s3)) = Some result
    /\ result !! "render_id" = Some (JStr rid)
    /\ terminal (status_of result)
    /\ active_requests s3 = active_requests s0
    /\ Store.lrange Valkey.JOB_QUEUE_KEY (redis (world s3)) = []
    /\ Store.lrange (Valkey.notify_key rid) (redis (world s3)) = [].
Proof.
  intros rid Hmiss Hfresh Hqueue Htoken.
  set (ck := Api.cache_key_of request) in *.
  set (job := Api.job_data_of acfg request rid ck).
  pose proof (render_sync_submit_waits request now el s0 Hmiss Hfresh) as Hsub.
  fold rid in Hsub. fold ck in Hsub. fold job in Hsub. cbv zeta in Hsub.
  eexists. rewrite Hsub. cbn [world active_requests].
  set (w1 := {| redis := Store.lpush Valkey.JOB_QUEUE_KEY (IJson job)
                           (redis (world s0));
                trace := trace (world s0)
                         ++ [EvPush Valkey.JOB_QUEUE_KEY (IJson job)] |}).
  (* the worker takes the job *)
  destruct (brpop_render (redis w1) [] (IJson job)) as (rd & Hpop & Hq' & _).
  { cbn [w1 redis]. change Worker.JOB_QUEUE_KEY with Valkey.JOB_QUEUE_KEY.
    rewrite lrange_lpush_eq, Hqueue. reflexivity. }
  destruct (render_turn_fresh request rid ck w1 Worker.JOB_QUEUE_KEY rd Hpop)
    as (w2 & Hturn & Hrec & _ & _ & Hnotify & Hlists).
  { cbn [w1 redis]. rewrite get_lpush. exact Hfresh. }
  destruct (result_of_terminal request rid {| redis := rd; trace := trace w1 |})
    as (Hrid & _ & Hterm).
  set (result := result_of request rid {| redis := rd; trace := trace w1 |}) in *.
  assert (Hne : notify_key_of rid <> Worker.JOB_QUEUE_KEY)
    by (apply notify_key_not_queue; left).
  assert (Htoken2 : Store.lrange (Valkey.notify_key rid) (redis w2)
                    = [] ++ [IRaw "ready"]).
  { change (Valkey.notify_key rid) with (notify_key_of rid).
    rewrite Hnotify. cbn [w1 redis].
    rewrite lrange_lpush_ne by (intros H; apply Hne; symmetry; exact H).
    change (notify_key_of rid) with (Valkey.notify_key rid).
    rewrite Htoken. reflexivity. }
  destruct (wait_for_result_resume_run rid w2 [] (IRaw "ready") Htoken2)
    as (r3 & Hres & Hkv3 & Htok3 & Hl3).
  exists w2. eexists. exists result.
  split; [ reflexivity |]. split; [ exact Hturn |].
  split.
  { unfold Api.render_sync_resume. rewrite run_bind.
    unfold try_except, Api.lift. cbn [world active_requests].
    rewrite Hres.
    change (Valkey.result_key rid) with (Worker.RESULT_KEY_PREFIX +:+ rid).
    rewrite Hrec. reflexivity. }
  cbn [world redis active_requests].
  split.
  { unfold Store.get. rewrite Hkv3. exact Hrec. }
  split; [ exact Hrid |]. split; [ exact Hterm |]. split; [ reflexivity |].
  split; [| exact Htok3 ].
  rewrite Hl3 by (intros H; apply Hne; symmetry; exact H).
  change Valkey.JOB_QUEUE_KEY with Worker.JOB_QUEUE_KEY.
  rewrite Hlists by (intros H; apply Hne; symmetry; exact H). exact Hq'.
Qed.

End RoundTrip.

Lemma sync_render_round_trip_witness :
  exists s1 w2 s3 result,
    Api.render_sync_submit Api.default_config hello t1 0 (api sys0)
    = (Ok (SWaiting hello rid1), s1)
    /\ Worker.iteration tools_ok ct_ok Worker.default_config (world s1)
       = (Ok tt, w2)
    /\ Api.render_sync_resume Api.default_config rid1 350
         {| active_requests := active_requests s1; world := w2 |}
       = (Ok (SFinally
                (Ok (<["cached" := JBool false]>
                     (<["processing_time_ms" := JInt 350]> result)))), s3)
    /\ terminal (status_of result).
Proof.
  destruct (sync_render_round_trip tools_ok ct_ok Worker.default_config
              Api.default_config hello t1 0 350 (api sys0))
    as (s1 & w2 & s3 & result & H1 & H2 & H3 & _ & _ & H6 & _).
  - vm_compute. reflexivity.
  - vm_compute. reflexivity.
  - vm_compute. reflexivity.
  - vm_compute. reflexivity.
  - exists s1, w2, s3, result. auto.
Defined.

(* ===================================================================== *)
(** * The cache, from the worker to the front door *)
(* ===================================================================== *)






(* ===================================================================== *)
(** * The turns of the worker *)
(* ===================================================================== *)

(** X11.  The worker serves the render queue first: with render jobs
    [renders] waiting (the oldest first) and the capture queue holding
    [captures], the next pops yield every render job, in the order of
    their submission, before any capture job; the capture jobs follow,
    the last pushed first. *)
Theorem render_jobs_are_served_first (renders captures : list item)
  (r : Redis) :
  Store.lrange Worker.JOB_QUEUE_KEY r = rev renders ->
  Store.lrange Worker.CAPTURE_JOB_QUEUE_KEY r = captures ->
  pops (length renders + length captures) r
  = map (fun j => (Worker.JOB_QUEUE_KEY, j)) renders
    ++ map (fun j => (Worker.CAPTURE_JOB_QUEUE_KEY, j)) (rev captures).
Proof.
  revert r. induction renders as [| j renders IH]; intros r Hr Hc.
  - cbn [length Nat.add map app]. apply capture_pops_lifo; assumption.
  - cbn [rev] in Hr.
    destruct (brpop_render r (rev renders) j Hr) as (r' & Hpop & Hr' & Hc').
    cbn [length Nat.add pops]. rewrite Hpop. cbn [map app]. f_equal.
    apply IH; [ exact Hr' | rewrite Hc'; exact Hc ].
Qed.

Lemma render_jobs_are_served_first_witness :
  pops 3 {| kv := ∅;
            lists := <[Worker.JOB_QUEUE_KEY := [IRaw "r2"; IRaw "r1"]]>
                     (<[Worker.CAPTURE_JOB_QUEUE_KEY := [IRaw "c1"]]> ∅) |}
  = [ (Worker.JOB_QUEUE_KEY, IRaw "r1"); (Worker.JOB_QUEUE_KEY, IRaw "r2");
      (Worker.CAPTURE_JOB_QUEUE_KEY, IRaw "c1") ].
Proof.
  apply (render_jobs_are_served_first [IRaw "r1"; IRaw "r2"] [IRaw "c1"]);
    reflexivity.
Defined.

Lemma getstr_state {S} (d : dict) (k : string) (s : S) :
  snd (getstr d k s) = s.
Proof.
  unfold getstr, getitem, bind, ret, raise.
  destruct (d !! k) as [[] |]; reflexivity.
Qed.

Lemma getstr_none {S} (d : dict) (k : string) (s : S) :
  d !! k = None -> getstr d k s = (Raise (KeyError k), s).
Proof.
  intros H. unfold getstr, getitem, bind, raise. rewrite H. reflexivity.
Qed.

(** X12.  A render job that lacks one of the keys [render_id],
    [cache_key], [text] and [voice_id] is lost: the turn of the loop takes
    it from the queue, catches the error and goes on, having run no tool
    and written nothing.  No record is made or changed for the job, so a
    record that was pending stays pending. *)
Theorem malformed_render_job_is_dropped (tools : Tools) (ct : CaptureTools)
  (cfg : WorkerConfig) (w : World) (q : string) (job : dict) (rd : Redis) :
  Store.brpop [Worker.JOB_QUEUE_KEY; Worker.CAPTURE_JOB_QUEUE_KEY] (redis w)
  = (Some (q, IJson job), rd) ->
  job !! "type" <> Some (JStr "capture_processing") ->
  job !! "render_id" = None \/ job !! "cache_key" = None
  \/ job !! "text" = None \/ job !! "voice_id" = None ->
  Worker.iteration tools ct cfg w
  = (Ok tt, {| redis := rd; trace := trace w |})
  /\ kv rd = kv (redis w).
Proof.
  intros Hpop Htype Hmissing.
  pose proof (brpop_spec [Worker.JOB_QUEUE_KEY; Worker.CAPTURE_JOB_QUEUE_KEY]
                (redis w)) as Hspec.
  rewrite Hpop in Hspec. destruct Hspec as (_ & Hkv & _ & _).
  split; [| exact Hkv ].
  unfold Worker.iteration, try_except.
  rewrite (loop_body_render tools ct cfg w q job rd Hpop Htype).
  set (w0 := {| redis := rd; trace := trace w |}).
  unfold Worker.handle_render. rewrite run_bind.
  pose proof (getstr_state job "render_id" w0) as Hs1.
  destruct (getstr job "render_id" w0) as [[rid | e] w1] eqn:H1;
    cbn [snd] in Hs1; subst w1; [| reflexivity ].
  rewrite run_bind. unfold Cmd.get at 1.
  destruct (match Store.get (Worker.RESULT_KEY_PREFIX +:+ rid) (redis w0) with
            | Some existing_data => Worker.is_terminal existing_data
            | None => false
            end); [ reflexivity |].
  rewrite run_bind. unfold Worker.process_job. rewrite run_bind, H1.
  rewrite run_bind.
  pose proof (getstr_state job "cache_key" w0) as Hs2.
  destruct (getstr job "cache_key" w0) as [[ck | e] w1] eqn:H2;
    cbn [snd] in Hs2; subst w1; [| reflexivity ].
  rewrite run_bind.
  pose proof (getstr_state job "text" w0) as Hs3.
  destruct (getstr job "text" w0) as [[txt | e] w1] eqn:H3;
    cbn [snd] in Hs3; subst w1; [| reflexivity ].
  rewrite run_bind.
  pose proof (getstr_state job "voice_id" w0) as Hs4.
  destruct (getstr job "voice_id" w0) as [[vid | e] w1] eqn:H4;
    cbn [snd] in Hs4; subst w1; [| reflexivity ].
  exfalso.
  destruct Hmissing as [Hm | [Hm | [Hm | Hm]]].
  - rewrite (getstr_none _ _ _ Hm) in H1. discriminate H1.
  - rewrite (getstr_none _ _ _ Hm) in H2. discriminate H2.
  - rewrite (getstr_none _ _ _ Hm) in H3. discriminate H3.
  - rewrite (getstr_none _ _ _ Hm) in H4. discriminate H4.
Qed.

Definition job_without_text : dict :=
  <["render_id" := JStr "r1"]> (<["cache_key" := JStr "avatar:cache:k"]> ∅).

Lemma malformed_render_job_is_dropped_witness :
  Worker.iteration tools_ok ct_ok Worker.default_config
    {| redis := Store.lpush Worker.JOB_QUEUE_KEY (IJson job_without_text)
                  Store.empty;
       trace := [] |}
  = (Ok tt,
     {| redis := {| kv := ∅; lists := <[Worker.JOB_QUEUE_KEY := []]> ∅ |};
        trace := [] |}).
Proof.
  refine (proj1 (malformed_render_job_is_dropped tools_ok ct_ok
                   Worker.default_config
                   {| redis := Store.lpush Worker.JOB_QUEUE_KEY
                                 (IJson job_without_text) Store.empty;
                      trace := [] |}
                   Worker.JOB_QUEUE_KEY job_without_text
                   {| kv := ∅; lists := <[Worker.JOB_QUEUE_KEY := []]> ∅ |}
                   _ _ _)).
  - by_compute.
  - vm_compute. discriminate.
  - right. right. left. reflexivity.
Defined.

(* ===================================================================== *)
(** * src/api/main.py: health_check *)
(* ===================================================================== *)


Module Main.



End Main.



(* ===================================================================== *)
(** * The processing flag *)
(* ===================================================================== *)

Lemma processing_key_inj (a b : string) :
  ValkeyClient.PROCESSING_KEY_PREFIX +:+ a
  = ValkeyClient.PROCESSING_KEY_PREFIX +:+ b -> a = b.
Proof.
  unfold ValkeyClient.PROCESSING_KEY_PREFIX. intros H. vm_compute in H.
  injection H as H. exact H.
Qed.

(** X14.  [set_processing] is a lock per render id: on a render id whose
    flag is not set it answers True and sets the flag, it answers False
    for as long as the flag is set, and True again after
    [clear_processing]; the flags of other render ids are not touched. *)
Theorem set_processing_is_a_lock (rid : string)
  (flags : ValkeyClient.Flags) :
  flags !! (ValkeyClient.PROCESSING_KEY_PREFIX +:+ rid) = None ->
  exists held,
    ValkeyClient.set_processing rid flags = (Ok true, held)
    /\ ValkeyClient.set_processing rid held = (Ok false, held)
    /\ (exists held',
          bind (ValkeyClient.clear_processing rid)
               (fun _ => ValkeyClient.set_processing rid) held
          = (Ok true, held'))
    /\ forall other,
         other <> rid ->
         fst (ValkeyClient.set_processing other held)
         = fst (ValkeyClient.set_processing other flags)
         /\ fst (ValkeyClient.set_processing rid
                   (snd (ValkeyClient.set_processing other held)))
            = Ok false
         /\ fst (ValkeyClient.set_processing rid
                   (snd (ValkeyClient.clear_processing other held)))
            = Ok false.
Proof.
  intros Hfree. unfold ValkeyClient.set_processing, ValkeyClient.clear_processing,
    bind. rewrite Hfree.
  eexists. split; [ reflexivity |].
  rewrite lookup_insert_eq. split; [ reflexivity |].
  rewrite lookup_delete_eq. split; [ eexists; reflexivity |].
  intros other Hne.
  assert (Hk : ValkeyClient.PROCESSING_KEY_PREFIX +:+ rid
               <> ValkeyClient.PROCESSING_KEY_PREFIX +:+ other).
  { intros H. apply Hne. symmetry. exact (processing_key_inj _ _ H). }
  rewrite lookup_insert_ne by exact Hk.
  split;
    [ destruct (flags !! (ValkeyClient.PROCESSING_KEY_PREFIX +:+ other));
      reflexivity |].
  split.
  - destruct (flags !! (ValkeyClient.PROCESSING_KEY_PREFIX +:+ other));
      cbn [snd].
    + rewrite lookup_insert_eq. reflexivity.
    + rewrite lookup_insert_ne by congruence. rewrite lookup_insert_eq.
      reflexivity.
  - cbn [snd]. rewrite lookup_delete_ne by congruence.
    rewrite lookup_insert_eq. reflexivity.
Qed.

Lemma set_processing_is_a_lock_witness :
  exists held,
    ValkeyClient.set_processing "r1" ∅ = (Ok true, held)
    /\ ValkeyClient.set_processing "r1" held = (Ok false, held).
Proof.
  destruct (set_processing_is_a_lock "r1" ∅) as (held & H1 & H2 & _).
  - reflexivity.
  - exists held. split; assumption.
Defined.


(* ===================================================================== *)
(** * src/api/capture.py: get_job_status *)
(* ===================================================================== *)

Module CaptureApi.

(** The document the response is built from. *)
Definition get_job_status (job_id : string) : M World dict :=
  try_except
    (let status_key := Api.CAPTURE_JOB_STATUS_PREFIX +:+ job_id in
     status_data <- Valkey.get_json status_key ;;
     match truthy status_data with
     | None => raise (HTTPException 404 "Job not found")
     | Some status_data => ret status_data
     end)
    (fun e =>
       match e with
       | HTTPException _ _ => raise e
       | _ => raise (HTTPException 500
                       ("Failed to fetch status: " +:+ str_exn e))
       end).

End CaptureApi.

Lemma get_job_status_run (jid : string) (w : World) :
  CaptureApi.get_job_status jid w
  = (match truthy (Store.get (Capture.status_key_of jid) (redis w)) with
     | Some d => Ok d
     | None => Raise (HTTPException 404 "Job not found")
     end, w).
Proof.
  unfold CaptureApi.get_job_status, try_except, Valkey.get_json.
  rewrite !run_bind. unfold Cmd.get at 1. unfold ret at 1.
  change (Api.CAPTURE_JOB_STATUS_PREFIX +:+ jid) with (Capture.status_key_of jid).
  destruct (truthy _); reflexivity.
Qed.

Lemma status_key_inj (a b : string) :
  Capture.status_key_of a = Capture.status_key_of b -> a = b.
Proof.
  unfold Capture.status_key_of. intros H. vm_compute in H.
  injection H as H. exact H.
Qed.

Lemma initial_status_nonempty (aid jid : string) :
  Api.initial_status aid jid <> ∅.
Proof.
  unfold Api.initial_status. intros H.
  apply (f_equal (fun m : dict => m !! "job_id")) in H.
  rewrite lookup_insert_eq, lookup_empty in H. discriminate H.
Qed.

(** X15.  A capture job can be polled as soon as it is submitted: the
    submission does two things to the store, in this order: it writes the
    status document, then it pushes the job; and [get_job_status] returns
    the document, status queued, progress 0 and the one log line
    "Job queued".  The submission touches the status of no other job;
    a capture that is not on disk is refused with 404 and leaves the store
    as it was; and polling a job that has no status document gives 404. *)
Theorem capture_job_can_be_polled (cd ad cid aid jid : string) (w : World) :
  (exists w1,
      Api.process_capture cd ad cid aid true jid w = (Ok (jid, "queued"), w1)
      /\ CaptureApi.get_job_status jid w1 = (Ok (Api.initial_status aid jid), w1)
      /\ status_of (Api.initial_status aid jid) = Some "queued"
      /\ progress_of (Api.initial_status aid jid) = Some 0
      /\ logs_of (Api.initial_status aid jid) = ["Job queued"]
      /\ (exists job,
            trace w1
            = trace w
              ++ [EvWrite (Capture.status_key_of jid)
                    (Api.initial_status aid jid);
                  EvPush Api.CAPTURE_JOB_QUEUE_KEY (IJson job)]
            /\ Store.lrange Api.CAPTURE_JOB_QUEUE_KEY (redis w1)
               = Store.lrange Api.CAPTURE_JOB_QUEUE_KEY (redis w)
                 ++ [IJson job]
            /\ job !! "job_id" = Some (JStr jid)
            /\ job !! "type" = Some (JStr "capture_processing"))
      /\ forall other,
           other <> jid ->
           fst (CaptureApi.get_job_status other w1)
           = fst (CaptureApi.get_job_status other w))
  /\ Api.process_capture cd ad cid aid false jid w
     = (Raise (HTTPException 404 "Capture not found"), w)
  /\ (Store.get (Capture.status_key_of jid) (redis w) = None ->
      CaptureApi.get_job_status jid w
      = (Raise (HTTPException 404 "Job not found"), w)).
Proof.
  split; [| split ].
  - eexists. rewrite process_capture_run. split; [ reflexivity |].
    split.
    { rewrite get_job_status_run. cbn [redis].
      rewrite get_rpush.
      change (Api.CAPTURE_JOB_STATUS_PREFIX +:+ jid)
        with (Capture.status_key_of jid).
      rewrite get_setex_eq.
      rewrite (truthy_some _ _ eq_refl (initial_status_nonempty aid jid)).
      reflexivity. }
    split.
    { unfold status_of, Api.initial_status. simplify_map_eq. reflexivity. }
    split.
    { unfold progress_of, Api.initial_status. simplify_map_eq. reflexivity. }
    split.
    { unfold logs_of, Api.initial_status. simplify_map_eq. reflexivity. }
    split.
    { exists (Api.capture_job_data cd ad cid aid jid). cbn [redis trace].
      split; [ rewrite <- app_assoc; reflexivity |].
      rewrite lrange_rpush_eq, lrange_setex.
      split; [ reflexivity |].
      destruct (capture_job_data_fields cd ad cid aid jid)
        as (H1 & _ & _ & _ & _ & H6).
      split; assumption. }
    intros other Hne. rewrite !get_job_status_run. cbn [fst redis].
    rewrite get_rpush.
    change (Api.CAPTURE_JOB_STATUS_PREFIX +:+ jid)
      with (Capture.status_key_of jid).
    rewrite get_setex_ne; [ reflexivity |].
    intros H. apply Hne. symmetry. exact (status_key_inj _ _ H).
  - reflexivity.
  - intros Hnone. rewrite get_job_status_run, Hnone. reflexivity.
Qed.

Lemma capture_job_can_be_polled_witness :
  CaptureApi.get_job_status "job-a" w_empty
  = (Raise (HTTPException 404 "Job not found"), w_empty)
  /\ exists w1,
       Api.process_capture "/data/captures" "/data/avatars" "capture-a"
         "alice" true "job-a" w_empty = (Ok ("job-a", "queued"), w1)
       /\ CaptureApi.get_job_status "job-a" w1
          = (Ok (Api.initial_status "alice" "job-a"), w1)
       /\ status_of (Api.initial_status "alice" "job-a") = Some "queued".
Proof.
  destruct (capture_job_can_be_polled "/data/captures" "/data/avatars"
              "capture-a" "alice" "job-a" w_empty)
    as ((w1 & Hsubmit & Hpoll & Hstatus & _) & _ & Hnone).
  split; [ apply Hnone; reflexivity |].
  exists w1. split; [ exact Hsubmit |]. split; [ exact Hpoll | exact Hstatus ].
Defined.

(* ===================================================================== *)
(** * The status document a capture job ends with *)
(* ===================================================================== *)







(* ===================================================================== *)
(** * The audio of a render *)
(* ===================================================================== *)





(* ===================================================================== *)
(** * The anchor box of a group of landmarks *)
(* ===================================================================== *)

Lemma numpy_min_spec (first : Z) (others : list Z) :
  Numpy.min first others <= first
  /\ Forall (fun z => Numpy.min first others <= z) others
  /\ (Numpy.min first others = first \/ Numpy.min first others ∈ others).
Proof.
  unfold Numpy.min. induction others as [| z others (IH1 & IH2 & IH3)];
    cbn [foldr].
  - split; [ lia |]. split; [ constructor | left; reflexivity ].
  - split; [ lia |]. split.
    + constructor; [ lia |].
      eapply Forall_impl; [ exact IH2 |]. intros a Ha. cbn beta in Ha. lia.
    + destruct (Z.min_spec z (foldr Z.min first others)) as [[_ ->] | [_ ->]].
      * right. left.
      * destruct IH3 as [-> | Hin]; [ left; reflexivity | right; right; exact Hin ].
Qed.

Lemma numpy_max_spec (first : Z) (others : list Z) :
  first <= Numpy.max first others
  /\ Forall (fun z => z <= Numpy.max first others) others
  /\ (Numpy.max first others = first \/ Numpy.max first others ∈ others).
Proof.
  unfold Numpy.max. induction others as [| z others (IH1 & IH2 & IH3)];
    cbn [foldr].
  - split; [ lia |]. split; [ constructor | left; reflexivity ].
  - split; [ lia |]. split.
    + constructor; [ lia |].
      eapply Forall_impl; [ exact IH2 |]. intros a Ha. cbn beta in Ha. lia.
    + destruct (Z.max_spec z (foldr Z.max first others)) as [[_ ->] | [_ ->]].
      * destruct IH3 as [-> | Hin]; [ left; reflexivity | right; right; exact Hin ].
      * right. left.
Qed.

Lemma int64_small (z : Z) : - 2 ^ 63 <= z < 2 ^ 63 -> Numpy.int64 z = z.
Proof.
  intros Hz. unfold Numpy.int64. rewrite Z.mod_small; lia.
Qed.

Lemma int_of_float_run {S} (v : Q) (s : S) :
  PyFloat.is_inf v = false ->
  Lipsync.int_of_float v s = (Ok (PyFloat.trunc v), s).
Proof. intros H. unfold Lipsync.int_of_float. rewrite H. reflexivity. Qed.

Lemma int_truediv_run {S} (n d : Z) (s : S) :
  PyFloat.is_inf (PyFloat.b64 (inject_Z n / inject_Z d)) = false ->
  Lipsync.int_truediv n d s = (Ok (PyFloat.b64 (inject_Z n / inject_Z d)), s).
Proof. intros H. unfold Lipsync.int_truediv. rewrite H. reflexivity. Qed.

Section Axis.
Local Open Scope Q_scope.

Lemma finite_small (v : Q) (n : Z) :
  Qabs v <= inject_Z n -> (n < 2 ^ 1000)%Z -> PyFloat.is_inf v = false.
Proof.
  intros Hv Hn. apply finite_bound.
  apply Qle_lt_trans with (inject_Z n); [ exact Hv |].
  apply Qlt_le_trans with (PyFloat.pow2 1000).
  - rewrite <- pow2_inject by lia. rewrite <- Zlt_Qlt. exact Hn.
  - apply pow2_le. lia.
Qed.

(** One axis of [compute_bbox_from_landmarks], between the extreme
    coordinates [lo] and [hi]: the floats are exact but for the product with
    the padding. *)
Lemma axis_facts (lo hi : Z) (padding : Q) :
  (- 2 ^ 31 <= lo)%Z -> (lo <= hi)%Z -> (hi <= 2 ^ 31)%Z ->
  1 <= padding -> padding <= 1024 ->
  let orig_w := Numpy.int64 (hi - lo) in
  let orig_cx :=
    PyFloat.b64 (PyFloat.b64 (inject_Z (Numpy.int64 (lo + hi))) / 2) in
  let wv := PyFloat.mul (PyFloat.b64 (inject_Z orig_w)) padding in
  let new_w := PyFloat.trunc wv in
  let hv := PyFloat.b64 (inject_Z new_w / inject_Z 2) in
  let xv := PyFloat.b64 (orig_cx - hv) in
  PyFloat.is_inf wv = false /\ PyFloat.is_inf hv = false
  /\ PyFloat.is_inf xv = false /\ PyFloat.is_inf orig_cx = false
  /\ (hi - lo <= new_w)%Z
  /\ PyFloat.trunc xv = Z.quot (lo + hi - new_w) 2
  /\ PyFloat.trunc orig_cx = Z.quot (lo + hi) 2.
Proof.
  intros Hlo Hle Hhi Hp1 Hp2. cbv zeta.
  rewrite !int64_small by lia.
  set (ow := (hi - lo)%Z).
  assert (How : (0 <= ow <= 2 ^ 32)%Z) by (unfold ow; lia).
  assert (Hbw : PyFloat.b64 (inject_Z ow) == inject_Z ow)
    by (apply b64_int; lia).
  set (wv := PyFloat.mul (PyFloat.b64 (inject_Z ow)) padding).
  assert (Hw0 : 0 <= inject_Z ow) by (rewrite <- (Zle_Qle 0); lia).
  assert (Hw1 : inject_Z ow <= inject_Z (2 ^ 32)) by (rewrite <- Zle_Qle; lia).
  assert (Hwv_lo : inject_Z ow <= wv).
  { unfold wv, PyFloat.mul. rewrite <- Hbw at 1.
    apply Qle_trans with (PyFloat.b64 (PyFloat.b64 (inject_Z ow))).
    - rewrite (b64_value _ _ Hbw), Hbw. apply Qle_refl.
    - apply b64_mono. rewrite Hbw. nra. }
  assert (Hwv_hi : wv <= inject_Z (2 ^ 42)).
  { unfold wv, PyFloat.mul.
    rewrite <- (b64_int (2 ^ 42)) by (cbn; lia).
    apply b64_mono. rewrite Hbw.
    change (inject_Z (2 ^ 42)) with (inject_Z (2 ^ 32) * 1024). nra. }
  set (nw := PyFloat.trunc wv).
  assert (Hnw : (ow <= nw <= 2 ^ 42)%Z).
  { unfold nw. split.
    - rewrite <- (trunc_int ow). apply trunc_mono. exact Hwv_lo.
    - rewrite <- (trunc_int (2 ^ 42)). apply trunc_mono. exact Hwv_hi. }
  assert (Hhv : PyFloat.b64 (inject_Z nw / inject_Z 2) == inject_Z nw / 2)
    by (apply b64_half_int; lia).
  assert (Hcx : PyFloat.b64 (PyFloat.b64 (inject_Z (lo + hi)) / 2)
                == inject_Z (lo + hi) / 2).
  { assert (H1 : PyFloat.b64 (inject_Z (lo + hi)) == inject_Z (lo + hi))
      by (apply b64_int; lia).
    assert (H2 : PyFloat.b64 (inject_Z (lo + hi)) / 2 == inject_Z (lo + hi) / 2)
      by (rewrite H1; reflexivity).
    rewrite (b64_value _ _ H2). apply b64_half_int. lia. }
  set (ocx := PyFloat.b64 (PyFloat.b64 (inject_Z (lo + hi)) / 2)) in *.
  set (hv := PyFloat.b64 (inject_Z nw / inject_Z 2)) in *.
  assert (Hdiff : ocx - hv == inject_Z (lo + hi - nw) / 2).
  { rewrite Hcx, Hhv. unfold Z.sub.
    rewrite !inject_Z_plus, inject_Z_opp. field. }
  assert (Hxv : PyFloat.b64 (ocx - hv) == inject_Z (lo + hi - nw) / 2).
  { rewrite (b64_value _ _ Hdiff). apply b64_half_int. lia. }
  assert (Habs : forall n : Z, Qabs (inject_Z n / 2) <= inject_Z (Z.abs n)).
  { intros n. rewrite <- Qabs_inject_Z.
    unfold Qdiv. rewrite Qabs_Qmult.
    pose proof (Qabs_nonneg (inject_Z n)).
    change (Qabs (/ 2)) with (1 # 2). lra. }
  split.
  { apply (finite_small _ (2 ^ 42)); [| cbn; lia ].
    rewrite Qabs_pos by lra. exact Hwv_hi. }
  split.
  { apply (finite_small _ (Z.abs nw)); [| lia ]. rewrite Hhv. apply Habs. }
  split.
  { apply (finite_small _ (Z.abs (lo + hi - nw))); [| lia ].
    rewrite Hxv. apply Habs. }
  split.
  { apply (finite_small _ (Z.abs (lo + hi))); [| lia ].
    rewrite Hcx. apply Habs. }
  split; [ lia |].
  split.
  - rewrite (trunc_value _ _ Hxv). apply trunc_half.
  - rewrite (trunc_value _ _ Hcx). apply trunc_half.
Qed.

End Axis.

Lemma quot_2_bounds (s : Z) : s - 1 <= 2 * Z.quot s 2 <= s + 1.
Proof.
  pose proof (Z.quot_rem' s 2) as Hqr.
  pose proof (Z.rem_bound_abs s 2 ltac:(lia)) as Hr. lia.
Qed.

(** [compute_bbox_from_landmarks] on a group of points whose coordinates
    are within 2^31, for a padding from 1 to 1024. *)
Lemma compute_bbox_covers {S} (first : Z * Z) (others : list (Z * Z))
  (padding : Q) (s : S) :
  Forall (fun c => - 2 ^ 31 <= fst c <= 2 ^ 31 /\ - 2 ^ 31 <= snd c <= 2 ^ 31)
         (first :: others) ->
  (1 <= padding)%Q -> (padding <= 1024)%Q ->
  exists x y w h cx cy,
    Landmarks.compute_bbox_from_landmarks (first :: others) padding s
    = (Ok (Some (mk_anchor x y w h cx cy)), s)
    /\ Forall (fun c => x <= fst c <= x + w /\ y <= snd c <= y + h)
              (first :: others)
    /\ x <= cx <= x + w /\ y <= cy <= y + h
    /\ 0 <= w /\ 0 <= h
    /\ (forall xl xh yl yh,
          Forall (fun c => xl <= fst c <= xh /\ yl <= snd c <= yh)
                 (first :: others) ->
          xl <= cx <= xh /\ yl <= cy <= yh).
Proof.
  intros Hb Hp1 Hp2.
  apply Forall_cons in Hb as [[Hfx Hfy] Hothers].
  destruct (numpy_min_spec (fst first) (map fst others)) as (Hxl1 & Hxl2 & Hxl3).
  destruct (numpy_max_spec (fst first) (map fst others)) as (Hxh1 & Hxh2 & Hxh3).
  destruct (numpy_min_spec (snd first) (map snd others)) as (Hyl1 & Hyl2 & Hyl3).
  destruct (numpy_max_spec (snd first) (map snd others)) as (Hyh1 & Hyh2 & Hyh3).
  set (x_min := Numpy.min (fst first) (map fst others)) in *.
  set (x_max := Numpy.max (fst first) (map fst others)) in *.
  set (y_min := Numpy.min (snd first) (map snd others)) in *.
  set (y_max := Numpy.max (snd first) (map snd others)) in *.
  assert (Hxs : Forall (fun z => - 2 ^ 31 <= z <= 2 ^ 31) (map fst others)).
  { apply Forall_map. eapply Forall_impl; [ exact Hothers |].
    intros c [H _]. exact H. }
  assert (Hys : Forall (fun z => - 2 ^ 31 <= z <= 2 ^ 31) (map snd others)).
  { apply Forall_map. eapply Forall_impl; [ exact Hothers |].
    intros c [_ H]. exact H. }
  assert (Hxmin : - 2 ^ 31 <= x_min).
  { destruct Hxl3 as [-> | Hin]; [ lia |].
    rewrite Forall_forall in Hxs. apply (Hxs _ Hin). }
  assert (Hxmax : x_max <= 2 ^ 31).
  { destruct Hxh3 as [-> | Hin]; [ lia |].
    rewrite Forall_forall in Hxs. apply (Hxs _ Hin). }
  assert (Hymin : - 2 ^ 31 <= y_min).
  { destruct Hyl3 as [-> | Hin]; [ lia |].
    rewrite Forall_forall in Hys. apply (Hys _ Hin). }
  assert (Hymax : y_max <= 2 ^ 31).
  { destruct Hyh3 as [-> | Hin]; [ lia |].
    rewrite Forall_forall in Hys. apply (Hys _ Hin). }
  destruct (axis_facts x_min x_max padding Hxmin ltac:(lia) Hxmax Hp1 Hp2)
    as (Fw & Fhw & Fx & Fcx & Hw & Hx & Hcx).
  destruct (axis_facts y_min y_max padding Hymin ltac:(lia) Hymax Hp1 Hp2)
    as (Fh & Fhh & Fy & Fcy & Hh & Hy & Hcy).
  unfold Landmarks.compute_bbox_from_landmarks.
  fold x_min x_max y_min y_max.
  rewrite run_bind, (int_of_float_run _ _ Fw).
  rewrite run_bind, (int_of_float_run _ _ Fh).
  rewrite run_bind, (int_truediv_run _ _ _ Fhw).
  rewrite run_bind, (int_of_float_run _ _ Fx).
  rewrite run_bind, (int_truediv_run _ _ _ Fhh).
  rewrite run_bind, (int_of_float_run _ _ Fy).
  rewrite run_bind, (int_of_float_run _ _ Fcx).
  rewrite run_bind, (int_of_float_run _ _ Fcy).
  rewrite Hx, Hy, Hcx, Hcy.
  set (new_w := PyFloat.trunc
                  (PyFloat.mul
                     (PyFloat.b64 (inject_Z (Numpy.int64 (x_max - x_min))))
                     padding)) in *.
  set (new_h := PyFloat.trunc
                  (PyFloat.mul
                     (PyFloat.b64 (inject_Z (Numpy.int64 (y_max - y_min))))
                     padding)) in *.
  pose proof (quot_2_bounds (x_min + x_max - new_w)) as Qx.
  pose proof (quot_2_bounds (y_min + y_max - new_h)) as Qy.
  pose proof (quot_2_bounds (x_min + x_max)) as Qcx.
  pose proof (quot_2_bounds (y_min + y_max)) as Qcy.
  eexists _, _, _, _, _, _. split; [ reflexivity |].
  split.
  { constructor; [ lia |].
    rewrite Forall_forall. intros c Hc.
    assert (Hcx' : x_min <= fst c <= x_max).
    { rewrite Forall_forall in Hxl2, Hxh2.
      assert (Hin : fst c ∈ map fst others)
        by (apply list_elem_of_fmap_2; exact Hc).
      split; [ apply (Hxl2 _ Hin) | apply (Hxh2 _ Hin) ]. }
    assert (Hcy' : y_min <= snd c <= y_max).
    { rewrite Forall_forall in Hyl2, Hyh2.
      assert (Hin : snd c ∈ map snd others)
        by (apply list_elem_of_fmap_2; exact Hc).
      split; [ apply (Hyl2 _ Hin) | apply (Hyh2 _ Hin) ]. }
    lia. }
  do 4 (split; [ lia |]).
  intros xl xh yl yh Hin.
  apply Forall_cons in Hin as [Hf Hin].
  assert (Hxin : Forall (fun z => xl <= z <= xh) (map fst others)).
  { apply Forall_map. eapply Forall_impl; [ exact Hin |].
    intros c [H _]. exact H. }
  assert (Hyin : Forall (fun z => yl <= z <= yh) (map snd others)).
  { apply Forall_map. eapply Forall_impl; [ exact Hin |].
    intros c [_ H]. exact H. }
  rewrite Forall_forall in Hxin, Hyin.
  assert (xl <= x_min) by (destruct Hxl3 as [-> | Hm]; [ lia | apply (Hxin _ Hm) ]).
  assert (x_max <= xh) by (destruct Hxh3 as [-> | Hm]; [ lia | apply (Hxin _ Hm) ]).
  assert (yl <= y_min) by (destruct Hyl3 as [-> | Hm]; [ lia | apply (Hyin _ Hm) ]).
  assert (y_max <= yh) by (destruct Hyh3 as [-> | Hm]; [ lia | apply (Hyin _ Hm) ]).
  lia.
Qed.

(** X18.  The box [compute_bbox_from_landmarks] computes for a padding of
    1 or more contains every point it is computed from, and its centre;
    widths and heights are not negative.  This holds with the floats as
    they are, for coordinates within 2^31 and a padding up to 1024: the
    centre and the halves are exact, the padded size is rounded and then
    cut to an integer that is no less than the unpadded size.  Without
    points there is no box. *)
Theorem padded_box_contains_its_points {S} (coords : list (Z * Z))
  (padding : Q) (s : S) :
  Forall (fun c => - 2 ^ 31 <= fst c <= 2 ^ 31 /\ - 2 ^ 31 <= snd c <= 2 ^ 31)
         coords ->
  (1 <= padding)%Q -> (padding <= 1024)%Q ->
  match coords with
  | [] =>
      Landmarks.compute_bbox_from_landmarks coords padding s = (Ok None, s)
  | _ :: _ =>
      exists x y w h cx cy,
        Landmarks.compute_bbox_from_landmarks coords padding s
        = (Ok (Some (mk_anchor x y w h cx cy)), s)
        /\ Forall (fun c => x <= fst c <= x + w /\ y <= snd c <= y + h) coords
        /\ x <= cx <= x + w /\ y <= cy <= y + h
        /\ 0 <= w /\ 0 <= h
  end.
Proof.
  intros Hb Hp1 Hp2. destruct coords as [| first others]; [ reflexivity |].
  destruct (compute_bbox_covers first others padding s Hb Hp1 Hp2)
    as (x & y & w & h & cx & cy & Hrun & Hcov & Hcx & Hcy & Hw & Hh & _).
  exists x, y, w, h, cx, cy. repeat split; assumption || lia.
Qed.

Lemma padded_box_contains_its_points_witness :
  exists x y w h cx cy,
    Landmarks.compute_bbox_from_landmarks [(200, 400); (300, 440); (250, 460)]
      (PyFloat.b64 (13 # 10)) tt
    = (Ok (Some (mk_anchor x y w h cx cy)), tt)
    /\ x <= 200 /\ 300 <= x + w.
Proof.
  destruct (padded_box_contains_its_points
              [(200, 400); (300, 440); (250, 460)] (PyFloat.b64 (13 # 10)) tt)
    as (x & y & w & h & cx & cy & Hrun & Hall & _).
  - repeat constructor; cbn; lia.
  - vm_compute. discriminate.
  - vm_compute. discriminate.
  - exists x, y, w, h, cx, cy. split; [ exact Hrun |].
    apply Forall_cons in Hall as [H1 Hall].
    apply Forall_cons in Hall as [H2 _]. cbn in H1, H2. lia.
Defined.

(** ** From the landmarks to the clamped anchor *)

Section Pipeline.
Local Open Scope Q_scope.

(** A landmark inside the picture. *)
Definition in_picture (lm : Landmark) : Prop :=
  0 <= lm_x lm <= 1 /\ 0 <= lm_y lm <= 1.

Lemma scaled_run {S} (v : Q) (n : Z) (s : S) :
  0 <= v <= 1 -> (0 <= n <= 2 ^ 31)%Z ->
  exists p, Landmarks.scaled v n s = (Ok p, s) /\ (0 <= p <= n)%Z.
Proof.
  intros Hv Hn. unfold Landmarks.scaled, float_of_int.
  rewrite run_bind, (finite_int n) by lia. unfold ret at 1.
  pose proof (b64_int n ltac:(lia)) as Hf.
  assert (Hn0 : 0 <= inject_Z n) by (rewrite <- (Zle_Qle 0); lia).
  assert (Hlo : 0 <= PyFloat.mul v (PyFloat.b64 (inject_Z n))).
  { unfold PyFloat.mul. apply b64_nonneg. rewrite Hf. nra. }
  assert (Hhi : PyFloat.mul v (PyFloat.b64 (inject_Z n)) <= inject_Z n).
  { unfold PyFloat.mul. rewrite <- Hf at 2. apply b64_mono. rewrite Hf. nra. }
  rewrite int_of_float_run.
  - eexists. split; [ reflexivity |]. split.
    + change 0%Z with (PyFloat.trunc 0). apply trunc_mono. exact Hlo.
    + rewrite <- (trunc_int n) at 2. apply trunc_mono. exact Hhi.
  - apply (finite_small _ n); [| lia ]. rewrite Qabs_pos by exact Hlo. exact Hhi.
Qed.

Lemma get_landmark_coords_run {S} (landmarks : list Landmark)
  (indices : list nat) (W H : Z) (s : S) :
  (0 <= W <= 2 ^ 31)%Z -> (0 <= H <= 2 ^ 31)%Z ->
  Forall (fun idx => exists lm, landmarks !! idx = Some lm /\ in_picture lm)
         indices ->
  exists coords,
    Landmarks.get_landmark_coords landmarks indices W H s = (Ok coords, s)
    /\ length coords = length indices
    /\ Forall (fun c => (0 <= fst c <= W)%Z /\ (0 <= snd c <= H)%Z) coords.
Proof.
  intros HW HH Hall.
  induction Hall as [| idx indices (lm & Hlm & Hx & Hy) _ (coords & Hrun & Hlen & Hc)];
    cbn [Landmarks.get_landmark_coords].
  - exists []. split; [ reflexivity |]. split; [ reflexivity | constructor ].
  - rewrite Hlm, run_bind. unfold ret at 1.
    destruct (scaled_run (lm_x lm) W s Hx HW) as (px & Hpx & Hbx).
    destruct (scaled_run (lm_y lm) H s Hy HH) as (py & Hpy & Hby).
    rewrite run_bind, Hpx, run_bind, Hpy, run_bind, Hrun.
    exists ((px, py) :: coords). split; [ reflexivity |].
    split; [ cbn; rewrite Hlen; reflexivity |].
    constructor; [ split; assumption | exact Hc ].
Qed.

End Pipeline.

(** A group of points inside the frame: the box computed from them, then
    clamped to the frame. *)
Lemma clamped_box_covers {S} (coords : list (Z * Z)) (padding : Q)
  (W H : Z) (s : S) :
  coords <> [] ->
  0 <= W <= 2 ^ 31 -> 0 <= H <= 2 ^ 31 ->
  Forall (fun c => 0 <= fst c <= W /\ 0 <= snd c <= H) coords ->
  (1 <= padding)%Q -> (padding <= 1024)%Q ->
  exists a x y w h,
    Landmarks.compute_bbox_from_landmarks coords padding s = (Ok (Some a), s)
    /\ Landmarks.clamp_bbox a W H s
       = (Ok (mk_anchor x y w h (default 0 (a !! "cx")) (default 0 (a !! "cy"))),
          s)
    /\ 0 <= x /\ 0 <= y /\ 0 <= w /\ 0 <= h /\ x + w <= W /\ y + h <= H
    /\ Forall (fun c => x <= fst c <= x + w /\ y <= snd c <= y + h) coords
    /\ 0 <= default 0 (a !! "cx") <= W /\ 0 <= default 0 (a !! "cy") <= H.
Proof.
  intros Hne HW HH Hin Hp1 Hp2.
  destruct coords as [| first others]; [ contradiction |].
  destruct (compute_bbox_covers first others padding s) as
    (x & y & w & h & cx & cy & Hrun & Hcov & _ & _ & Hw & Hh & Hcentre);
    [ eapply Forall_impl; [ exact Hin |]; intros c Hc; cbn beta in Hc; lia
    | exact Hp1 | exact Hp2 |].
  destruct (mk_anchor_fields x y w h cx cy) as (Ax & Ay & Aw & Ah & Acx & Acy).
  exists (mk_anchor x y w h cx cy), (Z.max 0 x), (Z.max 0 y),
    (Z.min w (W - Z.max 0 x)), (Z.min h (H - Z.max 0 y)).
  split; [ exact Hrun |].
  split.
  { rewrite (clamp_bbox_run _ W H x y w h cx cy s Ax Ay Aw Ah Acx Acy).
    rewrite Acx, Acy. reflexivity. }
  assert (Hfirst : x <= fst first <= x + w /\ y <= snd first <= y + h)
    by (apply Forall_cons in Hcov as [Hf _]; exact Hf).
  assert (Hfin : 0 <= fst first <= W /\ 0 <= snd first <= H)
    by (apply Forall_cons in Hin as [Hf _]; exact Hf).
  specialize (Hcentre 0 W 0 H Hin).
  repeat (split; [ lia |]).
  split; [| rewrite Acx, Acy; cbn [default from_option id]; lia ].
  rewrite Forall_forall in Hin, Hcov |- *. intros c Hc.
  specialize (Hin c Hc). specialize (Hcov c Hc). cbn beta in Hin, Hcov. lia.
Qed.

(** X19.  For a face that lies inside the picture (normalized landmarks
    between 0 and 1), a frame of at most 2^31 pixels a side and a padding
    from 1 to 1024, the mouth anchor and the eyes anchor are found, and
    after [clamp_bbox] each one lies inside the frame, with a width and a
    height that are not negative, and still contains the pixel of every
    landmark it was computed from. *)
Theorem clamped_anchors_cover_the_face {S} (landmarks : list Landmark)
  (W H : Z) (padding : Q) (s : S) :
  0 <= W <= 2 ^ 31 -> 0 <= H <= 2 ^ 31 ->
  (1 <= padding)%Q -> (padding <= 1024)%Q ->
  Forall (fun idx => exists lm, landmarks !! idx = Some lm /\ in_picture lm)
         (Landmarks.LIPS_LANDMARKS ++ Landmarks.EYE_LEFT_LANDMARKS
          ++ Landmarks.EYE_RIGHT_LANDMARKS) ->
  (exists lips a x y w h,
      Landmarks.get_landmark_coords landmarks Landmarks.LIPS_LANDMARKS W H s
      = (Ok lips, s)
      /\ Landmarks.extract_mouth_anchor landmarks W H padding s = (Ok (Some a), s)
      /\ Landmarks.clamp_bbox a W H s
         = (Ok (mk_anchor x y w h (default 0 (a !! "cx"))
                  (default 0 (a !! "cy"))), s)
      /\ 0 <= x /\ 0 <= y /\ 0 <= w /\ 0 <= h /\ x + w <= W /\ y + h <= H
      /\ Forall (fun c => x <= fst c <= x + w /\ y <= snd c <= y + h) lips)
  /\ (exists left right a x y w h,
        Landmarks.get_landmark_coords landmarks Landmarks.EYE_LEFT_LANDMARKS
          W H s = (Ok left, s)
        /\ Landmarks.get_landmark_coords landmarks
             Landmarks.EYE_RIGHT_LANDMARKS W H s = (Ok right, s)
        /\ Landmarks.extract_eyes_anchor landmarks W H padding s
           = (Ok (Some a), s)
        /\ Landmarks.clamp_bbox a W H s
           = (Ok (mk_anchor x y w h (default 0 (a !! "cx"))
                    (default 0 (a !! "cy"))), s)
        /\ 0 <= x /\ 0 <= y /\ 0 <= w /\ 0 <= h /\ x + w <= W /\ y + h <= H
        /\ Forall (fun c => x <= fst c <= x + w /\ y <= snd c <= y + h)
                  (left ++ right)).
Proof.
  intros HW HH Hp1 Hp2 Hall.
  apply Forall_app in Hall as [Hlips Hall].
  apply Forall_app in Hall as [Hleft Hright].
  destruct (get_landmark_coords_run landmarks _ W H s HW HH Hlips)
    as (lips & Hl1 & Hl2 & Hl3).
  destruct (get_landmark_coords_run landmarks _ W H s HW HH Hleft)
    as (left & He1 & He2 & He3).
  destruct (get_landmark_coords_run landmarks _ W H s HW HH Hright)
    as (right & Hr1 & Hr2 & Hr3).
  split.
  - destruct (clamped_box_covers lips padding W H s) as
      (a & x & y & w & h & Hbox & Hclamp & Hx & Hy & Hw & Hh & Hxw & Hyh
       & Hcov & _); auto.
    { intros ->. discriminate Hl2. }
    exists lips, a, x, y, w, h. split; [ exact Hl1 |].
    split; [| repeat split; assumption ].
    unfold Landmarks.extract_mouth_anchor, try_except.
    rewrite run_bind, Hl1, Hbox. reflexivity.
  - destruct (clamped_box_covers (left ++ right) padding W H s) as
      (a & x & y & w & h & Hbox & Hclamp & Hx & Hy & Hw & Hh & Hxw & Hyh
       & Hcov & _); auto.
    { intros Hnil. apply (f_equal length) in Hnil.
      rewrite length_app, He2 in Hnil. discriminate Hnil. }
    { apply Forall_app. split; assumption. }
    exists left, right, a, x, y, w, h.
    split; [ exact He1 |]. split; [ exact Hr1 |].
    split; [| repeat split; assumption ].
    unfold Landmarks.extract_eyes_anchor, try_except.
    rewrite run_bind, He1, run_bind, Hr1, Hbox. reflexivity.
Qed.

Definition face_inside : list Landmark :=
  replicate 478 {| lm_x := 1 # 2; lm_y := 3 # 4 |}.

Lemma clamped_anchors_cover_the_face_witness :
  exists lips a x y w h,
    Landmarks.get_landmark_coords face_inside Landmarks.LIPS_LANDMARKS
      512 640 tt = (Ok lips, tt)
    /\ Landmarks.extract_mouth_anchor face_inside 512 640
         (PyFloat.b64 (3 # 2)) tt = (Ok (Some a), tt)
    /\ Landmarks.clamp_bbox a 512 640 tt
       = (Ok (mk_anchor x y w h (default 0 (a !! "cx"))
                (default 0 (a !! "cy"))), tt)
    /\ 0 <= x /\ x + w <= 512.
Proof.
  destruct (clamped_anchors_cover_the_face face_inside 512 640
              (PyFloat.b64 (3 # 2)) tt)
    as [(lips & a & x & y & w & h & H1 & H2 & H3 & H4 & _ & _ & _ & H5 & _) _].
  - lia.
  - lia.
  - vm_compute. discriminate.
  - vm_compute. discriminate.
  - apply Forall_forall. intros idx Hidx.
    exists {| lm_x := 1 # 2; lm_y := 3 # 4 |}. split.
    + apply lookup_replicate_2.
      revert idx Hidx. apply Forall_forall.
      repeat (constructor; [ lia |]). constructor.
    + unfold in_picture. cbn. split; split; discriminate.
  - exists lips, a, x, y, w, h. auto.
Defined.

(* ===================================================================== *)
(** * src/worker/anchor_timeline.py *)
(* ===================================================================== *)

(** What [detector.detect] answers on a decoded frame: the faces it found,
    or [None]. *)
Abbreviation Detection := (option (list (list Landmark))).

(** What OpenCV and MediaPipe answer during a run on a video file: whether
    the file opened, the properties of its header (the rate a finite float,
    the others as [int] makes them), the error, if any, of starting the
    detector, and the frames [cap.read()] hands out until it fails, each one
    with what [detector.detect] answers on it.  Reading, detecting,
    releasing and closing are taken not to fail. *)
Record Video := mkVideo
  { isOpened : bool; v_fps : Q; v_frame_count : Z; v_width : Z; v_height : Z;
    detector_error : option exn; v_frames : list Detection }.

(** The file system as the generator uses it: the error, if any, of
    [os.makedirs(dir, exist_ok=True)] and of writing a file. *)
Record Disk := mkDisk
  { makedirs_error : string -> option exn; write_error : string -> option exn }.

Record TimelineFrame := mkTimelineFrame
  { tf_frame : Z; tf_time_ms : Z; tf_mouth : anchor; tf_eyes : anchor }.

Record Timeline := mkTimeline
  { tl_version : Z;
    source_video : string; source_fps : Q; source_frame_count : Z;
    source_width : Z; source_height : Z; source_sample_every_n_frames : Z;
    target_width : Z; target_height : Z;
    config_mouth_padding : Q; config_eyes_padding : Q;
    tl_frames : list TimelineFrame }.

(** What a run of the generator does to the world around it; of the log
    lines, the summary of the loop is kept. *)
Inductive Effect :=
| CapRelease
| DetectorClose
| LogProcessingComplete (total_frames sampled_frames skipped_frames : Z)
| MakeDirs (path : string)
| JsonDump (path : string) (timeline : Timeline).

Module AnchorTimeline.

Definition effect (e : Effect) : M (list Effect) unit :=
  fun s => (Ok tt, s ++ [e]).

(** [int(anchor[k] * scale)] *)
Definition scaled_field {S} (bbox : anchor) (k : string) (scale : Q)
  : M S Z :=
  v <- getint bbox k ;;
  f <- float_of_int v ;;
  Lipsync.int_of_float (PyFloat.mul f scale).

Definition scale_anchor {S} (bbox : anchor) (scale_x scale_y : Q)
  : M S anchor :=
  x <- scaled_field bbox "x" scale_x ;;
  y <- scaled_field bbox "y" scale_y ;;
  w <- scaled_field bbox "w" scale_x ;;
  h <- scaled_field bbox "h" scale_y ;;
  cx <- scaled_field bbox "cx" scale_x ;;
  cy <- scaled_field bbox "cy" scale_y ;;
  ret (mk_anchor x y w h cx cy).

(** [n / d] for two ints. *)
Definition truediv {S} (n d : Z) : M S Q :=
  if d =? 0 then raise ZeroDivisionError else Lipsync.int_truediv n d.

(** [int((frame_idx / fps) * 1000)] *)
Definition time_ms {S} (frame_idx : Z) (fps : Q) : M S Z :=
  f <- float_of_int frame_idx ;;
  seconds <- (if Qeq_bool fps 0 then raise ZeroDivisionError
              else ret (PyFloat.b64 (f / fps))) ;;
  Lipsync.int_of_float (PyFloat.mul seconds 1000).

(** [if mouth_anchor and eyes_anchor]: neither [None] nor an empty dict. *)
Definition both_anchors (mouth_anchor eyes_anchor : option anchor)
  : option (anchor * anchor) :=
  match mouth_anchor, eyes_anchor with
  | Some m, Some e =>
      if bool_decide (m = ∅) || bool_decide (e = ∅) then None
      else Some (m, e)
  | _, _ => None
  end.

(** The entry of the timeline for a sampled frame on which [landmarks] were
    found: [None] when an anchor is missing. *)
Definition frame_entry {S} (landmarks : list Landmark) (frame_idx : Z)
  (fps : Q) (orig_width orig_height target_width target_height : Z)
  (mouth_padding eyes_padding : Q) : M S (option TimelineFrame) :=
  mouth_anchor <- Landmarks.extract_mouth_anchor landmarks orig_width
                    orig_height mouth_padding ;;
  eyes_anchor <- Landmarks.extract_eyes_anchor landmarks orig_width
                   orig_height eyes_padding ;;
  match both_anchors mouth_anchor eyes_anchor with
  | Some (mouth_anchor, eyes_anchor) =>
      (* Clamp to frame boundaries *)
      mouth_anchor <- Landmarks.clamp_bbox mouth_anchor orig_width orig_height ;;
      eyes_anchor <- Landmarks.clamp_bbox eyes_anchor orig_width orig_height ;;
      (* Scale coordinates to target resolution if needed *)
      scale_x <- truediv target_width orig_width ;;
      scale_y <- truediv target_height orig_height ;;
      anchors <-
        (if negb (Qeq_bool scale_x 1) || negb (Qeq_bool scale_y 1) then
           m <- scale_anchor mouth_anchor scale_x scale_y ;;
           e <- scale_anchor eyes_anchor scale_x scale_y ;;
           ret (m, e)
         else ret (mouth_anchor, eyes_anchor)) ;;
      t <- time_ms frame_idx fps ;;
      ret (Some {| tf_frame := frame_idx; tf_time_ms := t;
                   tf_mouth := fst anchors; tf_eyes := snd anchors |})
  | None => ret None
  end.

(** The state of the loop over the frames. *)
Record Scan := mkScan
  { timeline_frames : list TimelineFrame; frame_idx : Z;
    detected_count : Z; skipped_count : Z }.

(** The state before the first frame. *)
Definition scan_start : Scan :=
  {| timeline_frames := []; frame_idx := 0;
     detected_count := 0; skipped_count := 0 |}.

(** One turn of the loop, on the frame [cap.read()] handed out. *)
Definition turn {S} (face_landmarks : Detection) (fps : Q)
  (orig_width orig_height sample_every_n_frames target_width target_height : Z)
  (mouth_padding eyes_padding : Q) (st : Scan) : M S Scan :=
  (* Sample every N frames *)
  sampled <- (if sample_every_n_frames =? 0 then raise ZeroDivisionError
              else ret (frame_idx st mod sample_every_n_frames =? 0)) ;;
  st' <-
    (if sampled then
       match face_landmarks with
       | Some (landmarks :: _) =>
           entry <- frame_entry landmarks (frame_idx st) fps orig_width
                      orig_height target_width target_height
                      mouth_padding eyes_padding ;;
           match entry with
           | Some fr =>
               ret {| timeline_frames := timeline_frames st ++ [fr];
                      frame_idx := frame_idx st;
                      detected_count := detected_count st + 1;
                      skipped_count := skipped_count st |}
           | None =>
               ret {| timeline_frames := timeline_frames st;
                      frame_idx := frame_idx st;
                      detected_count := detected_count st;
                      skipped_count := skipped_count st + 1 |}
           end
       | _ =>
           ret {| timeline_frames := timeline_frames st;
                  frame_idx := frame_idx st;
                  detected_count := detected_count st;
                  skipped_count := skipped_count st + 1 |}
       end
     else ret st) ;;
  ret {| timeline_frames := timeline_frames st';
         frame_idx := frame_idx st' + 1;
         detected_count := detected_count st';
         skipped_count := skipped_count st' |}.

(** The loop: one turn for each frame, until [cap.read()] fails. *)
Fixpoint scan {S} (frames : list Detection) (fps : Q)
  (orig_width orig_height sample_every_n_frames target_width target_height : Z)
  (mouth_padding eyes_padding : Q) (st : Scan) : M S Scan :=
  match frames with
  | [] => ret st
  | face_landmarks :: frames' =>
      st' <- turn face_landmarks fps orig_width orig_height
               sample_every_n_frames target_width target_height
               mouth_padding eyes_padding st ;;
      scan frames' fps orig_width orig_height sample_every_n_frames
        target_width target_height mouth_padding eyes_padding st'
  end.

Definition generate_anchor_timeline (video : Video) (disk : Disk)
  (video_path output_path : string)
  (sample_every_n_frames target_width target_height : Z)
  (mouth_padding eyes_padding : Q) : M (list Effect) Timeline :=
  (* Open video *)
  if negb (isOpened video)
  then (* a ValueError *)
    raise (Exception ("Failed to open video: " +:+ video_path))
  else
    (* Get video properties *)
    let fps := v_fps video in
    let frame_count := v_frame_count video in
    let orig_width := v_width video in
    let orig_height := v_height video in
    (* Initialize face detector *)
    match detector_error video with Some e => raise e | None => ret tt end ;;;
    (* Process frames *)
    st <- try_finally
            (scan (v_frames video) fps orig_width orig_height
               sample_every_n_frames target_width target_height
               mouth_padding eyes_padding scan_start)
            (effect CapRelease ;;; effect DetectorClose) ;;
    effect (LogProcessingComplete (frame_idx st) (detected_count st)
              (skipped_count st)) ;;;
    (* Build timeline document *)
    let timeline :=
      {| tl_version := 1;
         source_video := PyStr.after_last "/" video_path;
         source_fps := fps; source_frame_count := frame_count;
         source_width := orig_width; source_height := orig_height;
         source_sample_every_n_frames := sample_every_n_frames;
         target_width := target_width; target_height := target_height;
         config_mouth_padding := mouth_padding;
         config_eyes_padding := eyes_padding;
         tl_frames := timeline_frames st |} in
    (* Write to file *)
    let output_dir := OsPath.dirname output_path in
    (if String.eqb output_dir EmptyString then ret tt
     else match makedirs_error disk output_dir with
          | Some e => raise e
          | None => effect (MakeDirs output_dir)
          end) ;;;
    match write_error disk output_path with
    | Some e => raise e
    | None => effect (JsonDump output_path timeline)
    end ;;;
    ret timeline.

End AnchorTimeline.

Section Scaling.
Local Open Scope Q_scope.

Lemma rne_upper (z : Q) : inject_Z (PyFloat.round_half_even z) <= z + (1 # 2).
Proof.
  unfold PyFloat.round_half_even.
  pose proof (Qfloor_le z) as Hf.
  destruct (Qcompare_spec (z - inject_Z (Qfloor z)) (1 # 2)) as [He | Hl | Hg].
  - destruct (Z.even (Qfloor z)); [ lra |].
    rewrite inject_Z_plus. change (inject_Z 1) with 1. lra.
  - lra.
  - rewrite inject_Z_plus. change (inject_Z 1) with 1. lra.
Qed.

(** Rounding a number that is not negative adds at most 2^-53 of it, or
    half of the smallest float. *)
Lemma b64_upper (y : Q) :
  0 <= y ->
  PyFloat.b64 y <= y + y * PyFloat.pow2 (-53) + PyFloat.pow2 (-1075).
Proof.
  intros Hy.
  pose proof (pow2_pos (-53)) as H53. pose proof (pow2_pos (-1075)) as Hs.
  destruct (Qeq_dec y 0) as [Hz | Hnz].
  { rewrite (b64_value _ _ Hz), b64_zero, Hz. lra. }
  set (u := PyFloat.ulp_exponent y).
  pose proof (pow2_pos u) as Hu.
  assert (Hb : PyFloat.b64 y <= y + PyFloat.pow2 u * (1 # 2)).
  { unfold PyFloat.b64. fold u.
    pose proof (rne_upper (y / PyFloat.pow2 u)) as Hr.
    apply Qle_trans with ((y / PyFloat.pow2 u + (1 # 2)) * PyFloat.pow2 u).
    - apply Qmult_le_compat_r; [ exact Hr | lra ].
    - assert (He : (y / PyFloat.pow2 u + (1 # 2)) * PyFloat.pow2 u
                   == y + PyFloat.pow2 u * (1 # 2)) by (field; lra).
      rewrite He. apply Qle_refl. }
  destruct (scaled_bounds y Hnz) as [_ Hlow]. fold u in Hlow.
  rewrite Qabs_pos in Hlow by exact Hy.
  destruct (Z_lt_le_dec (-1074) u) as [Hgt | Hle].
  - specialize (Hlow Hgt).
    assert (Hhalf : PyFloat.pow2 u * (1 # 2) <= y * PyFloat.pow2 (-53)).
    { assert (H1 : PyFloat.pow2 (-53) * PyFloat.pow2 52 == 1 # 2)
        by (unfold PyFloat.pow2; vm_compute; reflexivity).
      assert (H2 : PyFloat.pow2 u * (1 # 2)
                   == PyFloat.pow2 52 * PyFloat.pow2 u * PyFloat.pow2 (-53))
        by (rewrite <- H1; ring).
      rewrite H2. apply Qmult_le_compat_r; [ exact Hlow | lra ]. }
    assert (0 <= y * PyFloat.pow2 (-53)) by nra. lra.
  - assert (Hu' : u = (-1074)%Z) by (unfold u, PyFloat.ulp_exponent in *; lia).
    assert (Hhalf : PyFloat.pow2 u * (1 # 2) == PyFloat.pow2 (-1075)).
    { rewrite Hu'. unfold PyFloat.pow2. vm_compute. reflexivity. }
    assert (0 <= y * PyFloat.pow2 (-53)) by nra. lra.
Qed.


Lemma eps_value : PyFloat.pow2 (-53) == 1 # 9007199254740992.
Proof. unfold PyFloat.pow2. vm_compute. reflexivity. Qed.

Lemma b64_upper_eps (y : Q) :
  0 <= y -> PyFloat.b64 y <= y + y * (1 # 9007199254740992)
                             + (1 # 9007199254740992).
Proof.
  intros Hy. pose proof (b64_upper y Hy) as H.
  pose proof (pow2_le (-1075) (-53) ltac:(lia)) as Hle.
  rewrite eps_value in H, Hle. lra.
Qed.

Lemma trunc_nonneg (v : Q) : 0 <= v -> (0 <= PyFloat.trunc v)%Z.
Proof.
  intros Hv. change 0%Z with (PyFloat.trunc 0). apply trunc_mono. exact Hv.
Qed.

Lemma trunc_le (v : Q) : 0 <= v -> inject_Z (PyFloat.trunc v) <= v.
Proof.
  intros Hv. rewrite trunc_spec.
  apply Qle_bool_iff in Hv. rewrite Hv. apply Qfloor_le.
Qed.

(** The scale of one axis, as [generate_anchor_timeline] computes it. *)
Lemma scale_bounds (T W : Z) :
  (0 < W <= 2 ^ 31)%Z -> (0 <= T <= 2 ^ 31)%Z ->
  let scale := PyFloat.b64 (inject_Z T / inject_Z W) in
  0 <= scale /\ scale <= 2147483648
  /\ inject_Z W * scale <= inject_Z T + (1 # 4).
Proof.
  intros HW HT scale.
  assert (HWq : 1 <= inject_Z W <= 2147483648).
  { change 1 with (inject_Z 1). change 2147483648 with (inject_Z (2 ^ 31)).
    rewrite <- !Zle_Qle. lia. }
  assert (HTq : 0 <= inject_Z T <= 2147483648).
  { change 0 with (inject_Z 0). change 2147483648 with (inject_Z (2 ^ 31)).
    rewrite <- !Zle_Qle. lia. }
  set (q := inject_Z T / inject_Z W) in *.
  assert (Hq : inject_Z W * q == inject_Z T) by (unfold q; field; lra).
  assert (Hq0 : 0 <= q).
  { unfold q. apply Qle_shift_div_l; lra. }
  assert (HqT : q <= inject_Z T).
  { unfold q. apply Qle_shift_div_r; [ lra | nra ]. }
  split; [ apply b64_nonneg; exact Hq0 |]. split.
  - apply Qle_trans with (PyFloat.b64 (inject_Z (2 ^ 31))).
    + apply b64_mono. change (inject_Z (2 ^ 31)) with 2147483648. lra.
    + rewrite b64_int by (cbn; lia). apply Qle_refl.
  - pose proof (b64_upper_eps q Hq0) as Hup. fold scale in Hup.
    assert (H1 : inject_Z W * scale
                 <= inject_Z W * (q + q * (1 # 9007199254740992)
                                  + (1 # 9007199254740992))).
    { rewrite !(Qmult_comm (inject_Z W)).
      apply Qmult_le_compat_r; [ exact Hup | lra ]. }
    assert (H2 : inject_Z W * (q + q * (1 # 9007199254740992)
                               + (1 # 9007199254740992))
                 == inject_Z T + inject_Z T * (1 # 9007199254740992)
                    + inject_Z W * (1 # 9007199254740992)).
    { rewrite <- Hq. ring. }
    rewrite H2 in H1. lra.
Qed.

(** [int(a * scale)] for an int [a] that is not negative. *)
Lemma scaled_value_bounds (a : Z) (scale : Q) :
  (0 <= a <= 2 ^ 31)%Z -> 0 <= scale -> scale <= 2147483648 ->
  let v := PyFloat.mul (PyFloat.b64 (inject_Z a)) scale in
  0 <= v
  /\ v <= inject_Z a * scale
          + inject_Z a * scale * (1 # 9007199254740992)
          + (1 # 9007199254740992)
  /\ PyFloat.is_inf v = false.
Proof.
  intros Ha Hs0 Hs1 v.
  assert (Haq : 0 <= inject_Z a <= 2147483648).
  { change 0 with (inject_Z 0). change 2147483648 with (inject_Z (2 ^ 31)).
    rewrite <- !Zle_Qle. lia. }
  assert (Hv : v == PyFloat.b64 (inject_Z a * scale)).
  { unfold v, PyFloat.mul. apply b64_value.
    rewrite b64_int by lia. reflexivity. }
  assert (Hp : 0 <= inject_Z a * scale) by nra.
  assert (H0 : 0 <= v) by (rewrite Hv; apply b64_nonneg; exact Hp).
  assert (Hup : v <= inject_Z a * scale
                     + inject_Z a * scale * (1 # 9007199254740992)
                     + (1 # 9007199254740992))
    by (rewrite Hv; apply b64_upper_eps; exact Hp).
  split; [ exact H0 |]. split; [ exact Hup |].
  apply (finite_small v (2 ^ 64)); [| lia ].
  rewrite Qabs_pos by exact H0.
  assert (Hprod : inject_Z a * scale <= 2147483648 * 2147483648) by nra.
  change (inject_Z (2 ^ 64)) with 18446744073709551616. lra.
Qed.

Lemma scaled_field_run {S} (bbox : anchor) (k : string) (a : Z) (scale : Q)
  (s : S) :
  bbox !! k = Some a ->
  (Z.abs a < 2 ^ 53)%Z ->
  PyFloat.is_inf (PyFloat.mul (PyFloat.b64 (inject_Z a)) scale) = false ->
  AnchorTimeline.scaled_field bbox k scale s
  = (Ok (PyFloat.trunc (PyFloat.mul (PyFloat.b64 (inject_Z a)) scale)), s).
Proof.
  intros Hk Ha Hfin. unfold AnchorTimeline.scaled_field.
  rewrite run_bind, (getint_ok _ _ _ _ Hk). cbn [fst snd].
  unfold float_of_int. rewrite (finite_int a Ha).
  rewrite run_bind. cbn [ret fst snd].
  apply int_of_float_run. exact Hfin.
Qed.

(** A side of a box inside the frame, scaled to the target. *)
Lemma scaled_side (x w W T : Z) :
  (0 < W <= 2 ^ 31)%Z -> (0 <= T <= 2 ^ 31)%Z ->
  (0 <= x)%Z -> (0 <= w)%Z -> (x + w <= W)%Z ->
  let scale := PyFloat.b64 (inject_Z T / inject_Z W) in
  let x' := PyFloat.trunc (PyFloat.mul (PyFloat.b64 (inject_Z x)) scale) in
  let w' := PyFloat.trunc (PyFloat.mul (PyFloat.b64 (inject_Z w)) scale) in
  (0 <= x' /\ 0 <= w' /\ x' + w' <= T)%Z.
Proof.
  intros HW HT Hx Hw Hxw scale x' w'.
  destruct (scale_bounds T W HW HT) as (Hs0 & Hs1 & HsW). fold scale in Hs0, Hs1, HsW.
  destruct (scaled_value_bounds x scale ltac:(lia) Hs0 Hs1) as (Hx0 & Hxup & _).
  destruct (scaled_value_bounds w scale ltac:(lia) Hs0 Hs1) as (Hw0 & Hwup & _).
  cbv zeta in Hx0, Hxup, Hw0, Hwup.
  pose proof (trunc_le _ Hx0) as Htx. pose proof (trunc_le _ Hw0) as Htw.
  fold x' in Htx. fold w' in Htw.
  split; [ apply trunc_nonneg; exact Hx0 |].
  split; [ apply trunc_nonneg; exact Hw0 |].
  assert (Hsum : inject_Z x * scale + inject_Z w * scale
                 <= inject_Z T + (1 # 4)).
  { apply Qle_trans with (inject_Z W * scale); [| exact HsW ].
    rewrite <- Qmult_plus_distr_l.
    apply Qmult_le_compat_r; [| exact Hs0 ].
    rewrite <- inject_Z_plus, <- Zle_Qle. exact Hxw. }
  assert (HTq : 0 <= inject_Z T <= 2147483648).
  { change 0 with (inject_Z 0). change 2147483648 with (inject_Z (2 ^ 31)).
    rewrite <- !Zle_Qle. lia. }
  assert (Hlt : inject_Z (x' + w') < inject_Z (T + 1)).
  { rewrite !inject_Z_plus. change (inject_Z 1) with 1.
    set (px := inject_Z x * scale) in *. set (pw := inject_Z w * scale) in *.
    lra. }
  rewrite <- Zlt_Qlt in Hlt. lia.
Qed.

(** The centre of a box, scaled: the product is finite. *)
Lemma scaled_centre_finite (c : Z) (scale : Q) :
  (Z.abs c <= 2 ^ 31)%Z -> 0 <= scale -> scale <= 2147483648 ->
  PyFloat.is_inf (PyFloat.mul (PyFloat.b64 (inject_Z c)) scale) = false.
Proof.
  intros Hc Hs0 Hs1.
  destruct (Z_le_gt_dec 0 c) as [Hpos | Hneg].
  - apply scaled_value_bounds; [ lia | exact Hs0 | exact Hs1 ].
  - destruct (scaled_value_bounds (- c) scale ltac:(lia) Hs0 Hs1)
      as (H0 & Hup & _). cbv zeta in H0, Hup.
    assert (Hcq : -2147483648 <= inject_Z c <= 0).
    { change 0 with (inject_Z 0).
      change (-2147483648) with (inject_Z (- 2 ^ 31)).
      rewrite <- !Zle_Qle. lia. }
    set (v := PyFloat.mul _ _).
    assert (Hv1 : PyFloat.b64 (inject_Z (- 2 ^ 31) * 2147483648) <= v).
    { unfold v, PyFloat.mul. apply b64_mono.
      rewrite b64_int by lia.
      change (inject_Z (- 2 ^ 31)) with (-2147483648). nra. }
    assert (Hv2 : v <= 0).
    { unfold v, PyFloat.mul. rewrite <- b64_zero. apply b64_mono.
      rewrite b64_int by lia. nra. }
    assert (He : PyFloat.b64 (inject_Z (- 2 ^ 31) * 2147483648)
                 == inject_Z (- 2 ^ 62)).
    { assert (Hx : inject_Z (- 2 ^ 31) * 2147483648 == inject_Z (- 2 ^ 62))
        by (vm_compute; reflexivity).
      rewrite (b64_value _ _ Hx). 
      pose proof (b64_exact (-1) 62 ltac:(cbn; lia) ltac:(lia)) as Hex.
      assert (Hy : inject_Z (-1) * PyFloat.pow2 62 == inject_Z (- 2 ^ 62))
        by (unfold PyFloat.pow2; vm_compute; reflexivity).
      rewrite (b64_value _ _ Hy), Hy in Hex. exact Hex. }
    rewrite He in Hv1.
    apply (finite_small v (2 ^ 64)); [| lia ].
    rewrite Qabs_neg by exact Hv2.
    change (inject_Z (- 2 ^ 62)) with (-4611686018427387904) in Hv1.
    change (inject_Z (2 ^ 64)) with 18446744073709551616. lra.
Qed.

End Scaling.

Lemma truediv_run {S} (T W : Z) (s : S) :
  0 < W <= 2 ^ 31 -> 0 <= T <= 2 ^ 31 ->
  AnchorTimeline.truediv T W s
  = (Ok (PyFloat.b64 (inject_Z T / inject_Z W)), s).
Proof.
  intros HW HT. unfold AnchorTimeline.truediv.
  destruct (Z.eqb_spec W 0) as [-> | _]; [ lia |].
  apply int_truediv_run.
  destruct (scale_bounds T W HW HT) as (H0 & H1 & _).
  apply (finite_small _ (2 ^ 31)); [| lia ].
  rewrite Qabs_pos by exact H0. exact H1.
Qed.

(** [scale_anchor] on a box inside the frame, with the two factors
    [target_width / W] and [target_height / H]. *)
Lemma scale_anchor_run {S} (bbox : anchor)
  (x y w h cx cy W H target_w target_h : Z) (s : S) :
  0 < W <= 2 ^ 31 -> 0 < H <= 2 ^ 31 ->
  0 <= target_w <= 2 ^ 31 -> 0 <= target_h <= 2 ^ 31 ->
  bbox !! "x" = Some x -> bbox !! "y" = Some y ->
  bbox !! "w" = Some w -> bbox !! "h" = Some h ->
  bbox !! "cx" = Some cx -> bbox !! "cy" = Some cy ->
  0 <= x -> 0 <= w -> x + w <= W ->
  0 <= y -> 0 <= h -> y + h <= H ->
  Z.abs cx <= 2 ^ 31 -> Z.abs cy <= 2 ^ 31 ->
  exists x' y' w' h' cx' cy',
    AnchorTimeline.scale_anchor bbox
      (PyFloat.b64 (inject_Z target_w / inject_Z W))
      (PyFloat.b64 (inject_Z target_h / inject_Z H)) s
    = (Ok (mk_anchor x' y' w' h' cx' cy'), s)
    /\ 0 <= x' /\ 0 <= w' /\ x' + w' <= target_w
    /\ 0 <= y' /\ 0 <= h' /\ y' + h' <= target_h.
Proof.
  intros HW HH HTw HTh Kx Ky Kw Kh Kcx Kcy Hx Hw Hxw Hy Hh Hyh Hcx Hcy.
  set (scale_x := PyFloat.b64 (inject_Z target_w / inject_Z W)).
  set (scale_y := PyFloat.b64 (inject_Z target_h / inject_Z H)).
  destruct (scale_bounds target_w W HW HTw) as (Hsx0 & Hsx1 & _).
  destruct (scale_bounds target_h H HH HTh) as (Hsy0 & Hsy1 & _).
  fold scale_x in Hsx0, Hsx1. fold scale_y in Hsy0, Hsy1.
  pose proof (scaled_side x w W target_w HW HTw Hx Hw Hxw) as Sx.
  pose proof (scaled_side y h H target_h HH HTh Hy Hh Hyh) as Sy.
  cbv zeta in Sx, Sy. fold scale_x in Sx. fold scale_y in Sy.
  eexists _, _, _, _, _, _.
  split.
  2: shelve.
  unfold AnchorTimeline.scale_anchor.
  rewrite run_bind, (scaled_field_run bbox "x" x scale_x s Kx) by
    (lia || (apply scaled_value_bounds; [ lia | assumption | assumption ])).
  cbn [fst snd].
  rewrite run_bind, (scaled_field_run bbox "y" y scale_y s Ky) by
    (lia || (apply scaled_value_bounds; [ lia | assumption | assumption ])).
  cbn [fst snd].
  rewrite run_bind, (scaled_field_run bbox "w" w scale_x s Kw) by
    (lia || (apply scaled_value_bounds; [ lia | assumption | assumption ])).
  cbn [fst snd].
  rewrite run_bind, (scaled_field_run bbox "h" h scale_y s Kh) by
    (lia || (apply scaled_value_bounds; [ lia | assumption | assumption ])).
  cbn [fst snd].
  rewrite run_bind, (scaled_field_run bbox "cx" cx scale_x s Kcx) by
    (lia || (apply scaled_centre_finite; assumption)).
  cbn [fst snd].
  rewrite run_bind, (scaled_field_run bbox "cy" cy scale_y s Kcy) by
    (lia || (apply scaled_centre_finite; assumption)).
  cbn [fst snd]. reflexivity.
  Unshelve. lia.
Qed.

(** X20 (scale_anchor, generate_anchor_timeline).  The two scale factors
    are computed, and a box that lies inside the frame of the video, scaled
    by them, lies inside the target: no rounding of the factors or of the
    products pushes a side past the edge.  Frames and targets are up to 2^31
    pixels a side. *)
Theorem scaled_box_stays_inside_target {S} (bbox : anchor)
  (x y w h cx cy W H target_w target_h : Z) (s : S) :
  0 < W <= 2 ^ 31 -> 0 < H <= 2 ^ 31 ->
  0 <= target_w <= 2 ^ 31 -> 0 <= target_h <= 2 ^ 31 ->
  bbox !! "x" = Some x -> bbox !! "y" = Some y ->
  bbox !! "w" = Some w -> bbox !! "h" = Some h ->
  bbox !! "cx" = Some cx -> bbox !! "cy" = Some cy ->
  0 <= x -> 0 <= w -> x + w <= W ->
  0 <= y -> 0 <= h -> y + h <= H ->
  Z.abs cx <= 2 ^ 31 -> Z.abs cy <= 2 ^ 31 ->
  exists scale_x scale_y x' y' w' h' cx' cy',
    AnchorTimeline.truediv target_w W s = (Ok scale_x, s)
    /\ AnchorTimeline.truediv target_h H s = (Ok scale_y, s)
    /\ AnchorTimeline.scale_anchor bbox scale_x scale_y s
       = (Ok (mk_anchor x' y' w' h' cx' cy'), s)
    /\ 0 <= x' /\ 0 <= w' /\ x' + w' <= target_w
    /\ 0 <= y' /\ 0 <= h' /\ y' + h' <= target_h.
Proof.
  intros HW HH HTw HTh Kx Ky Kw Kh Kcx Kcy Hx Hw Hxw Hy Hh Hyh Hcx Hcy.
  destruct (scale_anchor_run bbox x y w h cx cy W H target_w target_h s)
    as (x' & y' & w' & h' & cx' & cy' & Hrun & Hgeo); try assumption.
  exists (PyFloat.b64 (inject_Z target_w / inject_Z W)),
    (PyFloat.b64 (inject_Z target_h / inject_Z H)), x', y', w', h', cx', cy'.
  split; [ apply truediv_run; assumption |].
  split; [ apply truediv_run; assumption |].
  split; [ exact Hrun | exact Hgeo ].
Qed.

Lemma scaled_box_stays_inside_target_witness :
  exists scale_x scale_y x' y' w' h' cx' cy',
    AnchorTimeline.truediv 512 1080 tt = (Ok scale_x, tt)
    /\ AnchorTimeline.truediv 640 1920 tt = (Ok scale_y, tt)
    /\ AnchorTimeline.scale_anchor (mk_anchor 700 1500 380 420 890 1710)
         scale_x scale_y tt
       = (Ok (mk_anchor x' y' w' h' cx' cy'), tt)
    /\ 0 <= x' /\ 0 <= w' /\ x' + w' <= 512
    /\ 0 <= y' /\ 0 <= h' /\ y' + h' <= 640.
Proof.
  apply (scaled_box_stays_inside_target (mk_anchor 700 1500 380 420 890 1710)
           700 1500 380 420 890 1710 1080 1920 512 640 tt);
    first [ reflexivity | lia ].
Defined.

(** ** The loop of the generator *)

(** A computation that leaves the state as it found it. *)
Definition still {S A} (c : M S A) : Prop := forall s, snd (c s) = s.

Lemma still_ret {S A} (a : A) : still (@ret S A a).
Proof. intros s. reflexivity. Qed.

Lemma still_raise {S A} (e : exn) : still (@raise S A e).
Proof. intros s. reflexivity. Qed.

Lemma still_bind {S A B} (c : M S A) (k : A -> M S B) :
  still c -> (forall a, still (k a)) -> still (bind c k).
Proof.
  intros Hc Hk s. rewrite run_bind. specialize (Hc s).
  destruct (c s) as [[a | e] s1]; cbn [snd] in *; subst s1;
    [ apply Hk | reflexivity ].
Qed.

Lemma still_try_except {S A} (c : M S A) (h : exn -> M S A) :
  still c -> (forall e, still (h e)) -> still (try_except c h).
Proof.
  intros Hc Hh s. unfold try_except. specialize (Hc s).
  destruct (c s) as [[a | e] s1]; cbn [snd] in *; subst s1;
    [ reflexivity | apply Hh ].
Qed.

Ltac still_tac :=
  repeat first
    [ apply still_ret | apply still_raise
    | apply still_bind; [| intros ? ]
    | apply still_try_except; [| intros ? ]
    | assumption
    | match goal with
      | |- still (match ?x with _ => _ end) => destruct x
      end ].

Lemma still_getint {S} (d : anchor) (k : string) : still (@getint S d k).
Proof. unfold getint. still_tac. Qed.

Lemma still_float_of_int {S} (n : Z) : still (@float_of_int S n).
Proof. unfold float_of_int. still_tac. Qed.

Lemma still_int_of_float {S} (v : Q) : still (@Lipsync.int_of_float S v).
Proof. unfold Lipsync.int_of_float. still_tac. Qed.

Lemma still_int_truediv {S} (n d : Z) : still (@Lipsync.int_truediv S n d).
Proof. unfold Lipsync.int_truediv. still_tac. Qed.

Lemma still_scaled {S} (v : Q) (n : Z) : still (@Landmarks.scaled S v n).
Proof.
  unfold Landmarks.scaled.
  apply still_bind; [ apply still_float_of_int | intros f ].
  apply still_int_of_float.
Qed.

Lemma still_get_landmark_coords {S} (landmarks : list Landmark)
  (indices : list nat) (W H : Z) :
  still (@Landmarks.get_landmark_coords S landmarks indices W H).
Proof.
  induction indices as [| idx indices IH]; cbn [Landmarks.get_landmark_coords].
  - apply still_ret.
  - apply still_bind; [ destruct (landmarks !! idx); still_tac | intros lm ].
    apply still_bind; [ apply still_scaled | intros x ].
    apply still_bind; [ apply still_scaled | intros y ].
    apply still_bind; [ exact IH | intros coords ]. apply still_ret.
Qed.

Lemma still_compute_bbox {S} (coords : list (Z * Z)) (padding : Q) :
  still (@Landmarks.compute_bbox_from_landmarks S coords padding).
Proof.
  unfold Landmarks.compute_bbox_from_landmarks.
  destruct coords as [| first others]; [ apply still_ret |]. cbv zeta.
  repeat first
    [ apply still_ret
    | apply still_bind;
      [ first [ apply still_int_of_float | apply still_int_truediv ]
      | intros ? ] ].
Qed.

Lemma still_extract_mouth_anchor {S} (landmarks : list Landmark) (W H : Z)
  (padding : Q) : still (@Landmarks.extract_mouth_anchor S landmarks W H padding).
Proof.
  unfold Landmarks.extract_mouth_anchor.
  apply still_try_except; [| intros e; apply still_ret ].
  apply still_bind; [ apply still_get_landmark_coords | intros coords ].
  apply still_compute_bbox.
Qed.

Lemma still_extract_eyes_anchor {S} (landmarks : list Landmark) (W H : Z)
  (padding : Q) : still (@Landmarks.extract_eyes_anchor S landmarks W H padding).
Proof.
  unfold Landmarks.extract_eyes_anchor.
  apply still_try_except; [| intros e; apply still_ret ].
  apply still_bind; [ apply still_get_landmark_coords | intros left ].
  apply still_bind; [ apply still_get_landmark_coords | intros right ].
  apply still_compute_bbox.
Qed.

Lemma still_clamp_bbox {S} (bbox : anchor) (W H : Z) :
  still (@Landmarks.clamp_bbox S bbox W H).
Proof.
  unfold Landmarks.clamp_bbox.
  repeat first
    [ apply still_ret | apply still_bind; [ apply still_getint | intros ? ] ].
Qed.

Lemma still_scaled_field {S} (bbox : anchor) (k : string) (scale : Q) :
  still (@AnchorTimeline.scaled_field S bbox k scale).
Proof.
  unfold AnchorTimeline.scaled_field.
  apply still_bind; [ apply still_getint | intros v ].
  apply still_bind; [ apply still_float_of_int | intros f ].
  apply still_int_of_float.
Qed.

Lemma still_scale_anchor {S} (bbox : anchor) (scale_x scale_y : Q) :
  still (@AnchorTimeline.scale_anchor S bbox scale_x scale_y).
Proof.
  unfold AnchorTimeline.scale_anchor.
  repeat first
    [ apply still_ret
    | apply still_bind; [ apply still_scaled_field | intros ? ] ].
Qed.

Lemma still_truediv {S} (n d : Z) : still (@AnchorTimeline.truediv S n d).
Proof.
  unfold AnchorTimeline.truediv.
  destruct (d =? 0); [ apply still_raise | apply still_int_truediv ].
Qed.

Lemma still_time_ms {S} (frame_idx : Z) (fps : Q) :
  still (@AnchorTimeline.time_ms S frame_idx fps).
Proof.
  unfold AnchorTimeline.time_ms.
  apply still_bind; [ apply still_float_of_int | intros f ].
  apply still_bind; [ destruct (Qeq_bool fps 0); still_tac | intros seconds ].
  apply still_int_of_float.
Qed.

Lemma still_frame_entry {S} (landmarks : list Landmark) (frame_idx : Z)
  (fps : Q) (W H tw th : Z) (mp ep : Q) :
  still (@AnchorTimeline.frame_entry S landmarks frame_idx fps W H tw th mp ep).
Proof.
  unfold AnchorTimeline.frame_entry.
  apply still_bind; [ apply still_extract_mouth_anchor | intros m ].
  apply still_bind; [ apply still_extract_eyes_anchor | intros e ].
  destruct (AnchorTimeline.both_anchors m e) as [[m' e'] |];
    [| apply still_ret ].
  apply still_bind; [ apply still_clamp_bbox | intros m1 ].
  apply still_bind; [ apply still_clamp_bbox | intros e1 ].
  apply still_bind; [ apply still_truediv | intros scale_x ].
  apply still_bind; [ apply still_truediv | intros scale_y ].
  apply still_bind.
  { destruct (_ || _); [| apply still_ret ].
    apply still_bind; [ apply still_scale_anchor | intros m2 ].
    apply still_bind; [ apply still_scale_anchor | intros e2 ].
    apply still_ret. }
  intros anchors.
  apply still_bind; [ apply still_time_ms | intros t ]. apply still_ret.
Qed.

Lemma still_turn {S} (f : Detection) (fps : Q) (W H n tw th : Z) (mp ep : Q)
  (st : AnchorTimeline.Scan) :
  still (@AnchorTimeline.turn S f fps W H n tw th mp ep st).
Proof.
  unfold AnchorTimeline.turn.
  apply still_bind; [ destruct (n =? 0); still_tac | intros sampled ].
  apply still_bind; [| intros st'; apply still_ret ].
  destruct sampled; [| apply still_ret ].
  destruct f as [[| landmarks faces] |]; try apply still_ret.
  apply still_bind; [ apply still_frame_entry | intros [fr |] ];
    apply still_ret.
Qed.

Lemma still_scan {S} (frames : list Detection) (fps : Q) (W H n tw th : Z)
  (mp ep : Q) (st : AnchorTimeline.Scan) :
  still (@AnchorTimeline.scan S frames fps W H n tw th mp ep st).
Proof.
  revert st.
  induction frames as [| f frames IH]; intros st; cbn [AnchorTimeline.scan].
  - apply still_ret.
  - apply still_bind; [ apply still_turn | intros st'; apply IH ].
Qed.

(** What holds of every result a computation hands back. *)
Definition post {S A} (c : M S A) (P : A -> Prop) : Prop :=
  forall s a s', c s = (Ok a, s') -> P a.

Lemma post_ret {S A} (a : A) (P : A -> Prop) : P a -> post (@ret S A a) P.
Proof. intros H s a' s' [= <- _]. exact H. Qed.

Lemma post_raise {S A} (e : exn) (P : A -> Prop) : post (@raise S A e) P.
Proof. intros s a s' [=]. Qed.

Lemma post_bind {S A B} (c : M S A) (k : A -> M S B) (Q : A -> Prop)
  (P : B -> Prop) :
  post c Q -> (forall a, Q a -> post (k a) P) -> post (bind c k) P.
Proof.
  intros Hc Hk s b s'. rewrite run_bind.
  destruct (c s) as [[a | e] s1] eqn:Hcs; [| discriminate ].
  apply Hk. exact (Hc _ _ _ Hcs).
Qed.

Lemma post_any {S A} (c : M S A) : post c (fun _ => True).
Proof. intros s a s' _. exact I. Qed.

(** The float of which [time_ms] is the integer part. *)
Definition time_value (frame_idx : Z) (fps : Q) : Q :=
  PyFloat.mul (PyFloat.b64 (PyFloat.b64 (inject_Z frame_idx) / fps)) 1000.

Lemma time_ms_post {S} (frame_idx : Z) (fps : Q) :
  post (@AnchorTimeline.time_ms S frame_idx fps)
       (fun t => t = PyFloat.trunc (time_value frame_idx fps)
                 /\ Qeq_bool fps 0 = false).
Proof.
  intros s t s'.
  unfold AnchorTimeline.time_ms, float_of_int, Lipsync.int_of_float, bind,
    ret, raise, time_value.
  destruct (PyFloat.is_inf (PyFloat.b64 (inject_Z frame_idx)));
    [ discriminate |].
  destruct (Qeq_bool fps 0); [ discriminate |].
  destruct (PyFloat.is_inf _); [ discriminate |].
  intros [= <- _]. split; reflexivity.
Qed.

Lemma frame_entry_post {S} (landmarks : list Landmark) (frame_idx : Z)
  (fps : Q) (W H tw th : Z) (mp ep : Q) :
  post (@AnchorTimeline.frame_entry S landmarks frame_idx fps W H tw th mp ep)
       (fun entry =>
          forall fr, entry = Some fr ->
            tf_frame fr = frame_idx
            /\ tf_time_ms fr = PyFloat.trunc (time_value frame_idx fps)
            /\ Qeq_bool fps 0 = false).
Proof.
  unfold AnchorTimeline.frame_entry.
  apply (post_bind _ _ _ _ (post_any _)). intros m _.
  apply (post_bind _ _ _ _ (post_any _)). intros e _.
  destruct (AnchorTimeline.both_anchors m e) as [[m' e'] |];
    [| apply post_ret; discriminate ].
  do 5 (apply (post_bind _ _ _ _ (post_any _)); intros ? _).
  apply (post_bind _ _ _ _ (time_ms_post frame_idx fps)). intros t [-> Hfps].
  apply post_ret. intros fr [= <-]. repeat split. exact Hfps.
Qed.

(** The number of sampled frames among [len] frames from [start] on. *)
Definition sampled_count (n start : Z) (len : nat) : Z :=
  Z.of_nat (length (filter (fun i => i mod n = 0)
                           (seqZ start (Z.of_nat len)))).

Lemma sampled_count_S (n start : Z) (len : nat) :
  sampled_count n start (S len)
  = (if bool_decide (start mod n = 0) then 1 else 0)
    + sampled_count n (start + 1) len.
Proof.
  unfold sampled_count. rewrite seqZ_cons by lia.
  replace (Z.pred (Z.of_nat (S len))) with (Z.of_nat len) by lia.
  replace (Z.succ start) with (start + 1) by lia.
  destruct (bool_decide_reflect (start mod n = 0)) as [Hs | Hs].
  - rewrite filter_cons_True by exact Hs. cbn [length]. lia.
  - rewrite filter_cons_False by exact Hs. lia.
Qed.

(** What one turn of the loop does to its state. *)
Lemma turn_inv {S} (f : Detection) (fps : Q) (W H n tw th : Z) (mp ep : Q)
  (st st' : AnchorTimeline.Scan) (s s' : S) :
  AnchorTimeline.turn f fps W H n tw th mp ep st s = (Ok st', s') ->
  n <> 0
  /\ AnchorTimeline.frame_idx st' = AnchorTimeline.frame_idx st + 1
  /\ ((AnchorTimeline.timeline_frames st' = AnchorTimeline.timeline_frames st
       /\ AnchorTimeline.detected_count st' = AnchorTimeline.detected_count st
       /\ AnchorTimeline.skipped_count st'
          = AnchorTimeline.skipped_count st
            + (if bool_decide (AnchorTimeline.frame_idx st mod n = 0)
               then 1 else 0))
      \/ (exists fr landmarks faces,
            f = Some (landmarks :: faces)
            /\ AnchorTimeline.frame_idx st mod n = 0
            /\ tf_frame fr = AnchorTimeline.frame_idx st
            /\ tf_time_ms fr
               = PyFloat.trunc (time_value (AnchorTimeline.frame_idx st) fps)
            /\ Qeq_bool fps 0 = false
            /\ AnchorTimeline.timeline_frames st'
               = AnchorTimeline.timeline_frames st ++ [fr]
            /\ AnchorTimeline.detected_count st'
               = AnchorTimeline.detected_count st + 1
            /\ AnchorTimeline.skipped_count st'
               = AnchorTimeline.skipped_count st)).
Proof.
  unfold AnchorTimeline.turn. rewrite run_bind.
  destruct (Z.eqb_spec n 0) as [Hn | Hn]; [ discriminate |].
  cbn [ret fst snd]. intros Hrun. split; [ exact Hn |]. revert Hrun.
  destruct (Z.eqb_spec (AnchorTimeline.frame_idx st mod n) 0) as [Hs | Hs].
  - rewrite bool_decide_eq_true_2 by exact Hs.
    destruct f as [[| landmarks faces] |].
    + cbn. intros [= <- _]. cbn. split; [ reflexivity |]. left. auto.
    + rewrite run_bind, run_bind.
      destruct (AnchorTimeline.frame_entry _ _ _ _ _ _ _ _ _ s)
        as [[[fr |] | e] s1] eqn:He; cbn; [ | | discriminate ].
      * intros [= <- _]. cbn. split; [ reflexivity |]. right.
        destruct (frame_entry_post _ _ _ _ _ _ _ _ _ _ _ _ He fr eq_refl)
          as (H1 & H2 & H3).
        exists fr, landmarks, faces. repeat split; assumption.
      * intros [= <- _]. cbn. split; [ reflexivity |]. left. auto.
    + cbn. intros [= <- _]. cbn. split; [ reflexivity |]. left. auto.
  - rewrite bool_decide_eq_false_2 by exact Hs.
    cbn. intros [= <- _]. cbn. split; [ reflexivity |]. left.
    repeat split. lia.
Qed.

(** What the loop does to its state, over the frames it is given. *)
Lemma scan_inv {S} (frames : list Detection) (fps : Q) (W H n tw th : Z)
  (mp ep : Q) :
  forall (st st' : AnchorTimeline.Scan) (s s' : S),
    AnchorTimeline.scan frames fps W H n tw th mp ep st s = (Ok st', s') ->
    AnchorTimeline.frame_idx st'
    = AnchorTimeline.frame_idx st + Z.of_nat (length frames)
    /\ exists new,
        AnchorTimeline.timeline_frames st'
        = AnchorTimeline.timeline_frames st ++ new
        /\ Forall (fun fr =>
                     AnchorTimeline.frame_idx st <= tf_frame fr
                     /\ tf_frame fr mod n = 0
                     /\ tf_time_ms fr
                        = PyFloat.trunc (time_value (tf_frame fr) fps)
                     /\ Qeq_bool fps 0 = false
                     /\ exists landmarks faces,
                         frames !! Z.to_nat
                                     (tf_frame fr - AnchorTimeline.frame_idx st)
                         = Some (Some (landmarks :: faces))) new
        /\ StronglySorted (fun a b => tf_frame a < tf_frame b) new
        /\ AnchorTimeline.detected_count st'
           = AnchorTimeline.detected_count st + Z.of_nat (length new)
        /\ AnchorTimeline.detected_count st' + AnchorTimeline.skipped_count st'
           = AnchorTimeline.detected_count st + AnchorTimeline.skipped_count st
             + sampled_count n (AnchorTimeline.frame_idx st) (length frames)
        /\ AnchorTimeline.skipped_count st <= AnchorTimeline.skipped_count st'
        /\ (frames <> [] -> n <> 0).
Proof.
  induction frames as [| f frames IH]; intros st st' s s';
    cbn [AnchorTimeline.scan].
  - unfold ret. intros [= <- _]. split; [ cbn; lia |]. exists [].
    rewrite app_nil_r. split; [ reflexivity |].
    split; [ constructor |]. split; [ constructor |].
    split; [ cbn; lia |].
    split; [ unfold sampled_count; cbn [length]; rewrite seqZ_nil by lia;
             cbn; lia |].
    split; [ lia |]. intros Hne. contradiction.
  - rewrite run_bind.
    destruct (AnchorTimeline.turn _ _ _ _ _ _ _ _ _ _ s) as [[st1 | e] s1]
      eqn:Ht; [| discriminate ].
    intros Hscan.
    apply IH in Hscan
      as (Hidx & new & Htl & Hall & Hsorted & Hdet & Hcount & Hskip & _).
    apply turn_inv in Ht as (Hn & Hi1 & Hturn).
    rewrite Hi1 in *.
    split; [ rewrite Hidx; cbn [length]; lia |].
    assert (Hshift : Forall (fun fr =>
                     AnchorTimeline.frame_idx st <= tf_frame fr
                     /\ tf_frame fr mod n = 0
                     /\ tf_time_ms fr
                        = PyFloat.trunc (time_value (tf_frame fr) fps)
                     /\ Qeq_bool fps 0 = false
                     /\ exists landmarks faces,
                         (f :: frames) !! Z.to_nat
                                     (tf_frame fr - AnchorTimeline.frame_idx st)
                         = Some (Some (landmarks :: faces))) new).
    { eapply Forall_impl; [ exact Hall |].
      intros fr (H1 & H2 & H3 & H4 & lm & faces & H5). cbn beta.
      split; [ lia |]. split; [ exact H2 |]. split; [ exact H3 |].
      split; [ exact H4 |]. exists lm, faces.
      replace (Z.to_nat (tf_frame fr - AnchorTimeline.frame_idx st))
        with (Datatypes.S (Z.to_nat (tf_frame fr
                                     - (AnchorTimeline.frame_idx st + 1))))
        by lia.
      exact H5. }
    cbn [length]. rewrite sampled_count_S.
    destruct Hturn as [(T1 & T2 & T3) | (fr & lm & faces & -> & Hs & F1 & F2
                                         & F3 & T1 & T2 & T3)].
    + exists new. rewrite <- T1.
      split; [ exact Htl |]. split; [ exact Hshift |].
      split; [ exact Hsorted |]. split; [ lia |]. split; [ lia |].
      split; [ destruct (bool_decide _); lia |]. intros _. exact Hn.
    + exists (fr :: new).
      split; [ rewrite Htl, T1, <- app_assoc; reflexivity |].
      split.
      { constructor; [| exact Hshift ].
        split; [ lia |]. split; [ rewrite F1; exact Hs |].
        split; [ rewrite F1; exact F2 |]. split; [ exact F3 |].
        exists lm, faces. rewrite F1, Z.sub_diag. reflexivity. }
      split.
      { constructor; [ exact Hsorted |].
        eapply Forall_impl; [ exact Hall |].
        intros fr' (H1 & _). cbn beta. lia. }
      rewrite bool_decide_eq_true_2 by exact Hs. cbn [length].
      split; [ lia |]. split; [ lia |]. split; [ lia |]. intros _. exact Hn.
Qed.

Section Generator.

Variables (video : Video) (disk : Disk) (video_path output_path : string).
Variables (sample_every_n_frames target_w target_h : Z).
Variables (mouth_padding eyes_padding : Q).

(** The run of the generator these variables describe. *)
Definition the_run : M (list Effect) Timeline :=
  AnchorTimeline.generate_anchor_timeline video disk video_path output_path
    sample_every_n_frames target_w target_h mouth_padding eyes_padding.

(** Its loop, over all the frames of the video. *)
Definition the_scan {S} : M S AnchorTimeline.Scan :=
  AnchorTimeline.scan (v_frames video) (v_fps video) (v_width video)
    (v_height video) sample_every_n_frames target_w target_h mouth_padding
    eyes_padding AnchorTimeline.scan_start.

(** The document built from the state the loop ends in. *)
Definition timeline_of (st : AnchorTimeline.Scan) : Timeline :=
  {| tl_version := 1;
     source_video := PyStr.after_last "/" video_path;
     source_fps := v_fps video; source_frame_count := v_frame_count video;
     source_width := v_width video; source_height := v_height video;
     source_sample_every_n_frames := sample_every_n_frames;
     target_width := target_w; target_height := target_h;
     config_mouth_padding := mouth_padding;
     config_eyes_padding := eyes_padding;
     tl_frames := AnchorTimeline.timeline_frames st |}.

Definition summary (st : AnchorTimeline.Scan) : Effect :=
  LogProcessingComplete (AnchorTimeline.frame_idx st)
    (AnchorTimeline.detected_count st) (AnchorTimeline.skipped_count st).

(** The generator on a video that opened, by the outcome of its loop and of
    the two steps on the disk. *)
Lemma generate_opened (s : list Effect) :
  isOpened video = true -> detector_error video = None ->
  the_run s
  = match the_scan s with
    | (Raise e, _) => (Raise e, s ++ [CapRelease; DetectorClose])
    | (Ok st, _) =>
        let after := s ++ [CapRelease; DetectorClose; summary st] in
        let dir := OsPath.dirname output_path in
        if String.eqb dir EmptyString then
          match write_error disk output_path with
          | Some e => (Raise e, after)
          | None =>
              (Ok (timeline_of st),
               after ++ [JsonDump output_path (timeline_of st)])
          end
        else
          match makedirs_error disk dir with
          | Some e => (Raise e, after)
          | None =>
              match write_error disk output_path with
              | Some e => (Raise e, after ++ [MakeDirs dir])
              | None =>
                  (Ok (timeline_of st),
                   after ++ [MakeDirs dir;
                             JsonDump output_path (timeline_of st)])
              end
          end
    end.
Proof.
  intros Ho Hd. unfold the_run, AnchorTimeline.generate_anchor_timeline.
  rewrite Ho, Hd. cbn [negb]. rewrite run_bind. cbn [ret fst snd].
  rewrite run_bind. unfold try_finally.
  pose proof (still_scan (v_frames video) (v_fps video) (v_width video)
                (v_height video) sample_every_n_frames target_w target_h
                mouth_padding eyes_padding AnchorTimeline.scan_start s) as Hs.
  unfold the_scan.
  destruct (AnchorTimeline.scan _ _ _ _ _ _ _ _ _ _ s) as [[st | e] s1];
    cbn [snd] in Hs; subst s1.
  - unfold bind, AnchorTimeline.effect, ret, raise. cbv zeta.
    fold (timeline_of st). fold (summary st).
    destruct (String.eqb (OsPath.dirname output_path) EmptyString).
    + destruct (write_error disk output_path);
        rewrite <- ?app_assoc; reflexivity.
    + destruct (makedirs_error disk (OsPath.dirname output_path));
        [ rewrite <- ?app_assoc; reflexivity |].
      destruct (write_error disk output_path);
        rewrite <- ?app_assoc; reflexivity.
  - unfold bind, AnchorTimeline.effect. rewrite <- app_assoc. reflexivity.
Qed.

(** A run that returns: its loop went through, and the document is built
    from the state it ended in. *)
Lemma generate_returns_inv (s s' : list Effect) (timeline : Timeline) :
  the_run s = (Ok timeline, s') ->
  exists st rest,
    the_scan s = (Ok st, s)
    /\ timeline = timeline_of st
    /\ s' = s ++ CapRelease :: DetectorClose :: summary st :: rest.
Proof.
  intros Hrun.
  destruct (isOpened video) eqn:Ho;
    [ destruct (detector_error video) as [e |] eqn:Hd |].
  - unfold the_run, AnchorTimeline.generate_anchor_timeline in Hrun.
    rewrite Ho, Hd in Hrun. discriminate.
  - rewrite (generate_opened s Ho Hd) in Hrun.
    pose proof (still_scan (v_frames video) (v_fps video) (v_width video)
                  (v_height video) sample_every_n_frames target_w target_h
                  mouth_padding eyes_padding AnchorTimeline.scan_start s)
      as Hs.
    fold (@the_scan (list Effect)) in Hs.
    destruct (the_scan s) as [[st | e] s1]; [| discriminate ].
    cbn [snd] in Hs. subst s1. cbv zeta in Hrun.
    exists st.
    destruct (String.eqb _ _).
    + destruct (write_error disk output_path); [ discriminate |].
      injection Hrun as <- <-. eexists. split; [ reflexivity |].
      split; [ reflexivity |]. rewrite <- app_assoc. reflexivity.
    + destruct (makedirs_error disk _); [ discriminate |].
      destruct (write_error disk output_path); [ discriminate |].
      injection Hrun as <- <-. eexists. split; [ reflexivity |].
      split; [ reflexivity |]. rewrite <- app_assoc. reflexivity.
  - unfold the_run, AnchorTimeline.generate_anchor_timeline in Hrun.
    rewrite Ho in Hrun. discriminate.
Qed.

End Generator.

Lemma time_value_mono (fps : Q) (a b : Z) :
  (0 < fps)%Q -> a <= b ->
  PyFloat.trunc (time_value a fps) <= PyFloat.trunc (time_value b fps).
Proof.
  intros Hfps Hab. apply trunc_mono. unfold time_value, PyFloat.mul.
  apply b64_mono. apply Qmult_le_compat_r; [| discriminate ].
  apply b64_mono. unfold Qdiv. apply Qmult_le_compat_r.
  - apply b64_mono. rewrite <- Zle_Qle. exact Hab.
  - apply Qlt_le_weak, Qinv_lt_0_compat. exact Hfps.
Qed.

Lemma frames_sorted (l : list TimelineFrame) :
  StronglySorted (fun a b => tf_frame a < tf_frame b) l ->
  StronglySorted Z.lt (map tf_frame l).
Proof.
  induction 1 as [| a l Hs IH Hall]; cbn [map]; constructor; [ exact IH |].
  apply Forall_map. exact Hall.
Qed.

Lemma times_sorted (fps : Q) (l : list TimelineFrame) :
  (0 < fps)%Q ->
  StronglySorted (fun a b => tf_frame a < tf_frame b) l ->
  Forall (fun fr => tf_time_ms fr
                    = PyFloat.trunc (time_value (tf_frame fr) fps)) l ->
  StronglySorted Z.le (map tf_time_ms l).
Proof.
  intros Hfps Hs. induction Hs as [| a l Hs IH Hall]; intros Ht;
    cbn [map]; constructor.
  - apply IH. apply Forall_cons in Ht as [_ Ht]. exact Ht.
  - apply Forall_cons in Ht as [Ha Ht]. apply Forall_map.
    rewrite Forall_forall in Hall, Ht |- *. intros b Hb.
    rewrite Ha, (Ht b Hb). apply time_value_mono; [ exact Hfps |].
    specialize (Hall b Hb). cbn beta in Hall. lia.
Qed.

(** X21 (generate_anchor_timeline).  When the generator returns, the
    frames of its timeline carry strictly increasing frame numbers, each
    one a multiple of the sampling step and the number of a frame of the
    video on which the detector found a face; the video had no frame or the
    step is not zero; and for a positive frame rate the times never
    decrease. *)
Theorem timeline_frames_follow_the_sampling (video : Video) (disk : Disk)
  (video_path output_path : string) (n target_w target_h : Z)
  (mouth_padding eyes_padding : Q) (s s' : list Effect)
  (timeline : Timeline) :
  AnchorTimeline.generate_anchor_timeline video disk video_path output_path
    n target_w target_h mouth_padding eyes_padding s = (Ok timeline, s') ->
  StronglySorted Z.lt (map tf_frame (tl_frames timeline))
  /\ Forall (fun fr =>
               0 <= tf_frame fr < Z.of_nat (length (v_frames video))
               /\ tf_frame fr mod n = 0
               /\ exists landmarks faces,
                   v_frames video !! Z.to_nat (tf_frame fr)
                   = Some (Some (landmarks :: faces)))
            (tl_frames timeline)
  /\ (v_frames video <> [] -> n <> 0)
  /\ ((0 < v_fps video)%Q ->
      StronglySorted Z.le (map tf_time_ms (tl_frames timeline))).
Proof.
  intros Hrun.
  apply generate_returns_inv in Hrun as (st & rest & Hscan & -> & _).
  apply scan_inv in Hscan
    as (_ & new & Htl & Hall & Hsorted & _ & _ & _ & Hn).
  cbn [tl_frames timeline_of]. rewrite Htl.
  unfold AnchorTimeline.scan_start.
  cbn [AnchorTimeline.timeline_frames app].
  split; [ apply frames_sorted; exact Hsorted |].
  split.
  { eapply Forall_impl; [ exact Hall |].
    intros fr (H1 & H2 & _ & _ & lm & faces & H5). cbn beta.
    unfold AnchorTimeline.scan_start in H1, H5.
    cbn [AnchorTimeline.frame_idx] in H1, H5.
    rewrite Z.sub_0_r in H5.
    pose proof (lookup_lt_Some _ _ _ H5) as Hlt.
    split; [ lia |]. split; [ exact H2 |]. exists lm, faces. exact H5. }
  split; [ exact Hn |].
  intros Hfps. apply (times_sorted (v_fps video)); [ exact Hfps | exact Hsorted |].
  eapply Forall_impl; [ exact Hall |].
  intros fr (_ & _ & H3 & _). exact H3.
Qed.

Ltac not_among :=
  let H := fresh in
  intros H;
  repeat (apply elem_of_cons in H as [H | H]; [ discriminate H |]);
  apply elem_of_nil in H; exact H.

Ltac written_iff :=
  let H := fresh in
  intros ? ?; split;
  [ intros H;
    repeat (apply elem_of_cons in H as [H | H];
            [ first [ discriminate H
                    | injection H as -> ->; split; reflexivity ] |]);
    apply elem_of_nil in H; contradiction
  | intros [-> H];
    first [ discriminate H
          | injection H as <-;
            repeat first [ apply list_elem_of_here
                         | apply list_elem_of_further ] ] ].

Ltac effects_tac :=
  unfold summary; split; [ not_among |]; split; [ not_among | written_iff ].

(** X22 (generate_anchor_timeline).  A video that does not open is refused
    before anything is touched; when the detector fails to start, its error
    goes up and the opened capture is not released.  Once the loop is
    entered, however the run ends, the capture is released and the detector
    closed, once each and in this order, before anything else; and the
    timeline is written to the output path exactly when the run returns,
    and is then the timeline it returns. *)
Theorem video_is_released_whatever_happens (video : Video) (disk : Disk)
  (video_path output_path : string) (n target_w target_h : Z)
  (mouth_padding eyes_padding : Q) (s : list Effect) :
  if isOpened video then
    match detector_error video with
    | Some e =>
        AnchorTimeline.generate_anchor_timeline video disk video_path
          output_path n target_w target_h mouth_padding eyes_padding s
        = (Raise e, s)
    | None =>
        exists r tail,
          AnchorTimeline.generate_anchor_timeline video disk video_path
            output_path n target_w target_h mouth_padding eyes_padding s
          = (r, s ++ CapRelease :: DetectorClose :: tail)
          /\ (CapRelease ∉ tail) /\ (DetectorClose ∉ tail)
          /\ (forall p t,
                JsonDump p t ∈ tail <-> p = output_path /\ r = Ok t)
    end
  else
    AnchorTimeline.generate_anchor_timeline video disk video_path
      output_path n target_w target_h mouth_padding eyes_padding s
    = (Raise (Exception ("Failed to open video: " +:+ video_path)), s).
Proof.
  destruct (isOpened video) eqn:Ho;
    [ destruct (detector_error video) as [e |] eqn:Hd |].
  - unfold AnchorTimeline.generate_anchor_timeline. rewrite Ho, Hd.
    reflexivity.
  - pose proof (generate_opened video disk video_path output_path n target_w
                  target_h mouth_padding eyes_padding s Ho Hd) as Hrun.
    unfold the_run in Hrun. rewrite Hrun. clear Hrun.
    destruct (the_scan _ _ _ _ _ _ s) as [[st | e] s1]; cbv zeta.
    + destruct (String.eqb _ _).
      * destruct (write_error disk output_path) as [e |].
        -- eexists _, _. split; [ reflexivity |]. effects_tac.
        -- eexists _, _. split; [ rewrite <- app_assoc; reflexivity |].
           effects_tac.
      * destruct (makedirs_error disk _) as [e |].
        -- eexists _, _. split; [ reflexivity |]. effects_tac.
        -- destruct (write_error disk output_path) as [e |].
           ++ eexists _, _. split; [ rewrite <- app_assoc; reflexivity |].
              effects_tac.
           ++ eexists _, _. split; [ rewrite <- app_assoc; reflexivity |].
              effects_tac.
    + exists (Raise e), []. split; [ reflexivity |]. effects_tac.
  - unfold AnchorTimeline.generate_anchor_timeline. rewrite Ho. reflexivity.
Qed.

(** ** The summary of the loop *)

Lemma ceil_step (n start : Z) :
  0 < n ->
  (start + n) / n
  = (start + n - 1) / n + (if bool_decide (start mod n = 0) then 1 else 0).
Proof.
  intros Hn.
  pose proof (Z.div_mod start n ltac:(lia)) as Hdm.
  pose proof (Z.mod_pos_bound start n Hn) as Hr.
  assert (Hd : (start + n) / n = start / n + 1).
  { replace (start + n) with (start + 1 * n) by lia. apply Z.div_add. lia. }
  rewrite Hd.
  destruct (bool_decide_reflect (start mod n = 0)) as [H0 | H0].
  - assert (Hq : start / n = (start + n - 1) / n).
    { apply (Z.div_unique _ _ _ (n - 1)); lia. }
    lia.
  - assert (Hq : start / n + 1 = (start + n - 1) / n).
    { apply (Z.div_unique _ _ _ (start mod n - 1)); lia. }
    lia.
Qed.

(** Among [len] frames from [start] on, every [n]th one is sampled. *)
Lemma sampled_count_ceil (n : Z) (len : nat) :
  0 < n ->
  forall start,
    sampled_count n start len
    = (start + Z.of_nat len + n - 1) / n - (start + n - 1) / n.
Proof.
  intros Hn. induction len as [| len IH]; intros start.
  - unfold sampled_count. rewrite seqZ_nil by lia. cbn.
    replace (start + Z.of_nat 0 + n - 1) with (start + n - 1) by lia. lia.
  - rewrite sampled_count_S, IH.
    replace (start + 1 + Z.of_nat len + n - 1)
      with (start + Z.of_nat (S len) + n - 1) by lia.
    replace (start + 1 + n - 1) with (start + n) by lia.
    rewrite (ceil_step n start Hn). lia.
Qed.

(** X23 (generate_anchor_timeline).  When the generator returns, the
    summary it logs right after releasing the video counts every frame it
    read, counts as detected the frames of the timeline, and its detected
    and skipped frames add up to the sampled ones: for a positive step
    [n], the frames read divided by [n], rounded up. *)
Theorem summary_counts_the_sampled_frames (video : Video) (disk : Disk)
  (video_path output_path : string) (n target_w target_h : Z)
  (mouth_padding eyes_padding : Q) (s s' : list Effect)
  (timeline : Timeline) :
  AnchorTimeline.generate_anchor_timeline video disk video_path output_path
    n target_w target_h mouth_padding eyes_padding s = (Ok timeline, s') ->
  let total := Z.of_nat (length (v_frames video)) in
  let detected := Z.of_nat (length (tl_frames timeline)) in
  exists skipped rest,
    s' = s ++ CapRelease :: DetectorClose
           :: LogProcessingComplete total detected skipped :: rest
    /\ 0 <= skipped
    /\ detected + skipped = sampled_count n 0 (length (v_frames video))
    /\ (0 < n -> detected + skipped = (total + n - 1) / n).
Proof.
  intros Hrun. cbv zeta.
  apply generate_returns_inv in Hrun as (st & rest & Hscan & -> & ->).
  apply scan_inv in Hscan
    as (Hidx & new & Htl & _ & _ & Hdet & Hcount & Hskip & _).
  unfold AnchorTimeline.scan_start in *.
  cbn [AnchorTimeline.timeline_frames AnchorTimeline.frame_idx
       AnchorTimeline.detected_count AnchorTimeline.skipped_count app] in *.
  exists (AnchorTimeline.skipped_count st), rest.
  unfold summary. cbn [tl_frames timeline_of].
  rewrite Htl, Hidx, Hdet, Z.add_0_l.
  split; [ reflexivity |]. split; [ exact Hskip |].
  rewrite Hdet, !Z.add_0_l in Hcount.
  split; [ exact Hcount |].
  intros Hn. rewrite Hcount, (sampled_count_ceil n _ Hn 0).
  replace ((0 + n - 1) / n) with 0 by (symmetry; apply Z.div_small; lia).
  rewrite Z.add_0_l. apply Z.sub_0_r.
Qed.

(** ** Faces inside the picture *)

(** A face whose lips and eyes lie inside the picture. *)
Definition face_in_picture (landmarks : list Landmark) : Prop :=
  Forall (fun idx => exists lm, landmarks !! idx = Some lm /\ in_picture lm)
         (Landmarks.LIPS_LANDMARKS ++ Landmarks.EYE_LEFT_LANDMARKS
          ++ Landmarks.EYE_RIGHT_LANDMARKS).

(** An anchor box that lies inside a frame of [W] by [H]. *)
Definition inside (W H : Z) (a : anchor) : Prop :=
  exists x y w h,
    a !! "x" = Some x /\ a !! "y" = Some y /\ a !! "w" = Some w
    /\ a !! "h" = Some h
    /\ 0 <= x /\ 0 <= y /\ 0 <= w /\ 0 <= h /\ x + w <= W /\ y + h <= H.

Lemma inside_mk_anchor (W H x y w h cx cy : Z) :
  0 <= x -> 0 <= y -> 0 <= w -> 0 <= h -> x + w <= W -> y + h <= H ->
  inside W H (mk_anchor x y w h cx cy).
Proof.
  intros. destruct (mk_anchor_fields x y w h cx cy) as (Ax & Ay & Aw & Ah & _).
  exists x, y, w, h. repeat split; assumption.
Qed.

Lemma clamp_bbox_empty {S} (W H : Z) (s : S) (r : anchor) :
  Landmarks.clamp_bbox ∅ W H s <> (Ok r, s).
Proof.
  unfold Landmarks.clamp_bbox, getint, bind. rewrite lookup_empty.
  discriminate.
Qed.

Lemma mouth_anchor_clamped {S} (landmarks : list Landmark) (W H : Z)
  (padding : Q) (s : S) :
  0 <= W <= 2 ^ 31 -> 0 <= H <= 2 ^ 31 ->
  (1 <= padding)%Q -> (padding <= 1024)%Q ->
  face_in_picture landmarks ->
  exists a x y w h cx cy,
    Landmarks.extract_mouth_anchor landmarks W H padding s = (Ok (Some a), s)
    /\ a <> ∅
    /\ Landmarks.clamp_bbox a W H s = (Ok (mk_anchor x y w h cx cy), s)
    /\ 0 <= x /\ 0 <= y /\ 0 <= w /\ 0 <= h /\ x + w <= W /\ y + h <= H
    /\ 0 <= cx <= W /\ 0 <= cy <= H.
Proof.
  intros HW HH Hp1 Hp2 Hall.
  apply Forall_app in Hall as [Hlips _].
  destruct (get_landmark_coords_run landmarks _ W H s HW HH Hlips)
    as (lips & Hl1 & Hl2 & Hl3).
  destruct (clamped_box_covers lips padding W H s) as
    (a & x & y & w & h & Hbox & Hclamp & Hx & Hy & Hw & Hh & Hxw & Hyh
     & _ & Hcx & Hcy); auto.
  { intros ->. discriminate Hl2. }
  exists a, x, y, w, h, (default 0 (a !! "cx")), (default 0 (a !! "cy")).
  split.
  { unfold Landmarks.extract_mouth_anchor, try_except.
    rewrite run_bind, Hl1, Hbox. reflexivity. }
  split.
  { intros ->. exact (clamp_bbox_empty _ _ _ _ Hclamp). }
  repeat split; assumption || lia.
Qed.

Lemma eyes_anchor_clamped {S} (landmarks : list Landmark) (W H : Z)
  (padding : Q) (s : S) :
  0 <= W <= 2 ^ 31 -> 0 <= H <= 2 ^ 31 ->
  (1 <= padding)%Q -> (padding <= 1024)%Q ->
  face_in_picture landmarks ->
  exists a x y w h cx cy,
    Landmarks.extract_eyes_anchor landmarks W H padding s = (Ok (Some a), s)
    /\ a <> ∅
    /\ Landmarks.clamp_bbox a W H s = (Ok (mk_anchor x y w h cx cy), s)
    /\ 0 <= x /\ 0 <= y /\ 0 <= w /\ 0 <= h /\ x + w <= W /\ y + h <= H
    /\ 0 <= cx <= W /\ 0 <= cy <= H.
Proof.
  intros HW HH Hp1 Hp2 Hall.
  apply Forall_app in Hall as [_ Hall].
  apply Forall_app in Hall as [Hleft Hright].
  destruct (get_landmark_coords_run landmarks _ W H s HW HH Hleft)
    as (left & He1 & He2 & He3).
  destruct (get_landmark_coords_run landmarks _ W H s HW HH Hright)
    as (right & Hr1 & Hr2 & Hr3).
  destruct (clamped_box_covers (left ++ right) padding W H s) as
    (a & x & y & w & h & Hbox & Hclamp & Hx & Hy & Hw & Hh & Hxw & Hyh
     & _ & Hcx & Hcy); auto.
  { intros Hnil. apply (f_equal length) in Hnil.
    rewrite length_app, He2 in Hnil. discriminate Hnil. }
  { apply Forall_app. split; assumption. }
  exists a, x, y, w, h, (default 0 (a !! "cx")), (default 0 (a !! "cy")).
  split.
  { unfold Landmarks.extract_eyes_anchor, try_except.
    rewrite run_bind, He1, run_bind, Hr1, Hbox. reflexivity. }
  split.
  { intros ->. exact (clamp_bbox_empty _ _ _ _ Hclamp). }
  repeat split; assumption || lia.
Qed.

Section ScaleOne.
Local Open Scope Q_scope.

(** Between frames and targets of up to 2^31 pixels, the scale is the float
    1.0 only when the two are equal. *)
Lemma scale_is_one (T W : Z) :
  (0 < W <= 2 ^ 31)%Z -> (0 <= T <= 2 ^ 31)%Z ->
  Qeq_bool (PyFloat.b64 (inject_Z T / inject_Z W)) 1 = true -> T = W.
Proof.
  intros HW HT Hone. apply Qeq_bool_iff in Hone.
  assert (HWq : 1 <= inject_Z W <= 2147483648).
  { change 1 with (inject_Z 1). change 2147483648 with (inject_Z (2 ^ 31)).
    rewrite <- !Zle_Qle. lia. }
  destruct (Z.lt_trichotomy T W) as [Hlt | [Heq | Hgt]]; [| exact Heq |].
  - exfalso.
    assert (HTq : inject_Z T <= inject_Z W - 1).
    { assert (H1 : (T + 1 <= W)%Z) by lia.
      rewrite Zle_Qle, inject_Z_plus in H1. change (inject_Z 1) with 1 in H1.
      lra. }
    assert (Hq : inject_Z T / inject_Z W <= inject_Z (2 ^ 31 - 1) * PyFloat.pow2 (-31)).
    { apply Qle_shift_div_r; [ lra |].
      assert (He : inject_Z (2 ^ 31 - 1) * PyFloat.pow2 (-31)
                   == 1 - (1 # 2147483648))
        by (unfold PyFloat.pow2; vm_compute; reflexivity).
      rewrite He. lra. }
    apply b64_mono in Hq.
    rewrite (b64_exact (2 ^ 31 - 1) (-31)) in Hq by (cbn; lia).
    assert (He : inject_Z (2 ^ 31 - 1) * PyFloat.pow2 (-31)
                 == 1 - (1 # 2147483648))
      by (unfold PyFloat.pow2; vm_compute; reflexivity).
    rewrite He, Hone in Hq. lra.
  - exfalso.
    assert (HTq : inject_Z W + 1 <= inject_Z T).
    { change 1 with (inject_Z 1). rewrite <- inject_Z_plus, <- Zle_Qle. lia. }
    assert (Hq : inject_Z (2 ^ 31 + 1) * PyFloat.pow2 (-31)
                 <= inject_Z T / inject_Z W).
    { apply Qle_shift_div_l; [ lra |].
      assert (He : inject_Z (2 ^ 31 + 1) * PyFloat.pow2 (-31)
                   == 1 + (1 # 2147483648))
        by (unfold PyFloat.pow2; vm_compute; reflexivity).
      rewrite He. lra. }
    apply b64_mono in Hq.
    rewrite (b64_exact (2 ^ 31 + 1) (-31)) in Hq by (cbn; lia).
    assert (He : inject_Z (2 ^ 31 + 1) * PyFloat.pow2 (-31)
                 == 1 + (1 # 2147483648))
      by (unfold PyFloat.pow2; vm_compute; reflexivity).
    rewrite He, Hone in Hq. lra.
Qed.

(** The time of a frame, for a rate of one frame a second or more. *)
Lemma time_ms_run {S} (frame_idx : Z) (fps : Q) (s : S) :
  (0 <= frame_idx <= 2 ^ 31)%Z -> 1 <= fps ->
  exists t, AnchorTimeline.time_ms frame_idx fps s = (Ok t, s) /\ (0 <= t)%Z.
Proof.
  intros Hi Hfps.
  assert (Hiq : 0 <= inject_Z frame_idx <= 2147483648).
  { change 0 with (inject_Z 0). change 2147483648 with (inject_Z (2 ^ 31)).
    rewrite <- !Zle_Qle. lia. }
  assert (Hf : PyFloat.b64 (inject_Z frame_idx) == inject_Z frame_idx)
    by (apply b64_int; lia).
  set (f := PyFloat.b64 (inject_Z frame_idx)) in *.
  assert (Hq0 : 0 <= f / fps) by (apply Qle_shift_div_l; lra).
  assert (Hq1 : f / fps <= 2147483648).
  { apply Qle_shift_div_r; [ lra |]. nra. }
  set (seconds := PyFloat.b64 (f / fps)).
  assert (Hs0 : 0 <= seconds) by (apply b64_nonneg; exact Hq0).
  assert (Hs1 : seconds <= 2147483648).
  { unfold seconds. apply Qle_trans with (PyFloat.b64 (inject_Z (2 ^ 31))).
    - apply b64_mono. exact Hq1.
    - rewrite b64_int by (cbn; lia). apply Qle_refl. }
  set (v := PyFloat.mul seconds 1000).
  assert (Hv0 : 0 <= v) by (apply b64_nonneg; lra).
  assert (Hv1 : v <= inject_Z (2 ^ 31 * 1000)).
  { unfold v, PyFloat.mul.
    apply Qle_trans with (PyFloat.b64 (inject_Z (2 ^ 31 * 1000))).
    - apply b64_mono. change (inject_Z (2 ^ 31 * 1000)) with 2147483648000.
      lra.
    - rewrite b64_int by (cbn; lia). apply Qle_refl. }
  exists (PyFloat.trunc v). split; [| apply trunc_nonneg; exact Hv0 ].
  unfold AnchorTimeline.time_ms, float_of_int.
  rewrite (finite_int frame_idx) by lia.
  rewrite run_bind. cbn [ret fst snd]. fold f.
  destruct (Qeq_bool fps 0) eqn:Hz.
  { apply Qeq_bool_iff in Hz. lra. }
  rewrite run_bind. cbn [ret fst snd]. fold seconds. fold v.
  apply int_of_float_run.
  apply (finite_small v (2 ^ 31 * 1000)); [| lia ].
  rewrite Qabs_pos by exact Hv0. exact Hv1.
Qed.

End ScaleOne.

(** A frame of the timeline whose two anchors lie inside the target, at a
    time that is not negative. *)
Definition in_target (target_w target_h : Z) (fr : TimelineFrame) : Prop :=
  inside target_w target_h (tf_mouth fr)
  /\ inside target_w target_h (tf_eyes fr)
  /\ 0 <= tf_time_ms fr.

Section FacesInPicture.

Variables (fps : Q) (W H n target_w target_h : Z).
Variables (mouth_padding eyes_padding : Q).

Hypothesis HW : 0 < W <= 2 ^ 31.
Hypothesis HH : 0 < H <= 2 ^ 31.
Hypothesis HTw : 0 <= target_w <= 2 ^ 31.
Hypothesis HTh : 0 <= target_h <= 2 ^ 31.
Hypothesis Hmp : (1 <= mouth_padding)%Q /\ (mouth_padding <= 1024)%Q.
Hypothesis Hep : (1 <= eyes_padding)%Q /\ (eyes_padding <= 1024)%Q.
Hypothesis Hfps : (1 <= fps)%Q.
Hypothesis Hn : n <> 0.

Lemma frame_entry_run {S} (landmarks : list Landmark) (frame_idx : Z)
  (s : S) :
  face_in_picture landmarks -> 0 <= frame_idx <= 2 ^ 31 ->
  exists fr,
    AnchorTimeline.frame_entry landmarks frame_idx fps W H target_w target_h
      mouth_padding eyes_padding s = (Ok (Some fr), s)
    /\ tf_frame fr = frame_idx /\ in_target target_w target_h fr.
Proof.
  intros Hface Hidx.
  destruct (mouth_anchor_clamped landmarks W H mouth_padding s)
    as (am & mx & my & mw & mh & mcx & mcy & Hm & Hmne & Hmc & M1 & M2 & M3
        & M4 & M5 & M6 & M7 & M8);
    try tauto; try lia.
  destruct (eyes_anchor_clamped landmarks W H eyes_padding s)
    as (ae & ex & ey & ew & eh & ecx & ecy & He & Hene & Hec & E1 & E2 & E3
        & E4 & E5 & E6 & E7 & E8);
    try tauto; try lia.
  destruct (time_ms_run frame_idx fps s Hidx Hfps) as (t & Ht & Ht0).
  unfold AnchorTimeline.frame_entry.
  rewrite run_bind, Hm, run_bind, He.
  unfold AnchorTimeline.both_anchors.
  rewrite (bool_decide_eq_false_2 _ Hmne), (bool_decide_eq_false_2 _ Hene).
  cbn [orb].
  rewrite run_bind, Hmc, run_bind, Hec.
  rewrite run_bind, (truediv_run target_w W s HW HTw).
  rewrite run_bind, (truediv_run target_h H s HH HTh).
  destruct (negb (Qeq_bool (PyFloat.b64 (inject_Z target_w / inject_Z W)) 1)
            || negb (Qeq_bool (PyFloat.b64 (inject_Z target_h / inject_Z H)) 1))
    eqn:Hscale.
  - destruct (mk_anchor_fields mx my mw mh mcx mcy)
      as (Ax & Ay & Aw & Ah & Acx & Acy).
    destruct (scale_anchor_run _ mx my mw mh mcx mcy W H target_w target_h s
                HW HH HTw HTh Ax Ay Aw Ah Acx Acy)
      as (x1 & y1 & w1 & h1 & cx1 & cy1 & Hs1 & G1); try lia.
    destruct (mk_anchor_fields ex ey ew eh ecx ecy)
      as (Bx & By & Bw & Bh & Bcx & Bcy).
    destruct (scale_anchor_run _ ex ey ew eh ecx ecy W H target_w target_h s
                HW HH HTw HTh Bx By Bw Bh Bcx Bcy)
      as (x2 & y2 & w2 & h2 & cx2 & cy2 & Hs2 & G2); try lia.
    rewrite run_bind, run_bind, Hs1, run_bind, Hs2. cbn [ret fst snd].
    rewrite run_bind, Ht. cbn [ret].
    eexists. split; [ reflexivity |]. split; [ reflexivity |].
    cbn [tf_mouth tf_eyes tf_time_ms fst snd].
    split; [ apply inside_mk_anchor; lia |].
    split; [ apply inside_mk_anchor; lia | exact Ht0 ].
  - apply orb_false_iff in Hscale as [Hsx Hsy].
    apply negb_false_iff in Hsx, Hsy.
    apply (scale_is_one _ _ HW HTw) in Hsx.
    apply (scale_is_one _ _ HH HTh) in Hsy.
    rewrite run_bind. cbn [ret fst snd]. rewrite run_bind, Ht. cbn [ret].
    eexists. split; [ reflexivity |]. split; [ reflexivity |].
    cbn [tf_mouth tf_eyes tf_time_ms fst snd].
    split; [ apply inside_mk_anchor; lia |].
    split; [ apply inside_mk_anchor; lia | exact Ht0 ].
Qed.

Lemma turn_run {S} (f : Detection) (st : AnchorTimeline.Scan) (s : S) :
  (forall landmarks faces,
      f = Some (landmarks :: faces) -> face_in_picture landmarks) ->
  0 <= AnchorTimeline.frame_idx st <= 2 ^ 31 ->
  exists st' new,
    AnchorTimeline.turn f fps W H n target_w target_h mouth_padding
      eyes_padding st s = (Ok st', s)
    /\ AnchorTimeline.frame_idx st' = AnchorTimeline.frame_idx st + 1
    /\ AnchorTimeline.timeline_frames st'
       = AnchorTimeline.timeline_frames st ++ new
    /\ Forall (in_target target_w target_h) new
    /\ (forall landmarks faces,
          f = Some (landmarks :: faces) ->
          AnchorTimeline.frame_idx st mod n = 0 ->
          exists fr, fr ∈ new /\ tf_frame fr = AnchorTimeline.frame_idx st).
Proof.
  intros Hface Hidx. unfold AnchorTimeline.turn.
  rewrite run_bind.
  destruct (Z.eqb_spec n 0) as [H0 | _]; [ contradiction |].
  cbn [ret fst snd].
  destruct (Z.eqb_spec (AnchorTimeline.frame_idx st mod n) 0) as [Hs | Hs].
  - destruct f as [[| landmarks faces] |].
    + rewrite run_bind. cbn [ret fst snd].
      eexists _, []. split; [ reflexivity |]. cbn.
      split; [ reflexivity |]. split; [ rewrite app_nil_r; reflexivity |].
      split; [ constructor |]. intros lm faces [=].
    + destruct (frame_entry_run landmarks (AnchorTimeline.frame_idx st) s
                  (Hface _ _ eq_refl) Hidx) as (fr & Hrun & Hfr & Hin).
      rewrite run_bind, run_bind, Hrun. cbn [ret fst snd].
      eexists _, [fr]. split; [ reflexivity |]. cbn.
      split; [ reflexivity |]. split; [ reflexivity |].
      split; [ constructor; [ exact Hin | constructor ] |].
      intros lm faces' _ _. exists fr.
      split; [ apply list_elem_of_here | exact Hfr ].
    + rewrite run_bind. cbn [ret fst snd].
      eexists _, []. split; [ reflexivity |]. cbn.
      split; [ reflexivity |]. split; [ rewrite app_nil_r; reflexivity |].
      split; [ constructor |]. intros lm faces [=].
  - rewrite run_bind. cbn [ret fst snd].
    eexists _, []. split; [ reflexivity |]. cbn.
    split; [ reflexivity |]. split; [ rewrite app_nil_r; reflexivity |].
    split; [ constructor |]. intros lm faces _ Hmod. contradiction.
Qed.

Lemma scan_run {S} (frames : list Detection) :
  forall (st : AnchorTimeline.Scan) (s : S),
    Forall (fun f => forall landmarks faces,
                f = Some (landmarks :: faces) -> face_in_picture landmarks)
           frames ->
    0 <= AnchorTimeline.frame_idx st ->
    AnchorTimeline.frame_idx st + Z.of_nat (length frames) <= 2 ^ 31 ->
    exists st' new,
      AnchorTimeline.scan frames fps W H n target_w target_h mouth_padding
        eyes_padding st s = (Ok st', s)
      /\ AnchorTimeline.timeline_frames st'
         = AnchorTimeline.timeline_frames st ++ new
      /\ Forall (in_target target_w target_h) new
      /\ (forall (i : nat) landmarks faces,
            frames !! i = Some (Some (landmarks :: faces)) ->
            (AnchorTimeline.frame_idx st + Z.of_nat i) mod n = 0 ->
            exists fr,
              fr ∈ new
              /\ tf_frame fr = AnchorTimeline.frame_idx st + Z.of_nat i).
Proof.
  induction frames as [| f frames IH]; intros st s Hfaces Hlo Hhi;
    cbn [AnchorTimeline.scan].
  - exists st, []. split; [ reflexivity |].
    split; [ rewrite app_nil_r; reflexivity |].
    split; [ constructor |]. intros i lm faces Hi. discriminate Hi.
  - apply Forall_cons in Hfaces as [Hf Hfaces]. cbn [length] in Hhi.
    destruct (turn_run f st s Hf ltac:(lia))
      as (st1 & new1 & Hturn & Hi1 & Htl1 & Hin1 & Hhere).
    destruct (IH st1 s Hfaces ltac:(lia) ltac:(lia))
      as (st' & new & Hscan & Htl & Hin & Hthere).
    exists st', (new1 ++ new).
    rewrite run_bind, Hturn. split; [ exact Hscan |].
    split; [ rewrite Htl, Htl1, app_assoc; reflexivity |].
    split; [ apply Forall_app; split; assumption |].
    intros [| i] lm faces Hi Hmod.
    + cbn in Hi. injection Hi as ->.
      rewrite Z.add_0_r in Hmod |- *.
      destruct (Hhere lm faces eq_refl Hmod) as (fr & Hfr & Hnum).
      exists fr. split; [ apply elem_of_app; left; exact Hfr | exact Hnum ].
    + cbn in Hi.
      replace (AnchorTimeline.frame_idx st + Z.of_nat (Datatypes.S i))
        with (AnchorTimeline.frame_idx st1 + Z.of_nat i) in Hmod |- * by lia.
      destruct (Hthere i lm faces Hi Hmod) as (fr & Hfr & Hnum).
      exists fr. split; [ apply elem_of_app; right; exact Hfr | exact Hnum ].
Qed.

End FacesInPicture.

(** X24 (generate_anchor_timeline, with extract_mouth_anchor,
    extract_eyes_anchor, clamp_bbox and scale_anchor).  Suppose the video
    opened, the detector started, the video has a frame rate of 1 or more, a frame of up to 2^31 pixels a
    side and up to 2^31 frames, the step is not zero, the target is up to
    2^31 a side, the paddings are between 1 and 1024, every face the
    detector finds has its lips and eyes inside the picture, and the disk
    takes the folder and the file.  Then the generator returns; every
    sampled frame with a face is in the timeline; and in every frame of the
    timeline the mouth box and the eyes box lie inside the target, with
    sizes that are not negative, at a time that is not negative. *)
Theorem faces_in_picture_give_anchors_in_target (video : Video) (disk : Disk)
  (video_path output_path : string) (n target_w target_h : Z)
  (mouth_padding eyes_padding : Q) (s : list Effect) :
  isOpened video = true -> detector_error video = None -> n <> 0 ->
  0 < v_width video <= 2 ^ 31 -> 0 < v_height video <= 2 ^ 31 ->
  0 <= target_w <= 2 ^ 31 -> 0 <= target_h <= 2 ^ 31 ->
  (1 <= mouth_padding)%Q /\ (mouth_padding <= 1024)%Q ->
  (1 <= eyes_padding)%Q /\ (eyes_padding <= 1024)%Q ->
  (1 <= v_fps video)%Q ->
  Z.of_nat (length (v_frames video)) <= 2 ^ 31 ->
  Forall (fun f => forall landmarks faces,
              f = Some (landmarks :: faces) -> face_in_picture landmarks)
         (v_frames video) ->
  makedirs_error disk (OsPath.dirname output_path) = None ->
  write_error disk output_path = None ->
  exists timeline s',
    AnchorTimeline.generate_anchor_timeline video disk video_path output_path
      n target_w target_h mouth_padding eyes_padding s = (Ok timeline, s')
    /\ Forall (in_target target_w target_h) (tl_frames timeline)
    /\ (forall (i : nat) landmarks faces,
          v_frames video !! i = Some (Some (landmarks :: faces)) ->
          Z.of_nat i mod n = 0 ->
          exists fr, fr ∈ tl_frames timeline /\ tf_frame fr = Z.of_nat i).
Proof.
  intros Ho Hd Hn HW HH HTw HTh Hmp Hep Hfps Hlen Hfaces Hmk Hwr.
  destruct (scan_run (v_fps video) (v_width video) (v_height video) n
              target_w target_h mouth_padding eyes_padding HW HH HTw HTh Hmp
              Hep Hfps Hn (v_frames video) AnchorTimeline.scan_start s Hfaces)
    as (st & new & Hscan & Htl & Hin & Hall).
  { cbn. lia. }
  { cbn. lia. }
  pose proof (generate_opened video disk video_path output_path n target_w
                target_h mouth_padding eyes_padding s Ho Hd) as Hrun.
  unfold the_run, the_scan in Hrun. rewrite Hscan in Hrun. cbv zeta in Hrun.
  rewrite Hmk, Hwr in Hrun.
  cbn [AnchorTimeline.scan_start AnchorTimeline.timeline_frames app
       AnchorTimeline.frame_idx] in Htl, Hall.
  destruct (String.eqb _ _) in Hrun.
  - eexists _, _. split; [ exact Hrun |].
    cbn [tl_frames timeline_of]. rewrite Htl. split; [ exact Hin |].
    intros i lm faces Hi Hmod. apply (Hall i lm faces Hi).
    rewrite Z.add_0_l. exact Hmod.
  - eexists _, _. split; [ exact Hrun |].
    cbn [tl_frames timeline_of]. rewrite Htl. split; [ exact Hin |].
    intros i lm faces Hi Hmod. apply (Hall i lm faces Hi).
    rewrite Z.add_0_l. exact Hmod.
Qed.

(** ** A clip of seven frames *)

Lemma face_inside_in_picture : face_in_picture face_inside.
Proof.
  apply Forall_forall. intros idx Hidx.
  exists {| lm_x := 1 # 2; lm_y := 3 # 4 |}. split.
  - apply lookup_replicate_2.
    revert idx Hidx. apply Forall_forall.
    repeat (constructor; [ lia |]). constructor.
  - unfold in_picture. cbn. split; split; discriminate.
Qed.

(** Seven frames at 30 a second: a face on the first, an empty answer of
    the detector on the fourth, two faces on the seventh. *)
Definition clip : Video :=
  {| isOpened := true; v_fps := 30; v_frame_count := 7;
     v_width := 1080; v_height := 1920; detector_error := None;
     v_frames := [Some [face_inside]; None; None; Some []; None; None;
                  Some [face_inside; face_inside]] |}.

Definition disk_ok : Disk :=
  {| makedirs_error := fun _ => None; write_error := fun _ => None |}.

Definition clip_run : M (list Effect) Timeline :=
  AnchorTimeline.generate_anchor_timeline clip disk_ok
    "/avatars/ada/idle.webm" "/avatars/ada/anchors_timeline.json"
    3 512 640 (PyFloat.b64 (3 # 2)) (PyFloat.b64 (13 # 10)).

Lemma faces_in_picture_give_anchors_in_target_witness :
  exists timeline s',
    clip_run [] = (Ok timeline, s')
    /\ Forall (in_target 512 640) (tl_frames timeline)
    /\ (forall (i : nat) landmarks faces,
          v_frames clip !! i = Some (Some (landmarks :: faces)) ->
          Z.of_nat i mod 3 = 0 ->
          exists fr, fr ∈ tl_frames timeline /\ tf_frame fr = Z.of_nat i).
Proof.
  apply (faces_in_picture_give_anchors_in_target clip disk_ok
           "/avatars/ada/idle.webm" "/avatars/ada/anchors_timeline.json"
           3 512 640 (PyFloat.b64 (3 # 2)) (PyFloat.b64 (13 # 10)) []).
  - reflexivity.
  - reflexivity.
  - discriminate.
  - cbn. lia.
  - cbn. lia.
  - lia.
  - lia.
  - split; vm_compute; discriminate.
  - split; vm_compute; discriminate.
  - vm_compute. discriminate.
  - cbn. lia.
  - repeat (constructor;
            [ intros landmarks faces [= <- _];
              try exact face_inside_in_picture |]).
    constructor.
  - reflexivity.
  - reflexivity.
Defined.

Lemma timeline_frames_follow_the_sampling_witness :
  exists timeline s',
    clip_run [] = (Ok timeline, s')
    /\ StronglySorted Z.lt (map tf_frame (tl_frames timeline))
    /\ Forall (fun fr => 0 <= tf_frame fr < 7 /\ tf_frame fr mod 3 = 0)
              (tl_frames timeline)
    /\ StronglySorted Z.le (map tf_time_ms (tl_frames timeline)).
Proof.
  destruct (clip_run []) as [[timeline | e] s'] eqn:Hrun;
    [| exfalso; vm_compute in Hrun; discriminate Hrun ].
  exists timeline, s'. split; [ reflexivity |].
  destruct (timeline_frames_follow_the_sampling clip disk_ok
              "/avatars/ada/idle.webm" "/avatars/ada/anchors_timeline.json"
              3 512 640 (PyFloat.b64 (3 # 2)) (PyFloat.b64 (13 # 10)) []
              s' timeline Hrun) as (H1 & H2 & _ & H4).
  split; [ exact H1 |]. split.
  - eapply Forall_impl; [ exact H2 |].
    intros fr (Ha & Hb & _). split; [ exact Ha | exact Hb ].
  - apply H4. reflexivity.
Defined.

Lemma summary_counts_the_sampled_frames_witness :
  exists timeline s' skipped rest,
    clip_run [] = (Ok timeline, s')
    /\ s' = CapRelease :: DetectorClose
            :: LogProcessingComplete 7
                 (Z.of_nat (length (tl_frames timeline))) skipped :: rest
    /\ Z.of_nat (length (tl_frames timeline)) + skipped = 3.
Proof.
  destruct (clip_run []) as [[timeline | e] s'] eqn:Hrun;
    [| exfalso; vm_compute in Hrun; discriminate Hrun ].
  destruct (summary_counts_the_sampled_frames clip disk_ok
              "/avatars/ada/idle.webm" "/avatars/ada/anchors_timeline.json"
              3 512 640 (PyFloat.b64 (3 # 2)) (PyFloat.b64 (13 # 10)) []
              s' timeline Hrun) as (skipped & rest & Hs & _ & _ & Hc).
  exists timeline, s', skipped, rest. split; [ reflexivity |].
  split; [ exact Hs |]. exact (Hc ltac:(reflexivity)).
Defined.
